(** * keeg hashing library: a shallow embedding and its verified properties

    The development follows the headers of the library:
    - [endian]        : keeg/endian/conversion.hpp and keeg/common/macrohelpers.hpp
    - [BlockBuffer]   : the buffering code shared, line for line, by
                        Md5::hashCore, Sha1::hashCore, Sha256::hashCore and
                        Sha3::hashCore
    - [MerkleDamgard] : processBuffer / hashFinal of Md5, Sha1 and Sha256
    - [Md5], [Sha1], [Sha256], [Sha3], [Crc32], [Crc64], [XxHash32],
      [XxHash64]      : the algorithm classes
    - [HashAlgorithm] : the base class (computeHash over memory and streams)
    - [Adler32], [Djb2Hash32], [SDBMHash32], [BKDRHash32], [JOAATHash32],
      [JSHash32], [PJWHash32], [APHash32], [Fnv]
                      : the checksum and the byte-at-a-time hash classes
    - [Conversion]    : the byte-order conversions of conversion.hpp
    - [IO]            : keeg/io/binarywriters.hpp and binaryreaders.hpp

    Conventions.  A w-bit unsigned integer is a [Z] kept in [0, 2^w) by an
    explicit wrap-around.  A [uint8_t] in a buffer or in a digest is a
    [byte].  An array is a list, written by index with [upd]; a [size_t]
    used as an index or a length is a [nat], except where the code adds
    two values of its caller ([IO.writeBytes], [IO.readBytes]): there it
    is a [Z] that wraps at [2^64].  The host is little-endian
    (x86): every [#if __BYTE_ORDER == __BIG_ENDIAN] takes its [#else]
    branch and a word read through a cast pointer takes its low byte from
    the lowest address. *)

From Stdlib Require Import Strings.String Strings.Ascii Strings.Byte.
From Stdlib Require Import ZArith List Lia Bool Btauto.
Import ListNotations.
Local Open Scope Z_scope.

(* ------------------------------------------------------------------ *)
(** ** Bytes and arrays *)

(** The value of a [uint8_t]. *)
Definition byte_to_Z (b : byte) : Z := Z.of_N (Byte.to_N b).

(** [static_cast<uint8_t>(z)]: the low eight bits of [z]. *)
Definition Z_to_byte (z : Z) : byte :=
  match Byte.of_N (Z.to_N (z mod 256)) with
  | Some b => b
  | None => x00
  end.

(** [a[i] = v] on an array held as a list.  A write past the end is
    undefined behaviour in the source; here it leaves the array as it is. *)
Fixpoint upd {A : Type} (l : list A) (i : nat) (v : A) : list A :=
  match l, i with
  | [], _ => []
  | _ :: t, O => v :: t
  | h :: t, S i' => h :: upd t i' v
  end.

(** [*p++ = b] for every [b] of [bs], starting at index [pos]. *)
Fixpoint write_bytes (l : list byte) (pos : nat) (bs : list byte) : list byte :=
  match bs with
  | [] => l
  | b :: rest => write_bytes (upd l pos b) (S pos) rest
  end.

(** [for (; i < stop; i++) a[i] = 0], as [count = stop - i] writes. *)
Fixpoint fill_zero (l : list byte) (i count : nat) : list byte :=
  match count with
  | O => l
  | S count' => fill_zero (upd l i x00) (S i) count'
  end.

(** Wrap-around of unsigned arithmetic. *)
Definition u8  (x : Z) : Z := x mod 256.
Definition u32 (x : Z) : Z := x mod 4294967296.
Definition u64 (x : Z) : Z := x mod 18446744073709551616.

(** [~x] on [uint32_t] and [uint64_t]. *)
Definition not32 (x : Z) : Z := Z.lxor x 4294967295.
Definition not64 (x : Z) : Z := Z.lxor x 18446744073709551615.

(* ------------------------------------------------------------------ *)
(** ** keeg/endian/conversion.hpp, keeg/common/macrohelpers.hpp *)

Module endian.

(** [swap(uint32_t)], by its portable definition. *)
Definition swap32 (x : Z) : Z :=
  u32 (Z.lor (Z.lor (Z.lor (Z.shiftr x 24)
                           (Z.land (Z.shiftr x 8) 65280))
                    (Z.land (Z.shiftl x 8) 16711680))
             (Z.shiftl x 24)).

(** [swap(uint64_t)], by its portable definition: the three exchanges
    are taken of [x] itself and joined by [|]. *)
Definition swap64 (x : Z) : Z :=
  Z.lor (Z.lor (Z.lor (u64 (Z.shiftl (Z.land x 0x00000000FFFFFFFF) 32))
                      (Z.shiftr (Z.land x 0xFFFFFFFF00000000) 32))
               (Z.lor (u64 (Z.shiftl (Z.land x 0x0000FFFF0000FFFF) 16))
                      (Z.shiftr (Z.land x 0xFFFF0000FFFF0000) 16)))
        (Z.lor (u64 (Z.shiftl (Z.land x 0x00FF00FF00FF00FF) 8))
               (Z.shiftr (Z.land x 0xFF00FF00FF00FF00) 8)).

(** [rotateLeft(uint32_t x, uint8_t numBits)]:
    [numBits &= 31; (x << numBits) | (x >> ((-numBits) & 31))]. *)
Definition rotateLeft32 (x numBits : Z) : Z :=
  let n := Z.land numBits 31 in
  u32 (Z.lor (Z.shiftl x n) (Z.shiftr x (Z.land (- n) 31))).

Definition rotateLeft64 (x numBits : Z) : Z :=
  let n := Z.land numBits 63 in
  u64 (Z.lor (Z.shiftl x n) (Z.shiftr x (Z.land (- n) 63))).

Definition rotateRight32 (x numBits : Z) : Z :=
  let n := Z.land numBits 31 in
  u32 (Z.lor (Z.shiftr x n) (Z.shiftl x (Z.land (- n) 31))).

(** The bytes of an [n]-byte word as they lie in memory, lowest address
    first: what [reinterpret_cast<uint8_t*>(&x)] sees on this host. *)
Fixpoint native_bytes (n : nat) (x : Z) : list byte :=
  match n with
  | O => []
  | S n' => Z_to_byte x :: native_bytes n' (Z.shiftr x 8)
  end.

(** The word read through [reinterpret_cast<const uintN_t*>(p)] from the
    bytes at [p], lowest address first. *)
Fixpoint native_word (bs : list byte) : Z :=
  match bs with
  | [] => 0
  | b :: rest => Z.lor (byte_to_Z b) (Z.shiftl (native_word rest) 8)
  end.

(** [GET32BITS(p)], [GET64BITS(p)] and [((const uintN_t* )p)[i]]. *)
Definition GET32BITS (p : list byte) : Z := native_word (firstn 4 p).
Definition GET64BITS (p : list byte) : Z := native_word (firstn 8 p).
Definition word32_at (p : list byte) (i : nat) : Z := GET32BITS (skipn (4 * i) p).
Definition word64_at (p : list byte) (i : nat) : Z := GET64BITS (skipn (8 * i) p).

(** [native_to_big(x)] forwards to [boost::endian::native_to_big], which
    is not part of this library: on the little-endian host it returns the
    word whose bytes in memory are those of [x] in reverse order. *)
Definition native_to_big32 (x : Z) : Z := native_word (rev (native_bytes 4 x)).
Definition native_to_big64 (x : Z) : Z := native_word (rev (native_bytes 8 x)).

(** Most-significant byte first and least-significant byte first
    renderings of an [n]-byte word; the reference for digest byte order. *)
Definition big_endian_bytes (n : nat) (x : Z) : list byte := rev (native_bytes n x).
Definition little_endian_bytes (n : nat) (x : Z) : list byte := native_bytes n x.

End endian.


(* ------------------------------------------------------------------ *)
(** ** The block buffer shared by Md5, Sha1, Sha256 and Sha3

    The four classes declare the same members

      uint64_t m_numBytes; size_t m_bufferSize; uint8_t m_buffer[...];
      uintN_t m_hash[...];

    and their [hashCore] bodies are identical up to the name of the block
    size ([BLOCK_SIZE], or the member [m_blockSize] in Sha3).  The body is
    embedded once, over the block size and the compression function. *)

Module BlockBuffer.

Record state (R : Type) : Type := mkState {
  m_numBytes : Z;          (* uint64_t: size of processed data in bytes *)
  m_bufferSize : nat;      (* size_t: valid bytes in m_buffer *)
  m_buffer : list byte;    (* bytes not processed yet *)
  m_hash : R               (* hash, stored as integers *)
}.
Arguments mkState {R}.
Arguments m_numBytes {R}.
Arguments m_bufferSize {R}.
Arguments m_buffer {R}.
Arguments m_hash {R}.

Section HashCore.
Context {R : Type}.
Variable BLOCK_SIZE : nat.
Variable processBlock : list byte -> R -> R.

(** [m_buffer[m_bufferSize++] = b] *)
Definition push (st : state R) (b : byte) : state R :=
  mkState (m_numBytes st) (S (m_bufferSize st))
          (upd (m_buffer st) (m_bufferSize st) b) (m_hash st).

(** [while (numBytes > 0 && m_bufferSize < BLOCK_SIZE)
       { m_buffer[m_bufferSize++] = *current++; numBytes--; }]
    returning the state and the input not yet consumed. *)
Fixpoint fillBuffer (st : state R) (data : list byte) : state R * list byte :=
  match data with
  | [] => (st, [])
  | b :: rest =>
      if (m_bufferSize st <? BLOCK_SIZE)%nat
      then fillBuffer (push st b) rest
      else (st, data)
  end.

(** [if (m_bufferSize == BLOCK_SIZE)
       { processBlock(m_buffer); m_numBytes += BLOCK_SIZE; m_bufferSize = 0; }] *)
Definition flushFull (st : state R) : state R :=
  if (m_bufferSize st =? BLOCK_SIZE)%nat
  then mkState (u64 (m_numBytes st + Z.of_nat BLOCK_SIZE)) 0
               (m_buffer st)
               (processBlock (firstn BLOCK_SIZE (m_buffer st)) (m_hash st))
  else st.

(** [while (numBytes >= BLOCK_SIZE)
       { processBlock(current); current += BLOCK_SIZE;
         m_numBytes += BLOCK_SIZE; numBytes -= BLOCK_SIZE; }]
    The loop runs at most [length data] times; [fuel] bounds it. *)
Fixpoint fullBlocks (fuel : nat) (st : state R) (data : list byte)
  : state R * list byte :=
  match fuel with
  | O => (st, data)
  | S fuel' =>
      if (BLOCK_SIZE <=? length data)%nat
      then fullBlocks fuel'
             (mkState (u64 (m_numBytes st + Z.of_nat BLOCK_SIZE))
                      (m_bufferSize st) (m_buffer st)
                      (processBlock (firstn BLOCK_SIZE data) (m_hash st)))
             (skipn BLOCK_SIZE data)
      else (st, data)
  end.

(** [while (numBytes > 0) { m_buffer[m_bufferSize++] = *current++; numBytes--; }] *)
Fixpoint keepRemaining (st : state R) (data : list byte) : state R :=
  match data with
  | [] => st
  | b :: rest => keepRemaining (push st b) rest
  end.

(** [hashCore(data, dataLength, startIndex)]; [data] is the byte range
    [data + startIndex, data + startIndex + dataLength). *)
Definition hashCore (st : state R) (data : list byte) : state R :=
  let '(st1, rest1) :=
    if (0 <? m_bufferSize st)%nat then fillBuffer st data else (st, data) in
  let st2 := flushFull st1 in
  match rest1 with
  | [] => st2                                   (* no more data ? *)
  | _ :: _ =>
      let '(st3, rest3) := fullBlocks (length rest1) st2 rest1 in
      keepRemaining st3 rest3
  end.

End HashCore.

End BlockBuffer.

(* ------------------------------------------------------------------ *)
(** ** processBuffer and hashFinal of Md5, Sha1 and Sha256

    The three [processBuffer] bodies differ only in the eight stores of
    the message length, the three [hashFinal] bodies only in how the
    registers are copied into the result. *)

Module MerkleDamgard.
Import BlockBuffer.

(** split into 64 byte blocks (=> 512 bits) *)
Definition BLOCK_SIZE : nat := 64.

(** The stores [*addLength++ = msgBits & 0xFF; msgBits >>= 8; ...] of
    Md5::processBuffer ("must be little endian"). *)
Definition lengthLittleEndian (msgBits : Z) : list byte :=
  let b0 := Z_to_byte (Z.land msgBits 255) in let msgBits := Z.shiftr msgBits 8 in
  let b1 := Z_to_byte (Z.land msgBits 255) in let msgBits := Z.shiftr msgBits 8 in
  let b2 := Z_to_byte (Z.land msgBits 255) in let msgBits := Z.shiftr msgBits 8 in
  let b3 := Z_to_byte (Z.land msgBits 255) in let msgBits := Z.shiftr msgBits 8 in
  let b4 := Z_to_byte (Z.land msgBits 255) in let msgBits := Z.shiftr msgBits 8 in
  let b5 := Z_to_byte (Z.land msgBits 255) in let msgBits := Z.shiftr msgBits 8 in
  let b6 := Z_to_byte (Z.land msgBits 255) in let msgBits := Z.shiftr msgBits 8 in
  let b7 := Z_to_byte (Z.land msgBits 255) in
  [b0; b1; b2; b3; b4; b5; b6; b7].

(** The stores [*addLength++ = (msgBits >> 56) & 0xFF; ...] of
    Sha1::processBuffer and Sha256::processBuffer ("must be big endian"). *)
Definition lengthBigEndian (msgBits : Z) : list byte :=
  [ Z_to_byte (Z.land (Z.shiftr msgBits 56) 255);
    Z_to_byte (Z.land (Z.shiftr msgBits 48) 255);
    Z_to_byte (Z.land (Z.shiftr msgBits 40) 255);
    Z_to_byte (Z.land (Z.shiftr msgBits 32) 255);
    Z_to_byte (Z.land (Z.shiftr msgBits 24) 255);
    Z_to_byte (Z.land (Z.shiftr msgBits 16) 255);
    Z_to_byte (Z.land (Z.shiftr msgBits  8) 255);
    Z_to_byte (Z.land  msgBits              255) ].

(** [paddedLength] as computed at the top of processBuffer, in bytes. *)
Definition paddedLength (bufferSize : nat) : nat :=
  let paddedLength := (bufferSize * 8)%nat in
  let paddedLength := S paddedLength in
  let lower11Bits := Nat.land paddedLength 511 in
  let paddedLength :=
    if (lower11Bits <=? 448)%nat
    then (paddedLength + (448 - lower11Bits))%nat
    else (paddedLength + (512 + 448 - lower11Bits))%nat in
  (paddedLength / 8)%nat.

Section Finalize.
Context {R : Type}.
Variable processBlock : list byte -> R -> R.
Variable lengthBytes : Z -> list byte.
Variable render : R -> list byte.

(** processBuffer; [extra] is the local array [uint8_t extra[BLOCK_SIZE]]
    with whatever bytes it holds on entry. *)
Definition processBuffer_with (extra : list byte) (st : state R) : state R :=
  let n := m_bufferSize st in
  let padded := paddedLength n in
  (* append a "1" bit, 128 => binary 10000000 *)
  let '(buf1, extra1) :=
    if (n <? BLOCK_SIZE)%nat
    then (upd (m_buffer st) n x80, extra)
    else (m_buffer st, upd extra 0 x80) in
  (* for (i = m_bufferSize + 1; i < BLOCK_SIZE; i++) m_buffer[i] = 0; *)
  let buf2 := fill_zero buf1 (S n) (BLOCK_SIZE - S n) in
  let i := Nat.max (S n) BLOCK_SIZE in
  (* for (; i < paddedLength; i++) extra[i - BLOCK_SIZE] = 0; *)
  let extra2 := fill_zero extra1 (i - BLOCK_SIZE) (padded - i) in
  (* add message length in bits as 64 bit number *)
  let msgBits := u64 (8 * (m_numBytes st + Z.of_nat n)) in
  let '(buf3, extra3) :=
    if (padded <? BLOCK_SIZE)%nat
    then (write_bytes buf2 padded (lengthBytes msgBits), extra2)
    else (buf2, write_bytes extra2 (padded - BLOCK_SIZE) (lengthBytes msgBits)) in
  (* process blocks *)
  let h1 := processBlock (firstn BLOCK_SIZE buf3) (m_hash st) in
  (* flowed over into a second block ? *)
  let h2 := if (BLOCK_SIZE <? padded)%nat then processBlock extra3 h1 else h1 in
  mkState (m_numBytes st) n buf3 h2.

Definition processBuffer (st : state R) : state R :=
  processBuffer_with (repeat x00 BLOCK_SIZE) st.

(** hashFinal: save the registers, processBuffer, copy the registers into
    the result, restore the registers.  Returns the object after the call
    and the digest. *)
Definition hashFinal (st : state R) : state R * list byte :=
  let oldHash := m_hash st in
  let st1 := processBuffer st in
  let v := render (m_hash st1) in
  (mkState (m_numBytes st1) (m_bufferSize st1) (m_buffer st1) oldHash, v).

End Finalize.

End MerkleDamgard.

(* ------------------------------------------------------------------ *)
(** ** keeg/hashing/cryptographic/md5.hpp *)

Module Md5.
Import endian.

Definition m_hashSize : nat := 8 * 16.
Definition BLOCK_SIZE : nat := 512 / 8.
Definition NUM_HASH_VALUES : nat := 16 / 4.

(** [uint32_t m_hash[NUM_HASH_VALUES]] *)
Definition regs : Type := (Z * Z * Z * Z)%type.
Definition state : Type := BlockBuffer.state regs.

Definition f1 (b c d : Z) : Z := Z.lxor d (Z.land b (Z.lxor c d)).
Definition f2 (b c d : Z) : Z := Z.lxor c (Z.land d (Z.lxor b c)).
Definition f3 (b c d : Z) : Z := Z.lxor (Z.lxor b c) d.
Definition f4 (b c d : Z) : Z := Z.lxor c (Z.lor b (not32 d)).

Definition hashSize (st : state) : nat := m_hashSize.

Definition initialize (st : state) : state :=
  BlockBuffer.mkState 0 0 (BlockBuffer.m_buffer st)
    (0x67452301, 0xefcdab89, 0x98badcfe, 0x10325476).

(** computations are little endian, swap data if necessary *)
Definition LITTLEENDIAN (x : Z) : Z := x.

Definition processBlock (data : list byte) (m_hash : regs) : regs :=
  let '(h0, h1, h2, h3) := m_hash in
  (* get last hash *)
  let a := h0 in
  let b := h1 in
  let c := h2 in
  let d := h3 in
  (* data represented as 16x 32-bit words *)
  let words := word32_at data in
  (* first round *)
  let word0 := LITTLEENDIAN (words 0%nat) in
  let a := u32 (rotateLeft32 (u32 (a + f1 b c d + word0 + 0xd76aa478)) 7 + b) in
  let word1 := LITTLEENDIAN (words 1%nat) in
  let d := u32 (rotateLeft32 (u32 (d + f1 a b c + word1 + 0xe8c7b756)) 12 + a) in
  let word2 := LITTLEENDIAN (words 2%nat) in
  let c := u32 (rotateLeft32 (u32 (c + f1 d a b + word2 + 0x242070db)) 17 + d) in
  let word3 := LITTLEENDIAN (words 3%nat) in
  let b := u32 (rotateLeft32 (u32 (b + f1 c d a + word3 + 0xc1bdceee)) 22 + c) in
  let word4 := LITTLEENDIAN (words 4%nat) in
  let a := u32 (rotateLeft32 (u32 (a + f1 b c d + word4 + 0xf57c0faf)) 7 + b) in
  let word5 := LITTLEENDIAN (words 5%nat) in
  let d := u32 (rotateLeft32 (u32 (d + f1 a b c + word5 + 0x4787c62a)) 12 + a) in
  let word6 := LITTLEENDIAN (words 6%nat) in
  let c := u32 (rotateLeft32 (u32 (c + f1 d a b + word6 + 0xa8304613)) 17 + d) in
  let word7 := LITTLEENDIAN (words 7%nat) in
  let b := u32 (rotateLeft32 (u32 (b + f1 c d a + word7 + 0xfd469501)) 22 + c) in
  let word8 := LITTLEENDIAN (words 8%nat) in
  let a := u32 (rotateLeft32 (u32 (a + f1 b c d + word8 + 0x698098d8)) 7 + b) in
  let word9 := LITTLEENDIAN (words 9%nat) in
  let d := u32 (rotateLeft32 (u32 (d + f1 a b c + word9 + 0x8b44f7af)) 12 + a) in
  let word10 := LITTLEENDIAN (words 10%nat) in
  let c := u32 (rotateLeft32 (u32 (c + f1 d a b + word10 + 0xffff5bb1)) 17 + d) in
  let word11 := LITTLEENDIAN (words 11%nat) in
  let b := u32 (rotateLeft32 (u32 (b + f1 c d a + word11 + 0x895cd7be)) 22 + c) in
  let word12 := LITTLEENDIAN (words 12%nat) in
  let a := u32 (rotateLeft32 (u32 (a + f1 b c d + word12 + 0x6b901122)) 7 + b) in
  let word13 := LITTLEENDIAN (words 13%nat) in
  let d := u32 (rotateLeft32 (u32 (d + f1 a b c + word13 + 0xfd987193)) 12 + a) in
  let word14 := LITTLEENDIAN (words 14%nat) in
  let c := u32 (rotateLeft32 (u32 (c + f1 d a b + word14 + 0xa679438e)) 17 + d) in
  let word15 := LITTLEENDIAN (words 15%nat) in
  let b := u32 (rotateLeft32 (u32 (b + f1 c d a + word15 + 0x49b40821)) 22 + c) in
  (* second round *)
  let a := u32 (rotateLeft32 (u32 (a + f2 b c d + word1 + 0xf61e2562)) 5 + b) in
  let d := u32 (rotateLeft32 (u32 (d + f2 a b c + word6 + 0xc040b340)) 9 + a) in
  let c := u32 (rotateLeft32 (u32 (c + f2 d a b + word11 + 0x265e5a51)) 14 + d) in
  let b := u32 (rotateLeft32 (u32 (b + f2 c d a + word0 + 0xe9b6c7aa)) 20 + c) in
  let a := u32 (rotateLeft32 (u32 (a + f2 b c d + word5 + 0xd62f105d)) 5 + b) in
  let d := u32 (rotateLeft32 (u32 (d + f2 a b c + word10 + 0x02441453)) 9 + a) in
  let c := u32 (rotateLeft32 (u32 (c + f2 d a b + word15 + 0xd8a1e681)) 14 + d) in
  let b := u32 (rotateLeft32 (u32 (b + f2 c d a + word4 + 0xe7d3fbc8)) 20 + c) in
  let a := u32 (rotateLeft32 (u32 (a + f2 b c d + word9 + 0x21e1cde6)) 5 + b) in
  let d := u32 (rotateLeft32 (u32 (d + f2 a b c + word14 + 0xc33707d6)) 9 + a) in
  let c := u32 (rotateLeft32 (u32 (c + f2 d a b + word3 + 0xf4d50d87)) 14 + d) in
  let b := u32 (rotateLeft32 (u32 (b + f2 c d a + word8 + 0x455a14ed)) 20 + c) in
  let a := u32 (rotateLeft32 (u32 (a + f2 b c d + word13 + 0xa9e3e905)) 5 + b) in
  let d := u32 (rotateLeft32 (u32 (d + f2 a b c + word2 + 0xfcefa3f8)) 9 + a) in
  let c := u32 (rotateLeft32 (u32 (c + f2 d a b + word7 + 0x676f02d9)) 14 + d) in
  let b := u32 (rotateLeft32 (u32 (b + f2 c d a + word12 + 0x8d2a4c8a)) 20 + c) in
  (* third round *)
  let a := u32 (rotateLeft32 (u32 (a + f3 b c d + word5 + 0xfffa3942)) 4 + b) in
  let d := u32 (rotateLeft32 (u32 (d + f3 a b c + word8 + 0x8771f681)) 11 + a) in
  let c := u32 (rotateLeft32 (u32 (c + f3 d a b + word11 + 0x6d9d6122)) 16 + d) in
  let b := u32 (rotateLeft32 (u32 (b + f3 c d a + word14 + 0xfde5380c)) 23 + c) in
  let a := u32 (rotateLeft32 (u32 (a + f3 b c d + word1 + 0xa4beea44)) 4 + b) in
  let d := u32 (rotateLeft32 (u32 (d + f3 a b c + word4 + 0x4bdecfa9)) 11 + a) in
  let c := u32 (rotateLeft32 (u32 (c + f3 d a b + word7 + 0xf6bb4b60)) 16 + d) in
  let b := u32 (rotateLeft32 (u32 (b + f3 c d a + word10 + 0xbebfbc70)) 23 + c) in
  let a := u32 (rotateLeft32 (u32 (a + f3 b c d + word13 + 0x289b7ec6)) 4 + b) in
  let d := u32 (rotateLeft32 (u32 (d + f3 a b c + word0 + 0xeaa127fa)) 11 + a) in
  let c := u32 (rotateLeft32 (u32 (c + f3 d a b + word3 + 0xd4ef3085)) 16 + d) in
  let b := u32 (rotateLeft32 (u32 (b + f3 c d a + word6 + 0x04881d05)) 23 + c) in
  let a := u32 (rotateLeft32 (u32 (a + f3 b c d + word9 + 0xd9d4d039)) 4 + b) in
  let d := u32 (rotateLeft32 (u32 (d + f3 a b c + word12 + 0xe6db99e5)) 11 + a) in
  let c := u32 (rotateLeft32 (u32 (c + f3 d a b + word15 + 0x1fa27cf8)) 16 + d) in
  let b := u32 (rotateLeft32 (u32 (b + f3 c d a + word2 + 0xc4ac5665)) 23 + c) in
  (* fourth round *)
  let a := u32 (rotateLeft32 (u32 (a + f4 b c d + word0 + 0xf4292244)) 6 + b) in
  let d := u32 (rotateLeft32 (u32 (d + f4 a b c + word7 + 0x432aff97)) 10 + a) in
  let c := u32 (rotateLeft32 (u32 (c + f4 d a b + word14 + 0xab9423a7)) 15 + d) in
  let b := u32 (rotateLeft32 (u32 (b + f4 c d a + word5 + 0xfc93a039)) 21 + c) in
  let a := u32 (rotateLeft32 (u32 (a + f4 b c d + word12 + 0x655b59c3)) 6 + b) in
  let d := u32 (rotateLeft32 (u32 (d + f4 a b c + word3 + 0x8f0ccc92)) 10 + a) in
  let c := u32 (rotateLeft32 (u32 (c + f4 d a b + word10 + 0xffeff47d)) 15 + d) in
  let b := u32 (rotateLeft32 (u32 (b + f4 c d a + word1 + 0x85845dd1)) 21 + c) in
  let a := u32 (rotateLeft32 (u32 (a + f4 b c d + word8 + 0x6fa87e4f)) 6 + b) in
  let d := u32 (rotateLeft32 (u32 (d + f4 a b c + word15 + 0xfe2ce6e0)) 10 + a) in
  let c := u32 (rotateLeft32 (u32 (c + f4 d a b + word6 + 0xa3014314)) 15 + d) in
  let b := u32 (rotateLeft32 (u32 (b + f4 c d a + word13 + 0x4e0811a1)) 21 + c) in
  let a := u32 (rotateLeft32 (u32 (a + f4 b c d + word4 + 0xf7537e82)) 6 + b) in
  let d := u32 (rotateLeft32 (u32 (d + f4 a b c + word11 + 0xbd3af235)) 10 + a) in
  let c := u32 (rotateLeft32 (u32 (c + f4 d a b + word2 + 0x2ad7d2bb)) 15 + d) in
  let b := u32 (rotateLeft32 (u32 (b + f4 c d a + word9 + 0xeb86d391)) 21 + c) in
  (* update hash *)
  (u32 (h0 + a), u32 (h1 + b), u32 (h2 + c), u32 (h3 + d)).

(** [std::vector<uint8_t> v(bytes, bytes + m_hashSize/8)] with
    [bytes = reinterpret_cast<const uint8_t*>(&m_hash[0])]. *)
Definition render (m_hash : regs) : list byte :=
  let '(h0, h1, h2, h3) := m_hash in
  firstn (m_hashSize / 8)
    (native_bytes 4 h0 ++ native_bytes 4 h1 ++ native_bytes 4 h2 ++ native_bytes 4 h3).

Definition hashCore : state -> list byte -> state :=
  BlockBuffer.hashCore BLOCK_SIZE processBlock.

Definition processBuffer : state -> state :=
  MerkleDamgard.processBuffer processBlock MerkleDamgard.lengthLittleEndian.

Definition hashFinal : state -> state * list byte :=
  MerkleDamgard.hashFinal processBlock MerkleDamgard.lengthLittleEndian render.

End Md5.

(* ------------------------------------------------------------------ *)
(** ** keeg/hashing/cryptographic/sha1.hpp *)

Module Sha1.
Import endian.

Definition m_hashSize : nat := 8 * 20.
Definition BLOCK_SIZE : nat := 512 / 8.
Definition NUM_HASH_VALUES : nat := 20 / 4.

(** [uint32_t m_hash[NUM_HASH_VALUES]] *)
Definition regs : Type := (Z * Z * Z * Z * Z)%type.
Definition state : Type := BlockBuffer.state regs.

(** mix functions for processBlock() *)
Definition f1 (b c d : Z) : Z := Z.lxor d (Z.land b (Z.lxor c d)).
Definition f2 (b c d : Z) : Z := Z.lxor (Z.lxor b c) d.
Definition f3 (b c d : Z) : Z := Z.lor (Z.lor (Z.land b c) (Z.land b d)) (Z.land c d).

Definition hashSize (st : state) : nat := m_hashSize.

Definition initialize (st : state) : state :=
  BlockBuffer.mkState 0 0 (BlockBuffer.m_buffer st)
    (0x67452301, 0xefcdab89, 0x98badcfe, 0x10325476, 0xc3d2e1f0).

(** [for (int i = 16; i < 80; i++)
       words[i] = rotateLeft(words[i-3] ^ words[i-8] ^ words[i-14] ^ words[i-16], 1);]
    appending [count] words to the [words] computed so far. *)
Fixpoint extend (words : list Z) (count : nat) : list Z :=
  match count with
  | O => words
  | S count' =>
      let i := length words in
      let w k := nth (i - k) words 0 in
      let wi := rotateLeft32
                  (Z.lxor (Z.lxor (Z.lxor (w 3%nat) (w 8%nat)) (w 14%nat)) (w 16%nat)) 1 in
      extend (words ++ [wi]) count'
  end.

(** The body of one of the four round loops, for mix function [f],
    round constant [k] and loop counter [i]. *)
Definition round (f : Z -> Z -> Z -> Z) (k : Z) (words : list Z)
  (v : regs) (i : nat) : regs :=
  let '(a, b, c, d, e) := v in
  let offset := (5 * i)%nat in
  let e := u32 (e + (rotateLeft32 a 5 + f b c d + nth offset words 0 + k)) in
  let b := rotateLeft32 b 30 in
  let d := u32 (d + (rotateLeft32 e 5 + f a b c + nth (offset + 1) words 0 + k)) in
  let a := rotateLeft32 a 30 in
  let c := u32 (c + (rotateLeft32 d 5 + f e a b + nth (offset + 2) words 0 + k)) in
  let e := rotateLeft32 e 30 in
  let b := u32 (b + (rotateLeft32 c 5 + f d e a + nth (offset + 3) words 0 + k)) in
  let d := rotateLeft32 d 30 in
  let a := u32 (a + (rotateLeft32 b 5 + f c d e + nth (offset + 4) words 0 + k)) in
  let c := rotateLeft32 c 30 in
  (a, b, c, d, e).

Definition processBlock (data : list byte) (m_hash : regs) : regs :=
  let '(h0, h1, h2, h3, h4) := m_hash in
  (* convert to big endian *)
  let words := map (fun i => swap32 (word32_at data i)) (seq 0 16) in
  (* extend to 80 words *)
  let words := extend words (80 - 16) in
  (* first round *)
  let v := fold_left (round f1 0x5a827999 words) (seq 0 4) (h0, h1, h2, h3, h4) in
  (* second round *)
  let v := fold_left (round f2 0x6ed9eba1 words) (seq 4 4) v in
  (* third round *)
  let v := fold_left (round f3 0x8f1bbcdc words) (seq 8 4) v in
  (* fourth round *)
  let v := fold_left (round f2 0xca62c1d6 words) (seq 12 4) v in
  (* update hash *)
  let '(a, b, c, d, e) := v in
  (u32 (h0 + a), u32 (h1 + b), u32 (h2 + c), u32 (h3 + d), u32 (h4 + e)).

(** The four [v.insert] calls of hashFinal for one register. *)
Definition insert4 (h : Z) : list byte :=
  [ Z_to_byte (Z.land (Z.shiftr h 24) 255);
    Z_to_byte (Z.land (Z.shiftr h 16) 255);
    Z_to_byte (Z.land (Z.shiftr h  8) 255);
    Z_to_byte (Z.land  h              255) ].

Definition render (m_hash : regs) : list byte :=
  let '(h0, h1, h2, h3, h4) := m_hash in
  insert4 h0 ++ insert4 h1 ++ insert4 h2 ++ insert4 h3 ++ insert4 h4.

Definition hashCore : state -> list byte -> state :=
  BlockBuffer.hashCore BLOCK_SIZE processBlock.

Definition processBuffer : state -> state :=
  MerkleDamgard.processBuffer processBlock MerkleDamgard.lengthBigEndian.

Definition hashFinal : state -> state * list byte :=
  MerkleDamgard.hashFinal processBlock MerkleDamgard.lengthBigEndian render.

End Sha1.

(* ------------------------------------------------------------------ *)
(** ** keeg/hashing/cryptographic/sha256.hpp *)

Module Sha256.
Import endian.

Definition m_hashSize : nat := 8 * 32.
Definition BLOCK_SIZE : nat := 512 / 8.
Definition NUM_HASH_VALUES : nat := 32 / 4.

(** [uint32_t m_hash[NUM_HASH_VALUES]] *)
Definition regs : Type := (Z * Z * Z * Z * Z * Z * Z * Z)%type.
Definition state : Type := BlockBuffer.state regs.

Definition f1 (e f g : Z) : Z :=
  let term1 := Z.lxor (Z.lxor (rotateRight32 e 6) (rotateRight32 e 11)) (rotateRight32 e 25) in
  let term2 := Z.lxor (Z.land e f) (Z.land (not32 e) g) in
  u32 (term1 + term2).

Definition f2 (a b c : Z) : Z :=
  let term1 := Z.lxor (Z.lxor (rotateRight32 a 2) (rotateRight32 a 13)) (rotateRight32 a 22) in
  let term2 := Z.lor (Z.land (Z.lor a b) c) (Z.land a b) in
  u32 (term1 + term2).

Definition hashSize (st : state) : nat := m_hashSize.

Definition initialize (st : state) : state :=
  BlockBuffer.mkState 0 0 (BlockBuffer.m_buffer st)
    (0x6a09e667, 0xbb67ae85, 0x3c6ef372, 0xa54ff53a,
     0x510e527f, 0x9b05688c, 0x1f83d9ab, 0x5be0cd19).

(** One pass of [for (; i < stop; i++) words[i] = words[i-16] + ... ],
    appending [count] words to the [words] computed so far. *)
Fixpoint extend (words : list Z) (count : nat) : list Z :=
  match count with
  | O => words
  | S count' =>
      let i := length words in
      let w k := nth (i - k) words 0 in
      let wi := u32 (w 16%nat
                  + Z.lxor (Z.lxor (rotateRight32 (w 15%nat) 7) (rotateRight32 (w 15%nat) 18))
                           (Z.shiftr (w 15%nat) 3)
                  + w 7%nat
                  + Z.lxor (Z.lxor (rotateRight32 (w 2%nat) 17) (rotateRight32 (w 2%nat) 19))
                           (Z.shiftr (w 2%nat) 10)) in
      extend (words ++ [wi]) count'
  end.

Definition processBlock (data : list byte) (m_hash : regs) : regs :=
  let '(h0, h1, h2, h3, h4, h5, h6, h7) := m_hash in
  (* get last hash *)
  let a := h0 in
  let b := h1 in
  let c := h2 in
  let d := h3 in
  let e := h4 in
  let f := h5 in
  let g := h6 in
  let h := h7 in
  (* convert to big endian *)
  let words := map (fun i => swap32 (word32_at data i)) (seq 0 16) in
  (* first round *)
  let x := u32 (h + f1 e f g + 0x428a2f98 + nth 0 words 0) in let y := f2 a b c in let d := u32 (d + x) in let h := u32 (x + y) in
  let x := u32 (g + f1 d e f + 0x71374491 + nth 1 words 0) in let y := f2 h a b in let c := u32 (c + x) in let g := u32 (x + y) in
  let x := u32 (f + f1 c d e + 0xb5c0fbcf + nth 2 words 0) in let y := f2 g h a in let b := u32 (b + x) in let f := u32 (x + y) in
  let x := u32 (e + f1 b c d + 0xe9b5dba5 + nth 3 words 0) in let y := f2 f g h in let a := u32 (a + x) in let e := u32 (x + y) in
  let x := u32 (d + f1 a b c + 0x3956c25b + nth 4 words 0) in let y := f2 e f g in let h := u32 (h + x) in let d := u32 (x + y) in
  let x := u32 (c + f1 h a b + 0x59f111f1 + nth 5 words 0) in let y := f2 d e f in let g := u32 (g + x) in let c := u32 (x + y) in
  let x := u32 (b + f1 g h a + 0x923f82a4 + nth 6 words 0) in let y := f2 c d e in let f := u32 (f + x) in let b := u32 (x + y) in
  let x := u32 (a + f1 f g h + 0xab1c5ed5 + nth 7 words 0) in let y := f2 b c d in let e := u32 (e + x) in let a := u32 (x + y) in
  (* secound round *)
  let x := u32 (h + f1 e f g + 0xd807aa98 + nth 8 words 0) in let y := f2 a b c in let d := u32 (d + x) in let h := u32 (x + y) in
  let x := u32 (g + f1 d e f + 0x12835b01 + nth 9 words 0) in let y := f2 h a b in let c := u32 (c + x) in let g := u32 (x + y) in
  let x := u32 (f + f1 c d e + 0x243185be + nth 10 words 0) in let y := f2 g h a in let b := u32 (b + x) in let f := u32 (x + y) in
  let x := u32 (e + f1 b c d + 0x550c7dc3 + nth 11 words 0) in let y := f2 f g h in let a := u32 (a + x) in let e := u32 (x + y) in
  let x := u32 (d + f1 a b c + 0x72be5d74 + nth 12 words 0) in let y := f2 e f g in let h := u32 (h + x) in let d := u32 (x + y) in
  let x := u32 (c + f1 h a b + 0x80deb1fe + nth 13 words 0) in let y := f2 d e f in let g := u32 (g + x) in let c := u32 (x + y) in
  let x := u32 (b + f1 g h a + 0x9bdc06a7 + nth 14 words 0) in let y := f2 c d e in let f := u32 (f + x) in let b := u32 (x + y) in
  let x := u32 (a + f1 f g h + 0xc19bf174 + nth 15 words 0) in let y := f2 b c d in let e := u32 (e + x) in let a := u32 (x + y) in
  (* extend to 24 words *)
  let words := extend words 8 in
  (* third round *)
  let x := u32 (h + f1 e f g + 0xe49b69c1 + nth 16 words 0) in let y := f2 a b c in let d := u32 (d + x) in let h := u32 (x + y) in
  let x := u32 (g + f1 d e f + 0xefbe4786 + nth 17 words 0) in let y := f2 h a b in let c := u32 (c + x) in let g := u32 (x + y) in
  let x := u32 (f + f1 c d e + 0x0fc19dc6 + nth 18 words 0) in let y := f2 g h a in let b := u32 (b + x) in let f := u32 (x + y) in
  let x := u32 (e + f1 b c d + 0x240ca1cc + nth 19 words 0) in let y := f2 f g h in let a := u32 (a + x) in let e := u32 (x + y) in
  let x := u32 (d + f1 a b c + 0x2de92c6f + nth 20 words 0) in let y := f2 e f g in let h := u32 (h + x) in let d := u32 (x + y) in
  let x := u32 (c + f1 h a b + 0x4a7484aa + nth 21 words 0) in let y := f2 d e f in let g := u32 (g + x) in let c := u32 (x + y) in
  let x := u32 (b + f1 g h a + 0x5cb0a9dc + nth 22 words 0) in let y := f2 c d e in let f := u32 (f + x) in let b := u32 (x + y) in
  let x := u32 (a + f1 f g h + 0x76f988da + nth 23 words 0) in let y := f2 b c d in let e := u32 (e + x) in let a := u32 (x + y) in
  (* extend to 32 words *)
  let words := extend words 8 in
  (* fourth round *)
  let x := u32 (h + f1 e f g + 0x983e5152 + nth 24 words 0) in let y := f2 a b c in let d := u32 (d + x) in let h := u32 (x + y) in
  let x := u32 (g + f1 d e f + 0xa831c66d + nth 25 words 0) in let y := f2 h a b in let c := u32 (c + x) in let g := u32 (x + y) in
  let x := u32 (f + f1 c d e + 0xb00327c8 + nth 26 words 0) in let y := f2 g h a in let b := u32 (b + x) in let f := u32 (x + y) in
  let x := u32 (e + f1 b c d + 0xbf597fc7 + nth 27 words 0) in let y := f2 f g h in let a := u32 (a + x) in let e := u32 (x + y) in
  let x := u32 (d + f1 a b c + 0xc6e00bf3 + nth 28 words 0) in let y := f2 e f g in let h := u32 (h + x) in let d := u32 (x + y) in
  let x := u32 (c + f1 h a b + 0xd5a79147 + nth 29 words 0) in let y := f2 d e f in let g := u32 (g + x) in let c := u32 (x + y) in
  let x := u32 (b + f1 g h a + 0x06ca6351 + nth 30 words 0) in let y := f2 c d e in let f := u32 (f + x) in let b := u32 (x + y) in
  let x := u32 (a + f1 f g h + 0x14292967 + nth 31 words 0) in let y := f2 b c d in let e := u32 (e + x) in let a := u32 (x + y) in
  (* extend to 40 words *)
  let words := extend words 8 in
  (* fifth round *)
  let x := u32 (h + f1 e f g + 0x27b70a85 + nth 32 words 0) in let y := f2 a b c in let d := u32 (d + x) in let h := u32 (x + y) in
  let x := u32 (g + f1 d e f + 0x2e1b2138 + nth 33 words 0) in let y := f2 h a b in let c := u32 (c + x) in let g := u32 (x + y) in
  let x := u32 (f + f1 c d e + 0x4d2c6dfc + nth 34 words 0) in let y := f2 g h a in let b := u32 (b + x) in let f := u32 (x + y) in
  let x := u32 (e + f1 b c d + 0x53380d13 + nth 35 words 0) in let y := f2 f g h in let a := u32 (a + x) in let e := u32 (x + y) in
  let x := u32 (d + f1 a b c + 0x650a7354 + nth 36 words 0) in let y := f2 e f g in let h := u32 (h + x) in let d := u32 (x + y) in
  let x := u32 (c + f1 h a b + 0x766a0abb + nth 37 words 0) in let y := f2 d e f in let g := u32 (g + x) in let c := u32 (x + y) in
  let x := u32 (b + f1 g h a + 0x81c2c92e + nth 38 words 0) in let y := f2 c d e in let f := u32 (f + x) in let b := u32 (x + y) in
  let x := u32 (a + f1 f g h + 0x92722c85 + nth 39 words 0) in let y := f2 b c d in let e := u32 (e + x) in let a := u32 (x + y) in
  (* extend to 48 words *)
  let words := extend words 8 in
  (* sixth round *)
  let x := u32 (h + f1 e f g + 0xa2bfe8a1 + nth 40 words 0) in let y := f2 a b c in let d := u32 (d + x) in let h := u32 (x + y) in
  let x := u32 (g + f1 d e f + 0xa81a664b + nth 41 words 0) in let y := f2 h a b in let c := u32 (c + x) in let g := u32 (x + y) in
  let x := u32 (f + f1 c d e + 0xc24b8b70 + nth 42 words 0) in let y := f2 g h a in let b := u32 (b + x) in let f := u32 (x + y) in
  let x := u32 (e + f1 b c d + 0xc76c51a3 + nth 43 words 0) in let y := f2 f g h in let a := u32 (a + x) in let e := u32 (x + y) in
  let x := u32 (d + f1 a b c + 0xd192e819 + nth 44 words 0) in let y := f2 e f g in let h := u32 (h + x) in let d := u32 (x + y) in
  let x := u32 (c + f1 h a b + 0xd6990624 + nth 45 words 0) in let y := f2 d e f in let g := u32 (g + x) in let c := u32 (x + y) in
  let x := u32 (b + f1 g h a + 0xf40e3585 + nth 46 words 0) in let y := f2 c d e in let f := u32 (f + x) in let b := u32 (x + y) in
  let x := u32 (a + f1 f g h + 0x106aa070 + nth 47 words 0) in let y := f2 b c d in let e := u32 (e + x) in let a := u32 (x + y) in
  (* extend to 56 words *)
  let words := extend words 8 in
  (* seventh round *)
  let x := u32 (h + f1 e f g + 0x19a4c116 + nth 48 words 0) in let y := f2 a b c in let d := u32 (d + x) in let h := u32 (x + y) in
  let x := u32 (g + f1 d e f + 0x1e376c08 + nth 49 words 0) in let y := f2 h a b in let c := u32 (c + x) in let g := u32 (x + y) in
  let x := u32 (f + f1 c d e + 0x2748774c + nth 50 words 0) in let y := f2 g h a in let b := u32 (b + x) in let f := u32 (x + y) in
  let x := u32 (e + f1 b c d + 0x34b0bcb5 + nth 51 words 0) in let y := f2 f g h in let a := u32 (a + x) in let e := u32 (x + y) in
  let x := u32 (d + f1 a b c + 0x391c0cb3 + nth 52 words 0) in let y := f2 e f g in let h := u32 (h + x) in let d := u32 (x + y) in
  let x := u32 (c + f1 h a b + 0x4ed8aa4a + nth 53 words 0) in let y := f2 d e f in let g := u32 (g + x) in let c := u32 (x + y) in
  let x := u32 (b + f1 g h a + 0x5b9cca4f + nth 54 words 0) in let y := f2 c d e in let f := u32 (f + x) in let b := u32 (x + y) in
  let x := u32 (a + f1 f g h + 0x682e6ff3 + nth 55 words 0) in let y := f2 b c d in let e := u32 (e + x) in let a := u32 (x + y) in
  (* extend to 64 words *)
  let words := extend words 8 in
  (* eigth round *)
  let x := u32 (h + f1 e f g + 0x748f82ee + nth 56 words 0) in let y := f2 a b c in let d := u32 (d + x) in let h := u32 (x + y) in
  let x := u32 (g + f1 d e f + 0x78a5636f + nth 57 words 0) in let y := f2 h a b in let c := u32 (c + x) in let g := u32 (x + y) in
  let x := u32 (f + f1 c d e + 0x84c87814 + nth 58 words 0) in let y := f2 g h a in let b := u32 (b + x) in let f := u32 (x + y) in
  let x := u32 (e + f1 b c d + 0x8cc70208 + nth 59 words 0) in let y := f2 f g h in let a := u32 (a + x) in let e := u32 (x + y) in
  let x := u32 (d + f1 a b c + 0x90befffa + nth 60 words 0) in let y := f2 e f g in let h := u32 (h + x) in let d := u32 (x + y) in
  let x := u32 (c + f1 h a b + 0xa4506ceb + nth 61 words 0) in let y := f2 d e f in let g := u32 (g + x) in let c := u32 (x + y) in
  let x := u32 (b + f1 g h a + 0xbef9a3f7 + nth 62 words 0) in let y := f2 c d e in let f := u32 (f + x) in let b := u32 (x + y) in
  let x := u32 (a + f1 f g h + 0xc67178f2 + nth 63 words 0) in let y := f2 b c d in let e := u32 (e + x) in let a := u32 (x + y) in
  (* update hash *)
  (u32 (h0 + a), u32 (h1 + b), u32 (h2 + c), u32 (h3 + d),
   u32 (h4 + e), u32 (h5 + f), u32 (h6 + g), u32 (h7 + h)).

(** The four [v.insert] calls of hashFinal for one register. *)
Definition insert4 (h : Z) : list byte :=
  [ Z_to_byte (Z.land (Z.shiftr h 24) 255);
    Z_to_byte (Z.land (Z.shiftr h 16) 255);
    Z_to_byte (Z.land (Z.shiftr h  8) 255);
    Z_to_byte (Z.land  h              255) ].

Definition render (m_hash : regs) : list byte :=
  let '(h0, h1, h2, h3, h4, h5, h6, h7) := m_hash in
  insert4 h0 ++ insert4 h1 ++ insert4 h2 ++ insert4 h3 ++
  insert4 h4 ++ insert4 h5 ++ insert4 h6 ++ insert4 h7.

Definition hashCore : state -> list byte -> state :=
  BlockBuffer.hashCore BLOCK_SIZE processBlock.

Definition processBuffer : state -> state :=
  MerkleDamgard.processBuffer processBlock MerkleDamgard.lengthBigEndian.

Definition hashFinal : state -> state * list byte :=
  MerkleDamgard.hashFinal processBlock MerkleDamgard.lengthBigEndian render.

End Sha256.

(* ------------------------------------------------------------------ *)
(** ** keeg/hashing/cryptographic/sha3.hpp *)

Module Sha3.
Import endian.

Inductive Sha3Bits : Type := Bits224 | Bits256 | Bits384 | Bits512.

(** [common::enumToIntegral(bits)] *)
Definition enumToIntegral (bits : Sha3Bits) : nat :=
  match bits with
  | Bits224 => 224
  | Bits256 => 256
  | Bits384 => 384
  | Bits512 => 512
  end.

(** 1600 bits, stored as 25x64 bit, BlockSize is no more than 1152 bits (Keccak224) *)
Definition StateSize : nat := 1600 / (8 * 8).
Definition MaxBlockSize : nat := 200 - 2 * (224 / 8).
Definition Rounds : nat := 24.

Definition XorMasks : list Z :=
  [ 0x0000000000000001; 0x0000000000008082; 0x800000000000808a;
    0x8000000080008000; 0x000000000000808b; 0x0000000080000001;
    0x8000000080008081; 0x8000000000008009; 0x000000000000008a;
    0x0000000000000088; 0x0000000080008009; 0x000000008000000a;
    0x000000008000808b; 0x800000000000008b; 0x8000000000008089;
    0x8000000000008003; 0x8000000000008002; 0x8000000000000080;
    0x000000000000800a; 0x800000008000000a; 0x8000000080008081;
    0x8000000000008080; 0x0000000080000001; 0x8000000080008008 ].

Record state : Type := mkState {
  m_bits : Sha3Bits;                     (* variant *)
  m_blockSize : nat;                     (* block size (<= MaxBlockSize) *)
  core : BlockBuffer.state (list Z)      (* m_hash, m_numBytes, m_bufferSize, m_buffer *)
}.

(** return x % 5 for 0 <= x <= 9 *)
Definition mod5 (x : nat) : nat := if (x <? 5)%nat then x else (x - 5)%nat.

(** [Sha3::Sha3(bits)] builds the object over the storage [raw] and calls
    initialize(). *)
Definition hashSize (st : state) : nat := enumToIntegral (m_bits st).

Definition initialize (st : state) : state :=
  mkState (m_bits st) (m_blockSize st)
    (BlockBuffer.mkState 0 0 (BlockBuffer.m_buffer (core st)) (repeat 0 StateSize)).

Definition Sha3 (bits : Sha3Bits) (raw : BlockBuffer.state (list Z)) : state :=
  initialize (mkState bits (200 - 2 * (enumToIntegral bits / 8)) raw).

(** [m_hash[i] ^= v] *)
Definition xor_at (h : list Z) (i : nat) (v : Z) : list Z :=
  upd h i (Z.lxor (nth i h 0) v).

(** Theta *)
Definition theta (h : list Z) : list Z :=
  let coefficients :=
    map (fun i => Z.lxor (Z.lxor (Z.lxor (Z.lxor (nth i h 0) (nth (i + 5) h 0))
                                         (nth (i + 10) h 0))
                                 (nth (i + 15) h 0))
                         (nth (i + 20) h 0))
        (seq 0 5) in
  fold_left
    (fun h i =>
       let one := Z.lxor (nth (mod5 (i + 4)) coefficients 0)
                         (rotateLeft64 (nth (mod5 (i + 1)) coefficients 0) 1) in
       let h := xor_at h i one in
       let h := xor_at h (i + 5) one in
       let h := xor_at h (i + 10) one in
       let h := xor_at h (i + 15) one in
       xor_at h (i + 20) one)
    (seq 0 5) h.

(** The lanes visited by Rho Pi after [m_hash[1]], with the rotation
    applied to the lane stored there. *)
Definition rhoPiSteps : list (nat * nat) :=
  [ (10,  1); ( 7,  3); (11,  6); (17, 10); (18, 15); ( 3, 21);
    ( 5, 28); (16, 36); ( 8, 45); (21, 55); (24,  2); ( 4, 14);
    (15, 27); (23, 41); (19, 56); (13,  8); (12, 25); ( 2, 43);
    (20, 62); (14, 18); (22, 39); ( 9, 61); ( 6, 20) ]%nat.

(** Rho Pi: [one = m_hash[j]; m_hash[j] = rotateLeft(last, r); last = one;]
    along [rhoPiSteps], then [m_hash[1] = rotateLeft(last, 44)]. *)
Definition rhoPi (h : list Z) : list Z :=
  let last := nth 1 h 0 in
  let '(h, last) :=
    fold_left
      (fun (acc : list Z * Z) (step : nat * nat) =>
         let '(h, last) := acc in
         let '(j, r) := step in
         let one := nth j h 0 in
         (upd h j (rotateLeft64 last (Z.of_nat r)), one))
      rhoPiSteps (h, last) in
  upd h 1 (rotateLeft64 last 44).

(** Chi *)
Definition chi (h : list Z) : list Z :=
  fold_left
    (fun h j =>
       let one := nth j h 0 in
       let two := nth (j + 1) h 0 in
       let h := xor_at h j       (Z.land (nth (j + 2) h 0) (not64 two)) in
       let h := xor_at h (j + 1) (Z.land (nth (j + 3) h 0) (not64 (nth (j + 2) h 0))) in
       let h := xor_at h (j + 2) (Z.land (nth (j + 4) h 0) (not64 (nth (j + 3) h 0))) in
       let h := xor_at h (j + 3) (Z.land one (not64 (nth (j + 4) h 0))) in
       xor_at h (j + 4) (Z.land two (not64 one)))
    [0; 5; 10; 15; 20]%nat h.

(** One round: Theta, Rho Pi, Chi, Iota. *)
Definition keccakRound (h : list Z) (round : nat) : list Z :=
  let h := theta h in
  let h := rhoPi h in
  let h := chi h in
  xor_at h 0 (nth round XorMasks 0).

Definition LITTLEENDIAN (x : Z) : Z := x.

Definition processBlock (blockSize : nat) (data : list byte) (m_hash : list Z) : list Z :=
  (* mix data into state *)
  let h := fold_left (fun h i => xor_at h i (LITTLEENDIAN (word64_at data i)))
                     (seq 0 (blockSize / 8)) m_hash in
  (* re-compute state *)
  fold_left keccakRound (seq 0 Rounds) h.

Definition hashCore (st : state) (data : list byte) : state :=
  mkState (m_bits st) (m_blockSize st)
    (BlockBuffer.hashCore (m_blockSize st) (processBlock (m_blockSize st)) (core st) data).

Definition processBuffer (st : state) : state :=
  let c := core st in
  (* add padding *)
  let offset := BlockBuffer.m_bufferSize c in
  (* add a "1" byte *)
  let buf := upd (BlockBuffer.m_buffer c) offset x06 in
  let offset := S offset in
  (* fill with zeros *)
  let buf := fill_zero buf offset (m_blockSize st - offset) in
  let offset := Nat.max offset (m_blockSize st) in
  (* and add a single set bit *)
  let buf := upd buf (offset - 1)
                 (Z_to_byte (Z.lor (byte_to_Z (nth (offset - 1) buf x00)) 0x80)) in
  mkState (m_bits st) (m_blockSize st)
    (BlockBuffer.mkState (BlockBuffer.m_numBytes c) (BlockBuffer.m_bufferSize c) buf
       (processBlock (m_blockSize st) (firstn (m_blockSize st) buf) (BlockBuffer.m_hash c))).

Definition hashFinal (st : state) : state * list byte :=
  (* process remaining bytes *)
  let st1 := processBuffer st in
  let bytes := flat_map (native_bytes 8) (BlockBuffer.m_hash (core st1)) in
  (st1, firstn (hashSize st1 / 8) bytes).

End Sha3.

(* ------------------------------------------------------------------ *)
(** ** keeg/hashing/crc/crc32.hpp *)

Module Crc32.
Import endian.

(** zlib's CRC32 polynomial *)
Definition ZLIB_POLYNOMIAL : Z := 0xEDB88320.
Definition DEFAULT_POLYNOMIAL32 : Z := ZLIB_POLYNOMIAL.
Definition MaxSlice : nat := 16.
Definition m_hashSize : nat := 32.

Record state : Type := mkState {
  m_polynomial : Z;                (* uint32_t *)
  m_seed : Z;                      (* uint32_t *)
  m_hash : Z;                      (* uint32_t *)
  m_lookupTable : list (list Z)    (* std::array<std::array<uint32_t, 256>, MaxSlice> *)
}.

(** [m_lookupTable[slice][i]] *)
Definition lookup (table : list (list Z)) (slice : nat) (i : Z) : Z :=
  nth (Z.to_nat i) (nth slice table []) 0.

Definition hashSize (st : state) : nat := m_hashSize.

Definition initialize (st : state) : state :=
  mkState (m_polynomial st) (m_seed st) (m_seed st) (m_lookupTable st).

(** [entry = (entry >> 1) ^ ((entry & 1) * m_polynomial)] *)
Definition entryStep (polynomial entry : Z) : Z :=
  Z.lxor (Z.shiftr entry 1) (Z.land entry 1 * polynomial).

(** [entry = i; for (j = 0; j < 8; ++j) entry = ...] *)
Definition tableEntry (polynomial i : Z) : Z :=
  Nat.iter 8 (entryStep polynomial) i.

(** The first loop of initializeTable: [m_lookupTable[0]]. *)
Definition baseTable (polynomial : Z) : list Z :=
  map (fun i => tableEntry polynomial (Z.of_nat i)) (seq 0 256).

(** [m_lookupTable[slice][i] =
       (m_lookupTable[slice - 1][i] >> 8) ^
        m_lookupTable[0][m_lookupTable[slice - 1][i] & 0xFF]]
    for every [i], given row [slice - 1]. *)
Definition nextSlice (table0 previous : list Z) : list Z :=
  map (fun e => Z.lxor (Z.shiftr e 8) (nth (Z.to_nat (Z.land e 255)) table0 0)) previous.

(** Rows [slice], [slice + 1], ... ([count] of them) from row [slice - 1].
    The source fills the rows column by column; an entry depends only on
    the entry above it and on row 0, so the rows are the same. *)
Fixpoint slices (table0 previous : list Z) (count : nat) : list (list Z) :=
  match count with
  | O => []
  | S count' =>
      let next := nextSlice table0 previous in
      next :: slices table0 next count'
  end.

Definition initializeTable (st : state) : state :=
  let table0 := baseTable (m_polynomial st) in
  mkState (m_polynomial st) (m_seed st) (m_hash st)
          (table0 :: slices table0 table0 (MaxSlice - 1)).

(** [Crc32::Crc32(polynomial, seed)]; the arguments are [uint32_t]. *)
Definition Crc32 (polynomial seed : Z) : state :=
  initializeTable (initialize (mkState (u32 polynomial) (u32 seed) 0 [])).

(** One pass of the body of the unrolled [for]: sixteen bytes at [p]. *)
Definition slice16 (t : list (list Z)) (crc : Z) (p : list byte) : Z :=
  let one   := Z.lxor (word32_at p 0) crc in
  let two   := word32_at p 1 in
  let three := word32_at p 2 in
  let four  := word32_at p 3 in
  Z.lxor (Z.lxor (Z.lxor (Z.lxor (Z.lxor (Z.lxor (Z.lxor (Z.lxor
  (Z.lxor (Z.lxor (Z.lxor (Z.lxor (Z.lxor (Z.lxor (Z.lxor
    (lookup t  0 (Z.land (Z.shiftr four  24) 255))
    (lookup t  1 (Z.land (Z.shiftr four  16) 255)))
    (lookup t  2 (Z.land (Z.shiftr four   8) 255)))
    (lookup t  3 (Z.land           four      255)))
    (lookup t  4 (Z.land (Z.shiftr three 24) 255)))
    (lookup t  5 (Z.land (Z.shiftr three 16) 255)))
    (lookup t  6 (Z.land (Z.shiftr three  8) 255)))
    (lookup t  7 (Z.land           three     255)))
    (lookup t  8 (Z.land (Z.shiftr two   24) 255)))
    (lookup t  9 (Z.land (Z.shiftr two   16) 255)))
    (lookup t 10 (Z.land (Z.shiftr two    8) 255)))
    (lookup t 11 (Z.land           two       255)))
    (lookup t 12 (Z.land (Z.shiftr one   24) 255)))
    (lookup t 13 (Z.land (Z.shiftr one   16) 255)))
    (lookup t 14 (Z.land (Z.shiftr one    8) 255)))
    (lookup t 15 (Z.land           one       255)).

Definition Unroll : nat := 4.
Definition BytesAtOnce : nat := 16 * Unroll.

(** [for (unrolling = 0; unrolling < Unroll; unrolling++) ...] over the
    64 bytes at [p]; [current] advances by sixteen bytes per pass. *)
Definition unrolled (t : list (list Z)) (crc : Z) (p : list byte) : Z :=
  fold_left (fun crc unrolling => slice16 t crc (skipn (16 * unrolling) p))
            (seq 0 Unroll) crc.

(** [while (numBytes >= BytesAtOnce) { ...; numBytes -= BytesAtOnce;
    currentByte += BytesAtOnce; }], at most [length data] times. *)
Fixpoint blocks (fuel : nat) (t : list (list Z)) (crc : Z) (data : list byte)
  : Z * list byte :=
  match fuel with
  | O => (crc, data)
  | S fuel' =>
      if (BytesAtOnce <=? length data)%nat
      then blocks fuel' t (unrolled t crc data) (skipn BytesAtOnce data)
      else (crc, data)
  end.

(** [crc = (crc >> 8) ^ m_lookupTable[0][(crc & 0xFF) ^ *currentByte++]] *)
Definition byteStep (t : list (list Z)) (crc : Z) (b : byte) : Z :=
  Z.lxor (Z.shiftr crc 8) (lookup t 0 (Z.lxor (Z.land crc 255) (byte_to_Z b))).

(** remaining 1 to 63 bytes (standard algorithm) *)
Definition remaining (t : list (list Z)) (crc : Z) (data : list byte) : Z :=
  fold_left (byteStep t) data crc.

Definition hashCore (st : state) (data : list byte) : state :=
  let t := m_lookupTable st in
  let crc := not32 (m_hash st) in
  let '(crc, rest) := blocks (length data) t crc data in
  let crc := remaining t crc rest in
  mkState (m_polynomial st) (m_seed st) (not32 crc) t.

Definition hashFinal (st : state) : state * list byte :=
  let data := native_to_big32 (m_hash st) in
  (st, native_bytes 4 data).

End Crc32.

(* ------------------------------------------------------------------ *)
(** ** keeg/hashing/crc/crc64.hpp *)

Module Crc64.
Import endian.

(** The ECMA polynomial, defined in ECMA 182. *)
Definition ECMA_182_POLYNOMIAL : Z := 0xC96C5795D7870F42.
Definition DEFAULT_POLYNOMIAL64 : Z := ECMA_182_POLYNOMIAL.
Definition MaxSlice : nat := 16.
Definition m_hashSize : nat := 64.

Record state : Type := mkState {
  m_polynomial : Z;                (* uint64_t *)
  m_seed : Z;                      (* uint64_t *)
  m_hash : Z;                      (* uint64_t *)
  m_lookupTable : list (list Z)    (* std::array<std::array<uint64_t, 256>, MaxSlice> *)
}.

Definition hashSize (st : state) : nat := m_hashSize.

Definition initialize (st : state) : state :=
  mkState (m_polynomial st) (m_seed st) (m_seed st) (m_lookupTable st).

(** initializeTable has the body of Crc32::initializeTable, on
    [uint64_t] entries. *)
Definition initializeTable (st : state) : state :=
  let table0 := Crc32.baseTable (m_polynomial st) in
  mkState (m_polynomial st) (m_seed st) (m_hash st)
          (table0 :: Crc32.slices table0 table0 (MaxSlice - 1)).

(** [Crc64::Crc64(polynomial, seed)]; the arguments are [uint64_t]. *)
Definition Crc64 (polynomial seed : Z) : state :=
  initializeTable (initialize (mkState (u64 polynomial) (u64 seed) 0 [])).

Definition lookup := Crc32.lookup.

(** One pass of the body of the unrolled [for]: sixteen bytes at [p]. *)
Definition slice16 (t : list (list Z)) (crc : Z) (p : list byte) : Z :=
  let one := Z.lxor (word64_at p 0) crc in
  let two := word64_at p 1 in
  Z.lxor (Z.lxor (Z.lxor (Z.lxor (Z.lxor (Z.lxor (Z.lxor (Z.lxor
  (Z.lxor (Z.lxor (Z.lxor (Z.lxor (Z.lxor (Z.lxor (Z.lxor
    (lookup t  0 (Z.land (Z.shiftr two 56) 255))
    (lookup t  1 (Z.land (Z.shiftr two 48) 255)))
    (lookup t  2 (Z.land (Z.shiftr two 40) 255)))
    (lookup t  3 (Z.land (Z.shiftr two 32) 255)))
    (lookup t  4 (Z.land (Z.shiftr two 24) 255)))
    (lookup t  5 (Z.land (Z.shiftr two 16) 255)))
    (lookup t  6 (Z.land (Z.shiftr two  8) 255)))
    (lookup t  7 (Z.land           two     255)))
    (lookup t  8 (Z.land (Z.shiftr one 56) 255)))
    (lookup t  9 (Z.land (Z.shiftr one 48) 255)))
    (lookup t 10 (Z.land (Z.shiftr one 40) 255)))
    (lookup t 11 (Z.land (Z.shiftr one 32) 255)))
    (lookup t 12 (Z.land (Z.shiftr one 24) 255)))
    (lookup t 13 (Z.land (Z.shiftr one 16) 255)))
    (lookup t 14 (Z.land (Z.shiftr one  8) 255)))
    (lookup t 15 (Z.land           one     255)).

Definition Unroll : nat := 4.
Definition BytesAtOnce : nat := 16 * Unroll.

Definition unrolled (t : list (list Z)) (crc : Z) (p : list byte) : Z :=
  fold_left (fun crc unrolling => slice16 t crc (skipn (16 * unrolling) p))
            (seq 0 Unroll) crc.

Fixpoint blocks (fuel : nat) (t : list (list Z)) (crc : Z) (data : list byte)
  : Z * list byte :=
  match fuel with
  | O => (crc, data)
  | S fuel' =>
      if (BytesAtOnce <=? length data)%nat
      then blocks fuel' t (unrolled t crc data) (skipn BytesAtOnce data)
      else (crc, data)
  end.

Definition byteStep := Crc32.byteStep.

Definition remaining (t : list (list Z)) (crc : Z) (data : list byte) : Z :=
  fold_left (byteStep t) data crc.

Definition hashCore (st : state) (data : list byte) : state :=
  let t := m_lookupTable st in
  let crc := not64 (m_hash st) in
  let '(crc, rest) := blocks (length data) t crc data in
  let crc := remaining t crc rest in
  mkState (m_polynomial st) (m_seed st) (not64 crc) t.

Definition hashFinal (st : state) : state * list byte :=
  let data := native_to_big64 (m_hash st) in
  (st, native_bytes 8 data).

End Crc64.

(* ------------------------------------------------------------------ *)
(** ** keeg/hashing/noncryptographic/xxhash32.hpp *)

Module XxHash32.
Import endian.

Definition m_hashSize : nat := 32.     (* std::numeric_limits<uint32_t>::digits *)

(** magic constants :-) *)
Definition Prime1 : Z := 2654435761.
Definition Prime2 : Z := 2246822519.
Definition Prime3 : Z := 3266489917.
Definition Prime4 : Z :=  668265263.
Definition Prime5 : Z :=  374761393.

(** temporarily store up to 15 bytes between multiple add() calls *)
Definition MaxBufferSize : nat := 15 + 1.

Record state : Type := mkState {
  m_state : Z * Z * Z * Z;    (* std::array<uint32_t, 4> *)
  m_buffer : list byte;       (* std::array<uint8_t, MaxBufferSize> *)
  m_bufferSize : nat;         (* uint32_t *)
  m_totalLength : Z;          (* uint64_t *)
  m_seed : Z                  (* uint32_t *)
}.

Definition hashSize (st : state) : nat := m_hashSize.

Definition initialize (st : state) : state :=
  let seed := m_seed st in
  mkState (u32 (seed + Prime1 + Prime2), u32 (seed + Prime2), seed, u32 (seed - Prime1))
          (repeat x00 (length (m_buffer st)))   (* std::fill(begin, end, 0) *)
          0 0 seed.

(** [XxHash32::XxHash32(seed)]; the argument is [uint32_t]. *)
Definition XxHash32 (seed : Z) : state :=
  initialize (mkState (0, 0, 0, 0) (repeat x00 MaxBufferSize) 0 0 (u32 seed)).

(** process a block of 4x4 bytes, this is the main part of the XXHash32 algorithm *)
Definition process (data : list byte) (s : Z * Z * Z * Z) : Z * Z * Z * Z :=
  let '(state0, state1, state2, state3) := s in
  let block := word32_at data in
  (u32 (rotateLeft32 (u32 (state0 + block 0%nat * Prime2)) 13 * Prime1),
   u32 (rotateLeft32 (u32 (state1 + block 1%nat * Prime2)) 13 * Prime1),
   u32 (rotateLeft32 (u32 (state2 + block 2%nat * Prime2)) 13 * Prime1),
   u32 (rotateLeft32 (u32 (state3 + block 3%nat * Prime2)) 13 * Prime1)).

(** [m_buffer[m_bufferSize++] = b] *)
Definition push (st : state) (b : byte) : state :=
  mkState (m_state st) (upd (m_buffer st) (m_bufferSize st) b)
          (S (m_bufferSize st)) (m_totalLength st) (m_seed st).

(** [while (length-- > 0) m_buffer[m_bufferSize++] = *current++;] *)
Definition addAll (st : state) (data : list byte) : state :=
  fold_left push data st.

(** [while (m_bufferSize < MaxBufferSize) m_buffer[m_bufferSize++] = *current++;]
    returning the input not yet consumed.  The loop is entered with at
    least [MaxBufferSize - m_bufferSize] bytes of input; reading past the
    end of the input is undefined in the source and stops the loop here. *)
Fixpoint fillBuffer (st : state) (data : list byte) : state * list byte :=
  if (m_bufferSize st <? MaxBufferSize)%nat
  then match data with
       | [] => (st, [])
       | b :: rest => fillBuffer (push st b) rest
       end
  else (st, data).

(** [while (current <= stopBlock) { process(current, s0, s1, s2, s3);
    current += 16; }] with [stopBlock = stop - MaxBufferSize], at most
    [length data] times. *)
Fixpoint blocks (fuel : nat) (s : Z * Z * Z * Z) (data : list byte)
  : (Z * Z * Z * Z) * list byte :=
  match fuel with
  | O => (s, data)
  | S fuel' =>
      if (MaxBufferSize <=? length data)%nat
      then blocks fuel' (process data s) (skipn 16 data)
      else (s, data)
  end.

Definition hashCore (st : state) (data : list byte) : state :=
  let length_ := Z.of_nat (length data) in
  let st := mkState (m_state st) (m_buffer st) (m_bufferSize st)
                    (u64 (m_totalLength st + length_)) (m_seed st) in
  (* unprocessed old data plus new data still fit in temporary buffer ? *)
  if (Z.of_nat (m_bufferSize st) + length_ <? Z.of_nat MaxBufferSize)
  then addAll st data            (* just add new data *)
  else
    (* some data left from previous update ? *)
    let '(st, current) :=
      if (0 <? m_bufferSize st)%nat
      then
        let '(st, current) := fillBuffer st data in
        (mkState (process (m_buffer st) (m_state st)) (m_buffer st)
                 (m_bufferSize st) (m_totalLength st) (m_seed st), current)
      else (st, data) in
    (* 16 bytes at once *)
    let '(s, current) := blocks (length current) (m_state st) current in
    (* copy remainder to temporary buffer *)
    mkState s (write_bytes (m_buffer st) 0 current) (length current)
            (m_totalLength st) (m_seed st).

(** [for (; data + 4 <= stop; data += 4)
       result = rotateLeft(result + GET32BITS(data) * Prime3, 17) * Prime4;]
    over the bytes [data, stop), returning the bytes left. *)
Fixpoint eat4 (fuel : nat) (result : Z) (data : list byte) : Z * list byte :=
  match fuel with
  | O => (result, data)
  | S fuel' =>
      if (4 <=? length data)%nat
      then eat4 fuel'
             (u32 (rotateLeft32 (u32 (result + GET32BITS data * Prime3)) 17 * Prime4))
             (skipn 4 data)
      else (result, data)
  end.

(** [while (data != stop)
       result = rotateLeft(result + ( *data++) * Prime5, 11) * Prime1;] *)
Definition eat1 (result : Z) (data : list byte) : Z :=
  fold_left (fun result b =>
               u32 (rotateLeft32 (u32 (result + byte_to_Z b * Prime5)) 11 * Prime1))
            data result.

(** The value of [result] in hashFinal after "mix bits". *)
Definition finalValue (st : state) : Z :=
  let '(s0, s1, s2, s3) := m_state st in
  let result := u32 (m_totalLength st) in
  (* fold 128 bit state into one single 32 bit value *)
  let result :=
    if (Z.of_nat MaxBufferSize <=? m_totalLength st)
    then u32 (result + (rotateLeft32 s0 1 + rotateLeft32 s1 7 +
                        rotateLeft32 s2 12 + rotateLeft32 s3 18))
    else u32 (result + (s2 + Prime5)) in
  (* process remaining bytes in temporary buffer *)
  let data := firstn (m_bufferSize st) (m_buffer st) in
  let '(result, data) := eat4 (length data) result data in
  let result := eat1 result data in
  (* mix bits *)
  let result := Z.lxor result (Z.shiftr result 15) in
  let result := u32 (result * Prime2) in
  let result := Z.lxor result (Z.shiftr result 13) in
  let result := u32 (result * Prime3) in
  Z.lxor result (Z.shiftr result 16).

Definition hashFinal (st : state) : state * list byte :=
  let result := finalValue st in
  let result := native_to_big32 result in
  (st, native_bytes 4 result).

End XxHash32.

(* ------------------------------------------------------------------ *)
(** ** keeg/hashing/noncryptographic/xxhash64.hpp *)

Module XxHash64.
Import endian.

Definition m_hashSize : nat := 32.     (* std::numeric_limits<uint32_t>::digits *)

(** magic constants :-) *)
Definition Prime1 : Z := 11400714785074694791.
Definition Prime2 : Z := 14029467366897019727.
Definition Prime3 : Z :=  1609587929392839161.
Definition Prime4 : Z :=  9650029242287828579.
Definition Prime5 : Z :=  2870177450012600261.

(** temporarily store up to 31 bytes between multiple add() calls *)
Definition MaxBufferSize : nat := 31 + 1.

Record state : Type := mkState {
  m_state : Z * Z * Z * Z;    (* std::array<uint64_t, 4> *)
  m_buffer : list byte;       (* std::array<uint8_t, MaxBufferSize> *)
  m_bufferSize : nat;         (* uint32_t *)
  m_totalLength : Z;          (* uint64_t *)
  m_seed : Z                  (* uint64_t *)
}.

Definition hashSize (st : state) : nat := m_hashSize.

Definition initialize (st : state) : state :=
  let seed := m_seed st in
  mkState (u64 (seed + Prime1 + Prime2), u64 (seed + Prime2), seed, u64 (seed - Prime1))
          (repeat x00 (length (m_buffer st)))   (* std::fill(begin, end, 0) *)
          0 0 seed.

(** [XxHash64::XxHash64(seed)]; the argument is [uint64_t]. *)
Definition XxHash64 (seed : Z) : state :=
  initialize (mkState (0, 0, 0, 0) (repeat x00 MaxBufferSize) 0 0 (u64 seed)).

(** process a single 64 bit value *)
Definition processSingle (previous input : Z) : Z :=
  u64 (rotateLeft64 (u64 (previous + input * Prime2)) 31 * Prime1).

Definition process (data : list byte) (s : Z * Z * Z * Z) : Z * Z * Z * Z :=
  let '(state0, state1, state2, state3) := s in
  let block := word64_at data in
  (processSingle state0 (block 0%nat),
   processSingle state1 (block 1%nat),
   processSingle state2 (block 2%nat),
   processSingle state3 (block 3%nat)).

(** [m_buffer[m_bufferSize++] = b] *)
Definition push (st : state) (b : byte) : state :=
  mkState (m_state st) (upd (m_buffer st) (m_bufferSize st) b)
          (S (m_bufferSize st)) (m_totalLength st) (m_seed st).

(** [while (length-- > 0) m_buffer[m_bufferSize++] = *current++;] *)
Definition addAll (st : state) (data : list byte) : state :=
  fold_left push data st.

(** [while (m_bufferSize < MaxBufferSize) m_buffer[m_bufferSize++] = *current++;]
    returning the input not yet consumed (see XxHash32.fillBuffer). *)
Fixpoint fillBuffer (st : state) (data : list byte) : state * list byte :=
  if (m_bufferSize st <? MaxBufferSize)%nat
  then match data with
       | [] => (st, [])
       | b :: rest => fillBuffer (push st b) rest
       end
  else (st, data).

(** [while (current <= stopBlock) { process(current, s0, s1, s2, s3);
    current += 32; }], at most [length data] times. *)
Fixpoint blocks (fuel : nat) (s : Z * Z * Z * Z) (data : list byte)
  : (Z * Z * Z * Z) * list byte :=
  match fuel with
  | O => (s, data)
  | S fuel' =>
      if (MaxBufferSize <=? length data)%nat
      then blocks fuel' (process data s) (skipn 32 data)
      else (s, data)
  end.

Definition hashCore (st : state) (data : list byte) : state :=
  let length_ := Z.of_nat (length data) in
  let st := mkState (m_state st) (m_buffer st) (m_bufferSize st)
                    (u64 (m_totalLength st + length_)) (m_seed st) in
  (* unprocessed old data plus new data still fit in temporary buffer ? *)
  if (Z.of_nat (m_bufferSize st) + length_ <? Z.of_nat MaxBufferSize)
  then addAll st data            (* just add new data *)
  else
    (* some data left from previous update ? *)
    let '(st, current) :=
      if (0 <? m_bufferSize st)%nat
      then
        let '(st, current) := fillBuffer st data in
        (mkState (process (m_buffer st) (m_state st)) (m_buffer st)
                 (m_bufferSize st) (m_totalLength st) (m_seed st), current)
      else (st, data) in
    (* 32 bytes at once *)
    let '(s, current) := blocks (length current) (m_state st) current in
    (* copy remainder to temporary buffer *)
    mkState s (write_bytes (m_buffer st) 0 current) (length current)
            (m_totalLength st) (m_seed st).

(** [for (; data + 8 <= stop; data += 8)
       result = rotateLeft(result ^ processSingle(0, GET64BITS(data)), 27)
                * Prime1 + Prime4;] *)
Fixpoint eat8 (fuel : nat) (result : Z) (data : list byte) : Z * list byte :=
  match fuel with
  | O => (result, data)
  | S fuel' =>
      if (8 <=? length data)%nat
      then eat8 fuel'
             (u64 (rotateLeft64 (Z.lxor result (processSingle 0 (GET64BITS data))) 27
                   * Prime1 + Prime4))
             (skipn 8 data)
      else (result, data)
  end.

(** [if (data + 4 <= stop) { result = rotateLeft(result ^ GET32BITS(data)
    * Prime1, 23) * Prime2 + Prime3; data += 4; }] *)
Definition eat4 (result : Z) (data : list byte) : Z * list byte :=
  if (4 <=? length data)%nat
  then (u64 (rotateLeft64 (Z.lxor result (u64 (GET32BITS data * Prime1))) 23
             * Prime2 + Prime3),
        skipn 4 data)
  else (result, data).

(** [while (data != stop)
       result = rotateLeft(result ^ ( *data++) * Prime5, 11) * Prime1;] *)
Definition eat1 (result : Z) (data : list byte) : Z :=
  fold_left (fun result b =>
               u64 (rotateLeft64 (Z.lxor result (u64 (byte_to_Z b * Prime5))) 11 * Prime1))
            data result.

(** The value of [result] in hashFinal after "mix bits". *)
Definition finalValue (st : state) : Z :=
  let '(s0, s1, s2, s3) := m_state st in
  (* fold 256 bit state into one single 64 bit value *)
  let result :=
    if (Z.of_nat MaxBufferSize <=? m_totalLength st)
    then
      let result := u64 (rotateLeft64 s0 1 + rotateLeft64 s1 7 +
                         rotateLeft64 s2 12 + rotateLeft64 s3 18) in
      let result := u64 (Z.lxor result (processSingle 0 s0) * Prime1 + Prime4) in
      let result := u64 (Z.lxor result (processSingle 0 s1) * Prime1 + Prime4) in
      let result := u64 (Z.lxor result (processSingle 0 s2) * Prime1 + Prime4) in
      u64 (Z.lxor result (processSingle 0 s3) * Prime1 + Prime4)
    else u64 (s2 + Prime5) in
  let result := u64 (result + m_totalLength st) in
  (* process remaining bytes in temporary buffer *)
  let data := firstn (m_bufferSize st) (m_buffer st) in
  let '(result, data) := eat8 (length data) result data in
  let '(result, data) := eat4 result data in
  let result := eat1 result data in
  (* mix bits *)
  let result := Z.lxor result (Z.shiftr result 33) in
  let result := u64 (result * Prime2) in
  let result := Z.lxor result (Z.shiftr result 29) in
  let result := u64 (result * Prime3) in
  Z.lxor result (Z.shiftr result 32).

Definition hashFinal (st : state) : state * list byte :=
  let result := finalValue st in
  let result := native_to_big64 result in
  (st, native_bytes 8 result).

End XxHash64.

(* ------------------------------------------------------------------ *)
(** ** keeg/hashing/hashalgorithm.hpp *)

Module HashAlgorithm.


(** The classes derived from HashAlgorithm that the claims are about;
    the virtual calls dispatch on the constructor. *)
Inductive derived : Type :=
| OfMd5 (st : Md5.state)
| OfSha1 (st : Sha1.state)
| OfSha256 (st : Sha256.state)
| OfSha3 (st : Sha3.state)
| OfCrc32 (st : Crc32.state)
| OfCrc64 (st : Crc64.state)
| OfXxHash32 (st : XxHash32.state)
| OfXxHash64 (st : XxHash64.state).

Record object : Type := mkObject {
  m_hashValue : list byte;   (* computed hash value stored as a vector of bytes *)
  self : derived
}.

(** [virtual std::size_t hashSize() = 0]: size of the return hash in bits. *)
Definition hashSize (o : object) : nat :=
  match self o with
  | OfMd5 st => Md5.hashSize st
  | OfSha1 st => Sha1.hashSize st
  | OfSha256 st => Sha256.hashSize st
  | OfSha3 st => Sha3.hashSize st
  | OfCrc32 st => Crc32.hashSize st
  | OfCrc64 st => Crc64.hashSize st
  | OfXxHash32 st => XxHash32.hashSize st
  | OfXxHash64 st => XxHash64.hashSize st
  end.

(** [virtual void initialize() = 0]; every override starts or ends with
    [m_hashValue.clear()]. *)
Definition initialize (o : object) : object :=
  mkObject []
    match self o with
    | OfMd5 st => OfMd5 (Md5.initialize st)
    | OfSha1 st => OfSha1 (Sha1.initialize st)
    | OfSha256 st => OfSha256 (Sha256.initialize st)
    | OfSha3 st => OfSha3 (Sha3.initialize st)
    | OfCrc32 st => OfCrc32 (Crc32.initialize st)
    | OfCrc64 st => OfCrc64 (Crc64.initialize st)
    | OfXxHash32 st => OfXxHash32 (XxHash32.initialize st)
    | OfXxHash64 st => OfXxHash64 (XxHash64.initialize st)
    end.

(** [virtual void hashCore(data, dataLength, startIndex) = 0] *)
Definition hashCore (o : object) (data : list byte) : object :=
  mkObject (m_hashValue o)
    match self o with
    | OfMd5 st => OfMd5 (Md5.hashCore st data)
    | OfSha1 st => OfSha1 (Sha1.hashCore st data)
    | OfSha256 st => OfSha256 (Sha256.hashCore st data)
    | OfSha3 st => OfSha3 (Sha3.hashCore st data)
    | OfCrc32 st => OfCrc32 (Crc32.hashCore st data)
    | OfCrc64 st => OfCrc64 (Crc64.hashCore st data)
    | OfXxHash32 st => OfXxHash32 (XxHash32.hashCore st data)
    | OfXxHash64 st => OfXxHash64 (XxHash64.hashCore st data)
    end.

(** [virtual std::vector<uint8_t> hashFinal() = 0] *)
Definition hashFinal (o : object) : object * list byte :=
  let '(d, v) :=
    match self o with
    | OfMd5 st => let '(st, v) := Md5.hashFinal st in (OfMd5 st, v)
    | OfSha1 st => let '(st, v) := Sha1.hashFinal st in (OfSha1 st, v)
    | OfSha256 st => let '(st, v) := Sha256.hashFinal st in (OfSha256 st, v)
    | OfSha3 st => let '(st, v) := Sha3.hashFinal st in (OfSha3 st, v)
    | OfCrc32 st => let '(st, v) := Crc32.hashFinal st in (OfCrc32 st, v)
    | OfCrc64 st => let '(st, v) := Crc64.hashFinal st in (OfCrc64 st, v)
    | OfXxHash32 st => let '(st, v) := XxHash32.hashFinal st in (OfXxHash32 st, v)
    | OfXxHash64 st => let '(st, v) := XxHash64.hashFinal st in (OfXxHash64 st, v)
    end in
  (mkObject (m_hashValue o) d, v).

(** [initialize(); hashCore(data, dataLength, startIndex);
     m_hashValue = hashFinal();] *)
Definition computeHashInternal (o : object) (data : list byte) : object :=
  let o := initialize o in
  let o := hashCore o data in
  let '(o, v) := hashFinal o in
  mkObject v (self o).

(** [computeHash(data, dataLength, index)] *)
Definition computeHash (o : object) (data : list byte) : object * list byte :=
  let o := computeHashInternal o data in
  (o, m_hashValue o).

(** *** The stream collaborator

    A [std::istream] as computeHash uses it: [operator!] (which is
    [fail()]: failbit or badbit), [seekg(0, beg)], [read] and [gcount],
    with the behaviour of libstdc++.  The device behind the stream holds
    [content]; it can be repositioned when [seekable] (a file, a string;
    not a pipe or a terminal); a device error, when there is one, strikes
    at offset [errorAt]: the bytes before it are delivered, the byte at
    it never is. *)
Record istream : Type := mkStream {
  content : list byte;
  position : nat;
  errorAt : option nat;
  seekable : bool;
  eofbit : bool;
  failbit : bool;
  badbit : bool
}.

(** [!stream], i.e. [stream.fail()] *)
Definition fail (s : istream) : bool := failbit s || badbit s.


(** At most [n] leading bytes of [l]. *)
Fixpoint take (n : Z) (l : list byte) : list byte :=
  match l with
  | [] => []
  | b :: rest => if 0 <? n then b :: take (n - 1) rest else []
  end.

(** The bytes the device can still deliver from the get position. *)
Definition deliverable (s : istream) : list byte :=
  let upto := match errorAt s with
              | Some k => Nat.min k (length (content s))
              | None => length (content s)
              end in
  firstn (upto - position s) (skipn (position s) (content s)).

(** The device has an error before the end of its content. *)
Definition deviceFails (s : istream) : bool :=
  match errorAt s with
  | Some k => (k <? length (content s))%nat
  | None => false
  end.

(** [read(buffer, n)]: the stream afterwards, the bytes stored into
    [buffer] and the value of [gcount()].  On a stream that is not good
    nothing is extracted and failbit is set.  When the content ends
    before [n] bytes are extracted the stream sets eofbit and failbit and
    [gcount()] counts the bytes stored.  When the device fails first, the
    stream buffer raises an exception out of [sgetn]: [read] catches it
    and sets badbit, and [gcount()], which it had set to 0 on entry,
    stays 0 whatever was stored. *)
Definition read (s : istream) (n : Z) : istream * list byte * nat :=
  if fail s || eofbit s
  then (mkStream (content s) (position s) (errorAt s) (seekable s)
          (eofbit s) true (badbit s), [], 0%nat)
  else
    let stored := take n (deliverable s) in
    let position' := (position s + length stored)%nat in
    if (Z.of_nat (length stored) <? n)
    then
      if deviceFails s
      then (mkStream (content s) position' (errorAt s) (seekable s) false false true,
            stored, 0%nat)
      else (mkStream (content s) position' (errorAt s) (seekable s) true true false,
            stored, length stored)
    else (mkStream (content s) position' (errorAt s) (seekable s) false false false,
          stored, length stored).



(** Modelled from the spec: [common::make_hex_string] of
    keeg/common/stringutils.hpp, which is not among the sources; the spec
    calls it "formatting only".  Two hexadecimal digits per byte, high
    nibble first, a space between bytes when [insertSpaces]. *)
Definition hexDigit (useUpperCase : bool) (n : Z) : Ascii.ascii :=
  Ascii.ascii_of_nat
    (Z.to_nat (if n <? 10 then 48 + n
               else if useUpperCase then 65 + (n - 10) else 97 + (n - 10))).

Fixpoint make_hex_string (bytes : list byte) (useUpperCase insertSpaces : bool)
  : String.string :=
  match bytes with
  | [] => String.EmptyString
  | b :: rest =>
      let hi := hexDigit useUpperCase (Z.shiftr (byte_to_Z b) 4) in
      let lo := hexDigit useUpperCase (Z.land (byte_to_Z b) 15) in
      let tail := make_hex_string rest useUpperCase insertSpaces in
      String.String hi (String.String lo
        (match rest with
         | [] => tail
         | _ :: _ => if insertSpaces then String.String (Ascii.ascii_of_nat 32) tail else tail
         end))
  end.

(** [hashValueString(useUpperCase, insertSpaces)] *)
Definition hashValueString (o : object) (useUpperCase insertSpaces : bool)
  : String.string :=
  make_hex_string (m_hashValue o) useUpperCase insertSpaces.

End HashAlgorithm.

(* ------------------------------------------------------------------ *)
(** ** What a buffered stream state stands for

    The observable part of a block-buffered object is its register file,
    its byte counter and the valid prefix of its buffer; [absorb] is the
    effect that feeding more bytes must have on it. *)

Module Stream.

Section Absorb.
Context {R : Type}.
Variable BLOCK_SIZE : nat.
Variable processBlock : list byte -> R -> R.

(** Compress the leading full blocks of [l]; what is left is shorter
    than a block when [fuel] is at least [length l]. *)
Fixpoint absorbBlocks (fuel : nat) (h : R) (n : Z) (l : list byte)
  : R * Z * list byte :=
  match fuel with
  | O => (h, n, l)
  | S fuel' =>
      if (BLOCK_SIZE <=? length l)%nat
      then absorbBlocks fuel' (processBlock (firstn BLOCK_SIZE l) h)
                        (u64 (n + Z.of_nat BLOCK_SIZE)) (skipn BLOCK_SIZE l)
      else (h, n, l)
  end.

(** Registers, bytes compressed so far, bytes pending. *)
Definition absorb (v : R * Z * list byte) (data : list byte) : R * Z * list byte :=
  let '(h, n, pending) := v in
  absorbBlocks (length (pending ++ data)) h n (pending ++ data).

Definition view (st : BlockBuffer.state R) : R * Z * list byte :=
  (BlockBuffer.m_hash st, BlockBuffer.m_numBytes st,
   firstn (BlockBuffer.m_bufferSize st) (BlockBuffer.m_buffer st)).

(** The state invariant of the spec, with the array bound of the buffer. *)
Definition invariant (st : BlockBuffer.state R) : Prop :=
  (BlockBuffer.m_bufferSize st < BLOCK_SIZE)%nat /\
  (BLOCK_SIZE <= length (BlockBuffer.m_buffer st))%nat.

End Absorb.

(** A caller's use of an object between two initialize() calls: updates
    and digest reads, in any order. *)
Inductive call : Type :=
| Update (data : list byte)
| Final.

(** The bytes fed by the updates of [calls], in order. *)
Definition payload (calls : list call) : list byte :=
  flat_map (fun c => match c with Update data => data | Final => [] end) calls.

Section Run.
Context {S : Type}.
Variable hashCore : S -> list byte -> S.
Variable hashFinal : S -> S * list byte.

Definition perform (st : S) (c : call) : S :=
  match c with
  | Update data => hashCore st data
  | Final => fst (hashFinal st)
  end.

Definition run (calls : list call) (st : S) : S := fold_left perform calls st.

(** hashCore once per chunk, in order. *)
Definition feed (chunks : list (list byte)) (st : S) : S :=
  fold_left hashCore chunks st.

End Run.

End Stream.

(* ------------------------------------------------------------------ *)
(** ** The padding rule of the spec (section 4.2)

    "append a single 1 bit (byte value 0x80) immediately after the last
    real byte; zero-fill until the bit-length of the padded message is
    448 (mod 512); append the original message bit-length as a 64-bit
    integer".  Written on the pending bytes of the last block, with the
    count of bytes compressed before them. *)

Module Padding.

(** The eight bytes of a 64-bit integer, most significant first and
    least significant first. *)
Definition bigEndian64 (x : Z) : list byte := endian.big_endian_bytes 8 x.
Definition littleEndian64 (x : Z) : list byte := endian.little_endian_bytes 8 x.

(** Number of zero bytes after 0x80: the least [z] with
    [(pending + 1 + z) mod 64 = 56]. *)
Definition zeroFill (pending : nat) : nat :=
  if (pending <=? 55)%nat then (55 - pending)%nat else (119 - pending)%nat.

(** The original message bit-length, as a 64-bit integer. *)
Definition bitLength (numBytes : Z) (pending : list byte) : Z :=
  u64 (8 * (numBytes + Z.of_nat (length pending))).

(** The pending bytes followed by their padding. *)
Definition message (encode : Z -> list byte) (numBytes : Z) (pending : list byte)
  : list byte :=
  pending ++ [x80] ++ repeat x00 (zeroFill (length pending))
          ++ encode (bitLength numBytes pending).

(** The 64-byte blocks of the padded message, in order. *)
Definition blocks (encode : Z -> list byte) (numBytes : Z) (pending : list byte)
  : list (list byte) :=
  let m := message encode numBytes pending in
  if (length pending + 1 + 8 <=? 64)%nat
  then [m]
  else [firstn 64 m; skipn 64 m].

(** The sponge padding of the spec (section 4.3): "append byte 0x06 at
    the current buffer offset, zero-fill to the rate boundary, then OR
    0x80 into the last byte of the block". *)
Definition sponge (rate : nat) (pending : list byte) : list byte :=
  let block := pending ++ x06 :: repeat x00 (rate - S (length pending)) in
  upd block (rate - 1)
      (Z_to_byte (Z.lor (byte_to_Z (nth (rate - 1) block x00)) 0x80)).

End Padding.


(* ------------------------------------------------------------------ *)
(** ** What an xxHash state stands for

    Lanes, total length and pending bytes; feeding bytes mixes the full
    stripes of pending-plus-new bytes into the lanes. *)

Module XxView.

Section Lanes.
Variable MaxBufferSize : nat.
Variable process : list byte -> Z * Z * Z * Z -> Z * Z * Z * Z.

Definition absorb (v : (Z * Z * Z * Z) * Z * list byte) (data : list byte)
  : (Z * Z * Z * Z) * Z * list byte :=
  let '(lanes, total, pending) := v in
  let r := Stream.absorbBlocks MaxBufferSize process
             (length (pending ++ data)) lanes 0 (pending ++ data) in
  (fst (fst r), u64 (total + Z.of_nat (length data)), snd r).

End Lanes.

Definition view32 (st : XxHash32.state) : (Z * Z * Z * Z) * Z * list byte :=
  (XxHash32.m_state st, XxHash32.m_totalLength st,
   firstn (XxHash32.m_bufferSize st) (XxHash32.m_buffer st)).

Definition view64 (st : XxHash64.state) : (Z * Z * Z * Z) * Z * list byte :=
  (XxHash64.m_state st, XxHash64.m_totalLength st,
   firstn (XxHash64.m_bufferSize st) (XxHash64.m_buffer st)).

End XxView.

(* ------------------------------------------------------------------ *)
(** ** The byte-at-a-time reference CRC

    The classical reflected table-driven CRC, one byte per step: invert
    the running value, fold every byte in through the 256-entry table of
    the polynomial, invert again.  It never looks at more than one byte
    and at no table but the first. *)

Module CrcReference.

(** The table entry of byte value [i]: eight reflected division steps. *)
Definition entry (polynomial i : Z) : Z := Crc32.tableEntry polynomial i.

(** One byte. *)
Definition step (polynomial crc : Z) (b : byte) : Z :=
  Z.lxor (Z.shiftr crc 8) (entry polynomial (Z.lxor (Z.land crc 255) (byte_to_Z b))).

Definition crc32 (polynomial previous : Z) (data : list byte) : Z :=
  not32 (fold_left (step polynomial) data (not32 previous)).

Definition crc64 (polynomial previous : Z) (data : list byte) : Z :=
  not64 (fold_left (step polynomial) data (not64 previous)).

(** The running value after one zero byte: the map that the higher
    table slices iterate. *)
Definition advance (polynomial c : Z) : Z :=
  Z.lxor (Z.shiftr c 8) (entry polynomial (Z.land c 255)).

(** The table that initializeTable builds for [polynomial]. *)
Definition builtTable (polynomial : Z) : list (list Z) :=
  let table0 := Crc32.baseTable polynomial in
  table0 :: Crc32.slices table0 table0 15.

End CrcReference.

(* ------------------------------------------------------------------ *)
(** ** State invariants, class by class *)

Module Invariants.

(** Md5, Sha1, Sha256: [0 <= m_bufferSize < BLOCK_SIZE], in an array of
    [BLOCK_SIZE] bytes. *)
Definition merkleDamgard {R : Type} (st : BlockBuffer.state R) : Prop :=
  Stream.invariant MerkleDamgard.BLOCK_SIZE st.

(** Sha3: [0 <= m_bufferSize < m_blockSize], a positive block size, in
    an array that holds a block. *)
Definition sha3 (st : Sha3.state) : Prop :=
  (0 < Sha3.m_blockSize st)%nat /\
  Stream.invariant (Sha3.m_blockSize st) (Sha3.core st).

(** XxHash32, XxHash64: [0 <= m_bufferSize < MaxBufferSize], in an
    array of [MaxBufferSize] bytes, with a [uint64_t] total length. *)
Definition xxHash32 (st : XxHash32.state) : Prop :=
  (XxHash32.m_bufferSize st < XxHash32.MaxBufferSize)%nat /\
  length (XxHash32.m_buffer st) = XxHash32.MaxBufferSize /\
  0 <= XxHash32.m_totalLength st < 18446744073709551616.

Definition xxHash64 (st : XxHash64.state) : Prop :=
  (XxHash64.m_bufferSize st < XxHash64.MaxBufferSize)%nat /\
  length (XxHash64.m_buffer st) = XxHash64.MaxBufferSize /\
  0 <= XxHash64.m_totalLength st < 18446744073709551616.

(** Crc32, Crc64: the members hold values of their types and the table
    is the one initializeTable builds for the polynomial. *)
Definition crc32 (st : Crc32.state) : Prop :=
  0 <= Crc32.m_polynomial st < 4294967296 /\
  0 <= Crc32.m_seed st < 4294967296 /\
  0 <= Crc32.m_hash st < 4294967296 /\
  Crc32.m_lookupTable st = Crc32.m_lookupTable (Crc32.initializeTable st).

Definition crc64 (st : Crc64.state) : Prop :=
  0 <= Crc64.m_polynomial st < 18446744073709551616 /\
  0 <= Crc64.m_seed st < 18446744073709551616 /\
  0 <= Crc64.m_hash st < 18446744073709551616 /\
  Crc64.m_lookupTable st = Crc64.m_lookupTable (Crc64.initializeTable st).

End Invariants.

(* ------------------------------------------------------------------ *)
(** ** Objects of the eight classes *)

Module Objects.
Import HashAlgorithm.

(** What the constructor and the types of the members guarantee, whatever
    the object did since. *)
Definition constructed (o : object) : Prop :=
  match self o with
  | OfMd5 st => length (BlockBuffer.m_buffer st) = Md5.BLOCK_SIZE
  | OfSha1 st => length (BlockBuffer.m_buffer st) = Sha1.BLOCK_SIZE
  | OfSha256 st => length (BlockBuffer.m_buffer st) = Sha256.BLOCK_SIZE
  | OfSha3 st =>
      Sha3.m_blockSize st = (200 - 2 * (Sha3.enumToIntegral (Sha3.m_bits st) / 8))%nat /\
      length (BlockBuffer.m_buffer (Sha3.core st)) = Sha3.MaxBlockSize
  | OfCrc32 st =>
      0 <= Crc32.m_polynomial st < 4294967296 /\
      0 <= Crc32.m_seed st < 4294967296 /\
      Crc32.m_lookupTable st = Crc32.m_lookupTable (Crc32.initializeTable st)
  | OfCrc64 st =>
      0 <= Crc64.m_polynomial st < 18446744073709551616 /\
      0 <= Crc64.m_seed st < 18446744073709551616 /\
      Crc64.m_lookupTable st = Crc64.m_lookupTable (Crc64.initializeTable st)
  | OfXxHash32 st => length (XxHash32.m_buffer st) = XxHash32.MaxBufferSize
  | OfXxHash64 st => length (XxHash64.m_buffer st) = XxHash64.MaxBufferSize
  end.

(** The state invariant of each class. *)
Definition invariant (o : object) : Prop :=
  match self o with
  | OfMd5 st => Invariants.merkleDamgard st
  | OfSha1 st => Invariants.merkleDamgard st
  | OfSha256 st => Invariants.merkleDamgard st
  | OfSha3 st => Invariants.sha3 st
  | OfCrc32 st => Invariants.crc32 st
  | OfCrc64 st => Invariants.crc64 st
  | OfXxHash32 st => Invariants.xxHash32 st
  | OfXxHash64 st => Invariants.xxHash64 st
  end.

(** [0 <= bufferSize < blockSize], for the classes that buffer. *)
Definition bufferBound (o : object) : Prop :=
  match self o with
  | OfMd5 st => (0 <= BlockBuffer.m_bufferSize st < Md5.BLOCK_SIZE)%nat
  | OfSha1 st => (0 <= BlockBuffer.m_bufferSize st < Sha1.BLOCK_SIZE)%nat
  | OfSha256 st => (0 <= BlockBuffer.m_bufferSize st < Sha256.BLOCK_SIZE)%nat
  | OfSha3 st => (0 <= BlockBuffer.m_bufferSize (Sha3.core st) < Sha3.m_blockSize st)%nat
  | OfCrc32 _ => True
  | OfCrc64 _ => True
  | OfXxHash32 st => (0 <= XxHash32.m_bufferSize st < XxHash32.MaxBufferSize)%nat
  | OfXxHash64 st => (0 <= XxHash64.m_bufferSize st < XxHash64.MaxBufferSize)%nat
  end.

(** The digest that hashFinal would return. *)
Definition digest (o : object) : list byte := snd (hashFinal o).

(** Freshly constructed objects, over zeroed storage. *)
Definition md5 : object :=
  mkObject [] (OfMd5 (Md5.initialize (BlockBuffer.mkState 0 0 (repeat x00 64) (0, 0, 0, 0)))).
Definition sha1 : object :=
  mkObject [] (OfSha1 (Sha1.initialize
                         (BlockBuffer.mkState 0 0 (repeat x00 64) (0, 0, 0, 0, 0)))).
Definition sha256 : object :=
  mkObject [] (OfSha256 (Sha256.initialize
                           (BlockBuffer.mkState 0 0 (repeat x00 64)
                              (0, 0, 0, 0, 0, 0, 0, 0)))).
Definition sha3 (bits : Sha3.Sha3Bits) : object :=
  mkObject [] (OfSha3 (Sha3.Sha3 bits (BlockBuffer.mkState 0 0 (repeat x00 144) []))).
Definition crc32 (polynomial seed : Z) : object :=
  mkObject [] (OfCrc32 (Crc32.Crc32 polynomial seed)).
Definition crc64 (polynomial seed : Z) : object :=
  mkObject [] (OfCrc64 (Crc64.Crc64 polynomial seed)).
Definition xxHash32 (seed : Z) : object :=
  mkObject [] (OfXxHash32 (XxHash32.XxHash32 seed)).
Definition xxHash64 (seed : Z) : object :=
  mkObject [] (OfXxHash64 (XxHash64.XxHash64 seed)).

(** The register files as arrays of words. *)
Definition md5Words (m_hash : Md5.regs) : list Z :=
  let '(h0, h1, h2, h3) := m_hash in [h0; h1; h2; h3].
Definition sha1Words (m_hash : Sha1.regs) : list Z :=
  let '(h0, h1, h2, h3, h4) := m_hash in [h0; h1; h2; h3; h4].
Definition sha256Words (m_hash : Sha256.regs) : list Z :=
  let '(h0, h1, h2, h3, h4, h5, h6, h7) := m_hash in [h0; h1; h2; h3; h4; h5; h6; h7].

(** The bytes of an ASCII text. *)
Definition text (s : string) : list byte := list_byte_of_string s.

End Objects.

(* ------------------------------------------------------------------ *)
(** ** keeg/hashing/checksum/adler32.hpp *)

Module Adler32.
Import endian.

Definition m_hashSize : nat := 32.      (* std::numeric_limits<uint32_t>::digits *)
Definition m_modAdler : Z := 65521.     (* largest prime smaller than 65536 *)
Definition m_nmax : nat := Z.to_nat 5552.

Record state : Type := mkState {
  m_hash : Z                             (* uint32_t *)
}.

Definition hashSize (st : state) : nat := m_hashSize.

Definition initialize (st : state) : state := mkState 1.

(** [Adler32::Adler32()]; the member initializer gives [m_hash = 1]. *)
Definition Adler32 : state := initialize (mkState 1).

(** [DO1(buf,i)  {a += (buf)[i]; b += a;}] on [uint32_t a, b]. *)
Definition DO1 (buf : list byte) (i : nat) (ab : Z * Z) : Z * Z :=
  let '(a, b) := ab in
  let a := u32 (a + byte_to_Z (nth i buf x00)) in
  let b := u32 (b + a) in
  (a, b).

Definition DO2 (buf : list byte) (i : nat) (ab : Z * Z) : Z * Z :=
  DO1 buf (i + 1) (DO1 buf i ab).
Definition DO4 (buf : list byte) (i : nat) (ab : Z * Z) : Z * Z :=
  DO2 buf (i + 2) (DO2 buf i ab).
Definition DO8 (buf : list byte) (i : nat) (ab : Z * Z) : Z * Z :=
  DO4 buf (i + 4) (DO4 buf i ab).
Definition DO16 (buf : list byte) (ab : Z * Z) : Z * Z :=
  DO8 buf 8 (DO8 buf 0 ab).

(** [while (k >= 16) { DO16(current); current += 16; k -= 16; }];
    [fuel] bounds the number of passes. *)
Fixpoint unrolled (fuel : nat) (current : list byte) (k : nat) (ab : Z * Z)
  : list byte * nat * (Z * Z) :=
  match fuel with
  | O => (current, k, ab)
  | S fuel' =>
      if (16 <=? k)%nat
      then unrolled fuel' (skipn 16 current) (k - 16) (DO16 current ab)
      else (current, k, ab)
  end.

(** [if (k != 0) { do { a += *current++; b += a; } while (--k); }] *)
Fixpoint remaining (k : nat) (current : list byte) (ab : Z * Z)
  : list byte * (Z * Z) :=
  match k with
  | O => (current, ab)
  | S k' => remaining k' (skipn 1 current) (DO1 current 0 ab)
  end.

(** [while (length > 0) { k = length < m_nmax ? length : m_nmax;
      length -= k; ...; a %= m_modAdler; b %= m_modAdler; }];
    every pass consumes at least one byte, [fuel] bounds their number. *)
Fixpoint blocks (fuel : nat) (current : list byte) (length : nat) (ab : Z * Z)
  : Z * Z :=
  match fuel with
  | O => ab
  | S fuel' =>
      if (0 <? length)%nat
      then
        let k := if (length <? m_nmax)%nat then length else m_nmax in
        let length := (length - k)%nat in
        let '(current, k, ab) := unrolled k current k ab in
        let '(current, ab) := remaining k current ab in
        let '(a, b) := ab in
        blocks fuel' current length (a mod m_modAdler, b mod m_modAdler)
      else ab
  end.

(** [Adler32::hashCore]; [None] is the null data pointer. *)
Definition hashCore (st : state) (data : option (list byte)) : state :=
  let a := Z.land (m_hash st) 65535 in
  let b := Z.land (Z.shiftr (m_hash st) 16) 65535 in
  match data with
  | None => mkState 1
  | Some current =>
      if (length current =? 1)%nat
      then
        let a := u32 (a + byte_to_Z (nth 0 current x00)) in
        let a := if m_modAdler <=? a then u32 (a - m_modAdler) else a in
        let b := u32 (b + a) in
        let b := if m_modAdler <=? b then u32 (b - m_modAdler) else b in
        mkState (Z.lor a (u32 (Z.shiftl b 16)))
      else
        let '(a, b) := blocks (length current) current (length current) (a, b) in
        mkState (Z.lor a (u32 (Z.shiftl b 16)))
  end.

Definition hashFinal (st : state) : state * list byte :=
  let data := native_to_big32 (m_hash st) in
  (st, native_bytes 4 data).

End Adler32.

(* ------------------------------------------------------------------ *)
(** ** keeg/hashing/noncryptographic/djb2hash32.hpp *)

Module Djb2Hash32.
Import endian.

Definition DJB2_DEFAULT_SEED : Z := 5381.
Definition m_hashSize : nat := 32.

Record state : Type := mkState {
  m_defaultSeed : Z;                     (* uint32_t *)
  m_hash : Z                             (* uint32_t *)
}.

Definition hashSize (st : state) : nat := m_hashSize.

Definition initialize (st : state) : state :=
  mkState (m_defaultSeed st) (m_defaultSeed st).

(** [Djb2Hash32::Djb2Hash32(defaultSeed)]; the argument is [uint32_t]. *)
Definition Djb2Hash32 (defaultSeed : Z) : state :=
  initialize (mkState (u32 defaultSeed) 0).

(** [m_hash = ((m_hash << 5) + m_hash) + *current;] *)
Definition step (m_hash : Z) (current : byte) : Z :=
  u32 (u32 (u32 (Z.shiftl m_hash 5) + m_hash) + byte_to_Z current).

Definition hashCore (st : state) (data : list byte) : state :=
  mkState (m_defaultSeed st) (fold_left step data (m_hash st)).

Definition hashFinal (st : state) : state * list byte :=
  let data := native_to_big32 (m_hash st) in
  (st, native_bytes 4 data).

End Djb2Hash32.

(* ------------------------------------------------------------------ *)
(** ** keeg/hashing/noncryptographic/sdbmhash32.hpp *)

Module SDBMHash32.
Import endian.

Definition m_hashSize : nat := 32.

Record state : Type := mkState {
  m_hash : Z                             (* uint32_t *)
}.

Definition hashSize (st : state) : nat := m_hashSize.

Definition initialize (st : state) : state := mkState 0.

Definition SDBMHash32 : state := initialize (mkState 0).

(** [m_hash = current[i] + (m_hash << 6) + (m_hash << 16) - m_hash;] *)
Definition step (m_hash : Z) (current : byte) : Z :=
  u32 (u32 (u32 (byte_to_Z current + u32 (Z.shiftl m_hash 6))
            + u32 (Z.shiftl m_hash 16))
       - m_hash).

Definition hashCore (st : state) (data : list byte) : state :=
  mkState (fold_left step data (m_hash st)).

Definition hashFinal (st : state) : state * list byte :=
  let data := native_to_big32 (m_hash st) in
  (st, native_bytes 4 data).

End SDBMHash32.

(* ------------------------------------------------------------------ *)
(** ** keeg/hashing/noncryptographic/bkdrhash32.hpp *)

Module BKDRHash32.
Import endian.

Definition m_hashSize : nat := 32.

Record state : Type := mkState {
  m_seed : Z;                            (* uint32_t *)
  m_hash : Z                             (* uint32_t *)
}.

Definition hashSize (st : state) : nat := m_hashSize.

Definition initialize (st : state) : state := mkState (m_seed st) 0.

(** [BKDRHash32::BKDRHash32(seed = 131)]; the argument is [uint32_t]. *)
Definition BKDRHash32 (seed : Z) : state := initialize (mkState (u32 seed) 0).

(** [m_hash = (m_hash * m_seed) + current[i];] *)
Definition step (m_seed m_hash : Z) (current : byte) : Z :=
  u32 (u32 (m_hash * m_seed) + byte_to_Z current).

(** [for (uint32_t i = 0; i < dataLength; ++i)]: the counter is a
    [uint32_t] and wraps, the bound is a [size_t].  [None] when [fuel]
    passes do not end the loop. *)
Fixpoint loop (fuel : nat) (i : Z) (current : list byte) (m_seed m_hash : Z)
  : option Z :=
  match fuel with
  | O => None
  | S fuel' =>
      if i <? Z.of_nat (length current)
      then loop fuel' (u32 (i + 1)) current m_seed
             (step m_seed m_hash (nth (Z.to_nat i) current x00))
      else Some m_hash
  end.

Definition hashCore (fuel : nat) (st : state) (data : list byte) : option state :=
  match loop fuel 0 data (m_seed st) (m_hash st) with
  | Some h => Some (mkState (m_seed st) h)
  | None => None
  end.

Definition hashFinal (st : state) : state * list byte :=
  let data := native_to_big32 (m_hash st) in
  (st, native_bytes 4 data).

End BKDRHash32.

(* ------------------------------------------------------------------ *)
(** ** keeg/hashing/noncryptographic/joaathash32.hpp *)

Module JOAATHash32.
Import endian.

Definition m_hashSize : nat := 32.

Record state : Type := mkState {
  m_hash : Z                             (* uint32_t *)
}.

Definition hashSize (st : state) : nat := m_hashSize.

Definition initialize (st : state) : state := mkState 0.

Definition JOAATHash32 : state := initialize (mkState 0).

(** [m_hash += *current; m_hash += (m_hash << 10); m_hash ^= (m_hash >> 6);] *)
Definition step (m_hash : Z) (current : byte) : Z :=
  let m_hash := u32 (m_hash + byte_to_Z current) in
  let m_hash := u32 (m_hash + u32 (Z.shiftl m_hash 10)) in
  Z.lxor m_hash (Z.shiftr m_hash 6).

Definition hashCore (st : state) (data : list byte) : state :=
  mkState (fold_left step data (m_hash st)).

(** [m_hash += (m_hash << 3); m_hash ^= (m_hash >> 11);
     m_hash += (m_hash << 15);] then the big-endian bytes. *)
Definition hashFinal (st : state) : state * list byte :=
  let m_hash := m_hash st in
  let m_hash := u32 (m_hash + u32 (Z.shiftl m_hash 3)) in
  let m_hash := Z.lxor m_hash (Z.shiftr m_hash 11) in
  let m_hash := u32 (m_hash + u32 (Z.shiftl m_hash 15)) in
  let data := native_to_big32 m_hash in
  (mkState m_hash, native_bytes 4 data).

End JOAATHash32.

(* ------------------------------------------------------------------ *)
(** ** keeg/hashing/noncryptographic/jshash32.hpp *)

Module JSHash32.
Import endian.

Definition m_hashSize : nat := 32.
Definition m_seed : Z := 1315423911.

Record state : Type := mkState {
  m_hash : Z                             (* uint32_t *)
}.

Definition hashSize (st : state) : nat := m_hashSize.

Definition initialize (st : state) : state := mkState m_seed.

Definition JSHash32 : state := initialize (mkState 0).

(** [m_hash ^= ((m_hash << 5) + *current + (m_hash >> 2));] *)
Definition step (m_hash : Z) (current : byte) : Z :=
  Z.lxor m_hash
    (u32 (u32 (u32 (Z.shiftl m_hash 5) + byte_to_Z current) + Z.shiftr m_hash 2)).

Definition hashCore (st : state) (data : list byte) : state :=
  mkState (fold_left step data (m_hash st)).

Definition hashFinal (st : state) : state * list byte :=
  let data := native_to_big32 (m_hash st) in
  (st, native_bytes 4 data).

End JSHash32.

(* ------------------------------------------------------------------ *)
(** ** keeg/hashing/noncryptographic/pjwhash32.hpp *)

Module PJWHash32.
Import endian.

Definition m_hashSize : nat := 32.
Definition BitsInUnsignedInt : Z := u32 (Z.of_nat m_hashSize).
Definition ThreeQuarters : Z := u32 ((BitsInUnsignedInt * 3) / 4).
Definition OneEighth : Z := u32 (BitsInUnsignedInt / 8).
Definition HighBits : Z := u32 (Z.shiftl 4294967295 (BitsInUnsignedInt - OneEighth)).

Record state : Type := mkState {
  m_hash : Z                             (* uint32_t *)
}.

Definition hashSize (st : state) : nat := m_hashSize.

Definition initialize (st : state) : state := mkState 0.

Definition PJWHash32 : state := initialize (mkState 0).

(** [m_hash = (m_hash << OneEighth) + *current;
     if ((test = m_hash & HighBits) != 0)
       m_hash = ((m_hash ^ (test >> ThreeQuarters)) & (~HighBits));] *)
Definition step (m_hash : Z) (current : byte) : Z :=
  let m_hash := u32 (u32 (Z.shiftl m_hash OneEighth) + byte_to_Z current) in
  let test := Z.land m_hash HighBits in
  if negb (test =? 0)
  then Z.land (Z.lxor m_hash (Z.shiftr test ThreeQuarters)) (not32 HighBits)
  else m_hash.

Definition hashCore (st : state) (data : list byte) : state :=
  mkState (fold_left step data (m_hash st)).

Definition hashFinal (st : state) : state * list byte :=
  let data := native_to_big32 (m_hash st) in
  (st, native_bytes 4 data).

End PJWHash32.

(* ------------------------------------------------------------------ *)
(** ** keeg/hashing/noncryptographic/aphash32.hpp *)

Module APHash32.
Import endian.

Definition m_hashSize : nat := 32.
Definition m_seed : Z := 0xAAAAAAAA.

Record state : Type := mkState {
  m_hash : Z                             (* uint32_t *)
}.

Definition hashSize (st : state) : nat := m_hashSize.

Definition initialize (st : state) : state := mkState m_seed.

Definition APHash32 : state := initialize (mkState 0).

(** [m_hash ^= ((i & 0x01) == 0)
        ? (  (m_hash <<  7) ^ *current ^ (m_hash >> 3))
        : (~((m_hash << 11) ^ *current ^ (m_hash >> 5)));] *)
Definition step (i : nat) (m_hash : Z) (current : byte) : Z :=
  Z.lxor m_hash
    (if (Nat.land i 1 =? 0)%nat
     then Z.lxor (Z.lxor (u32 (Z.shiftl m_hash 7)) (byte_to_Z current))
                 (Z.shiftr m_hash 3)
     else not32 (Z.lxor (Z.lxor (u32 (Z.shiftl m_hash 11)) (byte_to_Z current))
                        (Z.shiftr m_hash 5))).

(** [for (std::size_t i = 0; i < dataLength; ++current, ++i)], from
    index [i] on. *)
Fixpoint loop (i : nat) (current : list byte) (m_hash : Z) : Z :=
  match current with
  | [] => m_hash
  | c :: rest => loop (S i) rest (step i m_hash c)
  end.

Definition hashCore (st : state) (data : list byte) : state :=
  mkState (loop 0 data (m_hash st)).

Definition hashFinal (st : state) : state * list byte :=
  let data := native_to_big32 (m_hash st) in
  (st, native_bytes 4 data).

End APHash32.

(* ------------------------------------------------------------------ *)
(** ** keeg/hashing/noncryptographic/fnv.hpp, fnv1ahash.hpp
    ([FNV_USE_BOOST] is 0: the widths are 32 and 64 bits) *)

Module Fnv.
Import endian.

(** [calcFnv1Hash<T>]: [hashValue = (fnvPrime * hashValue) ^ *current];
    [wrap] is the wrap-around of [T]. *)
Definition calcFnv1Hash (wrap : Z -> Z) (data : list byte) (fnvPrime hashValue : Z) : Z :=
  fold_left (fun hashValue current =>
               Z.lxor (wrap (fnvPrime * hashValue)) (byte_to_Z current))
            data hashValue.

(** [calcFnv1aHash<T>]: [hashValue = ( *current ^ hashValue) * fnvPrime]. *)
Definition calcFnv1aHash (wrap : Z -> Z) (data : list byte) (fnvPrime hashValue : Z) : Z :=
  fold_left (fun hashValue current =>
               wrap (Z.lxor (byte_to_Z current) hashValue * fnvPrime))
            data hashValue.

Inductive FnvBits : Type := Bits32 | Bits64.

Definition enumToIntegral (bits : FnvBits) : nat :=
  match bits with Bits32 => 32 | Bits64 => 64 end.

Definition fnvPrime32 : Z := 16777619.
Definition offsetBasis32 : Z := 2166136261.
Definition fnvPrime64 : Z := 1099511628211.
Definition offsetBasis64 : Z := 14695981039346656037.

Record state : Type := mkState {
  m_bits : FnvBits;
  m_hash32 : Z;                          (* uint32_t *)
  m_hash64 : Z                           (* uint64_t *)
}.

Definition hashSize (st : state) : nat := enumToIntegral (m_bits st).

(** [FnvBase::initialize]: only the hash of the chosen width is set. *)
Definition initialize (st : state) : state :=
  match m_bits st with
  | Bits32 => mkState (m_bits st) offsetBasis32 (m_hash64 st)
  | Bits64 => mkState (m_bits st) (m_hash32 st) offsetBasis64
  end.

(** [FnvBase::FnvBase(bits)], over the members as they happen to be. *)
Definition FnvBase (bits : FnvBits) (raw32 raw64 : Z) : state :=
  initialize (mkState bits raw32 raw64).

(** [Fnv1aHash::hashCore] *)
Definition hashCore (st : state) (data : list byte) : state :=
  match m_bits st with
  | Bits32 =>
      mkState (m_bits st) (calcFnv1aHash u32 data fnvPrime32 (m_hash32 st)) (m_hash64 st)
  | Bits64 =>
      mkState (m_bits st) (m_hash32 st) (calcFnv1aHash u64 data fnvPrime64 (m_hash64 st))
  end.

(** [FnvBase::hashFinal]: a vector of [byteSize] zero bytes, overwritten
    by the first [byteSize] bytes of the big-endian word. *)
Definition hashFinal (st : state) : state * list byte :=
  let byteSize := (hashSize st / 8)%nat in
  let v := repeat x00 byteSize in
  match m_bits st with
  | Bits32 =>
      let data32 := native_to_big32 (m_hash32 st) in
      (st, write_bytes v 0 (native_bytes byteSize data32))
  | Bits64 =>
      let data64 := native_to_big64 (m_hash64 st) in
      (st, write_bytes v 0 (native_bytes byteSize data64))
  end.

End Fnv.

(* ------------------------------------------------------------------ *)
(** ** Reference definitions for the byte-at-a-time classes *)

Module Reference.

(** Adler-32 by its definition: [a] is one plus the sum of the bytes and
    [b] the sum of the successive values of [a], both modulo 65521. *)
Definition adlerStep (ab : Z * Z) (c : byte) : Z * Z :=
  let '(a, b) := ab in
  let a := (a + byte_to_Z c) mod 65521 in
  (a, (b + a) mod 65521).

Definition adler (data : list byte) (ab : Z * Z) : Z * Z :=
  fold_left adlerStep data ab.

(** The same sums without any reduction. *)
Definition adlerRawStep (ab : Z * Z) (c : byte) : Z * Z :=
  let '(a, b) := ab in
  (a + byte_to_Z c, b + (a + byte_to_Z c)).

Definition adlerRaw (data : list byte) (ab : Z * Z) : Z * Z :=
  fold_left adlerRawStep data ab.

(** The two sums held in an Adler-32 hash word, and the word of two sums. *)
Definition adlerSums (st : Adler32.state) : Z * Z :=
  (Z.land (Adler32.m_hash st) 65535, Z.land (Z.shiftr (Adler32.m_hash st) 16) 65535).

Definition adlerWord (ab : Z * Z) : Z := fst ab + 65536 * snd ab.

(** Both sums reduced, in a 32-bit word. *)
Definition adlerValid (st : Adler32.state) : Prop :=
  0 <= Adler32.m_hash st < 4294967296 /\
  fst (adlerSums st) < 65521 /\ snd (adlerSums st) < 65521.

(** The polynomial hash with multiplier [k], over the integers:
    Horner's rule from the start value [h]. *)
Definition poly (k : Z) (h : Z) (data : list byte) : Z :=
  fold_left (fun h c => k * h + byte_to_Z c) data h.

End Reference.

(* ------------------------------------------------------------------ *)
(** ** Objects that compute the same function *)

Module Reuse.
Import HashAlgorithm.

(** Two objects of the same class with the same parameters: the width
    of a Sha3, the polynomial and seed of a Crc32 or Crc64, the seed of
    an XxHash32 or XxHash64. *)
Definition sameAlgorithm (o o' : object) : Prop :=
  match self o, self o' with
  | OfMd5 _, OfMd5 _ => True
  | OfSha1 _, OfSha1 _ => True
  | OfSha256 _, OfSha256 _ => True
  | OfSha3 st, OfSha3 st' => Sha3.m_bits st = Sha3.m_bits st'
  | OfCrc32 st, OfCrc32 st' =>
      Crc32.m_polynomial st = Crc32.m_polynomial st' /\ Crc32.m_seed st = Crc32.m_seed st'
  | OfCrc64 st, OfCrc64 st' =>
      Crc64.m_polynomial st = Crc64.m_polynomial st' /\ Crc64.m_seed st = Crc64.m_seed st'
  | OfXxHash32 st, OfXxHash32 st' => XxHash32.m_seed st = XxHash32.m_seed st'
  | OfXxHash64 st, OfXxHash64 st' => XxHash64.m_seed st = XxHash64.m_seed st'
  | _, _ => False
  end.

End Reuse.

(* ------------------------------------------------------------------ *)
(** ** keeg/endian/conversion.hpp: the conversions between byte orders

    The templates are taken at an unsigned type [T] of [n = sizeof(T)]
    bytes, whose values are the integers of [0, 2^(8n)). *)

Module Conversion.
Import endian.

(** [enum class Order { big, little, native = little }] on this host:
    [native] is another name of [little]. *)
Inductive Order : Type := big | little.
Definition native : Order := little.

(** [boost::endian::endian_reverse]: the word whose bytes in memory are
    those of [x] in reverse order. *)
Definition endian_reverse (n : nat) (x : Z) : Z := native_word (rev (native_bytes n x)).

(** [big_to_native], [native_to_big], [little_to_native], [native_to_little]
    forward to [boost::endian]: on the little-endian host the first two
    reverse the bytes and the last two return their argument. *)
Definition big_to_native (n : nat) (x : Z) : Z := endian_reverse n x.
Definition native_to_big (n : nat) (x : Z) : Z := endian_reverse n x.
Definition little_to_native (n : nat) (x : Z) : Z := x.
Definition native_to_little (n : nat) (x : Z) : Z := x.

(** [swap(uint16_t)], by its portable definition [(x >> 8) | (x << 8)],
    returned as a [uint16_t]. *)
Definition swap16 (x : Z) : Z := Z.lor (Z.shiftr x 8) (Z.shiftl x 8) mod 65536.

(** [integralToBytes<T>(source, destination)]:
    [T data = native_to_big(source); destination.clear();
     destination.insert(end, src, src + sizeof(T));] *)
Definition integralToBytes (n : nat) (source : Z) (destination : list byte) : list byte :=
  let data := native_to_big n source in
  let destination : list byte := [] in
  destination ++ native_bytes n data.

(** [bytesToIntegral<T>(source, index, destination)]:
    [destination = big_to_native( *reinterpret_cast<const T*>(&source[index]))];
    the read takes the [sizeof(T)] bytes from [index] on. *)
Definition bytesToIntegral (n : nat) (source : list byte) (index : nat) : Z :=
  big_to_native n (native_word (firstn n (skipn index source))).

(** [convertToEndian<T>(data, endian)] *)
Definition convertToEndian (n : nat) (data : Z) (endian : Order) : Z :=
  match endian with
  | big => native_to_big n data
  | little => native_to_little n data
  end.

(** [convertFromEndian<T>(data, endian)] *)
Definition convertFromEndian (n : nat) (data : Z) (endian : Order) : Z :=
  match endian with
  | big => big_to_native n data
  | little => little_to_native n data
  end.

End Conversion.

(* ------------------------------------------------------------------ *)
(** ** keeg/io/binarywriters.hpp, keeg/io/binaryreaders.hpp

    A [std::string] is the list of its bytes.  The input streams are the
    streams of [HashAlgorithm].  An output stream is modelled over a sink
    that accepts every byte (a [std::ostringstream], a file on a healthy
    device): a write of bytes fails only on a stream that has already
    failed.  No stream has exceptions enabled, and the strings built fit
    in memory: the one [catch] clause that is entered is that of
    [readBytes], whose vector is resized to a size the caller chooses.  A
    [std::size_t] that the caller chooses is a [Z] below [2 ^ 64] and its
    arithmetic wraps; the size of an object in memory and a number of
    bytes transferred are [nat]. *)

Module IO.
Import endian Conversion HashAlgorithm.

(** *** The collaborators *)

Record ostream : Type := mkOut {
  sink : list byte;                      (* the bytes written so far *)
  failed : bool                          (* failbit or badbit *)
}.

(** [outstream.write(p, n)] with the [n] bytes at [p]. *)
Definition write (s : ostream) (bytes : list byte) : ostream :=
  if failed s then s else mkOut (sink s ++ bytes) false.

(** A [std::stringstream]: its character sequence and its put position.
    [std::stringstream ss{data}] opens [in | out] without [ate]: the
    sequence is [data] and the put position is at its beginning, so that
    the next insertion overwrites. *)
Record stringstream : Type := mkStringStream {
  str : list byte;
  pptr : nat
}.

Definition stringstream_of (data : list byte) : stringstream := mkStringStream data 0.

(** [ss << c]: the character goes to the put position, over the
    character that is there or at the end of the sequence. *)
Definition put (ss : stringstream) (c : byte) : stringstream :=
  if (pptr ss <? length (str ss))%nat
  then mkStringStream (upd (str ss) (pptr ss) c) (S (pptr ss))
  else mkStringStream (str ss ++ [c]) (S (pptr ss)).

(** [v.resize(k)] on a vector of bytes or a string: cut, or filled with
    zero bytes. *)
Definition resize (v : list byte) (k : nat) : list byte :=
  firstn k v ++ repeat x00 (k - length v).

(** [static_cast<T>(z)] to an unsigned [T] of [n] bytes. *)
Definition wrap (n : nat) (z : Z) : Z := z mod 2 ^ (8 * Z.of_nat n).

(** An input stream at the beginning of [bytes], in good state
    (a [std::istringstream], a file just opened). *)
Definition source (bytes : list byte) : istream :=
  mkStream bytes 0 None true false false false.

(** [std::vector<uint8_t>::max_size()], which is [PTRDIFF_MAX]; it is
    also the largest [std::streamsize]. *)
Definition max_size : Z := 2 ^ 63 - 1.

(** *** binarywriters.hpp *)

(** [writeIntType<T>(outstream, data, endian)] *)
Definition writeIntType (n : nat) (outstream : ostream) (data : Z) (endian : Order)
  : ostream * nat :=
  if negb (failed outstream)
  then
    let buffer := convertToEndian n data endian in
    let outstream := write outstream (native_bytes n buffer) in
    (outstream, n)
  else (outstream, 0%nat).

(** [writePrefixString<T>(outstream, data, endian, isNullTerminated)] *)
Definition writePrefixString (n : nat) (outstream : ostream) (data : list byte)
    (endian : Order) (isNullTerminated : bool) : ostream * nat :=
  if negb (failed outstream)
  then
    let ss := stringstream_of data in
    let ss := if isNullTerminated then put ss x00 else ss in
    let size := wrap n (Z.of_nat (length (str ss))) in
    let '(outstream, written) := writeIntType n outstream size endian in
    if (0 <? written)%nat
    then
      let outstream := write outstream (firstn (Z.to_nat size) (str ss)) in
      (outstream, (Z.to_nat size + n)%nat)
    else (outstream, 0%nat)
  else (outstream, 0%nat).

(** [writeBytes(outstream, data, length, index)].  The guard adds two
    [std::size_t]: when the sum wraps around, the guard can hold although
    the [length] bytes from [index] on do not lie within the vector.
    Then either [length] is beyond [max_size], and [write] is given a
    negative count: libstdc++ inserts nothing and sets badbit; or [write]
    reads the bytes outside the vector, which the language leaves
    undefined: the result is [None]. *)
Definition writeBytes (outstream : ostream) (data : list byte) (length index : Z)
  : option (ostream * nat) :=
  if negb (failed outstream) && (u64 (length + index) <=? Z.of_nat (Datatypes.length data))
  then
    if length + index <=? Z.of_nat (Datatypes.length data)
    then
      let outstream :=
        write outstream (firstn (Z.to_nat length) (skipn (Z.to_nat index) data)) in
      if negb (failed outstream)
      then Some (outstream, Z.to_nat length)
      else Some (outstream, 0%nat)
    else if max_size <? length
    then Some (mkOut (sink outstream) true, 0%nat)
    else None
  else Some (outstream, 0%nat).

Definition writeBString (outstream : ostream) (data : list byte) (endian : Order) :=
  writePrefixString 1 outstream data endian false.
Definition writeBZString (outstream : ostream) (data : list byte) (endian : Order) :=
  writePrefixString 1 outstream data endian true.
Definition writeWString (outstream : ostream) (data : list byte) (endian : Order) :=
  writePrefixString 2 outstream data endian false.
Definition writeWZString (outstream : ostream) (data : list byte) (endian : Order) :=
  writePrefixString 2 outstream data endian true.

(** [writeZString(outstream, data)] *)
Definition writeZString (outstream : ostream) (data : list byte) : ostream * nat :=
  if negb (failed outstream)
  then
    let ss := stringstream_of data in
    let ss := put ss x00 in
    let outstream := write outstream (str ss) in
    (outstream, length (str ss))
  else (outstream, 0%nat).

(** *** binaryreaders.hpp *)

(** [readIntType<T>(instream, data, endian)]: the stream, [data] and the
    value returned.  The bytes extracted are stored into [data] also when
    they are fewer than [sizeof(T)]. *)
Definition readIntType (n : nat) (instream : istream) (data : Z) (endian : Order)
  : istream * Z * nat :=
  if negb (fail instream)
  then
    let '(instream, chunk, gcount) := read instream (Z.of_nat n) in
    let data := native_word (chunk ++ skipn (length chunk) (native_bytes n data)) in
    if negb (fail instream)
    then (instream, convertToEndian n data endian, gcount)
    else (instream, data, 0%nat)
  else (instream, data, 0%nat).

(** [data.erase(std::remove(begin, end, '\0'), end)] *)
Definition removeNulls (data : list byte) : list byte :=
  filter (fun c => negb (Byte.eqb c x00)) data.

(** [readPrefixString<T>(instream, data, endian, isNullTerminated)]; the
    local [size] starts at [size0]. *)
Definition readPrefixString (n : nat) (size0 : Z) (instream : istream) (data : list byte)
    (endian : Order) (isNullTerminated : bool) : istream * list byte * nat :=
  if negb (fail instream)
  then
    let '(instream, size, extracted) := readIntType n instream size0 endian in
    if (0 <? extracted)%nat
    then
      let data := resize data (Z.to_nat size) in
      let '(instream, chunk, gcount) := read instream size in
      let data := chunk ++ skipn (length chunk) data in
      let data := if isNullTerminated then removeNulls data else data in
      (instream, data, (gcount + n)%nat)
    else (instream, data, 0%nat)
  else (instream, data, 0%nat).

(** [readBytes(instream, data, length, index)].  The vector is extended
    to the sum of two [std::size_t].  [available] is the largest size the
    vector can be given, [max_size] at most and less when memory is
    short: [resize] to more throws ([std::length_error],
    [std::bad_alloc]) and the [catch] clause returns 0.  When the sum
    wraps around, the vector is left shorter than [index + length].  Then
    either [length] is beyond [max_size], and [read] is given a negative
    count: libstdc++ extracts nothing and sets eofbit and failbit; or
    [read] stores the bytes outside the vector, which the language leaves
    undefined: the result is [None]. *)
Definition readBytes (available : Z) (instream : istream) (data : list byte)
    (length index : Z) : option (istream * list byte * nat) :=
  if negb (fail instream)
  then
    let sum := u64 (length + index) in
    if (Z.of_nat (Datatypes.length data) <? sum) && (available <? sum)
    then Some (instream, data, 0%nat)
    else
      let data := if Z.of_nat (Datatypes.length data) <? sum
                  then resize data (Z.to_nat sum) else data in
      if length + index <=? Z.of_nat (Datatypes.length data)
      then
        let '(instream, chunk, gcount) := read instream length in
        let data := write_bytes data (Z.to_nat index) chunk in
        if negb (fail instream)
        then Some (instream, data, gcount)
        else Some (instream, data, 0%nat)
      else if max_size <? length
      then Some (mkStream (content instream) (position instream) (errorAt instream)
                   (seekable instream) true true (badbit instream), data, 0%nat)
      else None
  else Some (instream, data, 0%nat).

Definition readBString (size0 : Z) (instream : istream) (data : list byte) (endian : Order) :=
  readPrefixString 1 size0 instream data endian false.
Definition readBZString (size0 : Z) (instream : istream) (data : list byte) (endian : Order) :=
  readPrefixString 1 size0 instream data endian true.
Definition readWString (size0 : Z) (instream : istream) (data : list byte) (endian : Order) :=
  readPrefixString 2 size0 instream data endian false.
Definition readWZString (size0 : Z) (instream : istream) (data : list byte) (endian : Order) :=
  readPrefixString 2 size0 instream data endian true.

(** [while (instream.read(&c, sizeof(char))) { if (c != '\0') ss << c;
      else break; }]; every pass extracts a character, [fuel] bounds
    their number. *)
Fixpoint readZLoop (fuel : nat) (instream : istream) (ss : stringstream)
  : istream * stringstream :=
  match fuel with
  | O => (instream, ss)
  | S fuel' =>
      let '(instream, chunk, _) := read instream 1 in
      if negb (fail instream)
      then
        let c := nth 0 chunk x00 in
        if negb (Byte.eqb c x00)
        then readZLoop fuel' instream (put ss c)
        else (instream, ss)
      else (instream, ss)
  end.

(** [readZString(instream, data)] *)
Definition readZString (instream : istream) (data : list byte)
  : istream * list byte * nat :=
  if negb (fail instream)
  then
    let '(instream, ss) :=
      readZLoop (S (length (content instream))) instream (stringstream_of []) in
    let data := str ss in
    (instream, data, (length data + 1)%nat)
  else (instream, data, 0%nat).

End IO.
(* ------------------------------------------------------------------ *)
(** ** Facts on bytes and arrays *)

Lemma byte_to_Z_range (b : byte) : 0 <= byte_to_Z b < 256.
Proof.
  unfold byte_to_Z. pose proof (Byte.to_N_bounded b). lia.
Qed.

Lemma byte_to_Z_to_byte (z : Z) : byte_to_Z (Z_to_byte z) = z mod 256.
Proof.
  unfold byte_to_Z, Z_to_byte.
  assert (Hr : 0 <= z mod 256 < 256) by (apply Z.mod_pos_bound; lia).
  destruct (Byte.of_N (Z.to_N (z mod 256))) as [b|] eqn:E.
  - apply Byte.to_of_N in E. rewrite E. lia.
  - apply Byte.of_N_None_iff in E. lia.
Qed.

Lemma Z_to_byte_to_Z (b : byte) : Z_to_byte (byte_to_Z b) = b.
Proof.
  unfold Z_to_byte, byte_to_Z.
  pose proof (Byte.to_N_bounded b) as Hb.
  rewrite Z.mod_small by lia.
  rewrite N2Z.id, Byte.of_to_N. reflexivity.
Qed.

Lemma length_upd {A} (l : list A) i v : length (upd l i v) = length l.
Proof.
  revert i; induction l as [|h t IH]; intros [|i]; simpl; auto.
Qed.

Lemma upd_split {A} (l : list A) i v :
  (i < length l)%nat -> upd l i v = firstn i l ++ v :: skipn (S i) l.
Proof.
  revert i; induction l as [|h t IH]; intros [|i] H; simpl in *; try lia; auto.
  f_equal. apply IH. lia.
Qed.

Lemma firstn_upd_ge {A} (l : list A) i v n :
  (n <= i)%nat -> firstn n (upd l i v) = firstn n l.
Proof.
  revert i n; induction l as [|h t IH]; intros [|i] [|n] H; simpl; auto; try lia.
  f_equal. apply IH. lia.
Qed.

Lemma firstn_S_upd {A} (l : list A) i v :
  (i < length l)%nat -> firstn (S i) (upd l i v) = firstn i l ++ [v].
Proof.
  revert i; induction l as [|h t IH]; intros [|i] H; simpl in *; try lia; auto.
  f_equal. apply IH. lia.
Qed.

Lemma length_write_bytes l pos bs : length (write_bytes l pos bs) = length l.
Proof.
  revert l pos; induction bs as [|b bs IH]; intros; simpl; auto.
  rewrite IH. apply length_upd.
Qed.

Lemma firstn_write_bytes_ge l pos bs n :
  (n <= pos)%nat -> firstn n (write_bytes l pos bs) = firstn n l.
Proof.
  revert l pos; induction bs as [|b bs IH]; intros; simpl; auto.
  rewrite IH by lia. apply firstn_upd_ge. lia.
Qed.

Lemma skipn_upd_lt {A} (l : list A) i v n :
  (i < n)%nat -> skipn n (upd l i v) = skipn n l.
Proof.
  revert i n; induction l as [|h t IH]; intros [|i] [|n] H; simpl; auto; try lia.
  apply IH. lia.
Qed.

Lemma write_bytes_split l pos bs :
  (pos + length bs <= length l)%nat ->
  write_bytes l pos bs = firstn pos l ++ bs ++ skipn (pos + length bs) l.
Proof.
  revert l pos; induction bs as [|b bs IH]; intros l pos H; simpl in *.
  - rewrite Nat.add_0_r. symmetry. apply firstn_skipn.
  - rewrite IH by (rewrite length_upd; lia).
    rewrite firstn_S_upd, skipn_upd_lt by lia.
    rewrite <- app_assoc. cbn [app].
    do 4 f_equal. lia.
Qed.

Lemma length_fill_zero l i count : length (fill_zero l i count) = length l.
Proof.
  revert l i; induction count as [|c IH]; intros; simpl; auto.
  rewrite IH. apply length_upd.
Qed.

Lemma fill_zero_split l i count :
  (i + count <= length l)%nat ->
  fill_zero l i count = firstn i l ++ repeat x00 count ++ skipn (i + count) l.
Proof.
  revert l i; induction count as [|c IH]; intros l i H; simpl.
  - rewrite Nat.add_0_r. symmetry. apply firstn_skipn.
  - rewrite IH by (rewrite length_upd; lia).
    rewrite firstn_S_upd, skipn_upd_lt by lia.
    rewrite <- app_assoc. cbn [app].
    do 4 f_equal. lia.
Qed.

Lemma firstn_app_l {A} (a b : list A) k : length a = k -> firstn k (a ++ b) = a.
Proof.
  intros <-. rewrite firstn_app, Nat.sub_diag, firstn_O, app_nil_r.
  apply firstn_all.
Qed.

Lemma skipn_app_l {A} (a b : list A) k : length a = k -> skipn k (a ++ b) = b.
Proof.
  intros <-. rewrite skipn_app, Nat.sub_diag, skipn_all. reflexivity.
Qed.

Lemma firstn_upd_lt {A} (l : list A) i v k :
  (i < k)%nat -> firstn k (upd l i v) = upd (firstn k l) i v.
Proof.
  revert i k; induction l as [|h t IH]; intros [|i] [|k] H; simpl; auto; try lia.
  f_equal. apply IH. lia.
Qed.

Lemma nth_firstn_lt {A} (l : list A) i k d :
  (i < k)%nat -> nth i (firstn k l) d = nth i l d.
Proof.
  revert i k; induction l as [|h t IH]; intros [|i] [|k] H; simpl; auto; try lia.
  apply IH. lia.
Qed.

(** The buffer after [m_buffer[n] = v] and a zero fill up to [stop]. *)
Lemma marked_zero_filled (buf : list byte) n v stop :
  (n < stop)%nat -> (stop <= length buf)%nat ->
  fill_zero (upd buf n v) (S n) (stop - S n) =
  firstn n buf ++ v :: repeat x00 (stop - S n) ++ skipn stop buf.
Proof.
  intros Hn Hl.
  rewrite fill_zero_split by (rewrite length_upd; lia).
  rewrite firstn_S_upd, skipn_upd_lt by lia.
  rewrite <- app_assoc. cbn [app].
  replace (S n + (stop - S n))%nat with stop by lia.
  reflexivity.
Qed.

(* ------------------------------------------------------------------ *)
(** ** BlockBuffer.hashCore absorbs its input *)

Ltac bb_simpl :=
  cbn [BlockBuffer.push BlockBuffer.m_bufferSize BlockBuffer.m_buffer
       BlockBuffer.m_hash BlockBuffer.m_numBytes fst snd] in *.

Section BlockBufferFacts.
Context {R : Type}.
Variable BLOCK_SIZE : nat.
Variable processBlock : list byte -> R -> R.
Hypothesis BLOCK_SIZE_pos : (0 < BLOCK_SIZE)%nat.

Local Abbreviation absorbBlocks := (Stream.absorbBlocks BLOCK_SIZE processBlock).
Local Abbreviation absorb := (Stream.absorb BLOCK_SIZE processBlock).
Local Abbreviation invariant := (Stream.invariant BLOCK_SIZE).
Local Abbreviation hashCore := (BlockBuffer.hashCore BLOCK_SIZE processBlock).
Local Abbreviation fullBlocks := (BlockBuffer.fullBlocks BLOCK_SIZE processBlock).
Local Abbreviation fillBuffer := (BlockBuffer.fillBuffer BLOCK_SIZE).
Local Abbreviation flushFull := (BlockBuffer.flushFull BLOCK_SIZE processBlock).

Lemma absorbBlocks_short fuel h n l :
  (length l < BLOCK_SIZE)%nat -> absorbBlocks fuel h n l = (h, n, l).
Proof.
  intros H. destruct fuel; simpl; auto.
  destruct (Nat.leb_spec BLOCK_SIZE (length l)); auto; lia.
Qed.

Lemma absorbBlocks_fuel fuel1 fuel2 h n l :
  (length l <= fuel1)%nat -> (length l <= fuel2)%nat ->
  absorbBlocks fuel1 h n l = absorbBlocks fuel2 h n l.
Proof.
  revert fuel2 h n l.
  induction fuel1 as [|f1 IH]; intros fuel2 h n l H1 H2.
  - assert (length l < BLOCK_SIZE)%nat by lia.
    now rewrite !absorbBlocks_short.
  - destruct fuel2 as [|f2].
    + assert (length l < BLOCK_SIZE)%nat by lia.
      now rewrite !absorbBlocks_short.
    + simpl. destruct (Nat.leb_spec BLOCK_SIZE (length l)); auto.
      apply IH; rewrite length_skipn; lia.
Qed.

Lemma absorbBlocks_step fuel h n l :
  (BLOCK_SIZE <= length l)%nat -> (length l <= fuel)%nat ->
  absorbBlocks fuel h n l =
  absorbBlocks (length (skipn BLOCK_SIZE l))
               (processBlock (firstn BLOCK_SIZE l) h)
               (u64 (n + Z.of_nat BLOCK_SIZE)) (skipn BLOCK_SIZE l).
Proof.
  intros Hb Hf. destruct fuel as [|f]; [lia|]. simpl.
  destruct (Nat.leb_spec BLOCK_SIZE (length l)); [|lia].
  apply absorbBlocks_fuel; rewrite ?length_skipn; lia.
Qed.

Lemma absorbBlocks_tail fuel h n l :
  (length l <= fuel)%nat ->
  (length (snd (absorbBlocks fuel h n l)) < BLOCK_SIZE)%nat.
Proof.
  revert h n l; induction fuel as [|f IH]; intros h n l H; simpl.
  - lia.
  - destruct (Nat.leb_spec BLOCK_SIZE (length l)); simpl; auto.
    apply IH. rewrite length_skipn. lia.
Qed.

(** Absorbing is independent of where the input is cut. *)
Lemma absorbBlocks_app fuel l d h n :
  (length l <= fuel)%nat ->
  absorbBlocks (length (l ++ d)) h n (l ++ d) =
  absorb (absorbBlocks fuel h n l) d.
Proof.
  revert l h n; induction fuel as [|f IH]; intros l h n H.
  - destruct l; [|simpl in H; lia]. reflexivity.
  - simpl. destruct (Nat.leb_spec BLOCK_SIZE (length l)) as [Hl|Hl].
    + rewrite absorbBlocks_step by (rewrite length_app; lia).
      rewrite firstn_app, skipn_app.
      replace (BLOCK_SIZE - length l)%nat with 0%nat by lia.
      simpl firstn at 2. simpl skipn at 3. rewrite app_nil_r.
      apply IH. rewrite length_skipn. lia.
    + reflexivity.
Qed.

Lemma absorb_app v d1 d2 :
  absorb (absorb v d1) d2 = absorb v (d1 ++ d2).
Proof.
  destruct v as [[h n] p]. unfold Stream.absorb at 2 3.
  rewrite app_assoc. symmetry. apply absorbBlocks_app. lia.
Qed.

Lemma absorb_nil h n p :
  (length p < BLOCK_SIZE)%nat -> absorb (h, n, p) [] = (h, n, p).
Proof.
  intros H. unfold Stream.absorb. rewrite app_nil_r.
  now apply absorbBlocks_short.
Qed.

Lemma absorb_concat v chunks :
  (length (snd v) < BLOCK_SIZE)%nat ->
  fold_left absorb chunks v = absorb v (concat chunks).
Proof.
  revert v; induction chunks as [|c cs IH]; intros v Hv; simpl.
  - destruct v as [[h n] p]. now rewrite absorb_nil.
  - rewrite IH.
    + apply absorb_app.
    + destruct v as [[h n] p]. unfold Stream.absorb.
      apply absorbBlocks_tail. lia.
Qed.

(** The loops of hashCore, one by one. *)

Lemma fillBuffer_spec (st : BlockBuffer.state R) data :
  (BlockBuffer.m_bufferSize st <= BLOCK_SIZE)%nat ->
  (BLOCK_SIZE <= length (BlockBuffer.m_buffer st))%nat ->
  let k := Nat.min (BLOCK_SIZE - BlockBuffer.m_bufferSize st) (length data) in
  let st' := fst (fillBuffer st data) in
  snd (fillBuffer st data) = skipn k data /\
  BlockBuffer.m_bufferSize st' = (BlockBuffer.m_bufferSize st + k)%nat /\
  firstn (BlockBuffer.m_bufferSize st') (BlockBuffer.m_buffer st') =
    firstn (BlockBuffer.m_bufferSize st) (BlockBuffer.m_buffer st) ++ firstn k data /\
  length (BlockBuffer.m_buffer st') = length (BlockBuffer.m_buffer st) /\
  BlockBuffer.m_hash st' = BlockBuffer.m_hash st /\
  BlockBuffer.m_numBytes st' = BlockBuffer.m_numBytes st.
Proof.
  revert st; induction data as [|b rest IH]; intros st Hs Hb.
  - cbn [BlockBuffer.fillBuffer length fst snd].
    rewrite Nat.min_0_r, Nat.add_0_r, app_nil_r. repeat split; auto.
  - cbn [BlockBuffer.fillBuffer length].
    destruct (Nat.ltb_spec (BlockBuffer.m_bufferSize st) BLOCK_SIZE) as [Hlt|Hge].
    + specialize (IH (BlockBuffer.push st b)).
      bb_simpl. rewrite length_upd in IH.
      destruct IH as (E1 & E2 & E3 & E4 & E5 & E6); try lia.
      replace (Nat.min (BLOCK_SIZE - BlockBuffer.m_bufferSize st) (S (length rest)))
        with (S (Nat.min (BLOCK_SIZE - S (BlockBuffer.m_bufferSize st)) (length rest)))
        by lia.
      rewrite E3, E1, E2, E4, E5, E6.
      rewrite firstn_S_upd by lia. rewrite <- app_assoc.
      cbn [skipn firstn app].
      repeat split; auto; lia.
    + replace (BLOCK_SIZE - BlockBuffer.m_bufferSize st)%nat with 0%nat by lia.
      cbn [Nat.min skipn firstn fst snd]. rewrite Nat.add_0_r, app_nil_r.
      repeat split; auto.
Qed.

Lemma keepRemaining_spec (data : list byte) : forall st : BlockBuffer.state R,
  (BlockBuffer.m_bufferSize st + length data <= length (BlockBuffer.m_buffer st))%nat ->
  let st' := BlockBuffer.keepRemaining st data in
  BlockBuffer.m_bufferSize st' = (BlockBuffer.m_bufferSize st + length data)%nat /\
  firstn (BlockBuffer.m_bufferSize st') (BlockBuffer.m_buffer st') =
    firstn (BlockBuffer.m_bufferSize st) (BlockBuffer.m_buffer st) ++ data /\
  length (BlockBuffer.m_buffer st') = length (BlockBuffer.m_buffer st) /\
  BlockBuffer.m_hash st' = BlockBuffer.m_hash st /\
  BlockBuffer.m_numBytes st' = BlockBuffer.m_numBytes st.
Proof.
  induction data as [|b rest IH]; intros st H; cbn [BlockBuffer.keepRemaining length] in *.
  - rewrite Nat.add_0_r, app_nil_r. repeat split; auto.
  - specialize (IH (BlockBuffer.push st b)).
    bb_simpl. rewrite length_upd in IH.
    destruct IH as (E2 & E3 & E4 & E5 & E6); try lia.
    rewrite E3, E2, E4, E5, E6.
    rewrite firstn_S_upd by lia. rewrite <- app_assoc.
    cbn [app].
    repeat split; auto; lia.
Qed.

Lemma fullBlocks_spec fuel : forall st data,
  let r := fullBlocks fuel st data in
  (BlockBuffer.m_hash (fst r), BlockBuffer.m_numBytes (fst r), snd r) =
    absorbBlocks fuel (BlockBuffer.m_hash st) (BlockBuffer.m_numBytes st) data /\
  BlockBuffer.m_bufferSize (fst r) = BlockBuffer.m_bufferSize st /\
  BlockBuffer.m_buffer (fst r) = BlockBuffer.m_buffer st.
Proof.
  induction fuel as [|f IH]; intros st data; simpl.
  - repeat split; auto.
  - destruct (Nat.leb_spec BLOCK_SIZE (length data)).
    + match goal with
      | |- context [fullBlocks f ?s ?d] => destruct (IH s d) as (E1 & E2 & E3)
      end.
      rewrite E1, E2, E3. repeat split; auto.
    + repeat split; auto.
Qed.

Lemma absorbBlocks_exact fuel h n l :
  length l = BLOCK_SIZE -> (BLOCK_SIZE <= fuel)%nat ->
  absorbBlocks fuel h n l =
  (processBlock l h, u64 (n + Z.of_nat BLOCK_SIZE), []).
Proof.
  intros Hl Hf. rewrite absorbBlocks_step by lia.
  assert (E1 : firstn BLOCK_SIZE l = l) by (rewrite <- Hl; apply firstn_all).
  assert (E2 : skipn BLOCK_SIZE l = []) by (rewrite <- Hl; apply skipn_all).
  rewrite E1, E2. reflexivity.
Qed.

(** hashCore absorbs [data] and keeps the invariant. *)
Lemma hashCore_view (st : BlockBuffer.state R) data :
  invariant st ->
  Stream.view (hashCore st data) = absorb (Stream.view st) data /\
  invariant (hashCore st data) /\
  length (BlockBuffer.m_buffer (hashCore st data)) = length (BlockBuffer.m_buffer st).
Proof.
  intros [Hsz Hcap]. unfold BlockBuffer.hashCore.
  destruct (Nat.ltb_spec 0 (BlockBuffer.m_bufferSize st)) as [Hpos|Hzero].
  - (* some bytes are buffered: fill the buffer first *)
    pose proof (fillBuffer_spec st data ltac:(lia) Hcap) as F.
    cbv zeta in F. destruct (fillBuffer st data) as [st1 rest1].
    bb_simpl. destruct F as (E1 & E2 & E3 & E4 & E5 & E6).
    set (k := Nat.min (BLOCK_SIZE - BlockBuffer.m_bufferSize st) (length data)) in *.
    unfold BlockBuffer.flushFull.
    destruct (Nat.eqb_spec (BlockBuffer.m_bufferSize st1) BLOCK_SIZE) as [Hfull|Hnot].
    + (* the buffer became full *)
      assert (Hk : k = (BLOCK_SIZE - BlockBuffer.m_bufferSize st)%nat) by lia.
      assert (Hblock : firstn BLOCK_SIZE (BlockBuffer.m_buffer st1) =
                       firstn (BlockBuffer.m_bufferSize st) (BlockBuffer.m_buffer st)
                         ++ firstn k data)
        by (rewrite <- Hfull; exact E3).
      assert (Hlen : length (firstn (BlockBuffer.m_bufferSize st) (BlockBuffer.m_buffer st)
                               ++ firstn k data) = BLOCK_SIZE).
      { rewrite length_app, !length_firstn. lia. }
      assert (Habs : absorb (Stream.view st) data =
                     absorb (absorb (Stream.view st) (firstn k data)) (skipn k data)).
      { rewrite absorb_app, firstn_skipn. reflexivity. }
      unfold Stream.view at 2 in Habs.
      unfold Stream.absorb at 3 in Habs.
      rewrite absorbBlocks_exact in Habs by lia.
      rewrite Habs. clear Habs.
      rewrite Hblock, E5, E6, <- E1.
      destruct rest1 as [|b rest].
      * unfold Stream.view. bb_simpl.
        rewrite absorb_nil by (simpl; lia).
        unfold Stream.invariant. bb_simpl. repeat split; auto; lia.
      * set (st2 := BlockBuffer.mkState _ _ _ _).
        pose proof (fullBlocks_spec (length (b :: rest)) st2 (b :: rest)) as F.
        cbv zeta in F. destruct (fullBlocks (length (b :: rest)) st2 (b :: rest)) as [st3 rest3].
        bb_simpl. destruct F as (F1 & F2 & F3).
        pose proof (absorbBlocks_tail (length (b :: rest))
                      (BlockBuffer.m_hash st2) (BlockBuffer.m_numBytes st2) (b :: rest)
                      (le_n _)) as T.
        rewrite <- F1 in T. cbn [snd] in T.
        pose proof (keepRemaining_spec rest3 st3) as K. cbv zeta in K.
        rewrite F2, F3 in K. subst st2. bb_simpl.
        destruct K as (K2 & K3 & K4 & K5 & K6); [lia|].
        unfold Stream.view, Stream.absorb. cbn [app].
        rewrite K3, K5, K6. cbn [firstn app].
        rewrite <- F1.
        unfold Stream.invariant. rewrite K2, K4.
        repeat split; auto; lia.
    + (* all of the input went into the buffer *)
      assert (Hk : k = length data) by lia.
      assert (rest1 = []) by (rewrite E1, Hk; apply skipn_all).
      subst rest1. rewrite Hk, firstn_all in E3.
      rewrite H. unfold Stream.view, Stream.absorb. rewrite E3, E5, E6.
      rewrite absorbBlocks_short by (rewrite length_app, length_firstn; lia).
      unfold Stream.invariant. repeat split; auto; lia.
  - (* the buffer is empty *)
    assert (Hz : BlockBuffer.m_bufferSize st = 0%nat) by lia.
    unfold BlockBuffer.flushFull.
    destruct (Nat.eqb_spec (BlockBuffer.m_bufferSize st) BLOCK_SIZE) as [Hfull|_]; [lia|].
    destruct data as [|b rest].
    + unfold Stream.view. rewrite absorb_nil by (rewrite length_firstn; lia).
      unfold Stream.invariant. repeat split; auto.
    + pose proof (fullBlocks_spec (length (b :: rest)) st (b :: rest)) as F.
      cbv zeta in F. destruct (fullBlocks (length (b :: rest)) st (b :: rest)) as [st3 rest3].
      bb_simpl. destruct F as (F1 & F2 & F3).
      pose proof (absorbBlocks_tail (length (b :: rest))
                    (BlockBuffer.m_hash st) (BlockBuffer.m_numBytes st) (b :: rest)
                    (le_n _)) as T.
      rewrite <- F1 in T. cbn [snd] in T.
      pose proof (keepRemaining_spec rest3 st3) as K. cbv zeta in K.
      rewrite F2, F3 in K.
      destruct K as (K2 & K3 & K4 & K5 & K6); [lia|].
      unfold Stream.view, Stream.absorb.
      rewrite K3, K5, K6, Hz. cbn [firstn app].
      rewrite <- F1.
      unfold Stream.invariant. rewrite K2, K4.
      repeat split; auto; lia.
Qed.

End BlockBufferFacts.

(* ------------------------------------------------------------------ *)
(** ** processBuffer and hashFinal of the Merkle-Damgard classes *)

Lemma paddedLength_spec n :
  (n < 64)%nat ->
  MerkleDamgard.paddedLength n = if (n <=? 55)%nat then 56%nat else 120%nat.
Proof.
  intros H.
  do 64 (destruct n as [|n]; [reflexivity|]). lia.
Qed.

Lemma firstn_repeat_app {A} (x : A) k m l :
  (k <= m)%nat -> firstn k (repeat x m ++ l) = repeat x k.
Proof.
  intros H. rewrite firstn_app, repeat_length.
  replace (k - m)%nat with 0%nat by lia.
  rewrite firstn_O, app_nil_r.
  replace m with (k + (m - k))%nat by lia.
  rewrite repeat_app, firstn_app, repeat_length, Nat.sub_diag, firstn_O, app_nil_r.
  rewrite <- (repeat_length x k) at 1. apply firstn_all.
Qed.

Lemma lengthLittleEndian_length z : length (MerkleDamgard.lengthLittleEndian z) = 8%nat.
Proof. reflexivity. Qed.

Lemma lengthBigEndian_length z : length (MerkleDamgard.lengthBigEndian z) = 8%nat.
Proof. reflexivity. Qed.

Lemma payload_updates chunks :
  Stream.payload (map Stream.Update chunks) = concat chunks.
Proof.
  unfold Stream.payload.
  induction chunks as [|c cs IH]; cbn [map flat_map concat];
    [reflexivity | now rewrite IH].
Qed.

Section MerkleDamgardFacts.
Context {R : Type}.
Variable processBlock : list byte -> R -> R.
Variable lengthBytes : Z -> list byte.
Variable render : R -> list byte.
Hypothesis lengthBytes_length : forall z, length (lengthBytes z) = 8%nat.

Local Abbreviation processBuffer_with :=
  (MerkleDamgard.processBuffer_with processBlock lengthBytes).
Local Abbreviation processBuffer := (MerkleDamgard.processBuffer processBlock lengthBytes).
Local Abbreviation hashFinal := (MerkleDamgard.hashFinal processBlock lengthBytes render).
Local Abbreviation invariant := (Stream.invariant (R := R) MerkleDamgard.BLOCK_SIZE).

(** The buffer after [m_buffer[m_bufferSize] = 128] and the zero fill. *)
Lemma zero_filled (buf : list byte) n :
  (n < 64)%nat -> (64 <= length buf)%nat ->
  fill_zero (upd buf n x80) (S n) (64 - S n) =
  firstn n buf ++ x80 :: repeat x00 (63 - n) ++ skipn 64 buf.
Proof.
  intros Hn Hl.
  rewrite fill_zero_split by (rewrite length_upd; lia).
  rewrite firstn_S_upd, skipn_upd_lt by lia.
  rewrite <- app_assoc. cbn [app].
  replace (64 - S n)%nat with (63 - n)%nat by lia.
  replace (S n + (63 - n))%nat with 64%nat by lia.
  reflexivity.
Qed.

(** What processBuffer computes and what it leaves in the object. *)
Lemma processBuffer_with_spec extra (st : BlockBuffer.state R) :
  invariant st -> length extra = 64%nat ->
  let st' := processBuffer_with extra st in
  let pending := firstn (BlockBuffer.m_bufferSize st) (BlockBuffer.m_buffer st) in
  BlockBuffer.m_hash st' =
    fold_left (fun h block => processBlock block h)
              (Padding.blocks lengthBytes (BlockBuffer.m_numBytes st) pending)
              (BlockBuffer.m_hash st) /\
  BlockBuffer.m_numBytes st' = BlockBuffer.m_numBytes st /\
  BlockBuffer.m_bufferSize st' = BlockBuffer.m_bufferSize st /\
  firstn (BlockBuffer.m_bufferSize st) (BlockBuffer.m_buffer st') = pending /\
  length (BlockBuffer.m_buffer st') = length (BlockBuffer.m_buffer st).
Proof.
  intros [Hsz Hcap] Hextra. unfold MerkleDamgard.BLOCK_SIZE in *.
  cbv zeta. unfold MerkleDamgard.processBuffer_with.
  set (n := BlockBuffer.m_bufferSize st) in *.
  set (buf := BlockBuffer.m_buffer st) in *.
  set (len := lengthBytes (u64 (8 * (BlockBuffer.m_numBytes st + Z.of_nat n)))).
  assert (Hlen : length len = 8%nat) by apply lengthBytes_length.
  assert (Hpend : length (firstn n buf) = n) by (rewrite length_firstn; lia).
  unfold MerkleDamgard.BLOCK_SIZE.
  rewrite paddedLength_spec by lia.
  destruct (Nat.ltb_spec n 64) as [_|]; [|lia].
  rewrite zero_filled by lia.
  unfold Padding.blocks, Padding.message, Padding.bitLength, Padding.zeroFill.
  rewrite Hpend. fold len.
  replace (n + 1 + 8 <=? 64)%nat with (n <=? 55)%nat
    by (destruct (Nat.leb_spec n 55), (Nat.leb_spec (n + 1 + 8) 64); auto; lia).
  destruct (Nat.leb_spec n 55) as [Hfit|Hover].
  - (* the padding fits into the current block *)
    cbn [Nat.ltb Nat.leb]. bb_simpl.
    rewrite write_bytes_split
      by (rewrite Hlen, !length_app; cbn [length];
          rewrite !length_app, repeat_length, length_skipn, Hpend; lia).
    rewrite Hlen.
    set (tail := skipn (56 + 8) _).
    assert (Hhead : firstn 56 (firstn n buf ++ x80 :: repeat x00 (63 - n) ++ skipn 64 buf)
                    = firstn n buf ++ x80 :: repeat x00 (55 - n)).
    { rewrite firstn_app, Hpend.
      rewrite (firstn_all2 (firstn n buf)) by lia.
      replace (56 - n)%nat with (S (55 - n)) by lia.
      rewrite firstn_cons, firstn_repeat_app by lia. reflexivity. }
    rewrite Hhead.
    assert (Hl56 : length (firstn n buf ++ x80 :: repeat x00 (55 - n)) = 56%nat).
    { rewrite length_app. cbn [length]. rewrite repeat_length, Hpend. lia. }
    repeat split.
    + cbn [fold_left]. f_equal.
      rewrite (app_assoc _ len tail).
      rewrite firstn_app_l by (rewrite length_app, Hl56, Hlen; lia).
      rewrite <- app_assoc. reflexivity.
    + rewrite <- app_assoc. apply firstn_app_l, Hpend.
    + rewrite length_app, Hl56, length_app, Hlen. unfold tail.
      rewrite length_skipn, length_app. cbn [length].
      rewrite length_app, repeat_length, length_skipn, Hpend. lia.
  - (* the length field flows over into a second block *)
    cbn [Nat.ltb Nat.leb]. bb_simpl.
    replace (Nat.max (S n) 64) with 64%nat by lia.
    change (64 - 64)%nat with 0%nat. change (120 - 64)%nat with 56%nat.
    rewrite fill_zero_split by lia.
    change (firstn 0 extra) with (@nil byte). change (0 + 56)%nat with 56%nat.
    rewrite app_nil_l.
    rewrite write_bytes_split
      by (rewrite Hlen, length_app, repeat_length, length_skipn; lia).
    rewrite firstn_repeat_app by lia.
    rewrite Hlen.
    rewrite (skipn_all2 (n := 56 + 8))
      by (rewrite length_app, repeat_length, length_skipn; lia).
    rewrite app_nil_r.
    assert (Hl64 : length (firstn n buf ++ x80 :: repeat x00 (63 - n)) = 64%nat).
    { rewrite length_app. cbn [length]. rewrite repeat_length, Hpend. lia. }
    assert (Hblock1 : firstn 64 (firstn n buf ++ x80 :: repeat x00 (63 - n) ++ skipn 64 buf)
                      = firstn n buf ++ x80 :: repeat x00 (63 - n)).
    { change (x80 :: repeat x00 (63 - n) ++ skipn 64 buf)
        with ((x80 :: repeat x00 (63 - n)) ++ skipn 64 buf).
      rewrite app_assoc. apply firstn_app_l, Hl64. }
    rewrite Hblock1.
    assert (Hmsg : firstn n buf ++ [x80] ++ repeat x00 (119 - n) ++ len =
                   (firstn n buf ++ x80 :: repeat x00 (63 - n)) ++ repeat x00 56 ++ len).
    { replace (119 - n)%nat with ((63 - n) + 56)%nat by lia.
      rewrite repeat_app, <- !app_assoc. reflexivity. }
    rewrite Hmsg.
    repeat split.
    + cbn [fold_left].
      rewrite firstn_app_l, skipn_app_l by exact Hl64.
      reflexivity.
    + apply firstn_app_l, Hpend.
    + rewrite length_app. cbn [length].
      rewrite length_app, repeat_length, length_skipn, Hpend. lia.
Qed.

Lemma processBuffer_spec (st : BlockBuffer.state R) :
  invariant st ->
  let st' := processBuffer st in
  let pending := firstn (BlockBuffer.m_bufferSize st) (BlockBuffer.m_buffer st) in
  BlockBuffer.m_hash st' =
    fold_left (fun h block => processBlock block h)
              (Padding.blocks lengthBytes (BlockBuffer.m_numBytes st) pending)
              (BlockBuffer.m_hash st) /\
  BlockBuffer.m_numBytes st' = BlockBuffer.m_numBytes st /\
  BlockBuffer.m_bufferSize st' = BlockBuffer.m_bufferSize st /\
  firstn (BlockBuffer.m_bufferSize st) (BlockBuffer.m_buffer st') = pending /\
  length (BlockBuffer.m_buffer st') = length (BlockBuffer.m_buffer st).
Proof.
  intros H. apply processBuffer_with_spec; [assumption | apply repeat_length].
Qed.

(** The bytes found in the uninitialised array [extra] do not matter. *)
Lemma processBuffer_with_extra extra (st : BlockBuffer.state R) :
  invariant st -> length extra = 64%nat ->
  BlockBuffer.m_hash (processBuffer_with extra st) =
  BlockBuffer.m_hash (processBuffer st).
Proof.
  intros H He.
  destruct (processBuffer_with_spec extra st H He) as (E & _).
  destruct (processBuffer_spec st H) as (E' & _).
  now rewrite E, E'.
Qed.

(** hashFinal leaves the registers, the byte counter and the buffer size
    as they were, whatever the state. *)
Lemma hashFinal_frame (st : BlockBuffer.state R) :
  let st' := fst (hashFinal st) in
  BlockBuffer.m_hash st' = BlockBuffer.m_hash st /\
  BlockBuffer.m_numBytes st' = BlockBuffer.m_numBytes st /\
  BlockBuffer.m_bufferSize st' = BlockBuffer.m_bufferSize st.
Proof.
  unfold MerkleDamgard.hashFinal, MerkleDamgard.processBuffer,
    MerkleDamgard.processBuffer_with.
  destruct (BlockBuffer.m_bufferSize st <? MerkleDamgard.BLOCK_SIZE)%nat;
    destruct (MerkleDamgard.paddedLength (BlockBuffer.m_bufferSize st)
                <? MerkleDamgard.BLOCK_SIZE)%nat;
    cbn; auto.
Qed.

(** Under the invariant it also leaves the pending bytes in place. *)
Lemma hashFinal_view (st : BlockBuffer.state R) :
  invariant st ->
  Stream.view (fst (hashFinal st)) = Stream.view st /\
  invariant (fst (hashFinal st)).
Proof.
  intros H.
  destruct (hashFinal_frame st) as (F1 & F2 & F3). cbv zeta in *.
  destruct (processBuffer_spec st H) as (_ & _ & P3 & P4 & P5). cbv zeta in *.
  unfold Stream.view, Stream.invariant. rewrite F1, F2, F3.
  unfold MerkleDamgard.hashFinal. bb_simpl. rewrite P4, P5.
  destruct H. auto.
Qed.

(** The digest is a function of the observable part of the state. *)
Lemma hashFinal_digest (st : BlockBuffer.state R) :
  invariant st ->
  snd (hashFinal st) =
  render (fold_left (fun h block => processBlock block h)
            (Padding.blocks lengthBytes (BlockBuffer.m_numBytes st)
               (firstn (BlockBuffer.m_bufferSize st) (BlockBuffer.m_buffer st)))
            (BlockBuffer.m_hash st)).
Proof.
  intros H. destruct (processBuffer_spec st H) as (P1 & _). cbv zeta in *.
  unfold MerkleDamgard.hashFinal. cbn [snd]. now rewrite P1.
Qed.

Lemma hashFinal_digest_view (st1 st2 : BlockBuffer.state R) :
  invariant st1 -> invariant st2 -> Stream.view st1 = Stream.view st2 ->
  snd (hashFinal st1) = snd (hashFinal st2).
Proof.
  intros H1 H2 Hv. rewrite !hashFinal_digest by assumption.
  unfold Stream.view in Hv. injection Hv as -> -> ->. reflexivity.
Qed.

Local Abbreviation hashCore :=
  (BlockBuffer.hashCore MerkleDamgard.BLOCK_SIZE processBlock).
Local Abbreviation absorb := (Stream.absorb MerkleDamgard.BLOCK_SIZE processBlock).

Lemma BLOCK_SIZE_pos : (0 < MerkleDamgard.BLOCK_SIZE)%nat.
Proof. unfold MerkleDamgard.BLOCK_SIZE. lia. Qed.

(** Updates and digest reads, interleaved at will, leave the object where
    the updates alone would. *)
Lemma run_view calls : forall st : BlockBuffer.state R,
  invariant st ->
  Stream.view (Stream.run hashCore hashFinal calls st) =
    absorb (Stream.view st) (Stream.payload calls) /\
  invariant (Stream.run hashCore hashFinal calls st).
Proof.
  induction calls as [|c calls IH]; intros st H.
  - cbn [Stream.run fold_left Stream.payload flat_map]. split; auto.
    unfold Stream.view.
    rewrite absorb_nil; auto using BLOCK_SIZE_pos.
    rewrite length_firstn. destruct H. lia.
  - cbn [Stream.run fold_left Stream.payload flat_map].
    destruct c as [data|]; cbn [Stream.perform].
    + destruct (hashCore_view _ processBlock BLOCK_SIZE_pos st data H) as (V & I & _).
      destruct (IH _ I) as (V' & I'). split; auto.
      unfold Stream.run in V'. rewrite V', V.
      apply absorb_app; auto using BLOCK_SIZE_pos.
    + destruct (hashFinal_view st H) as (V & I).
      destruct (IH _ I) as (V' & I'). split; auto.
      unfold Stream.run in V'. rewrite V', V. reflexivity.
Qed.

Lemma run_digest calls (st : BlockBuffer.state R) :
  invariant st ->
  snd (hashFinal (Stream.run hashCore hashFinal calls st)) =
  snd (hashFinal (hashCore st (Stream.payload calls))).
Proof.
  intros H.
  destruct (run_view calls st H) as (V & I).
  destruct (hashCore_view _ processBlock BLOCK_SIZE_pos st (Stream.payload calls) H)
    as (V' & I' & _).
  apply hashFinal_digest_view; auto. now rewrite V, V'.
Qed.

Lemma feed_digest chunks (st : BlockBuffer.state R) :
  invariant st ->
  snd (hashFinal (Stream.feed hashCore chunks st)) =
  snd (hashFinal (hashCore st (concat chunks))).
Proof.
  intros H.
  assert (E : Stream.feed hashCore chunks st =
              Stream.run hashCore hashFinal (map Stream.Update chunks) st).
  { unfold Stream.feed, Stream.run. revert st H.
    induction chunks as [|c cs IH]; intros st H;
      cbn [fold_left map Stream.perform]; auto.
    apply IH.
    destruct (hashCore_view _ processBlock BLOCK_SIZE_pos st c H) as (_ & I & _).
    exact I. }
  rewrite E, <- payload_updates. now apply run_digest.
Qed.

(** A second hashFinal returns the digest of the first. *)
Lemma hashFinal_twice (st : BlockBuffer.state R) :
  invariant st ->
  snd (hashFinal (fst (hashFinal st))) = snd (hashFinal st).
Proof.
  intros H. destruct (hashFinal_view st H) as (V & I).
  now apply hashFinal_digest_view.
Qed.

(** The digest after one more update, from the observable state before. *)
Lemma hashCore_digest (st : BlockBuffer.state R) data :
  invariant st ->
  snd (hashFinal (hashCore st data)) =
  let '(h, n, pending) := absorb (Stream.view st) data in
  render (fold_left (fun h block => processBlock block h)
            (Padding.blocks lengthBytes n pending) h).
Proof.
  intros H.
  destruct (hashCore_view _ processBlock BLOCK_SIZE_pos st data H) as (V & I & _).
  rewrite hashFinal_digest by exact I.
  unfold Stream.view in V at 1.
  destruct (absorb (Stream.view st) data) as [[h n] pending].
  injection V as -> -> ->. reflexivity.
Qed.

End MerkleDamgardFacts.

(* ------------------------------------------------------------------ *)
(** ** Sha3: hashCore and hashFinal on the observable state *)

Section Sha3Facts.

Local Abbreviation sha3_invariant := Invariants.sha3.

Lemma sha3_hashCore_fields st data :
  Sha3.m_bits (Sha3.hashCore st data) = Sha3.m_bits st /\
  Sha3.m_blockSize (Sha3.hashCore st data) = Sha3.m_blockSize st.
Proof. split; reflexivity. Qed.

Lemma sha3_hashCore_view st data :
  sha3_invariant st ->
  Stream.view (Sha3.core (Sha3.hashCore st data)) =
    Stream.absorb (Sha3.m_blockSize st) (Sha3.processBlock (Sha3.m_blockSize st))
                  (Stream.view (Sha3.core st)) data /\
  sha3_invariant (Sha3.hashCore st data).
Proof.
  intros [Hp Hi].
  destruct (hashCore_view _ (Sha3.processBlock (Sha3.m_blockSize st)) Hp
              (Sha3.core st) data Hi) as (V & I & _).
  unfold sha3_invariant. cbn [Sha3.hashCore Sha3.core Sha3.m_blockSize].
  auto.
Qed.

(** The block that processBuffer compresses is the sponge padding of the
    pending bytes. *)
Lemma sha3_processBuffer_spec st :
  sha3_invariant st ->
  let c := Sha3.core st in
  let pending := firstn (BlockBuffer.m_bufferSize c) (BlockBuffer.m_buffer c) in
  BlockBuffer.m_hash (Sha3.core (Sha3.processBuffer st)) =
    Sha3.processBlock (Sha3.m_blockSize st)
      (Padding.sponge (Sha3.m_blockSize st) pending) (BlockBuffer.m_hash c).
Proof.
  intros (Hp & Hsz & Hcap). cbv zeta.
  unfold Sha3.processBuffer. cbn [Sha3.core BlockBuffer.m_hash].
  set (n := BlockBuffer.m_bufferSize (Sha3.core st)) in *.
  set (buf := BlockBuffer.m_buffer (Sha3.core st)) in *.
  set (bs := Sha3.m_blockSize st) in *.
  f_equal.
  replace (Nat.max (S n) bs) with bs by lia.
  rewrite marked_zero_filled by lia.
  rewrite firstn_upd_lt by lia.
  assert (Hpend : length (firstn n buf) = n) by (rewrite length_firstn; lia).
  assert (Hblock : firstn bs (firstn n buf ++ x06 :: repeat x00 (bs - S n) ++ skipn bs buf)
                   = firstn n buf ++ x06 :: repeat x00 (bs - S n)).
  { change (x06 :: repeat x00 (bs - S n) ++ skipn bs buf)
      with ((x06 :: repeat x00 (bs - S n)) ++ skipn bs buf).
    rewrite app_assoc. apply firstn_app_l.
    rewrite length_app. cbn [length]. rewrite repeat_length, Hpend. lia. }
  unfold Padding.sponge. rewrite Hpend.
  rewrite <- (nth_firstn_lt _ (bs - 1) bs) by lia.
  rewrite Hblock. reflexivity.
Qed.

Lemma sha3_digest_view st1 st2 :
  sha3_invariant st1 -> sha3_invariant st2 ->
  Sha3.m_bits st1 = Sha3.m_bits st2 ->
  Sha3.m_blockSize st1 = Sha3.m_blockSize st2 ->
  Stream.view (Sha3.core st1) = Stream.view (Sha3.core st2) ->
  snd (Sha3.hashFinal st1) = snd (Sha3.hashFinal st2).
Proof.
  intros H1 H2 Hb Hs Hv.
  unfold Sha3.hashFinal. cbn [snd].
  rewrite !sha3_processBuffer_spec by assumption.
  unfold Sha3.hashSize, Sha3.processBuffer. cbn [Sha3.m_bits].
  unfold Stream.view in Hv. injection Hv as E1 E2 E3.
  now rewrite Hb, Hs, E1, E3.
Qed.

Lemma sha3_feed_digest chunks st :
  sha3_invariant st ->
  snd (Sha3.hashFinal (Stream.feed Sha3.hashCore chunks st)) =
  snd (Sha3.hashFinal (Sha3.hashCore st (concat chunks))).
Proof.
  intros H.
  assert (F : forall cs s, sha3_invariant s ->
            sha3_invariant (Stream.feed Sha3.hashCore cs s) /\
            Sha3.m_bits (Stream.feed Sha3.hashCore cs s) = Sha3.m_bits s /\
            Sha3.m_blockSize (Stream.feed Sha3.hashCore cs s) = Sha3.m_blockSize s /\
            Stream.view (Sha3.core (Stream.feed Sha3.hashCore cs s)) =
              Stream.absorb (Sha3.m_blockSize s) (Sha3.processBlock (Sha3.m_blockSize s))
                (Stream.view (Sha3.core s)) (concat cs)).
  { induction cs as [|c cs IH]; intros s Hs.
    - cbn [Stream.feed fold_left concat].
      split; [exact Hs|]. split; [reflexivity|]. split; [reflexivity|].
      destruct Hs as (Hp & Hsz & Hcap). unfold Stream.view.
      rewrite absorb_nil; auto. rewrite length_firstn. lia.
    - cbn [Stream.feed fold_left concat].
      destruct (sha3_hashCore_view s c Hs) as (V & I).
      destruct (IH _ I) as (I' & B' & S' & V').
      unfold Stream.feed in *. rewrite B', S', V'.
      destruct (sha3_hashCore_fields s c) as (Fb & Fs). rewrite Fb, Fs, V.
      split; [exact I'|]. split; [reflexivity|]. split; [reflexivity|].
      destruct Hs as (Hp & _). apply absorb_app; auto. }
  destruct (F chunks st H) as (I & B & S & V).
  destruct (sha3_hashCore_view st (concat chunks) H) as (V' & I').
  apply sha3_digest_view; auto.
  now rewrite V, V'.
Qed.

End Sha3Facts.

(* ------------------------------------------------------------------ *)
(** ** Lane absorption, shared by XxHash32 and XxHash64 *)

Section LaneFacts.
Variable MaxBufferSize : nat.
Variable process : list byte -> Z * Z * Z * Z -> Z * Z * Z * Z.
Hypothesis MaxBufferSize_pos : (0 < MaxBufferSize)%nat.

Local Abbreviation absorbBlocks := (Stream.absorbBlocks MaxBufferSize process).
Local Abbreviation xabsorb := (XxView.absorb MaxBufferSize process).

(** The byte counter of [absorbBlocks] does not influence the lanes. *)
Lemma absorbBlocks_counter fuel : forall h n n' l,
  fst (fst (absorbBlocks fuel h n l)) = fst (fst (absorbBlocks fuel h n' l)) /\
  snd (absorbBlocks fuel h n l) = snd (absorbBlocks fuel h n' l).
Proof.
  induction fuel as [|f IH]; intros h n n' l; cbn [Stream.absorbBlocks].
  - auto.
  - destruct (MaxBufferSize <=? length l)%nat; auto.
Qed.

Lemma xabsorb_app v d1 d2 :
  xabsorb (xabsorb v d1) d2 = xabsorb v (d1 ++ d2).
Proof.
  destruct v as [[lanes total] pending]. unfold XxView.absorb.
  pose proof (absorbBlocks_app MaxBufferSize process MaxBufferSize_pos
                (length (pending ++ d1)) (pending ++ d1) d2 lanes 0 (le_n _)) as A.
  unfold Stream.absorb in A.
  destruct (absorbBlocks (length (pending ++ d1)) lanes 0 (pending ++ d1))
    as [[lanes1 n1] tail1] eqn:E1.
  cbn [fst snd].
  rewrite <- app_assoc in A. rewrite A.
  destruct (absorbBlocks_counter (length (tail1 ++ d2)) lanes1 n1 0 (tail1 ++ d2))
    as (C1 & C2).
  rewrite C1, C2. f_equal. f_equal.
  rewrite length_app, Nat2Z.inj_add. unfold u64.
  rewrite Zplus_mod_idemp_l. f_equal. lia.
Qed.

Lemma xabsorb_short lanes total pending data :
  (length (pending ++ data) < MaxBufferSize)%nat ->
  xabsorb (lanes, total, pending) data =
  (lanes, u64 (total + Z.of_nat (length data)), pending ++ data).
Proof.
  intros H. unfold XxView.absorb. now rewrite absorbBlocks_short.
Qed.

Lemma xabsorb_tail v data :
  (length (snd (xabsorb v data)) < MaxBufferSize)%nat.
Proof.
  destruct v as [[lanes total] pending]. unfold XxView.absorb. cbn [snd].
  apply absorbBlocks_tail; auto.
Qed.

End LaneFacts.

(* ------------------------------------------------------------------ *)
(** ** XxHash32: hashCore and hashFinal on the observable state *)

Section XxHash32Facts.

Local Abbreviation invariant := Invariants.xxHash32.
Local Abbreviation view := XxView.view32.
Local Abbreviation xabsorb := (XxView.absorb XxHash32.MaxBufferSize XxHash32.process).

Lemma xx32_word_firstn l i :
  (i < 4)%nat ->
  endian.word32_at (firstn XxHash32.MaxBufferSize l) i = endian.word32_at l i.
Proof.
  intros H. unfold endian.word32_at, endian.GET32BITS.
  rewrite skipn_firstn_comm, firstn_firstn. f_equal. f_equal.
  unfold XxHash32.MaxBufferSize. lia.
Qed.

(** process reads one stripe. *)
Lemma xx32_process_firstn l s :
  XxHash32.process (firstn XxHash32.MaxBufferSize l) s = XxHash32.process l s.
Proof.
  unfold XxHash32.process. destruct s as [[[s0 s1] s2] s3].
  rewrite !xx32_word_firstn by lia. reflexivity.
Qed.

Lemma xx32_blocks_spec fuel : forall s l,
  let r := Stream.absorbBlocks XxHash32.MaxBufferSize XxHash32.process fuel s 0 l in
  XxHash32.blocks fuel s l = (fst (fst r), snd r).
Proof.
  induction fuel as [|f IH]; intros s l; cbn [XxHash32.blocks Stream.absorbBlocks].
  - reflexivity.
  - destruct (XxHash32.MaxBufferSize <=? length l)%nat; [|reflexivity].
    rewrite xx32_process_firstn.
    change (skipn 16 l) with (skipn XxHash32.MaxBufferSize l).
    rewrite IH. cbv zeta.
    destruct (absorbBlocks_counter XxHash32.MaxBufferSize XxHash32.process f
                (XxHash32.process l s) 0
                (u64 (0 + Z.of_nat XxHash32.MaxBufferSize))
                (skipn XxHash32.MaxBufferSize l)) as (C1 & C2).
    now rewrite C1, C2.
Qed.

Local Ltac xx32_simpl :=
  cbn [XxHash32.push XxHash32.m_state XxHash32.m_buffer XxHash32.m_bufferSize
       XxHash32.m_totalLength XxHash32.m_seed fst snd] in *.

Lemma xx32_addAll_spec data : forall st,
  (XxHash32.m_bufferSize st + length data <= length (XxHash32.m_buffer st))%nat ->
  let st' := XxHash32.addAll st data in
  XxHash32.m_bufferSize st' = (XxHash32.m_bufferSize st + length data)%nat /\
  firstn (XxHash32.m_bufferSize st') (XxHash32.m_buffer st') =
    firstn (XxHash32.m_bufferSize st) (XxHash32.m_buffer st) ++ data /\
  length (XxHash32.m_buffer st') = length (XxHash32.m_buffer st) /\
  XxHash32.m_state st' = XxHash32.m_state st /\
  XxHash32.m_totalLength st' = XxHash32.m_totalLength st /\
  XxHash32.m_seed st' = XxHash32.m_seed st.
Proof.
  unfold XxHash32.addAll.
  induction data as [|b rest IH]; intros st H; cbn [fold_left length] in *.
  - rewrite Nat.add_0_r, app_nil_r. repeat split; auto.
  - specialize (IH (XxHash32.push st b)).
    xx32_simpl. rewrite length_upd in IH.
    destruct IH as (E2 & E3 & E4 & E5 & E6 & E7); try lia.
    rewrite E3, E2, E4, E5, E6, E7.
    rewrite firstn_S_upd by lia. rewrite <- app_assoc.
    cbn [app].
    repeat split; auto; lia.
Qed.

Lemma xx32_fillBuffer_spec data : forall st,
  (XxHash32.m_bufferSize st <= XxHash32.MaxBufferSize)%nat ->
  (XxHash32.MaxBufferSize <= length (XxHash32.m_buffer st))%nat ->
  let k := Nat.min (XxHash32.MaxBufferSize - XxHash32.m_bufferSize st) (length data) in
  let st' := fst (XxHash32.fillBuffer st data) in
  snd (XxHash32.fillBuffer st data) = skipn k data /\
  XxHash32.m_bufferSize st' = (XxHash32.m_bufferSize st + k)%nat /\
  firstn (XxHash32.m_bufferSize st') (XxHash32.m_buffer st') =
    firstn (XxHash32.m_bufferSize st) (XxHash32.m_buffer st) ++ firstn k data /\
  length (XxHash32.m_buffer st') = length (XxHash32.m_buffer st) /\
  XxHash32.m_state st' = XxHash32.m_state st /\
  XxHash32.m_totalLength st' = XxHash32.m_totalLength st /\
  XxHash32.m_seed st' = XxHash32.m_seed st.
Proof.
  induction data as [|b rest IH]; intros st Hs Hb.
  - cbn [XxHash32.fillBuffer length].
    destruct (XxHash32.m_bufferSize st <? XxHash32.MaxBufferSize)%nat;
      cbn [fst snd];
      rewrite Nat.min_0_r, Nat.add_0_r, app_nil_r; repeat split; auto.
  - cbn [XxHash32.fillBuffer length].
    destruct (Nat.ltb_spec (XxHash32.m_bufferSize st) XxHash32.MaxBufferSize)
      as [Hlt|Hge].
    + specialize (IH (XxHash32.push st b)).
      xx32_simpl. rewrite length_upd in IH.
      destruct IH as (E1 & E2 & E3 & E4 & E5 & E6 & E7); try lia.
      replace (Nat.min (XxHash32.MaxBufferSize - XxHash32.m_bufferSize st)
                       (S (length rest)))
        with (S (Nat.min (XxHash32.MaxBufferSize - S (XxHash32.m_bufferSize st))
                         (length rest)))
        by lia.
      rewrite E3, E1, E2, E4, E5, E6, E7.
      rewrite firstn_S_upd by lia. rewrite <- app_assoc.
      cbn [skipn firstn app].
      repeat split; auto; lia.
    + replace (XxHash32.MaxBufferSize - XxHash32.m_bufferSize st)%nat
        with 0%nat by lia.
      cbn [Nat.min skipn firstn fst snd]. rewrite Nat.add_0_r, app_nil_r.
      repeat split; auto.
Qed.

Lemma xx32_remainder_spec (buf rest : list byte) :
  (length rest <= length buf)%nat ->
  firstn (length rest) (write_bytes buf 0 rest) = rest /\
  length (write_bytes buf 0 rest) = length buf.
Proof.
  intros H. split; [|apply length_write_bytes].
  rewrite write_bytes_split by (cbn [Nat.add]; lia).
  cbn [firstn app]. now apply firstn_app_l.
Qed.

(** hashCore absorbs [data] and keeps the invariant. *)
Lemma xx32_hashCore_view st data :
  invariant st ->
  view (XxHash32.hashCore st data) = xabsorb (view st) data /\
  invariant (XxHash32.hashCore st data).
Proof.
  intros (Hsz & Hcap & Htot). unfold XxHash32.hashCore.
  set (st0 := XxHash32.mkState _ _ _ _ _).
  assert (H0 : XxHash32.m_bufferSize st0 = XxHash32.m_bufferSize st) by reflexivity.
  assert (B0 : XxHash32.m_buffer st0 = XxHash32.m_buffer st) by reflexivity.
  assert (S0 : XxHash32.m_state st0 = XxHash32.m_state st) by reflexivity.
  assert (T0 : XxHash32.m_totalLength st0 =
               u64 (XxHash32.m_totalLength st + Z.of_nat (length data))) by reflexivity.
  assert (R0 : 0 <= XxHash32.m_totalLength st0 < 18446744073709551616)
    by (rewrite T0; apply Z.mod_pos_bound; lia).
  assert (Hpend : length (firstn (XxHash32.m_bufferSize st) (XxHash32.m_buffer st))
                  = XxHash32.m_bufferSize st) by (rewrite length_firstn; lia).
  clearbody st0.
  unfold XxView.view32 at 2.
  destruct (Z.ltb_spec (Z.of_nat (XxHash32.m_bufferSize st0) + Z.of_nat (length data))
                       (Z.of_nat XxHash32.MaxBufferSize)) as [Hfit|Hfull].
  - (* just add new data *)
    destruct (xx32_addAll_spec data st0) as (E2 & E3 & E4 & E5 & E6 & E7);
      [rewrite B0; lia|].
    rewrite xabsorb_short
      by (rewrite ?length_app, ?Hpend; unfold XxHash32.MaxBufferSize in *; lia).
    unfold XxView.view32, Invariants.xxHash32.
    rewrite E3, E2, E4, E5, E6, H0, B0, S0.
    repeat split; auto; try lia. now rewrite T0.
  - assert (Hlanes :
      forall lanes current buf,
        length buf = XxHash32.MaxBufferSize ->
        let r := XxHash32.blocks (length current) lanes current in
        let st' := XxHash32.mkState (fst r) (write_bytes buf 0 (snd r)) (length (snd r))
                     (XxHash32.m_totalLength st0) (XxHash32.m_seed st0) in
        view st' =
          (fst (fst (Stream.absorbBlocks XxHash32.MaxBufferSize XxHash32.process
                       (length current) lanes 0 current)),
           XxHash32.m_totalLength st0,
           snd (Stream.absorbBlocks XxHash32.MaxBufferSize XxHash32.process
                  (length current) lanes 0 current)) /\
        invariant st' /\ length (XxHash32.m_buffer st') = length buf).
    { intros lanes current buf Hbuf. cbv zeta.
      rewrite xx32_blocks_spec. cbv zeta. cbn [fst snd].
      pose proof (absorbBlocks_tail XxHash32.MaxBufferSize XxHash32.process
                    ltac:(unfold XxHash32.MaxBufferSize; lia)
                    (length current) lanes 0 current (le_n _)) as T.
      destruct (xx32_remainder_spec buf
                  (snd (Stream.absorbBlocks XxHash32.MaxBufferSize XxHash32.process
                          (length current) lanes 0 current))) as (R1 & R2); [lia|].
      unfold XxView.view32, Invariants.xxHash32. xx32_simpl.
      rewrite R1, R2. repeat split; auto; lia. }
    destruct (Nat.ltb_spec 0 (XxHash32.m_bufferSize st0)) as [Hpos|Hzero].
    + (* some data left from previous update *)
      destruct (xx32_fillBuffer_spec data st0) as (E1 & E2 & E3 & E4 & E5 & E6 & E7);
        [lia | rewrite B0; lia |].
      destruct (XxHash32.fillBuffer st0 data) as [st1 current]. xx32_simpl.
      set (k := Nat.min (XxHash32.MaxBufferSize - XxHash32.m_bufferSize st0)
                        (length data)) in *.
      assert (Hk : k = (XxHash32.MaxBufferSize - XxHash32.m_bufferSize st)%nat) by lia.
      assert (Hl1 : length (XxHash32.m_buffer st1) = XxHash32.MaxBufferSize)
        by (rewrite E4, B0; exact Hcap).
      assert (Hbuf1 : XxHash32.m_buffer st1 =
                      firstn (XxHash32.m_bufferSize st) (XxHash32.m_buffer st)
                        ++ firstn k data).
      { rewrite <- (firstn_all (XxHash32.m_buffer st1)).
        replace (length (XxHash32.m_buffer st1)) with (XxHash32.m_bufferSize st1)
          by (rewrite E4, B0; lia).
        now rewrite E3, H0, B0. }
      destruct (Hlanes (XxHash32.process (XxHash32.m_buffer st1) (XxHash32.m_state st1))
                  current (XxHash32.m_buffer st1) ltac:(rewrite E4, B0; lia))
        as (V & I & _).
      cbv zeta in V, I. revert V I.
      match goal with
      | |- context [XxHash32.blocks ?f ?l ?c] =>
          destruct (XxHash32.blocks f l c) as [s rest]
      end.
      intros V I. xx32_simpl. rewrite E6, E7. split; [|exact I].
      rewrite V, T0. unfold XxView.absorb.
      assert (Hsplit : firstn (XxHash32.m_bufferSize st) (XxHash32.m_buffer st) ++ data
                       = XxHash32.m_buffer st1 ++ current).
      { rewrite Hbuf1, E1, <- app_assoc, firstn_skipn. reflexivity. }
      rewrite Hsplit.
      rewrite (absorbBlocks_step XxHash32.MaxBufferSize XxHash32.process
                 ltac:(unfold XxHash32.MaxBufferSize; lia)
                 (length (XxHash32.m_buffer st1 ++ current)) (XxHash32.m_state st) 0
                 (XxHash32.m_buffer st1 ++ current))
        by (rewrite ?length_app; lia).
      rewrite firstn_app_l, skipn_app_l by lia.
      destruct (absorbBlocks_counter XxHash32.MaxBufferSize XxHash32.process
                  (length current)
                  (XxHash32.process (XxHash32.m_buffer st1) (XxHash32.m_state st))
                  (u64 (0 + Z.of_nat XxHash32.MaxBufferSize)) 0 current) as (C1 & C2).
      rewrite C1, C2, E5, S0. reflexivity.
    + (* the buffer is empty *)
      assert (Hz : XxHash32.m_bufferSize st = 0%nat) by lia.
      destruct (Hlanes (XxHash32.m_state st0) data (XxHash32.m_buffer st0)
                  ltac:(rewrite B0; lia))
        as (V & I & _).
      cbv zeta in V, I. revert V I.
      match goal with
      | |- context [XxHash32.blocks ?f ?l ?c] =>
          destruct (XxHash32.blocks f l c) as [s rest]
      end.
      intros V I. xx32_simpl. split; [|exact I].
      rewrite V, T0, S0, Hz. unfold XxView.absorb. cbn [firstn app].
      reflexivity.
Qed.

(** The digest is a function of the observable part of the state. *)
Lemma xx32_digest_view st1 st2 :
  view st1 = view st2 ->
  snd (XxHash32.hashFinal st1) = snd (XxHash32.hashFinal st2).
Proof.
  unfold XxView.view32. intros E. injection E as E1 E2 E3.
  unfold XxHash32.hashFinal, XxHash32.finalValue. rewrite E1, E2, E3.
  destruct (XxHash32.m_state st2) as [[[s0 s1] s2] s3].
  destruct (XxHash32.eat4 _ _ _). reflexivity.
Qed.

Lemma xx32_feed_view chunks : forall st,
  invariant st ->
  view (Stream.feed XxHash32.hashCore chunks st) = xabsorb (view st) (concat chunks) /\
  invariant (Stream.feed XxHash32.hashCore chunks st).
Proof.
  induction chunks as [|c cs IH]; intros st H; cbn [Stream.feed fold_left concat].
  - split; [|exact H]. destruct H as (Hsz & Hcap & Htot). unfold XxView.view32.
    rewrite xabsorb_short
      by (rewrite ?app_nil_r, ?length_firstn; unfold XxHash32.MaxBufferSize in *; lia).
    rewrite app_nil_r. cbn [length]. rewrite Z.add_0_r.
    unfold u64. now rewrite Z.mod_small.
  - destruct (xx32_hashCore_view st c H) as (V & I).
    destruct (IH _ I) as (V' & I'). split; [|exact I'].
    unfold Stream.feed in V'. rewrite V', V.
    apply xabsorb_app. unfold XxHash32.MaxBufferSize. lia.
Qed.

Lemma xx32_feed_digest chunks st :
  invariant st ->
  snd (XxHash32.hashFinal (Stream.feed XxHash32.hashCore chunks st)) =
  snd (XxHash32.hashFinal (XxHash32.hashCore st (concat chunks))).
Proof.
  intros H. apply xx32_digest_view.
  destruct (xx32_feed_view chunks st H) as (V & _).
  destruct (xx32_hashCore_view st (concat chunks) H) as (V' & _).
  now rewrite V, V'.
Qed.

End XxHash32Facts.

(* ------------------------------------------------------------------ *)
(** ** XxHash64: hashCore and hashFinal on the observable state *)

Section XxHash64Facts.

Local Abbreviation invariant := Invariants.xxHash64.
Local Abbreviation view := XxView.view64.
Local Abbreviation xabsorb := (XxView.absorb XxHash64.MaxBufferSize XxHash64.process).

Lemma xx64_word_firstn l i :
  (i < 4)%nat ->
  endian.word64_at (firstn XxHash64.MaxBufferSize l) i = endian.word64_at l i.
Proof.
  intros H. unfold endian.word64_at, endian.GET64BITS.
  rewrite skipn_firstn_comm, firstn_firstn. f_equal. f_equal.
  unfold XxHash64.MaxBufferSize. lia.
Qed.

(** process reads one stripe. *)
Lemma xx64_process_firstn l s :
  XxHash64.process (firstn XxHash64.MaxBufferSize l) s = XxHash64.process l s.
Proof.
  unfold XxHash64.process. destruct s as [[[s0 s1] s2] s3].
  rewrite !xx64_word_firstn by lia. reflexivity.
Qed.

Lemma xx64_blocks_spec fuel : forall s l,
  let r := Stream.absorbBlocks XxHash64.MaxBufferSize XxHash64.process fuel s 0 l in
  XxHash64.blocks fuel s l = (fst (fst r), snd r).
Proof.
  induction fuel as [|f IH]; intros s l; cbn [XxHash64.blocks Stream.absorbBlocks].
  - reflexivity.
  - destruct (XxHash64.MaxBufferSize <=? length l)%nat; [|reflexivity].
    rewrite xx64_process_firstn.
    change (skipn 32 l) with (skipn XxHash64.MaxBufferSize l).
    rewrite IH. cbv zeta.
    destruct (absorbBlocks_counter XxHash64.MaxBufferSize XxHash64.process f
                (XxHash64.process l s) 0
                (u64 (0 + Z.of_nat XxHash64.MaxBufferSize))
                (skipn XxHash64.MaxBufferSize l)) as (C1 & C2).
    now rewrite C1, C2.
Qed.

Local Ltac xx64_simpl :=
  cbn [XxHash64.push XxHash64.m_state XxHash64.m_buffer XxHash64.m_bufferSize
       XxHash64.m_totalLength XxHash64.m_seed fst snd] in *.

Lemma xx64_addAll_spec data : forall st,
  (XxHash64.m_bufferSize st + length data <= length (XxHash64.m_buffer st))%nat ->
  let st' := XxHash64.addAll st data in
  XxHash64.m_bufferSize st' = (XxHash64.m_bufferSize st + length data)%nat /\
  firstn (XxHash64.m_bufferSize st') (XxHash64.m_buffer st') =
    firstn (XxHash64.m_bufferSize st) (XxHash64.m_buffer st) ++ data /\
  length (XxHash64.m_buffer st') = length (XxHash64.m_buffer st) /\
  XxHash64.m_state st' = XxHash64.m_state st /\
  XxHash64.m_totalLength st' = XxHash64.m_totalLength st /\
  XxHash64.m_seed st' = XxHash64.m_seed st.
Proof.
  unfold XxHash64.addAll.
  induction data as [|b rest IH]; intros st H; cbn [fold_left length] in *.
  - rewrite Nat.add_0_r, app_nil_r. repeat split; auto.
  - specialize (IH (XxHash64.push st b)).
    xx64_simpl. rewrite length_upd in IH.
    destruct IH as (E2 & E3 & E4 & E5 & E6 & E7); try lia.
    rewrite E3, E2, E4, E5, E6, E7.
    rewrite firstn_S_upd by lia. rewrite <- app_assoc.
    cbn [app].
    repeat split; auto; lia.
Qed.

Lemma xx64_fillBuffer_spec data : forall st,
  (XxHash64.m_bufferSize st <= XxHash64.MaxBufferSize)%nat ->
  (XxHash64.MaxBufferSize <= length (XxHash64.m_buffer st))%nat ->
  let k := Nat.min (XxHash64.MaxBufferSize - XxHash64.m_bufferSize st) (length data) in
  let st' := fst (XxHash64.fillBuffer st data) in
  snd (XxHash64.fillBuffer st data) = skipn k data /\
  XxHash64.m_bufferSize st' = (XxHash64.m_bufferSize st + k)%nat /\
  firstn (XxHash64.m_bufferSize st') (XxHash64.m_buffer st') =
    firstn (XxHash64.m_bufferSize st) (XxHash64.m_buffer st) ++ firstn k data /\
  length (XxHash64.m_buffer st') = length (XxHash64.m_buffer st) /\
  XxHash64.m_state st' = XxHash64.m_state st /\
  XxHash64.m_totalLength st' = XxHash64.m_totalLength st /\
  XxHash64.m_seed st' = XxHash64.m_seed st.
Proof.
  induction data as [|b rest IH]; intros st Hs Hb.
  - cbn [XxHash64.fillBuffer length].
    destruct (XxHash64.m_bufferSize st <? XxHash64.MaxBufferSize)%nat;
      cbn [fst snd];
      rewrite Nat.min_0_r, Nat.add_0_r, app_nil_r; repeat split; auto.
  - cbn [XxHash64.fillBuffer length].
    destruct (Nat.ltb_spec (XxHash64.m_bufferSize st) XxHash64.MaxBufferSize)
      as [Hlt|Hge].
    + specialize (IH (XxHash64.push st b)).
      xx64_simpl. rewrite length_upd in IH.
      destruct IH as (E1 & E2 & E3 & E4 & E5 & E6 & E7); try lia.
      replace (Nat.min (XxHash64.MaxBufferSize - XxHash64.m_bufferSize st)
                       (S (length rest)))
        with (S (Nat.min (XxHash64.MaxBufferSize - S (XxHash64.m_bufferSize st))
                         (length rest)))
        by lia.
      rewrite E3, E1, E2, E4, E5, E6, E7.
      rewrite firstn_S_upd by lia. rewrite <- app_assoc.
      cbn [skipn firstn app].
      repeat split; auto; lia.
    + replace (XxHash64.MaxBufferSize - XxHash64.m_bufferSize st)%nat
        with 0%nat by lia.
      cbn [Nat.min skipn firstn fst snd]. rewrite Nat.add_0_r, app_nil_r.
      repeat split; auto.
Qed.

Lemma xx64_remainder_spec (buf rest : list byte) :
  (length rest <= length buf)%nat ->
  firstn (length rest) (write_bytes buf 0 rest) = rest /\
  length (write_bytes buf 0 rest) = length buf.
Proof.
  intros H. split; [|apply length_write_bytes].
  rewrite write_bytes_split by (cbn [Nat.add]; lia).
  cbn [firstn app]. now apply firstn_app_l.
Qed.

(** hashCore absorbs [data] and keeps the invariant. *)
Lemma xx64_hashCore_view st data :
  invariant st ->
  view (XxHash64.hashCore st data) = xabsorb (view st) data /\
  invariant (XxHash64.hashCore st data).
Proof.
  intros (Hsz & Hcap & Htot). unfold XxHash64.hashCore.
  set (st0 := XxHash64.mkState _ _ _ _ _).
  assert (H0 : XxHash64.m_bufferSize st0 = XxHash64.m_bufferSize st) by reflexivity.
  assert (B0 : XxHash64.m_buffer st0 = XxHash64.m_buffer st) by reflexivity.
  assert (S0 : XxHash64.m_state st0 = XxHash64.m_state st) by reflexivity.
  assert (T0 : XxHash64.m_totalLength st0 =
               u64 (XxHash64.m_totalLength st + Z.of_nat (length data))) by reflexivity.
  assert (R0 : 0 <= XxHash64.m_totalLength st0 < 18446744073709551616)
    by (rewrite T0; apply Z.mod_pos_bound; lia).
  assert (Hpend : length (firstn (XxHash64.m_bufferSize st) (XxHash64.m_buffer st))
                  = XxHash64.m_bufferSize st) by (rewrite length_firstn; lia).
  clearbody st0.
  unfold XxView.view64 at 2.
  destruct (Z.ltb_spec (Z.of_nat (XxHash64.m_bufferSize st0) + Z.of_nat (length data))
                       (Z.of_nat XxHash64.MaxBufferSize)) as [Hfit|Hfull].
  - (* just add new data *)
    destruct (xx64_addAll_spec data st0) as (E2 & E3 & E4 & E5 & E6 & E7);
      [rewrite B0; lia|].
    rewrite xabsorb_short
      by (rewrite ?length_app, ?Hpend; unfold XxHash64.MaxBufferSize in *; lia).
    unfold XxView.view64, Invariants.xxHash64.
    rewrite E3, E2, E4, E5, E6, H0, B0, S0.
    repeat split; auto; try lia. now rewrite T0.
  - assert (Hlanes :
      forall lanes current buf,
        length buf = XxHash64.MaxBufferSize ->
        let r := XxHash64.blocks (length current) lanes current in
        let st' := XxHash64.mkState (fst r) (write_bytes buf 0 (snd r)) (length (snd r))
                     (XxHash64.m_totalLength st0) (XxHash64.m_seed st0) in
        view st' =
          (fst (fst (Stream.absorbBlocks XxHash64.MaxBufferSize XxHash64.process
                       (length current) lanes 0 current)),
           XxHash64.m_totalLength st0,
           snd (Stream.absorbBlocks XxHash64.MaxBufferSize XxHash64.process
                  (length current) lanes 0 current)) /\
        invariant st' /\ length (XxHash64.m_buffer st') = length buf).
    { intros lanes current buf Hbuf. cbv zeta.
      rewrite xx64_blocks_spec. cbv zeta. cbn [fst snd].
      pose proof (absorbBlocks_tail XxHash64.MaxBufferSize XxHash64.process
                    ltac:(unfold XxHash64.MaxBufferSize; lia)
                    (length current) lanes 0 current (le_n _)) as T.
      destruct (xx64_remainder_spec buf
                  (snd (Stream.absorbBlocks XxHash64.MaxBufferSize XxHash64.process
                          (length current) lanes 0 current))) as (R1 & R2); [lia|].
      unfold XxView.view64, Invariants.xxHash64. xx64_simpl.
      rewrite R1, R2. repeat split; auto; lia. }
    destruct (Nat.ltb_spec 0 (XxHash64.m_bufferSize st0)) as [Hpos|Hzero].
    + (* some data left from previous update *)
      destruct (xx64_fillBuffer_spec data st0) as (E1 & E2 & E3 & E4 & E5 & E6 & E7);
        [lia | rewrite B0; lia |].
      destruct (XxHash64.fillBuffer st0 data) as [st1 current]. xx64_simpl.
      set (k := Nat.min (XxHash64.MaxBufferSize - XxHash64.m_bufferSize st0)
                        (length data)) in *.
      assert (Hk : k = (XxHash64.MaxBufferSize - XxHash64.m_bufferSize st)%nat) by lia.
      assert (Hl1 : length (XxHash64.m_buffer st1) = XxHash64.MaxBufferSize)
        by (rewrite E4, B0; exact Hcap).
      assert (Hbuf1 : XxHash64.m_buffer st1 =
                      firstn (XxHash64.m_bufferSize st) (XxHash64.m_buffer st)
                        ++ firstn k data).
      { rewrite <- (firstn_all (XxHash64.m_buffer st1)).
        replace (length (XxHash64.m_buffer st1)) with (XxHash64.m_bufferSize st1)
          by (rewrite E4, B0; lia).
        now rewrite E3, H0, B0. }
      destruct (Hlanes (XxHash64.process (XxHash64.m_buffer st1) (XxHash64.m_state st1))
                  current (XxHash64.m_buffer st1) ltac:(rewrite E4, B0; lia))
        as (V & I & _).
      cbv zeta in V, I. revert V I.
      match goal with
      | |- context [XxHash64.blocks ?f ?l ?c] =>
          destruct (XxHash64.blocks f l c) as [s rest]
      end.
      intros V I. xx64_simpl. rewrite E6, E7. split; [|exact I].
      rewrite V, T0. unfold XxView.absorb.
      assert (Hsplit : firstn (XxHash64.m_bufferSize st) (XxHash64.m_buffer st) ++ data
                       = XxHash64.m_buffer st1 ++ current).
      { rewrite Hbuf1, E1, <- app_assoc, firstn_skipn. reflexivity. }
      rewrite Hsplit.
      rewrite (absorbBlocks_step XxHash64.MaxBufferSize XxHash64.process
                 ltac:(unfold XxHash64.MaxBufferSize; lia)
                 (length (XxHash64.m_buffer st1 ++ current)) (XxHash64.m_state st) 0
                 (XxHash64.m_buffer st1 ++ current))
        by (rewrite ?length_app; lia).
      rewrite firstn_app_l, skipn_app_l by lia.
      destruct (absorbBlocks_counter XxHash64.MaxBufferSize XxHash64.process
                  (length current)
                  (XxHash64.process (XxHash64.m_buffer st1) (XxHash64.m_state st))
                  (u64 (0 + Z.of_nat XxHash64.MaxBufferSize)) 0 current) as (C1 & C2).
      rewrite C1, C2, E5, S0. reflexivity.
    + (* the buffer is empty *)
      assert (Hz : XxHash64.m_bufferSize st = 0%nat) by lia.
      destruct (Hlanes (XxHash64.m_state st0) data (XxHash64.m_buffer st0)
                  ltac:(rewrite B0; lia))
        as (V & I & _).
      cbv zeta in V, I. revert V I.
      match goal with
      | |- context [XxHash64.blocks ?f ?l ?c] =>
          destruct (XxHash64.blocks f l c) as [s rest]
      end.
      intros V I. xx64_simpl. split; [|exact I].
      rewrite V, T0, S0, Hz. unfold XxView.absorb. cbn [firstn app].
      reflexivity.
Qed.

(** The digest is a function of the observable part of the state. *)
Lemma xx64_digest_view st1 st2 :
  view st1 = view st2 ->
  snd (XxHash64.hashFinal st1) = snd (XxHash64.hashFinal st2).
Proof.
  unfold XxView.view64. intros E. injection E as E1 E2 E3.
  unfold XxHash64.hashFinal, XxHash64.finalValue. rewrite E1, E2, E3.
  destruct (XxHash64.m_state st2) as [[[s0 s1] s2] s3].
  destruct (XxHash64.eat8 _ _ _). destruct (XxHash64.eat4 _ _). reflexivity.
Qed.

Lemma xx64_feed_view chunks : forall st,
  invariant st ->
  view (Stream.feed XxHash64.hashCore chunks st) = xabsorb (view st) (concat chunks) /\
  invariant (Stream.feed XxHash64.hashCore chunks st).
Proof.
  induction chunks as [|c cs IH]; intros st H; cbn [Stream.feed fold_left concat].
  - split; [|exact H]. destruct H as (Hsz & Hcap & Htot). unfold XxView.view64.
    rewrite xabsorb_short
      by (rewrite ?app_nil_r, ?length_firstn; unfold XxHash64.MaxBufferSize in *; lia).
    rewrite app_nil_r. cbn [length]. rewrite Z.add_0_r.
    unfold u64. now rewrite Z.mod_small.
  - destruct (xx64_hashCore_view st c H) as (V & I).
    destruct (IH _ I) as (V' & I'). split; [|exact I'].
    unfold Stream.feed in V'. rewrite V', V.
    apply xabsorb_app. unfold XxHash64.MaxBufferSize. lia.
Qed.

Lemma xx64_feed_digest chunks st :
  invariant st ->
  snd (XxHash64.hashFinal (Stream.feed XxHash64.hashCore chunks st)) =
  snd (XxHash64.hashFinal (XxHash64.hashCore st (concat chunks))).
Proof.
  intros H. apply xx64_digest_view.
  destruct (xx64_feed_view chunks st H) as (V & _).
  destruct (xx64_hashCore_view st (concat chunks) H) as (V' & _).
  now rewrite V, V'.
Qed.

End XxHash64Facts.

(* ------------------------------------------------------------------ *)
(** ** CRC: the table slices iterate the one-byte advance *)

Lemma land_lxor_distr_l a b c :
  Z.land (Z.lxor a b) c = Z.lxor (Z.land a c) (Z.land b c).
Proof.
  apply Z.bits_inj'. intros i Hi.
  rewrite !Z.land_spec, !Z.lxor_spec, !Z.land_spec.
  destruct (Z.testbit a i), (Z.testbit b i), (Z.testbit c i); reflexivity.
Qed.

Lemma lxor_swap4 x y u v :
  Z.lxor (Z.lxor x u) (Z.lxor y v) = Z.lxor (Z.lxor x y) (Z.lxor u v).
Proof.
  apply Z.bits_inj'. intros i Hi. rewrite !Z.lxor_spec.
  destruct (Z.testbit x i), (Z.testbit y i), (Z.testbit u i), (Z.testbit v i);
    reflexivity.
Qed.

Lemma lxor_range n a b :
  0 <= n -> 0 <= a < 2 ^ n -> 0 <= b < 2 ^ n -> 0 <= Z.lxor a b < 2 ^ n.
Proof.
  intros Hn Ha Hb.
  assert (E : Z.lxor a b mod 2 ^ n = Z.lxor a b).
  { rewrite <- Z.land_ones by lia.
    rewrite land_lxor_distr_l.
    rewrite !Z.land_ones by lia.
    now rewrite !Z.mod_small. }
  rewrite <- E. apply Z.mod_pos_bound. lia.
Qed.

Lemma shiftr_range n k a :
  0 <= k -> 0 <= a < 2 ^ n -> 0 <= Z.shiftr a k < 2 ^ n.
Proof.
  intros Hk Ha. rewrite Z.shiftr_div_pow2 by lia. split.
  - apply Z.div_pos; lia.
  - apply Z.le_lt_trans with a; [|lia].
    apply Z.div_le_upper_bound; [lia|]. nia.
Qed.

Lemma land_255_range x : 0 <= Z.land x 255 < 256.
Proof.
  change 255 with (Z.ones 8). rewrite Z.land_ones by lia.
  apply Z.mod_pos_bound. lia.
Qed.

Lemma land_1_cases x : Z.land x 1 = 0 \/ Z.land x 1 = 1.
Proof.
  change 1 with (Z.ones 1) at 1 2. rewrite Z.land_ones by lia.
  change (2 ^ 1) with 2. pose proof (Z.mod_pos_bound x 2). lia.
Qed.

Lemma small_shiftr_8 b : 0 <= b < 256 -> Z.shiftr b 8 = 0.
Proof.
  intros H. rewrite Z.shiftr_div_pow2 by lia. apply Z.div_small. simpl. lia.
Qed.

Lemma small_land_255 b : 0 <= b < 256 -> Z.land b 255 = b.
Proof.
  intros H. change 255 with (Z.ones 8). rewrite Z.land_ones by lia.
  apply Z.mod_small. simpl. lia.
Qed.


Lemma lor_lxor_disjoint a b : Z.land a b = 0 -> Z.lor a b = Z.lxor a b.
Proof.
  intros H. apply Z.bits_inj'. intros i Hi.
  assert (T : Z.testbit (Z.land a b) i = false) by (rewrite H; apply Z.bits_0).
  rewrite Z.land_spec in T. rewrite Z.lor_spec, Z.lxor_spec.
  destruct (Z.testbit a i), (Z.testbit b i); try reflexivity; discriminate.
Qed.

Lemma shiftl_8_low x : Z.land (Z.shiftl x 8) 255 = 0.
Proof.
  change 255 with (Z.ones 8). rewrite Z.land_ones by lia.
  rewrite Z.shiftl_mul_pow2 by lia. apply Z.mod_mul. lia.
Qed.

Lemma shiftr_shiftl_8 x : Z.shiftr (Z.shiftl x 8) 8 = x.
Proof.
  rewrite Z.shiftr_shiftl_l by lia. apply Z.shiftl_0_r.
Qed.

Lemma byte_shiftl_disjoint b x :
  0 <= b < 256 -> Z.land b (Z.shiftl x 8) = 0.
Proof.
  intros H. apply Z.bits_inj'. intros i Hi.
  rewrite Z.land_spec, Z.bits_0.
  destruct (Z.ltb_spec i 8).
  - rewrite Z.shiftl_spec_low by lia. apply andb_false_r.
  - replace (Z.testbit b i) with false; [reflexivity|].
    symmetry. apply Z.bits_above_log2; [lia|].
    destruct (Z.eq_dec b 0) as [->|]; [simpl; lia|].
    apply Z.log2_lt_pow2; [lia|].
    apply Z.lt_le_trans with (2 ^ 8); [simpl; lia|].
    apply Z.pow_le_mono_r; lia.
Qed.

Lemma native_word_nonneg bs : 0 <= endian.native_word bs.
Proof.
  induction bs as [|b bs IH]; cbn [endian.native_word]; [lia|].
  apply Z.lor_nonneg. split.
  - apply byte_to_Z_range.
  - apply Z.shiftl_nonneg. exact IH.
Qed.

Lemma native_word_cons b bs :
  endian.native_word (b :: bs) =
  Z.lxor (byte_to_Z b) (Z.shiftl (endian.native_word bs) 8).
Proof.
  cbn [endian.native_word]. apply lor_lxor_disjoint.
  apply byte_shiftl_disjoint, byte_to_Z_range.
Qed.

Lemma native_word_range bs :
  0 <= endian.native_word bs < 2 ^ (8 * Z.of_nat (length bs)).
Proof.
  induction bs as [|b bs IH].
  - cbn. lia.
  - split; [apply native_word_nonneg|].
    cbn [endian.native_word length].
    pose proof (byte_to_Z_range b) as Hb.
    rewrite Nat2Z.inj_succ.
    replace (8 * Z.succ (Z.of_nat (length bs))) with (8 * Z.of_nat (length bs) + 8) by lia.
    rewrite lor_lxor_disjoint by (apply byte_shiftl_disjoint; lia).
    apply lxor_range; [lia| |].
    + split; [lia|]. apply Z.lt_le_trans with (2 ^ 8); [simpl; lia|].
      apply Z.pow_le_mono_r; lia.
    + rewrite Z.shiftl_mul_pow2 by lia. rewrite Z.pow_add_r by lia.
      split; [apply Z.mul_nonneg_nonneg; lia|].
      apply Z.mul_lt_mono_pos_r; lia.
Qed.

Section CrcFacts.
Variable polynomial : Z.

Local Abbreviation entryStep := (Crc32.entryStep polynomial).
Local Abbreviation entry := (CrcReference.entry polynomial).
Local Abbreviation advance := (CrcReference.advance polynomial).
Local Abbreviation step := (CrcReference.step polynomial).

Lemma entryStep_lxor a b :
  entryStep (Z.lxor a b) = Z.lxor (entryStep a) (entryStep b).
Proof.
  unfold Crc32.entryStep.
  rewrite Z.shiftr_lxor, land_lxor_distr_l.
  rewrite lxor_swap4. f_equal.
  destruct (land_1_cases a) as [-> | ->], (land_1_cases b) as [-> | ->];
    change (Z.lxor 0 0) with 0; change (Z.lxor 1 0) with 1;
    change (Z.lxor 0 1) with 1; change (Z.lxor 1 1) with 0;
    rewrite ?Z.mul_1_l, ?Z.mul_0_l, ?Z.lxor_0_r, ?Z.lxor_0_l, ?Z.lxor_nilpotent;
    reflexivity.
Qed.

Lemma entryStep_0 : entryStep 0 = 0.
Proof. reflexivity. Qed.

Lemma iter_lxor (f : Z -> Z) n :
  (forall a b, f (Z.lxor a b) = Z.lxor (f a) (f b)) ->
  forall a b, Nat.iter n f (Z.lxor a b) = Z.lxor (Nat.iter n f a) (Nat.iter n f b).
Proof.
  intros Hf. induction n as [|n IH]; intros a b; [reflexivity|].
  now rewrite !Nat.iter_succ, IH, Hf.
Qed.

Lemma iter_0 (f : Z -> Z) n : f 0 = 0 -> Nat.iter n f 0 = 0.
Proof.
  intros Hf. induction n as [|n IH]; [reflexivity|].
  now rewrite Nat.iter_succ, IH.
Qed.

Lemma entry_lxor a b : entry (Z.lxor a b) = Z.lxor (entry a) (entry b).
Proof. apply iter_lxor, entryStep_lxor. Qed.

Lemma entry_0 : entry 0 = 0.
Proof. reflexivity. Qed.

(** The advance is linear over xor. *)
Lemma advance_lxor a b : advance (Z.lxor a b) = Z.lxor (advance a) (advance b).
Proof.
  unfold CrcReference.advance.
  rewrite Z.shiftr_lxor, land_lxor_distr_l, entry_lxor.
  rewrite !Z.lxor_assoc. f_equal.
  rewrite <- !Z.lxor_assoc. f_equal. apply Z.lxor_comm.
Qed.

Lemma advance_0 : advance 0 = 0.
Proof. reflexivity. Qed.

(** One byte of the classical algorithm is the advance of crc xor byte. *)
Lemma step_advance crc b : step crc b = advance (Z.lxor crc (byte_to_Z b)).
Proof.
  pose proof (byte_to_Z_range b) as Hb.
  unfold CrcReference.step, CrcReference.advance.
  rewrite Z.shiftr_lxor, land_lxor_distr_l.
  rewrite (small_shiftr_8 (byte_to_Z b)), (small_land_255 (byte_to_Z b)) by lia.
  now rewrite Z.lxor_0_r.
Qed.

(** The advance peels one byte off its argument. *)
Lemma advance_split x : advance x = Z.lxor (advance (Z.land x 255)) (Z.shiftr x 8).
Proof.
  pose proof (land_255_range x) as H.
  unfold CrcReference.advance.
  rewrite (small_shiftr_8 (Z.land x 255)), (small_land_255 (Z.land x 255)) by lia.
  rewrite Z.lxor_0_l. apply Z.lxor_comm.
Qed.

Lemma iter_advance_split n x :
  Nat.iter (S n) advance x =
  Z.lxor (Nat.iter (S n) advance (Z.land x 255)) (Nat.iter n advance (Z.shiftr x 8)).
Proof.
  rewrite !Nat.iter_succ_r. rewrite (advance_split x).
  apply iter_lxor, advance_lxor.
Qed.

Lemma advance_shiftl_8 x : advance (Z.shiftl x 8) = x.
Proof.
  unfold CrcReference.advance.
  rewrite shiftr_shiftl_8, shiftl_8_low. change (entry 0) with 0.
  apply Z.lxor_0_r.
Qed.

(** Several bytes of the classical algorithm, as one word. *)
Lemma steps_word bs : forall crc,
  fold_left step bs crc =
  Nat.iter (length bs) advance (Z.lxor crc (endian.native_word bs)).
Proof.
  induction bs as [|b bs IH]; intros crc.
  - cbn. now rewrite Z.lxor_0_r.
  - cbn [fold_left length]. rewrite IH, step_advance.
    rewrite Nat.iter_succ_r. f_equal.
    rewrite native_word_cons, <- Z.lxor_assoc.
    rewrite (advance_lxor (Z.lxor crc (byte_to_Z b))).
    now rewrite advance_shiftl_8.
Qed.

(** Range facts, for a width [w >= 8] that holds the polynomial. *)
Section Width.
Variable w : Z.
Hypothesis w_ge_8 : 8 <= w.
Hypothesis polynomial_range : 0 <= polynomial < 2 ^ w.

Lemma entryStep_range e : 0 <= e < 2 ^ w -> 0 <= entryStep e < 2 ^ w.
Proof.
  intros He. unfold Crc32.entryStep.
  apply lxor_range; [lia | apply shiftr_range; lia |].
  destruct (land_1_cases e) as [-> | ->]; lia.
Qed.

Lemma entry_range i : 0 <= i < 256 -> 0 <= entry i < 2 ^ w.
Proof.
  intros Hi. unfold CrcReference.entry, Crc32.tableEntry.
  assert (H : forall n, 0 <= Nat.iter n entryStep i < 2 ^ w).
  { induction n as [|n IH].
    - cbn. split; [lia|]. apply Z.lt_le_trans with (2 ^ 8); [simpl; lia|].
      apply Z.pow_le_mono_r; lia.
    - rewrite Nat.iter_succ. now apply entryStep_range. }
  apply H.
Qed.

Lemma advance_range c : 0 <= c < 2 ^ w -> 0 <= advance c < 2 ^ w.
Proof.
  intros Hc. unfold CrcReference.advance.
  apply lxor_range; [lia | apply shiftr_range; lia |].
  apply entry_range, land_255_range.
Qed.

Lemma step_range crc b : 0 <= crc < 2 ^ w -> 0 <= step crc b < 2 ^ w.
Proof.
  intros Hc. rewrite step_advance. apply advance_range.
  apply lxor_range; [lia | lia |].
  pose proof (byte_to_Z_range b). split; [lia|].
  apply Z.lt_le_trans with (2 ^ 8); [simpl; lia|].
  apply Z.pow_le_mono_r; lia.
Qed.

Lemma steps_range bs : forall crc,
  0 <= crc < 2 ^ w -> 0 <= fold_left step bs crc < 2 ^ w.
Proof.
  induction bs as [|b bs IH]; intros crc Hc; cbn [fold_left]; auto.
  apply IH, step_range, Hc.
Qed.

End Width.

Local Abbreviation builtTable := (CrcReference.builtTable polynomial).

Lemma baseTable_nth i :
  0 <= i < 256 ->
  nth (Z.to_nat i) (Crc32.baseTable polynomial) 0 = entry i.
Proof.
  intros Hi. unfold Crc32.baseTable.
  rewrite (nth_indep _ 0 (Crc32.tableEntry polynomial (Z.of_nat 0)))
    by (rewrite length_map, length_seq; lia).
  rewrite (map_nth (fun i => Crc32.tableEntry polynomial (Z.of_nat i))).
  rewrite seq_nth by lia. cbn [Nat.add].
  now rewrite Z2Nat.id by lia.
Qed.

Lemma nextSlice_advance previous :
  Crc32.nextSlice (Crc32.baseTable polynomial) previous = map advance previous.
Proof.
  unfold Crc32.nextSlice. apply map_ext. intros e.
  unfold CrcReference.advance.
  now rewrite baseTable_nth by apply land_255_range.
Qed.

Lemma slices_nth count : forall previous s,
  (s < count)%nat ->
  nth s (Crc32.slices (Crc32.baseTable polynomial) previous count) [] =
  map (Nat.iter (S s) advance) previous.
Proof.
  induction count as [|count IH]; intros previous s Hs; [lia|].
  cbn [Crc32.slices]. rewrite nextSlice_advance.
  destruct s as [|s]; cbn [nth].
  - reflexivity.
  - rewrite IH by lia. rewrite map_map. apply map_ext. intros e.
    now rewrite (Nat.iter_succ_r (S s)).
Qed.

(** Slice [s] of the table holds the advance iterated [s + 1] times. *)
Lemma lookup_advance s i :
  (s < 16)%nat -> 0 <= i < 256 ->
  Crc32.lookup builtTable s i = Nat.iter (S s) advance i.
Proof.
  intros Hs Hi. unfold Crc32.lookup, CrcReference.builtTable.
  assert (E0 : forall k, nth (Z.to_nat i)
                 (map (Nat.iter k advance) (Crc32.baseTable polynomial)) 0
               = Nat.iter k advance (entry i)).
  { intros k. rewrite <- baseTable_nth by lia.
    rewrite <- (iter_0 advance k advance_0) at 1.
    apply (map_nth (Nat.iter k advance)). }
  assert (Eadv : entry i = advance i).
  { unfold CrcReference.advance.
    rewrite small_shiftr_8, small_land_255 by lia. now rewrite Z.lxor_0_l. }
  destruct s as [|s]; cbn [nth].
  - rewrite baseTable_nth by lia. exact Eadv.
  - rewrite slices_nth by lia. rewrite E0, Eadv.
    now rewrite <- (Nat.iter_succ_r (S s)).
Qed.

End CrcFacts.

Lemma firstn_add {A} (l : list A) a b :
  firstn (a + b) l = firstn a l ++ firstn b (skipn a l).
Proof.
  revert l; induction a as [|a IH]; intros l; cbn [Nat.add firstn skipn app].
  - reflexivity.
  - destruct l as [|x l]; cbn [firstn skipn app].
    + now rewrite firstn_nil.
    + now rewrite IH.
Qed.

Lemma shiftr_shiftr_pos x a b : 0 <= a -> 0 <= b ->
  Z.shiftr (Z.shiftr x a) b = Z.shiftr x (a + b).
Proof. intros. apply Z.shiftr_shiftr. lia. Qed.

Lemma shiftr_small x n : 0 <= n -> 0 <= x < 2 ^ n -> Z.shiftr x n = 0.
Proof.
  intros Hn Hx. rewrite Z.shiftr_div_pow2 by lia. now apply Z.div_small.
Qed.

(** Equality of two xor combinations of the same terms. *)
Ltac lxor_ac :=
  apply Z.bits_inj'; intros ?i ?Hi; rewrite !Z.lxor_spec; btauto.

Section Crc32Slicing.
Variable polynomial : Z.

Local Abbreviation advance := (CrcReference.advance polynomial).
Local Abbreviation step := (CrcReference.step polynomial).
Local Abbreviation table := (CrcReference.builtTable polynomial).

(** A 32-bit word, advanced [k + 4] times, from its four bytes. *)
Lemma advance_word32 k x :
  0 <= x < 2 ^ 32 ->
  Nat.iter (4 + k) advance x =
  Z.lxor (Z.lxor (Z.lxor
    (Nat.iter (4 + k) advance (Z.land x 255))
    (Nat.iter (3 + k) advance (Z.land (Z.shiftr x 8) 255)))
    (Nat.iter (2 + k) advance (Z.land (Z.shiftr x 16) 255)))
    (Nat.iter (1 + k) advance (Z.land (Z.shiftr x 24) 255)).
Proof.
  intros Hx.
  change (4 + k)%nat with (S (3 + k)). rewrite (iter_advance_split polynomial (3 + k) x).
  change (3 + k)%nat with (S (2 + k)).
  rewrite (iter_advance_split polynomial (2 + k) (Z.shiftr x 8)).
  change (2 + k)%nat with (S (1 + k)).
  rewrite (iter_advance_split polynomial (1 + k) (Z.shiftr (Z.shiftr x 8) 8)).
  change (1 + k)%nat with (S k).
  rewrite (iter_advance_split polynomial k (Z.shiftr (Z.shiftr (Z.shiftr x 8) 8) 8)).
  rewrite !shiftr_shiftr_pos by lia. cbn [Z.add Pos.add Pos.succ].
  rewrite (shiftr_small x 32) by lia.
  rewrite (iter_0 advance k (advance_0 polynomial)).
  rewrite Z.lxor_0_r. lxor_ac.
Qed.

(** Four bytes of the classical algorithm, as one word. *)
Lemma steps_word32 p crc :
  (4 <= length p)%nat ->
  fold_left step (firstn 4 p) crc =
  Nat.iter 4 advance (Z.lxor crc (endian.GET32BITS p)).
Proof.
  intros H. rewrite steps_word, length_firstn, Nat.min_l by lia. reflexivity.
Qed.

Lemma GET32BITS_range p : 0 <= endian.GET32BITS p < 2 ^ 32.
Proof.
  unfold endian.GET32BITS.
  pose proof (native_word_range (firstn 4 p)) as H.
  pose proof (firstn_le_length 4 p) as L.
  split; [lia|]. apply Z.lt_le_trans with (2 ^ (8 * Z.of_nat (length (firstn 4 p)))); [lia|].
  apply Z.pow_le_mono_r; lia.
Qed.

(** The slicing-by-16 pass equals sixteen steps of the classical
    algorithm. *)
Lemma slice16_steps crc p :
  0 <= crc < 2 ^ 32 -> (16 <= length p)%nat ->
  Crc32.slice16 table crc p = fold_left step (firstn 16 p) crc.
Proof.
  intros Hc Hp.
  change (firstn 16 p) with (firstn (4 + (4 + (4 + 4))) p).
  rewrite !firstn_add, !fold_left_app, !skipn_skipn. cbn [Nat.add].
  rewrite !steps_word32 by (rewrite ?length_skipn; lia).
  unfold Crc32.slice16, endian.word32_at.
  change (skipn (4 * 0) p) with p. change (4 * 1)%nat with 4%nat.
  change (4 * 2)%nat with 8%nat. change (4 * 3)%nat with 12%nat.
  set (w0 := endian.GET32BITS p).
  set (w1 := endian.GET32BITS (skipn 4 p)).
  set (w2 := endian.GET32BITS (skipn 8 p)).
  set (w3 := endian.GET32BITS (skipn 12 p)).
  assert (H0 : 0 <= w0 < 2 ^ 32) by apply GET32BITS_range.
  assert (H1 : 0 <= w1 < 2 ^ 32) by apply GET32BITS_range.
  assert (H2 : 0 <= w2 < 2 ^ 32) by apply GET32BITS_range.
  assert (H3 : 0 <= w3 < 2 ^ 32) by apply GET32BITS_range.
  assert (Hone : 0 <= Z.lxor w0 crc < 2 ^ 32) by (apply lxor_range; lia).
  rewrite !lookup_advance by (try lia; apply land_255_range).
  (* the classical side, by linearity *)
  rewrite !(iter_lxor advance 4 (advance_lxor polynomial)).
  rewrite <- !Nat.iter_add. cbn [Nat.add].
  rewrite <- (iter_lxor advance 16 (advance_lxor polynomial) crc w0).
  rewrite (Z.lxor_comm crc w0).
  pose proof (advance_word32 12 (Z.lxor w0 crc) Hone) as A0.
  pose proof (advance_word32 8 w1 H1) as A1.
  pose proof (advance_word32 4 w2 H2) as A2.
  pose proof (advance_word32 0 w3 H3) as A3.
  cbn [Nat.add] in A0, A1, A2, A3.
  rewrite A0, A1, A2, A3.
  lxor_ac.
Qed.

Lemma byteStep_step crc b : Crc32.byteStep table crc b = step crc b.
Proof.
  unfold Crc32.byteStep, CrcReference.step.
  set (idx := Z.lxor (Z.land crc 255) (byte_to_Z b)).
  assert (H : 0 <= idx < 256).
  { pose proof (land_255_range crc) as H1. pose proof (byte_to_Z_range b) as H2.
    change 256 with (2 ^ 8). apply lxor_range; simpl; lia. }
  rewrite lookup_advance by lia.
  cbn [Nat.iter nat_rect]. unfold CrcReference.advance.
  rewrite (small_shiftr_8 idx), (small_land_255 idx) by lia.
  now rewrite Z.lxor_0_l.
Qed.

Lemma remaining_steps crc data :
  Crc32.remaining table crc data = fold_left step data crc.
Proof.
  unfold Crc32.remaining. revert crc.
  induction data as [|b data IH]; intros crc; cbn [fold_left]; auto.
  now rewrite byteStep_step, IH.
Qed.

Hypothesis polynomial_range : 0 <= polynomial < 2 ^ 32.

Lemma unrolled_steps crc p :
  0 <= crc < 2 ^ 32 -> (64 <= length p)%nat ->
  Crc32.unrolled table crc p = fold_left step (firstn 64 p) crc.
Proof.
  intros Hc Hp. unfold Crc32.unrolled, Crc32.Unroll.
  change (firstn 64 p) with (firstn (16 + (16 + (16 + 16))) p).
  rewrite !firstn_add, !fold_left_app, !skipn_skipn. cbn [Nat.add].
  cbn [seq fold_left].
  change (skipn (16 * 0) p) with p. change (16 * 1)%nat with 16%nat.
  change (16 * 2)%nat with 32%nat. change (16 * 3)%nat with 48%nat.
  assert (R : forall bs c, 0 <= c < 2 ^ 32 -> 0 <= fold_left step bs c < 2 ^ 32)
    by (intros; apply (steps_range polynomial 32); lia).
  rewrite (slice16_steps crc p) by lia.
  rewrite (slice16_steps _ (skipn 16 p))
    by (rewrite ?length_skipn; try lia; apply R; lia).
  rewrite (slice16_steps _ (skipn 32 p))
    by (rewrite ?length_skipn; try lia; apply R, R; lia).
  rewrite (slice16_steps _ (skipn 48 p))
    by (rewrite ?length_skipn; try lia; apply R, R, R; lia).
  reflexivity.
Qed.

Lemma blocks_steps fuel : forall crc data,
  0 <= crc < 2 ^ 32 ->
  let r := Crc32.blocks fuel table crc data in
  fold_left step (snd r) (fst r) = fold_left step data crc /\
  0 <= fst r < 2 ^ 32.
Proof.
  induction fuel as [|fuel IH]; intros crc data Hc; cbn [Crc32.blocks].
  - cbn [fst snd]. auto.
  - destruct (Nat.leb_spec Crc32.BytesAtOnce (length data)) as [Hl|Hl].
    + change Crc32.BytesAtOnce with 64%nat in *.
      rewrite unrolled_steps by lia.
      destruct (IH (fold_left step (firstn 64 data) crc) (skipn 64 data)) as (E & R).
      { apply (steps_range polynomial 32); lia. }
      cbv zeta in E, R. split; [|exact R].
      rewrite E, <- fold_left_app, firstn_skipn. reflexivity.
    + cbn [fst snd]. auto.
Qed.

Lemma not32_range x : 0 <= x < 2 ^ 32 -> 0 <= not32 x < 2 ^ 32.
Proof. intros H. unfold not32. apply lxor_range; simpl; lia. Qed.

Lemma not32_involutive x : not32 (not32 x) = x.
Proof.
  unfold not32. now rewrite Z.lxor_assoc, Z.lxor_nilpotent, Z.lxor_0_r.
Qed.

End Crc32Slicing.

(* ------------------------------------------------------------------ *)
(** ** Crc32::hashCore is the reference CRC *)

Lemma crc32_hashCore_spec st data :
  Invariants.crc32 st ->
  Crc32.m_hash (Crc32.hashCore st data) =
    CrcReference.crc32 (Crc32.m_polynomial st) (Crc32.m_hash st) data /\
  Invariants.crc32 (Crc32.hashCore st data).
Proof.
  intros (Hp & Hs & Hh & Ht).
  change (Crc32.m_lookupTable (Crc32.initializeTable st))
    with (CrcReference.builtTable (Crc32.m_polynomial st)) in Ht.
  unfold Crc32.hashCore. rewrite Ht.
  change 4294967296 with (2 ^ 32) in *.
  pose proof (not32_range _ Hh) as Hn.
  destruct (blocks_steps (Crc32.m_polynomial st) Hp (length data)
              (not32 (Crc32.m_hash st)) data Hn) as (E & R).
  cbv zeta in E, R.
  destruct (Crc32.blocks _ _ _ _) as [crc rest]. cbn [fst snd] in E, R.
  rewrite remaining_steps, E.
  unfold Invariants.crc32. cbn [Crc32.m_hash Crc32.m_polynomial Crc32.m_seed
                                 Crc32.m_lookupTable Crc32.initializeTable].
  change 4294967296 with (2 ^ 32).
  repeat split; try lia; try reflexivity.
  - apply not32_range, (steps_range (Crc32.m_polynomial st) 32); lia.
  - apply not32_range, (steps_range (Crc32.m_polynomial st) 32); lia.
Qed.

Lemma crc32_reference_app polynomial h d1 d2 :
  CrcReference.crc32 polynomial (CrcReference.crc32 polynomial h d1) d2 =
  CrcReference.crc32 polynomial h (d1 ++ d2).
Proof.
  unfold CrcReference.crc32. now rewrite not32_involutive, fold_left_app.
Qed.

Lemma crc32_reference_nil polynomial h : CrcReference.crc32 polynomial h [] = h.
Proof. unfold CrcReference.crc32. cbn [fold_left]. apply not32_involutive. Qed.

Lemma crc32_hashCore_fields st data :
  Crc32.m_polynomial (Crc32.hashCore st data) = Crc32.m_polynomial st /\
  Crc32.m_seed (Crc32.hashCore st data) = Crc32.m_seed st /\
  Crc32.m_lookupTable (Crc32.hashCore st data) = Crc32.m_lookupTable st.
Proof.
  unfold Crc32.hashCore. destruct (Crc32.blocks _ _ _ _). auto.
Qed.

Lemma crc32_feed_spec chunks : forall st,
  Invariants.crc32 st ->
  Crc32.m_hash (Stream.feed Crc32.hashCore chunks st) =
    CrcReference.crc32 (Crc32.m_polynomial st) (Crc32.m_hash st) (concat chunks) /\
  Invariants.crc32 (Stream.feed Crc32.hashCore chunks st).
Proof.
  induction chunks as [|c cs IH]; intros st H; cbn [Stream.feed fold_left concat].
  - now rewrite crc32_reference_nil.
  - destruct (crc32_hashCore_spec st c H) as (E & I).
    destruct (IH _ I) as (E' & I'). split; [|exact I'].
    unfold Stream.feed in E'. rewrite E', E.
    destruct (crc32_hashCore_fields st c) as (-> & _).
    apply crc32_reference_app.
Qed.

Lemma crc32_feed_digest chunks st :
  Invariants.crc32 st ->
  snd (Crc32.hashFinal (Stream.feed Crc32.hashCore chunks st)) =
  snd (Crc32.hashFinal (Crc32.hashCore st (concat chunks))).
Proof.
  intros H.
  destruct (crc32_feed_spec chunks st H) as (E & _).
  destruct (crc32_hashCore_spec st (concat chunks) H) as (E' & _).
  unfold Crc32.hashFinal. cbn [snd]. now rewrite E, E'.
Qed.

(** The constructor establishes the invariant. *)
Lemma crc32_constructed polynomial seed :
  Invariants.crc32 (Crc32.Crc32 polynomial seed).
Proof.
  unfold Invariants.crc32, Crc32.Crc32.
  cbn [Crc32.initializeTable Crc32.initialize Crc32.m_polynomial Crc32.m_seed
       Crc32.m_hash Crc32.m_lookupTable].
  unfold u32.
  pose proof (Z.mod_pos_bound polynomial 4294967296 ltac:(lia)).
  pose proof (Z.mod_pos_bound seed 4294967296 ltac:(lia)).
  repeat split; lia.
Qed.

(* ------------------------------------------------------------------ *)
(** ** Crc64: the same, on 64-bit words *)

Section Crc64Slicing.
Variable polynomial : Z.

Local Abbreviation advance := (CrcReference.advance polynomial).
Local Abbreviation step := (CrcReference.step polynomial).
Local Abbreviation table := (CrcReference.builtTable polynomial).

(** A 64-bit word, advanced [k + 8] times, from its eight bytes. *)
Lemma advance_word64 k x :
  0 <= x < 2 ^ 64 ->
  Nat.iter (8 + k) advance x =
  Z.lxor (Z.lxor (Z.lxor (Z.lxor (Z.lxor (Z.lxor (Z.lxor
    (Nat.iter (8 + k) advance (Z.land x 255))
    (Nat.iter (7 + k) advance (Z.land (Z.shiftr x 8) 255)))
    (Nat.iter (6 + k) advance (Z.land (Z.shiftr x 16) 255)))
    (Nat.iter (5 + k) advance (Z.land (Z.shiftr x 24) 255)))
    (Nat.iter (4 + k) advance (Z.land (Z.shiftr x 32) 255)))
    (Nat.iter (3 + k) advance (Z.land (Z.shiftr x 40) 255)))
    (Nat.iter (2 + k) advance (Z.land (Z.shiftr x 48) 255)))
    (Nat.iter (1 + k) advance (Z.land (Z.shiftr x 56) 255)).
Proof.
  intros Hx.
  change (8 + k)%nat with (S (7 + k)). rewrite (iter_advance_split polynomial (7 + k) x).
  change (7 + k)%nat with (S (6 + k)).
  rewrite (iter_advance_split polynomial (6 + k) (Z.shiftr x 8)).
  rewrite shiftr_shiftr_pos by lia.
  change (6 + k)%nat with (S (5 + k)).
  rewrite (iter_advance_split polynomial (5 + k) (Z.shiftr x (8 + 8))).
  rewrite shiftr_shiftr_pos by lia.
  change (5 + k)%nat with (S (4 + k)).
  rewrite (iter_advance_split polynomial (4 + k) (Z.shiftr x (8 + 8 + 8))).
  rewrite shiftr_shiftr_pos by lia.
  change (4 + k)%nat with (S (3 + k)).
  rewrite (iter_advance_split polynomial (3 + k) (Z.shiftr x (8 + 8 + 8 + 8))).
  rewrite shiftr_shiftr_pos by lia.
  change (3 + k)%nat with (S (2 + k)).
  rewrite (iter_advance_split polynomial (2 + k) (Z.shiftr x (8 + 8 + 8 + 8 + 8))).
  rewrite shiftr_shiftr_pos by lia.
  change (2 + k)%nat with (S (1 + k)).
  rewrite (iter_advance_split polynomial (1 + k) (Z.shiftr x (8 + 8 + 8 + 8 + 8 + 8))).
  rewrite shiftr_shiftr_pos by lia.
  change (1 + k)%nat with (S k).
  rewrite (iter_advance_split polynomial k (Z.shiftr x (8 + 8 + 8 + 8 + 8 + 8 + 8))).
  rewrite shiftr_shiftr_pos by lia.
  cbn [Z.add Pos.add Pos.succ].
  rewrite (shiftr_small x 64) by lia.
  rewrite (iter_0 advance k (advance_0 polynomial)).
  rewrite Z.lxor_0_r. lxor_ac.
Qed.

(** Eight bytes of the classical algorithm, as one word. *)
Lemma steps_word64 p crc :
  (8 <= length p)%nat ->
  fold_left step (firstn 8 p) crc =
  Nat.iter 8 advance (Z.lxor crc (endian.GET64BITS p)).
Proof.
  intros H. rewrite steps_word, length_firstn, Nat.min_l by lia. reflexivity.
Qed.

Lemma GET64BITS_range p : 0 <= endian.GET64BITS p < 2 ^ 64.
Proof.
  unfold endian.GET64BITS.
  pose proof (native_word_range (firstn 8 p)) as H.
  pose proof (firstn_le_length 8 p) as L.
  split; [lia|]. apply Z.lt_le_trans with (2 ^ (8 * Z.of_nat (length (firstn 8 p)))); [lia|].
  apply Z.pow_le_mono_r; lia.
Qed.

(** The slicing-by-16 pass equals sixteen steps of the classical
    algorithm. *)
Lemma slice16_steps64 crc p :
  0 <= crc < 2 ^ 64 -> (16 <= length p)%nat ->
  Crc64.slice16 table crc p = fold_left step (firstn 16 p) crc.
Proof.
  intros Hc Hp.
  change (firstn 16 p) with (firstn (8 + 8) p).
  rewrite !firstn_add, !fold_left_app.
  rewrite !steps_word64 by (rewrite ?length_skipn; lia).
  unfold Crc64.slice16, Crc64.lookup, endian.word64_at.
  change (skipn (8 * 0) p) with p. change (8 * 1)%nat with 8%nat.
  set (w0 := endian.GET64BITS p).
  set (w1 := endian.GET64BITS (skipn 8 p)).
  assert (H0 : 0 <= w0 < 2 ^ 64) by apply GET64BITS_range.
  assert (H1 : 0 <= w1 < 2 ^ 64) by apply GET64BITS_range.
  assert (Hone : 0 <= Z.lxor w0 crc < 2 ^ 64) by (apply lxor_range; lia).
  rewrite !lookup_advance by (try lia; apply land_255_range).
  (* the classical side, by linearity *)
  rewrite !(iter_lxor advance 8 (advance_lxor polynomial)).
  rewrite <- !Nat.iter_add. cbn [Nat.add].
  rewrite <- (iter_lxor advance 16 (advance_lxor polynomial) crc w0).
  rewrite (Z.lxor_comm crc w0).
  pose proof (advance_word64 8 (Z.lxor w0 crc) Hone) as A0.
  pose proof (advance_word64 0 w1 H1) as A1.
  cbn [Nat.add] in A0, A1.
  rewrite A0, A1.
  lxor_ac.
Qed.

Lemma remaining_steps64 crc data :
  Crc64.remaining table crc data = fold_left step data crc.
Proof. apply remaining_steps. Qed.

Hypothesis polynomial_range : 0 <= polynomial < 2 ^ 64.

Lemma unrolled_steps64 crc p :
  0 <= crc < 2 ^ 64 -> (64 <= length p)%nat ->
  Crc64.unrolled table crc p = fold_left step (firstn 64 p) crc.
Proof.
  intros Hc Hp. unfold Crc64.unrolled, Crc64.Unroll.
  change (firstn 64 p) with (firstn (16 + (16 + (16 + 16))) p).
  rewrite !firstn_add, !fold_left_app, !skipn_skipn. cbn [Nat.add].
  cbn [seq fold_left].
  change (skipn (16 * 0) p) with p. change (16 * 1)%nat with 16%nat.
  change (16 * 2)%nat with 32%nat. change (16 * 3)%nat with 48%nat.
  assert (R : forall bs c, 0 <= c < 2 ^ 64 -> 0 <= fold_left step bs c < 2 ^ 64)
    by (intros; apply (steps_range polynomial 64); lia).
  rewrite (slice16_steps64 crc p) by lia.
  rewrite (slice16_steps64 _ (skipn 16 p))
    by (rewrite ?length_skipn; try lia; apply R; lia).
  rewrite (slice16_steps64 _ (skipn 32 p))
    by (rewrite ?length_skipn; try lia; apply R, R; lia).
  rewrite (slice16_steps64 _ (skipn 48 p))
    by (rewrite ?length_skipn; try lia; apply R, R, R; lia).
  reflexivity.
Qed.

Lemma blocks_steps64 fuel : forall crc data,
  0 <= crc < 2 ^ 64 ->
  let r := Crc64.blocks fuel table crc data in
  fold_left step (snd r) (fst r) = fold_left step data crc /\
  0 <= fst r < 2 ^ 64.
Proof.
  induction fuel as [|fuel IH]; intros crc data Hc; cbn [Crc64.blocks].
  - cbn [fst snd]. auto.
  - destruct (Nat.leb_spec Crc64.BytesAtOnce (length data)) as [Hl|Hl].
    + change Crc64.BytesAtOnce with 64%nat in *.
      rewrite unrolled_steps64 by lia.
      destruct (IH (fold_left step (firstn 64 data) crc) (skipn 64 data)) as (E & R).
      { apply (steps_range polynomial 64); lia. }
      cbv zeta in E, R. split; [|exact R].
      rewrite E, <- fold_left_app, firstn_skipn. reflexivity.
    + cbn [fst snd]. auto.
Qed.

Lemma not64_range x : 0 <= x < 2 ^ 64 -> 0 <= not64 x < 2 ^ 64.
Proof. intros H. unfold not64. apply lxor_range; simpl; lia. Qed.

Lemma not64_involutive x : not64 (not64 x) = x.
Proof.
  unfold not64. now rewrite Z.lxor_assoc, Z.lxor_nilpotent, Z.lxor_0_r.
Qed.

End Crc64Slicing.

(* ------------------------------------------------------------------ *)
(** ** Crc64::hashCore is the reference CRC *)

Lemma crc64_hashCore_spec st data :
  Invariants.crc64 st ->
  Crc64.m_hash (Crc64.hashCore st data) =
    CrcReference.crc64 (Crc64.m_polynomial st) (Crc64.m_hash st) data /\
  Invariants.crc64 (Crc64.hashCore st data).
Proof.
  intros (Hp & Hs & Hh & Ht).
  change (Crc64.m_lookupTable (Crc64.initializeTable st))
    with (CrcReference.builtTable (Crc64.m_polynomial st)) in Ht.
  unfold Crc64.hashCore. rewrite Ht.
  change 18446744073709551616 with (2 ^ 64) in *.
  pose proof (not64_range _ Hh) as Hn.
  destruct (blocks_steps64 (Crc64.m_polynomial st) Hp (length data)
              (not64 (Crc64.m_hash st)) data Hn) as (E & R).
  cbv zeta in E, R.
  destruct (Crc64.blocks _ _ _ _) as [crc rest]. cbn [fst snd] in E, R.
  rewrite remaining_steps64, E.
  unfold Invariants.crc64. cbn [Crc64.m_hash Crc64.m_polynomial Crc64.m_seed
                                 Crc64.m_lookupTable Crc64.initializeTable].
  change 18446744073709551616 with (2 ^ 64).
  repeat split; try lia; try reflexivity.
  - apply not64_range, (steps_range (Crc64.m_polynomial st) 64); lia.
  - apply not64_range, (steps_range (Crc64.m_polynomial st) 64); lia.
Qed.

Lemma crc64_reference_app polynomial h d1 d2 :
  CrcReference.crc64 polynomial (CrcReference.crc64 polynomial h d1) d2 =
  CrcReference.crc64 polynomial h (d1 ++ d2).
Proof.
  unfold CrcReference.crc64. now rewrite not64_involutive, fold_left_app.
Qed.

Lemma crc64_reference_nil polynomial h : CrcReference.crc64 polynomial h [] = h.
Proof. unfold CrcReference.crc64. cbn [fold_left]. apply not64_involutive. Qed.

Lemma crc64_hashCore_fields st data :
  Crc64.m_polynomial (Crc64.hashCore st data) = Crc64.m_polynomial st /\
  Crc64.m_seed (Crc64.hashCore st data) = Crc64.m_seed st /\
  Crc64.m_lookupTable (Crc64.hashCore st data) = Crc64.m_lookupTable st.
Proof.
  unfold Crc64.hashCore. destruct (Crc64.blocks _ _ _ _). auto.
Qed.

Lemma crc64_feed_spec chunks : forall st,
  Invariants.crc64 st ->
  Crc64.m_hash (Stream.feed Crc64.hashCore chunks st) =
    CrcReference.crc64 (Crc64.m_polynomial st) (Crc64.m_hash st) (concat chunks) /\
  Invariants.crc64 (Stream.feed Crc64.hashCore chunks st).
Proof.
  induction chunks as [|c cs IH]; intros st H; cbn [Stream.feed fold_left concat].
  - now rewrite crc64_reference_nil.
  - destruct (crc64_hashCore_spec st c H) as (E & I).
    destruct (IH _ I) as (E' & I'). split; [|exact I'].
    unfold Stream.feed in E'. rewrite E', E.
    destruct (crc64_hashCore_fields st c) as (-> & _).
    apply crc64_reference_app.
Qed.

Lemma crc64_feed_digest chunks st :
  Invariants.crc64 st ->
  snd (Crc64.hashFinal (Stream.feed Crc64.hashCore chunks st)) =
  snd (Crc64.hashFinal (Crc64.hashCore st (concat chunks))).
Proof.
  intros H.
  destruct (crc64_feed_spec chunks st H) as (E & _).
  destruct (crc64_hashCore_spec st (concat chunks) H) as (E' & _).
  unfold Crc64.hashFinal. cbn [snd]. now rewrite E, E'.
Qed.

(** The constructor establishes the invariant. *)
Lemma crc64_constructed polynomial seed :
  Invariants.crc64 (Crc64.Crc64 polynomial seed).
Proof.
  unfold Invariants.crc64, Crc64.Crc64.
  cbn [Crc64.initializeTable Crc64.initialize Crc64.m_polynomial Crc64.m_seed
       Crc64.m_hash Crc64.m_lookupTable].
  unfold u64.
  pose proof (Z.mod_pos_bound polynomial 18446744073709551616 ltac:(lia)).
  pose proof (Z.mod_pos_bound seed 18446744073709551616 ltac:(lia)).
  repeat split; lia.
Qed.

(* ------------------------------------------------------------------ *)
(** ** The objects: dispatch, invariants, streaming *)

Lemma sha3_hashFinal_invariant st :
  Invariants.sha3 st -> Invariants.sha3 (fst (Sha3.hashFinal st)).
Proof.
  intros (Hp & Hsz & Hcap). unfold Invariants.sha3, Stream.invariant in *.
  unfold Sha3.hashFinal, Sha3.processBuffer.
  cbn [fst Sha3.m_blockSize Sha3.core BlockBuffer.m_bufferSize BlockBuffer.m_buffer].
  rewrite length_upd, length_fill_zero, length_upd. auto.
Qed.

Lemma constructed_invariant o :
  Objects.constructed o -> Objects.invariant (HashAlgorithm.initialize o).
Proof.
  destruct o as [hv [st|st|st|st|st|st|st|st]];
    unfold Objects.constructed, Objects.invariant;
    cbn [HashAlgorithm.self HashAlgorithm.initialize]; intros H.
  - split; cbn; [unfold MerkleDamgard.BLOCK_SIZE; lia | rewrite H; reflexivity].
  - split; cbn; [unfold MerkleDamgard.BLOCK_SIZE; lia | rewrite H; reflexivity].
  - split; cbn; [unfold MerkleDamgard.BLOCK_SIZE; lia | rewrite H; reflexivity].
  - destruct H as (Hb & Hl).
    unfold Invariants.sha3, Stream.invariant, Sha3.initialize.
    cbn [Sha3.m_blockSize Sha3.core BlockBuffer.m_bufferSize BlockBuffer.m_buffer].
    rewrite Hl, Hb. unfold Sha3.MaxBlockSize.
    destruct (Sha3.m_bits st); cbn; lia.
  - destruct H as (Hp & Hs & Ht). unfold Invariants.crc32, Crc32.initialize.
    cbn [Crc32.m_polynomial Crc32.m_seed Crc32.m_hash Crc32.m_lookupTable]. auto.
  - destruct H as (Hp & Hs & Ht). unfold Invariants.crc64, Crc64.initialize.
    cbn [Crc64.m_polynomial Crc64.m_seed Crc64.m_hash Crc64.m_lookupTable]. auto.
  - unfold Invariants.xxHash32, XxHash32.initialize.
    cbn [XxHash32.m_bufferSize XxHash32.m_buffer XxHash32.m_totalLength].
    rewrite repeat_length, H. unfold XxHash32.MaxBufferSize. lia.
  - unfold Invariants.xxHash64, XxHash64.initialize.
    cbn [XxHash64.m_bufferSize XxHash64.m_buffer XxHash64.m_totalLength].
    rewrite repeat_length, H. unfold XxHash64.MaxBufferSize. lia.
Qed.

Lemma invariant_hashCore o data :
  Objects.invariant o -> Objects.invariant (HashAlgorithm.hashCore o data).
Proof.
  destruct o as [hv [st|st|st|st|st|st|st|st]];
    unfold Objects.invariant; cbn [HashAlgorithm.self HashAlgorithm.hashCore];
    intros H.
  - now apply (hashCore_view _ Md5.processBlock BLOCK_SIZE_pos).
  - now apply (hashCore_view _ Sha1.processBlock BLOCK_SIZE_pos).
  - now apply (hashCore_view _ Sha256.processBlock BLOCK_SIZE_pos).
  - now apply sha3_hashCore_view.
  - now apply crc32_hashCore_spec.
  - now apply crc64_hashCore_spec.
  - now apply xx32_hashCore_view.
  - now apply xx64_hashCore_view.
Qed.

Lemma invariant_hashFinal o :
  Objects.invariant o -> Objects.invariant (fst (HashAlgorithm.hashFinal o)).
Proof.
  destruct o as [hv [st|st|st|st|st|st|st|st]];
    unfold Objects.invariant, HashAlgorithm.hashFinal; cbn [HashAlgorithm.self];
    intros H.
  - pose proof (hashFinal_view Md5.processBlock MerkleDamgard.lengthLittleEndian
                  Md5.render lengthLittleEndian_length st H) as (_ & I).
    fold Md5.hashFinal in I. destruct (Md5.hashFinal st). exact I.
  - pose proof (hashFinal_view Sha1.processBlock MerkleDamgard.lengthBigEndian
                  Sha1.render lengthBigEndian_length st H) as (_ & I).
    fold Sha1.hashFinal in I. destruct (Sha1.hashFinal st). exact I.
  - pose proof (hashFinal_view Sha256.processBlock MerkleDamgard.lengthBigEndian
                  Sha256.render lengthBigEndian_length st H) as (_ & I).
    fold Sha256.hashFinal in I. destruct (Sha256.hashFinal st). exact I.
  - pose proof (sha3_hashFinal_invariant st H) as I.
    destruct (Sha3.hashFinal st). exact I.
  - exact H.
  - exact H.
  - exact H.
  - exact H.
Qed.

Lemma invariant_bufferBound o : Objects.invariant o -> Objects.bufferBound o.
Proof.
  destruct o as [hv [st|st|st|st|st|st|st|st]];
    unfold Objects.invariant, Objects.bufferBound; cbn [HashAlgorithm.self];
    intros H; try exact I.
  - destruct H as [H _]. unfold MerkleDamgard.BLOCK_SIZE in H.
    unfold Md5.BLOCK_SIZE. cbn. lia.
  - destruct H as [H _]. unfold MerkleDamgard.BLOCK_SIZE in H.
    unfold Sha1.BLOCK_SIZE. cbn. lia.
  - destruct H as [H _]. unfold MerkleDamgard.BLOCK_SIZE in H.
    unfold Sha256.BLOCK_SIZE. cbn. lia.
  - destruct H as (_ & H & _). lia.
  - destruct H as (H & _). lia.
  - destruct H as (H & _). lia.
Qed.

Lemma invariant_run calls : forall o,
  Objects.invariant o ->
  Objects.invariant (Stream.run HashAlgorithm.hashCore HashAlgorithm.hashFinal calls o).
Proof.
  induction calls as [|c calls IH]; intros o H; cbn [Stream.run fold_left]; auto.
  apply IH. destruct c; cbn [Stream.perform].
  - now apply invariant_hashCore.
  - now apply invariant_hashFinal.
Qed.

(** Virtual dispatch, class by class. *)
Ltac feed_dispatch chunks :=
  unfold Stream.feed;
  induction chunks as [|? ? IH]; intro; cbn [fold_left];
  [reflexivity | apply IH].

Lemma feed_md5 hv chunks : forall st,
  Stream.feed HashAlgorithm.hashCore chunks
    (HashAlgorithm.mkObject hv (HashAlgorithm.OfMd5 st)) =
  HashAlgorithm.mkObject hv (HashAlgorithm.OfMd5 (Stream.feed Md5.hashCore chunks st)).
Proof. feed_dispatch chunks. Qed.

Lemma feed_sha1 hv chunks : forall st,
  Stream.feed HashAlgorithm.hashCore chunks
    (HashAlgorithm.mkObject hv (HashAlgorithm.OfSha1 st)) =
  HashAlgorithm.mkObject hv (HashAlgorithm.OfSha1 (Stream.feed Sha1.hashCore chunks st)).
Proof. feed_dispatch chunks. Qed.

Lemma feed_sha256 hv chunks : forall st,
  Stream.feed HashAlgorithm.hashCore chunks
    (HashAlgorithm.mkObject hv (HashAlgorithm.OfSha256 st)) =
  HashAlgorithm.mkObject hv
    (HashAlgorithm.OfSha256 (Stream.feed Sha256.hashCore chunks st)).
Proof. feed_dispatch chunks. Qed.

Lemma feed_sha3 hv chunks : forall st,
  Stream.feed HashAlgorithm.hashCore chunks
    (HashAlgorithm.mkObject hv (HashAlgorithm.OfSha3 st)) =
  HashAlgorithm.mkObject hv (HashAlgorithm.OfSha3 (Stream.feed Sha3.hashCore chunks st)).
Proof. feed_dispatch chunks. Qed.

Lemma feed_crc32 hv chunks : forall st,
  Stream.feed HashAlgorithm.hashCore chunks
    (HashAlgorithm.mkObject hv (HashAlgorithm.OfCrc32 st)) =
  HashAlgorithm.mkObject hv (HashAlgorithm.OfCrc32 (Stream.feed Crc32.hashCore chunks st)).
Proof. feed_dispatch chunks. Qed.

Lemma feed_crc64 hv chunks : forall st,
  Stream.feed HashAlgorithm.hashCore chunks
    (HashAlgorithm.mkObject hv (HashAlgorithm.OfCrc64 st)) =
  HashAlgorithm.mkObject hv (HashAlgorithm.OfCrc64 (Stream.feed Crc64.hashCore chunks st)).
Proof. feed_dispatch chunks. Qed.

Lemma feed_xxHash32 hv chunks : forall st,
  Stream.feed HashAlgorithm.hashCore chunks
    (HashAlgorithm.mkObject hv (HashAlgorithm.OfXxHash32 st)) =
  HashAlgorithm.mkObject hv
    (HashAlgorithm.OfXxHash32 (Stream.feed XxHash32.hashCore chunks st)).
Proof. feed_dispatch chunks. Qed.

Lemma feed_xxHash64 hv chunks : forall st,
  Stream.feed HashAlgorithm.hashCore chunks
    (HashAlgorithm.mkObject hv (HashAlgorithm.OfXxHash64 st)) =
  HashAlgorithm.mkObject hv
    (HashAlgorithm.OfXxHash64 (Stream.feed XxHash64.hashCore chunks st)).
Proof. feed_dispatch chunks. Qed.

Lemma digest_dispatch o :
  Objects.digest o =
  match HashAlgorithm.self o with
  | HashAlgorithm.OfMd5 st => snd (Md5.hashFinal st)
  | HashAlgorithm.OfSha1 st => snd (Sha1.hashFinal st)
  | HashAlgorithm.OfSha256 st => snd (Sha256.hashFinal st)
  | HashAlgorithm.OfSha3 st => snd (Sha3.hashFinal st)
  | HashAlgorithm.OfCrc32 st => snd (Crc32.hashFinal st)
  | HashAlgorithm.OfCrc64 st => snd (Crc64.hashFinal st)
  | HashAlgorithm.OfXxHash32 st => snd (XxHash32.hashFinal st)
  | HashAlgorithm.OfXxHash64 st => snd (XxHash64.hashFinal st)
  end.
Proof.
  unfold Objects.digest, HashAlgorithm.hashFinal.
  destruct o as [hv [st|st|st|st|st|st|st|st]]; cbn [HashAlgorithm.self].
  - destruct (Md5.hashFinal st); reflexivity.
  - destruct (Sha1.hashFinal st); reflexivity.
  - destruct (Sha256.hashFinal st); reflexivity.
  - destruct (Sha3.hashFinal st); reflexivity.
  - destruct (Crc32.hashFinal st); reflexivity.
  - destruct (Crc64.hashFinal st); reflexivity.
  - destruct (XxHash32.hashFinal st); reflexivity.
  - destruct (XxHash64.hashFinal st); reflexivity.
Qed.

(** Feeding an object chunk by chunk or all at once gives one digest. *)
Lemma feed_digest_object o chunks :
  Objects.invariant o ->
  Objects.digest (Stream.feed HashAlgorithm.hashCore chunks o) =
  Objects.digest (HashAlgorithm.hashCore o (concat chunks)).
Proof.
  intros H. rewrite !digest_dispatch.
  destruct o as [hv [st|st|st|st|st|st|st|st]];
    unfold Objects.invariant in H; cbn [HashAlgorithm.self] in H.
  - rewrite feed_md5. cbn [HashAlgorithm.self HashAlgorithm.hashCore].
    apply (feed_digest Md5.processBlock _ Md5.render lengthLittleEndian_length), H.
  - rewrite feed_sha1. cbn [HashAlgorithm.self HashAlgorithm.hashCore].
    apply (feed_digest Sha1.processBlock _ Sha1.render lengthBigEndian_length), H.
  - rewrite feed_sha256. cbn [HashAlgorithm.self HashAlgorithm.hashCore].
    apply (feed_digest Sha256.processBlock _ Sha256.render lengthBigEndian_length), H.
  - rewrite feed_sha3. cbn [HashAlgorithm.self HashAlgorithm.hashCore].
    apply sha3_feed_digest, H.
  - rewrite feed_crc32. cbn [HashAlgorithm.self HashAlgorithm.hashCore].
    apply crc32_feed_digest, H.
  - rewrite feed_crc64. cbn [HashAlgorithm.self HashAlgorithm.hashCore].
    apply crc64_feed_digest, H.
  - rewrite feed_xxHash32. cbn [HashAlgorithm.self HashAlgorithm.hashCore].
    apply xx32_feed_digest, H.
  - rewrite feed_xxHash64. cbn [HashAlgorithm.self HashAlgorithm.hashCore].
    apply xx64_feed_digest, H.
Qed.

(* ------------------------------------------------------------------ *)
(** ** Claims *)

(** C1.  Streaming equivalence.  For every object of the eight classes
    (MD5, SHA-1, SHA-256, SHA-3, CRC-32, CRC-64, xxHash32, xxHash64),
    whatever it computed before, and every list of chunks (empty chunks
    and one-byte chunks included): initialize, then hashCore once per
    chunk in order, then hashFinal returns the digest that initialize,
    one hashCore on the concatenation of the chunks, then hashFinal
    returns. *)
Theorem streaming_equivalence (o : HashAlgorithm.object) (chunks : list (list byte)) :
  Objects.constructed o ->
  Objects.digest (Stream.feed HashAlgorithm.hashCore chunks (HashAlgorithm.initialize o)) =
  Objects.digest (HashAlgorithm.hashCore (HashAlgorithm.initialize o) (concat chunks)).
Proof.
  intros H. apply feed_digest_object, constructed_invariant, H.
Qed.

Lemma streaming_equivalence_witness :
  Objects.digest
    (Stream.feed HashAlgorithm.hashCore
       [Objects.text "a"; []; Objects.text "bc"]
       (HashAlgorithm.initialize Objects.md5)) =
  Objects.digest
    (HashAlgorithm.hashCore (HashAlgorithm.initialize Objects.md5)
       (concat [Objects.text "a"; []; Objects.text "bc"])).
Proof.
  apply (streaming_equivalence Objects.md5). reflexivity.
Defined.

(** C9.  The buffer invariant.  After initialize, and after every further
    hashCore call of any length (and every hashFinal call in between),
    [0 <= bufferSize < blockSize] holds in the buffered classes MD5,
    SHA-1, SHA-256, SHA-3, xxHash32 and xxHash64; and hashCore preserves
    the state invariant from any state that satisfies it. *)
Theorem buffer_invariant :
  (forall o, Objects.constructed o ->
             Objects.bufferBound (HashAlgorithm.initialize o)) /\
  (forall o calls,
     Objects.constructed o ->
     Objects.bufferBound
       (Stream.run HashAlgorithm.hashCore HashAlgorithm.hashFinal calls
          (HashAlgorithm.initialize o))) /\
  (forall o data,
     Objects.invariant o ->
     Objects.invariant (HashAlgorithm.hashCore o data) /\
     Objects.bufferBound (HashAlgorithm.hashCore o data)).
Proof.
  split; [|split].
  - intros o H. apply invariant_bufferBound, constructed_invariant, H.
  - intros o calls H.
    apply invariant_bufferBound, invariant_run, constructed_invariant, H.
  - intros o data H. split.
    + apply invariant_hashCore, H.
    + apply invariant_bufferBound, invariant_hashCore, H.
Qed.

Lemma buffer_invariant_witness :
  Objects.bufferBound (HashAlgorithm.initialize (Objects.sha3 Sha3.Bits256)) /\
  Objects.bufferBound
    (Stream.run HashAlgorithm.hashCore HashAlgorithm.hashFinal
       [Stream.Update (Objects.text "abc"); Stream.Final;
        Stream.Update (repeat x00 200)]
       (HashAlgorithm.initialize Objects.md5)) /\
  Objects.bufferBound
    (HashAlgorithm.hashCore (Objects.xxHash32 0) (repeat x00 40)).
Proof.
  destruct buffer_invariant as (B1 & B2 & B3).
  split; [|split].
  - apply B1. vm_compute. auto.
  - apply B2. vm_compute. reflexivity.
  - apply (B3 (Objects.xxHash32 0) (repeat x00 40)).
    repeat split; cbn; try lia; reflexivity.
Defined.

Lemma Z_to_byte_land_255 z : Z_to_byte (Z.land z 255) = Z_to_byte z.
Proof.
  unfold Z_to_byte. change 255 with (Z.ones 8).
  rewrite Z.land_ones by lia. change (2 ^ 8) with 256.
  now rewrite Z.mod_mod by lia.
Qed.

Lemma lengthLittleEndian_spec z :
  MerkleDamgard.lengthLittleEndian z = Padding.littleEndian64 z.
Proof.
  unfold MerkleDamgard.lengthLittleEndian, Padding.littleEndian64,
    endian.little_endian_bytes.
  cbn [endian.native_bytes]. now rewrite !Z_to_byte_land_255.
Qed.

Lemma lengthBigEndian_spec z :
  MerkleDamgard.lengthBigEndian z = Padding.bigEndian64 z.
Proof.
  unfold MerkleDamgard.lengthBigEndian, Padding.bigEndian64, endian.big_endian_bytes.
  cbn [endian.native_bytes rev app].
  rewrite !Z_to_byte_land_255, !Z.shiftr_shiftr by lia.
  reflexivity.
Qed.

Lemma padding_blocks_ext encode1 encode2 numBytes pending :
  (forall z, encode1 z = encode2 z) ->
  Padding.blocks encode1 numBytes pending = Padding.blocks encode2 numBytes pending.
Proof.
  intros H. unfold Padding.blocks, Padding.message. now rewrite H.
Qed.

(** The shape of the padded message. *)
Lemma padding_blocks_shape encode numBytes pending :
  (forall z, length (encode z) = 8%nat) ->
  (length pending < 64)%nat ->
  let blocks := Padding.blocks encode numBytes pending in
  concat blocks = Padding.message encode numBytes pending /\
  Forall (fun block => length block = 64%nat) blocks /\
  (length blocks = 1%nat <-> (length pending + 1 + 8 <= 64)%nat) /\
  (length blocks = 2%nat <-> (64 < length pending + 1 + 8)%nat).
Proof.
  intros He Hp. cbv zeta. unfold Padding.blocks.
  assert (Hm : length (Padding.message encode numBytes pending) =
               if (length pending + 1 + 8 <=? 64)%nat then 64%nat else 128%nat).
  { unfold Padding.message, Padding.zeroFill.
    rewrite !length_app, He, repeat_length. cbn [length].
    destruct (Nat.leb_spec (length pending) 55), (Nat.leb_spec (length pending + 1 + 8) 64);
      lia. }
  destruct (Nat.leb_spec (length pending + 1 + 8) 64) as [Hfit|Hover].
  - cbn [concat length]. rewrite app_nil_r.
    repeat split; auto; try lia.
  - cbn [concat length]. rewrite app_nil_r, firstn_skipn.
    repeat split; auto; try lia.
    repeat constructor.
    + rewrite length_firstn. lia.
    + rewrite length_skipn. lia.
Qed.

(** C3.  Merkle-Damgard finalization.  processBuffer of MD5, SHA-1 and
    SHA-256 compresses the 64-byte blocks of: the buffered bytes, the byte
    0x80, a zero fill, and the message bit-length
    [8 * (bytes processed + bytes buffered)] as a 64-bit integer, which is
    little-endian for MD5 and big-endian for SHA-1 and SHA-256.  There is
    one block when the pad byte and the length field fit behind the
    buffered bytes, and a second block exactly when they do not. *)
Theorem padding_length_field :
  (forall st : Md5.state,
     Invariants.merkleDamgard st ->
     BlockBuffer.m_hash (Md5.processBuffer st) =
     fold_left (fun h block => Md5.processBlock block h)
       (Padding.blocks Padding.littleEndian64 (BlockBuffer.m_numBytes st)
          (firstn (BlockBuffer.m_bufferSize st) (BlockBuffer.m_buffer st)))
       (BlockBuffer.m_hash st)) /\
  (forall st : Sha1.state,
     Invariants.merkleDamgard st ->
     BlockBuffer.m_hash (Sha1.processBuffer st) =
     fold_left (fun h block => Sha1.processBlock block h)
       (Padding.blocks Padding.bigEndian64 (BlockBuffer.m_numBytes st)
          (firstn (BlockBuffer.m_bufferSize st) (BlockBuffer.m_buffer st)))
       (BlockBuffer.m_hash st)) /\
  (forall st : Sha256.state,
     Invariants.merkleDamgard st ->
     BlockBuffer.m_hash (Sha256.processBuffer st) =
     fold_left (fun h block => Sha256.processBlock block h)
       (Padding.blocks Padding.bigEndian64 (BlockBuffer.m_numBytes st)
          (firstn (BlockBuffer.m_bufferSize st) (BlockBuffer.m_buffer st)))
       (BlockBuffer.m_hash st)) /\
  (forall encode numBytes pending,
     (forall z, length (encode z) = 8%nat) ->
     (length pending < 64)%nat ->
     let blocks := Padding.blocks encode numBytes pending in
     concat blocks =
       pending ++ [x80] ++ repeat x00 (Padding.zeroFill (length pending))
               ++ encode (u64 (8 * (numBytes + Z.of_nat (length pending)))) /\
     Forall (fun block => length block = 64%nat) blocks /\
     (length blocks = 1%nat <-> (length pending + 1 + 8 <= 64)%nat) /\
     (length blocks = 2%nat <-> (64 < length pending + 1 + 8)%nat)).
Proof.
  split; [|split; [|split]].
  - intros st H.
    destruct (processBuffer_spec Md5.processBlock MerkleDamgard.lengthLittleEndian
                lengthLittleEndian_length st H) as (E & _).
    cbv zeta in E. unfold Md5.processBuffer. rewrite E.
    now rewrite (padding_blocks_ext _ _ _ _ lengthLittleEndian_spec).
  - intros st H.
    destruct (processBuffer_spec Sha1.processBlock MerkleDamgard.lengthBigEndian
                lengthBigEndian_length st H) as (E & _).
    cbv zeta in E. unfold Sha1.processBuffer. rewrite E.
    now rewrite (padding_blocks_ext _ _ _ _ lengthBigEndian_spec).
  - intros st H.
    destruct (processBuffer_spec Sha256.processBlock MerkleDamgard.lengthBigEndian
                lengthBigEndian_length st H) as (E & _).
    cbv zeta in E. unfold Sha256.processBuffer. rewrite E.
    now rewrite (padding_blocks_ext _ _ _ _ lengthBigEndian_spec).
  - intros encode numBytes pending He Hp.
    apply (padding_blocks_shape encode numBytes pending He Hp).
Qed.

Lemma padding_length_field_witness :
  BlockBuffer.m_hash
    (Md5.processBuffer (Md5.hashCore (Md5.initialize
       (BlockBuffer.mkState 0 0 (repeat x00 64) (0, 0, 0, 0))) (repeat x61 60))) =
  fold_left (fun h block => Md5.processBlock block h)
    (Padding.blocks Padding.littleEndian64 0 (repeat x61 60))
    (0x67452301, 0xefcdab89, 0x98badcfe, 0x10325476) /\
  length (Padding.blocks Padding.bigEndian64 0 (repeat x61 60)) = 2%nat.
Proof.
  destruct padding_length_field as (P1 & _ & _ & P4).
  split.
  - apply (P1 (Md5.hashCore (Md5.initialize
                 (BlockBuffer.mkState 0 0 (repeat x00 64) (0, 0, 0, 0)))
                 (repeat x61 60))).
    split; vm_compute; lia.
  - apply (P4 Padding.bigEndian64 0 (repeat x61 60)).
    + reflexivity.
    + vm_compute. lia.
    + vm_compute. lia.
Defined.

(** C4.  hashFinal of MD5, SHA-1 and SHA-256 restores the registers and
    leaves m_numBytes and m_bufferSize unchanged, whatever the state; so a
    second hashFinal returns the same digest, and in any sequence of
    updates and digest reads issued after initialize, a digest read
    returns the digest of the bytes fed so far, as if no digest had been
    read before. *)
Theorem hashFinal_restores :
  (forall st : Md5.state,
     let st' := fst (Md5.hashFinal st) in
     BlockBuffer.m_hash st' = BlockBuffer.m_hash st /\
     BlockBuffer.m_numBytes st' = BlockBuffer.m_numBytes st /\
     BlockBuffer.m_bufferSize st' = BlockBuffer.m_bufferSize st) /\
  (forall st : Sha1.state,
     let st' := fst (Sha1.hashFinal st) in
     BlockBuffer.m_hash st' = BlockBuffer.m_hash st /\
     BlockBuffer.m_numBytes st' = BlockBuffer.m_numBytes st /\
     BlockBuffer.m_bufferSize st' = BlockBuffer.m_bufferSize st) /\
  (forall st : Sha256.state,
     let st' := fst (Sha256.hashFinal st) in
     BlockBuffer.m_hash st' = BlockBuffer.m_hash st /\
     BlockBuffer.m_numBytes st' = BlockBuffer.m_numBytes st /\
     BlockBuffer.m_bufferSize st' = BlockBuffer.m_bufferSize st) /\
  (forall (st : Md5.state) calls,
     length (BlockBuffer.m_buffer st) = Md5.BLOCK_SIZE ->
     let st0 := Md5.initialize st in
     let st1 := Stream.run Md5.hashCore Md5.hashFinal calls st0 in
     snd (Md5.hashFinal st1) = snd (Md5.hashFinal (Md5.hashCore st0 (Stream.payload calls))) /\
     snd (Md5.hashFinal (fst (Md5.hashFinal st1))) = snd (Md5.hashFinal st1)) /\
  (forall (st : Sha1.state) calls,
     length (BlockBuffer.m_buffer st) = Sha1.BLOCK_SIZE ->
     let st0 := Sha1.initialize st in
     let st1 := Stream.run Sha1.hashCore Sha1.hashFinal calls st0 in
     snd (Sha1.hashFinal st1) = snd (Sha1.hashFinal (Sha1.hashCore st0 (Stream.payload calls))) /\
     snd (Sha1.hashFinal (fst (Sha1.hashFinal st1))) = snd (Sha1.hashFinal st1)) /\
  (forall (st : Sha256.state) calls,
     length (BlockBuffer.m_buffer st) = Sha256.BLOCK_SIZE ->
     let st0 := Sha256.initialize st in
     let st1 := Stream.run Sha256.hashCore Sha256.hashFinal calls st0 in
     snd (Sha256.hashFinal st1) =
       snd (Sha256.hashFinal (Sha256.hashCore st0 (Stream.payload calls))) /\
     snd (Sha256.hashFinal (fst (Sha256.hashFinal st1))) = snd (Sha256.hashFinal st1)).
Proof.
  assert (I5 : forall st : Md5.state,
             length (BlockBuffer.m_buffer st) = Md5.BLOCK_SIZE ->
             Invariants.merkleDamgard (Md5.initialize st)).
  { intros st H. split; cbn; [unfold MerkleDamgard.BLOCK_SIZE; lia|].
    rewrite H. reflexivity. }
  assert (I1 : forall st : Sha1.state,
             length (BlockBuffer.m_buffer st) = Sha1.BLOCK_SIZE ->
             Invariants.merkleDamgard (Sha1.initialize st)).
  { intros st H. split; cbn; [unfold MerkleDamgard.BLOCK_SIZE; lia|].
    rewrite H. reflexivity. }
  assert (I256 : forall st : Sha256.state,
             length (BlockBuffer.m_buffer st) = Sha256.BLOCK_SIZE ->
             Invariants.merkleDamgard (Sha256.initialize st)).
  { intros st H. split; cbn; [unfold MerkleDamgard.BLOCK_SIZE; lia|].
    rewrite H. reflexivity. }
  repeat match goal with |- _ /\ _ => split end.
  - intros st. apply (hashFinal_frame Md5.processBlock _ Md5.render).
  - intros st. apply (hashFinal_frame Sha1.processBlock _ Sha1.render).
  - intros st. apply (hashFinal_frame Sha256.processBlock _ Sha256.render).
  - intros st calls H. cbv zeta. split.
    + apply (run_digest Md5.processBlock _ Md5.render lengthLittleEndian_length), I5, H.
    + apply (hashFinal_twice Md5.processBlock _ Md5.render lengthLittleEndian_length).
      apply (run_view Md5.processBlock _ Md5.render lengthLittleEndian_length), I5, H.
  - intros st calls H. cbv zeta. split.
    + apply (run_digest Sha1.processBlock _ Sha1.render lengthBigEndian_length), I1, H.
    + apply (hashFinal_twice Sha1.processBlock _ Sha1.render lengthBigEndian_length).
      apply (run_view Sha1.processBlock _ Sha1.render lengthBigEndian_length), I1, H.
  - intros st calls H. cbv zeta. split.
    + apply (run_digest Sha256.processBlock _ Sha256.render lengthBigEndian_length),
        I256, H.
    + apply (hashFinal_twice Sha256.processBlock _ Sha256.render lengthBigEndian_length).
      apply (run_view Sha256.processBlock _ Sha256.render lengthBigEndian_length),
        I256, H.
Qed.

Lemma hashFinal_restores_witness :
  let st0 := Sha1.initialize (BlockBuffer.mkState 0 0 (repeat x00 64) (0, 0, 0, 0, 0)) in
  let st1 := Stream.run Sha1.hashCore Sha1.hashFinal
               [Stream.Update (Objects.text "a"); Stream.Final;
                Stream.Update (Objects.text "bc")] st0 in
  snd (Sha1.hashFinal st1) =
    snd (Sha1.hashFinal (Sha1.hashCore st0 (Objects.text "abc"))) /\
  snd (Sha1.hashFinal (fst (Sha1.hashFinal st1))) = snd (Sha1.hashFinal st1).
Proof.
  destruct hashFinal_restores as (_ & _ & _ & _ & R & _).
  apply (R (BlockBuffer.mkState 0 0 (repeat x00 64) (0, 0, 0, 0, 0))
           [Stream.Update (Objects.text "a"); Stream.Final;
            Stream.Update (Objects.text "bc")]).
  reflexivity.
Defined.

(** C5.  Slicing-by-16 refines the classical algorithm.  On every 64
    bytes, the unrolled pass over the sixteen table slices returns what
    sixty-four single-byte table steps return, for CRC-32 and for CRC-64
    and for every polynomial; hence hashCore returns the byte-at-a-time
    reference CRC (same polynomial, inversion on entry and on exit) of its
    input, from every state an object can be in. *)
Theorem slicing_refines_bytewise :
  (forall polynomial crc p,
     0 <= polynomial < 2 ^ 32 -> 0 <= crc < 2 ^ 32 -> (64 <= length p)%nat ->
     Crc32.unrolled (CrcReference.builtTable polynomial) crc p =
     fold_left (CrcReference.step polynomial) (firstn 64 p) crc) /\
  (forall polynomial crc p,
     0 <= polynomial < 2 ^ 64 -> 0 <= crc < 2 ^ 64 -> (64 <= length p)%nat ->
     Crc64.unrolled (CrcReference.builtTable polynomial) crc p =
     fold_left (CrcReference.step polynomial) (firstn 64 p) crc) /\
  (forall st data,
     Invariants.crc32 st ->
     Crc32.m_hash (Crc32.hashCore st data) =
     CrcReference.crc32 (Crc32.m_polynomial st) (Crc32.m_hash st) data) /\
  (forall st data,
     Invariants.crc64 st ->
     Crc64.m_hash (Crc64.hashCore st data) =
     CrcReference.crc64 (Crc64.m_polynomial st) (Crc64.m_hash st) data) /\
  (forall polynomial seed data,
     Crc32.m_hash (Crc32.hashCore (Crc32.Crc32 polynomial seed) data) =
     CrcReference.crc32 (u32 polynomial) (u32 seed) data) /\
  (forall polynomial seed data,
     Crc64.m_hash (Crc64.hashCore (Crc64.Crc64 polynomial seed) data) =
     CrcReference.crc64 (u64 polynomial) (u64 seed) data).
Proof.
  repeat match goal with |- _ /\ _ => split end.
  - intros polynomial crc p Hp Hc Hl. now apply unrolled_steps.
  - intros polynomial crc p Hp Hc Hl. now apply unrolled_steps64.
  - intros st data H. now apply crc32_hashCore_spec.
  - intros st data H. now apply crc64_hashCore_spec.
  - intros polynomial seed data.
    now destruct (crc32_hashCore_spec _ data (crc32_constructed polynomial seed)).
  - intros polynomial seed data.
    now destruct (crc64_hashCore_spec _ data (crc64_constructed polynomial seed)).
Qed.

Lemma slicing_refines_bytewise_witness :
  Crc32.unrolled (CrcReference.builtTable Crc32.ZLIB_POLYNOMIAL) 4294967295
    (repeat x31 64) =
  fold_left (CrcReference.step Crc32.ZLIB_POLYNOMIAL) (firstn 64 (repeat x31 64))
    4294967295 /\
  Crc64.unrolled (CrcReference.builtTable Crc64.ECMA_182_POLYNOMIAL) 0
    (repeat x31 64) =
  fold_left (CrcReference.step Crc64.ECMA_182_POLYNOMIAL) (firstn 64 (repeat x31 64)) 0 /\
  Crc32.m_hash (Crc32.hashCore (Crc32.Crc32 Crc32.ZLIB_POLYNOMIAL 0) (repeat x31 70)) =
  CrcReference.crc32 Crc32.ZLIB_POLYNOMIAL 0 (repeat x31 70) /\
  Crc64.m_hash (Crc64.hashCore (Crc64.Crc64 Crc64.ECMA_182_POLYNOMIAL 0) (repeat x31 70)) =
  CrcReference.crc64 Crc64.ECMA_182_POLYNOMIAL 0 (repeat x31 70).
Proof.
  destruct slicing_refines_bytewise as (S1 & S2 & S3 & S4 & _).
  repeat match goal with |- _ /\ _ => split end.
  - apply S1; [vm_compute; split; [discriminate | reflexivity] ..| simpl; lia].
  - apply S2; [vm_compute; split; [discriminate | reflexivity] ..| simpl; lia].
  - apply (S3 (Crc32.Crc32 Crc32.ZLIB_POLYNOMIAL 0)).
    repeat split; vm_compute; try discriminate; reflexivity.
  - apply (S4 (Crc64.Crc64 Crc64.ECMA_182_POLYNOMIAL 0)).
    repeat split; vm_compute; try discriminate; reflexivity.
Defined.

(** C10.  Sha3::hashFinal keeps the permuted lanes: on a fresh object of
    every width and the empty input, hashFinal changes m_hash, and a second
    hashFinal right after the first returns a different digest. *)
Theorem sha3_hashFinal_not_repeatable :
  forall bits,
    let st := Sha3.hashCore (Sha3.Sha3 bits (BlockBuffer.mkState 0 0 (repeat x00 144) []))
                [] in
    BlockBuffer.m_hash (Sha3.core (fst (Sha3.hashFinal st))) <>
      BlockBuffer.m_hash (Sha3.core st) /\
    snd (Sha3.hashFinal (fst (Sha3.hashFinal st))) <> snd (Sha3.hashFinal st).
Proof.
  intros bits. cbv zeta.
  destruct bits; split; vm_compute; discriminate.
Qed.

(** X11.  The digest length of the classes whose hashSize() agrees with it. *)
Lemma digest_length_conforming :
  (forall st, length (snd (Md5.hashFinal st)) = (Md5.hashSize st / 8)%nat) /\
  (forall st, length (snd (Sha1.hashFinal st)) = (Sha1.hashSize st / 8)%nat) /\
  (forall st, length (snd (Sha256.hashFinal st)) = (Sha256.hashSize st / 8)%nat) /\
  (forall st, length (snd (Crc32.hashFinal st)) = (Crc32.hashSize st / 8)%nat) /\
  (forall st, length (snd (Crc64.hashFinal st)) = (Crc64.hashSize st / 8)%nat) /\
  (forall st, length (snd (XxHash32.hashFinal st)) = (XxHash32.hashSize st / 8)%nat).
Proof.
  repeat match goal with |- _ /\ _ => split end; intros st; try reflexivity.
  - unfold Md5.hashFinal, MerkleDamgard.hashFinal. cbn [snd].
    destruct (BlockBuffer.m_hash _) as [[[h0 h1] h2] h3]. reflexivity.
  - unfold Sha1.hashFinal, MerkleDamgard.hashFinal. cbn [snd].
    destruct (BlockBuffer.m_hash _) as [[[[h0 h1] h2] h3] h4]. reflexivity.
  - unfold Sha256.hashFinal, MerkleDamgard.hashFinal. cbn [snd].
    destruct (BlockBuffer.m_hash _) as [[[[[[[h0 h1] h2] h3] h4] h5] h6] h7].
    reflexivity.
Qed.

(** C2 (where the code departs from it).  For every XxHash64 object
    hashFinal returns eight bytes, while hashSize() is 32 bits, that is
    four bytes. *)
Theorem xxHash64_digest_length_mismatch (st : XxHash64.state) :
  length (snd (XxHash64.hashFinal st)) = 8%nat /\
  (XxHash64.hashSize st / 8 = 4)%nat.
Proof. split; reflexivity. Qed.

(** C6 (as the code has it).  computeHash of any Sha1 object on the three
    bytes "abc" returns the twenty bytes a9 99 3e 36 47 06 81 6a ba 3e 25
    71 78 50 c2 6c 9c d0 d8 9d, whose hexadecimal rendering is the forty
    characters a9993e364706816aba3e25717850c26c9cd0d89d. *)
Theorem sha1_abc (hv : list byte) (st : Sha1.state) :
  length (BlockBuffer.m_buffer st) = Sha1.BLOCK_SIZE ->
  let o := HashAlgorithm.mkObject hv (HashAlgorithm.OfSha1 st) in
  let r := HashAlgorithm.computeHash o (Objects.text "abc") in
  snd r =
    [xa9; x99; x3e; x36; x47; x06; x81; x6a; xba; x3e;
     x25; x71; x78; x50; xc2; x6c; x9c; xd0; xd8; x9d] /\
  HashAlgorithm.hashValueString (fst r) false false =
    "a9993e364706816aba3e25717850c26c9cd0d89d"%string.
Proof.
  intros H. cbv zeta.
  assert (I : Invariants.merkleDamgard (Sha1.initialize st)).
  { split; cbn; [unfold MerkleDamgard.BLOCK_SIZE; lia|]. rewrite H. reflexivity. }
  assert (D : snd (Sha1.hashFinal (Sha1.hashCore (Sha1.initialize st) (Objects.text "abc")))
              = [xa9; x99; x3e; x36; x47; x06; x81; x6a; xba; x3e;
                 x25; x71; x78; x50; xc2; x6c; x9c; xd0; xd8; x9d]).
  { unfold Sha1.hashFinal, Sha1.hashCore.
    rewrite (hashCore_digest Sha1.processBlock _ Sha1.render lengthBigEndian_length _ _ I).
    unfold Stream.view, Sha1.initialize.
    cbn [BlockBuffer.m_hash BlockBuffer.m_numBytes BlockBuffer.m_bufferSize firstn].
    vm_compute. reflexivity. }
  unfold HashAlgorithm.computeHash, HashAlgorithm.computeHashInternal,
    HashAlgorithm.hashValueString.
  unfold HashAlgorithm.hashFinal.
  cbn [HashAlgorithm.initialize HashAlgorithm.hashCore HashAlgorithm.self
       HashAlgorithm.m_hashValue].
  destruct (Sha1.hashFinal (Sha1.hashCore (Sha1.initialize st) (Objects.text "abc")))
    as [st' v].
  cbn [snd fst HashAlgorithm.m_hashValue HashAlgorithm.self] in *.
  subst v. split; reflexivity.
Qed.

Lemma sha1_abc_witness :
  let r := HashAlgorithm.computeHash Objects.sha1 (Objects.text "abc") in
  snd r =
    [xa9; x99; x3e; x36; x47; x06; x81; x6a; xba; x3e;
     x25; x71; x78; x50; xc2; x6c; x9c; xd0; xd8; x9d] /\
  HashAlgorithm.hashValueString (fst r) false false =
    "a9993e364706816aba3e25717850c26c9cd0d89d"%string.
Proof.
  apply (sha1_abc []). reflexivity.
Defined.

(** C6 as stated fails: the rendering is not the thirty-nine characters
    of the spec's vector, in either letter case. *)
Lemma sha1_abc_not_spec_vector :
  let o := fst (HashAlgorithm.computeHash Objects.sha1 (Objects.text "abc")) in
  HashAlgorithm.hashValueString o false false <>
    "a9993e364706816aba3e25717850c26c9cd0d89"%string /\
  HashAlgorithm.hashValueString o true false <>
    "A9993E364706816ABA3E25717850C26C9CD0D89"%string /\
  String.length (HashAlgorithm.hashValueString o false false) = 40%nat /\
  String.length "a9993e364706816aba3e25717850c26c9cd0d89" = 39%nat.
Proof.
  cbv zeta. repeat split; vm_compute; try discriminate; reflexivity.
Qed.

(* ------------------------------------------------------------------ *)
(** ** Byte order of the digests *)

Lemma native_bytes_word bs :
  endian.native_bytes (length bs) (endian.native_word bs) = bs.
Proof.
  induction bs as [|b bs IH]; [reflexivity|].
  cbn [length endian.native_bytes]. rewrite native_word_cons.
  pose proof (byte_to_Z_range b) as Hb.
  f_equal.
  - rewrite <- Z_to_byte_land_255, land_lxor_distr_l.
    rewrite shiftl_8_low, Z.lxor_0_r, small_land_255 by lia.
    apply Z_to_byte_to_Z.
  - rewrite Z.shiftr_lxor, shiftr_shiftl_8, small_shiftr_8 by lia.
    rewrite Z.lxor_0_l. exact IH.
Qed.

Lemma native_to_big32_bytes x :
  endian.native_bytes 4 (endian.native_to_big32 x) = endian.big_endian_bytes 4 x.
Proof.
  unfold endian.native_to_big32, endian.big_endian_bytes.
  apply (native_bytes_word (rev (endian.native_bytes 4 x))).
Qed.

Lemma native_to_big64_bytes x :
  endian.native_bytes 8 (endian.native_to_big64 x) = endian.big_endian_bytes 8 x.
Proof.
  unfold endian.native_to_big64, endian.big_endian_bytes.
  apply (native_bytes_word (rev (endian.native_bytes 8 x))).
Qed.

Lemma sha1_insert4_spec h : Sha1.insert4 h = endian.big_endian_bytes 4 h.
Proof.
  unfold Sha1.insert4, endian.big_endian_bytes.
  cbn [endian.native_bytes rev app].
  rewrite !Z_to_byte_land_255, !Z.shiftr_shiftr by lia. reflexivity.
Qed.

Lemma sha256_insert4_spec h : Sha256.insert4 h = endian.big_endian_bytes 4 h.
Proof. apply sha1_insert4_spec. Qed.

(** C7 (as the code has it).  The digests of CRC-32, CRC-64, xxHash32 and
    xxHash64 are the big-endian bytes of the hash word; the digests of
    SHA-1 and SHA-256 are the big-endian bytes of each register in turn;
    the digest of MD5 is the little-endian bytes of each register in turn;
    the digest of SHA-3 is the first hashSize/8 of the little-endian bytes
    of the lanes. *)
Theorem digest_byte_order :
  (forall st, snd (Crc32.hashFinal st) = endian.big_endian_bytes 4 (Crc32.m_hash st)) /\
  (forall st, snd (Crc64.hashFinal st) = endian.big_endian_bytes 8 (Crc64.m_hash st)) /\
  (forall st, snd (XxHash32.hashFinal st) =
              endian.big_endian_bytes 4 (XxHash32.finalValue st)) /\
  (forall st, snd (XxHash64.hashFinal st) =
              endian.big_endian_bytes 8 (XxHash64.finalValue st)) /\
  (forall st, snd (Sha1.hashFinal st) =
              flat_map (endian.big_endian_bytes 4)
                (Objects.sha1Words (BlockBuffer.m_hash (Sha1.processBuffer st)))) /\
  (forall st, snd (Sha256.hashFinal st) =
              flat_map (endian.big_endian_bytes 4)
                (Objects.sha256Words (BlockBuffer.m_hash (Sha256.processBuffer st)))) /\
  (forall st, snd (Md5.hashFinal st) =
              flat_map (endian.little_endian_bytes 4)
                (Objects.md5Words (BlockBuffer.m_hash (Md5.processBuffer st)))) /\
  (forall st, snd (Sha3.hashFinal st) =
              firstn (Sha3.hashSize st / 8)
                (flat_map (endian.little_endian_bytes 8)
                   (BlockBuffer.m_hash (Sha3.core (Sha3.processBuffer st))))).
Proof.
  repeat match goal with |- _ /\ _ => split end; intros st.
  - apply native_to_big32_bytes.
  - apply native_to_big64_bytes.
  - apply native_to_big32_bytes.
  - apply native_to_big64_bytes.
  - unfold Sha1.hashFinal, MerkleDamgard.hashFinal. cbn [snd].
    fold Sha1.processBuffer.
    destruct (BlockBuffer.m_hash (Sha1.processBuffer st)) as [[[[h0 h1] h2] h3] h4].
    unfold Sha1.render, Objects.sha1Words. cbn [flat_map].
    now rewrite !sha1_insert4_spec, app_nil_r.
  - unfold Sha256.hashFinal, MerkleDamgard.hashFinal. cbn [snd].
    fold Sha256.processBuffer.
    destruct (BlockBuffer.m_hash (Sha256.processBuffer st))
      as [[[[[[[h0 h1] h2] h3] h4] h5] h6] h7].
    unfold Sha256.render, Objects.sha256Words. cbn [flat_map].
    now rewrite !sha256_insert4_spec, app_nil_r.
  - unfold Md5.hashFinal, MerkleDamgard.hashFinal. cbn [snd].
    fold Md5.processBuffer.
    destruct (BlockBuffer.m_hash (Md5.processBuffer st)) as [[[h0 h1] h2] h3].
    unfold Md5.render, Objects.md5Words, endian.little_endian_bytes.
    change (Md5.m_hashSize / 8)%nat with 16%nat.
    cbn [flat_map endian.native_bytes app firstn]. reflexivity.
  - reflexivity.
Qed.

(** C7 as stated fails: on the empty input the MD5 digest is not the
    big-endian rendering of the registers, nor is the SHA-3 digest that of
    the lanes. *)
Lemma md5_sha3_digest_not_big_endian :
  (let st := Md5.hashCore (Md5.initialize
                (BlockBuffer.mkState 0 0 (repeat x00 64) (0, 0, 0, 0))) [] in
   snd (Md5.hashFinal st) <>
   flat_map (endian.big_endian_bytes 4)
     (Objects.md5Words (BlockBuffer.m_hash (Md5.processBuffer st)))) /\
  (let st := Sha3.hashCore (Sha3.Sha3 Sha3.Bits256
                (BlockBuffer.mkState 0 0 (repeat x00 144) [])) [] in
   snd (Sha3.hashFinal st) <>
   firstn (Sha3.hashSize st / 8)
     (flat_map (endian.big_endian_bytes 8)
        (BlockBuffer.m_hash (Sha3.core (Sha3.processBuffer st))))).
Proof.
  split; cbv zeta; vm_compute; discriminate.
Qed.


(* ------------------------------------------------------------------ *)
(** ** computeHash over a stream *)

Lemma take_firstn l : forall n, HashAlgorithm.take n l = firstn (Z.to_nat n) l.
Proof.
  induction l as [|b l IH]; intros n; cbn [HashAlgorithm.take].
  - now rewrite firstn_nil.
  - destruct (Z.ltb_spec 0 n) as [H|H].
    + replace (Z.to_nat n) with (S (Z.to_nat (n - 1))) by lia.
      cbn [firstn]. now rewrite IH.
    + replace (Z.to_nat n) with 0%nat by lia. reflexivity.
Qed.







Lemma computeHash_digest o data :
  snd (HashAlgorithm.computeHash o data) =
  Objects.digest (HashAlgorithm.hashCore (HashAlgorithm.initialize o) data).
Proof.
  unfold HashAlgorithm.computeHash, HashAlgorithm.computeHashInternal, Objects.digest.
  cbn [snd].
  destruct (HashAlgorithm.hashFinal
              (HashAlgorithm.hashCore (HashAlgorithm.initialize o) data)) as [o' v].
  reflexivity.
Qed.






(* ------------------------------------------------------------------ *)
(** ** Adler32 *)

Lemma adler_nth_skipn (buf : list byte) i k :
  nth i (skipn k buf) x00 = nth (k + i) buf x00.
Proof.
  revert buf. induction k as [|k IH]; intros buf; [reflexivity|].
  destruct buf as [|c buf]; [now destruct i|]. cbn [skipn Nat.add nth]. apply IH.
Qed.

Lemma adler_DO1_skipn buf k i ab :
  Adler32.DO1 (skipn k buf) i ab = Adler32.DO1 buf (k + i) ab.
Proof. unfold Adler32.DO1. now rewrite adler_nth_skipn. Qed.

Lemma adler_indices_shift current k : forall s ab,
  fold_left (fun ab i => Adler32.DO1 (skipn 1 current) i ab) (seq s k) ab =
  fold_left (fun ab i => Adler32.DO1 current i ab) (seq (S s) k) ab.
Proof.
  induction k as [|k IH]; intros s ab; [reflexivity|].
  cbn [seq fold_left]. rewrite IH. f_equal. apply (adler_DO1_skipn current 1 s).
Qed.

(** The do-while loop visits the indices [0 .. k-1] in order. *)
Lemma adler_remaining_indices k : forall current ab,
  Adler32.remaining k current ab =
  (skipn k current, fold_left (fun ab i => Adler32.DO1 current i ab) (seq 0 k) ab).
Proof.
  induction k as [|k IH]; intros current ab; [reflexivity|].
  cbn [Adler32.remaining]. rewrite IH, skipn_skipn.
  replace (k + 1)%nat with (S k) by lia. f_equal.
  cbn [seq fold_left]. apply adler_indices_shift.
Qed.

Lemma adler_DO16_remaining current ab :
  Adler32.DO16 current ab = snd (Adler32.remaining 16 current ab).
Proof. rewrite adler_remaining_indices. reflexivity. Qed.

Lemma adler_remaining_add m n : forall current ab,
  Adler32.remaining (m + n) current ab =
  Adler32.remaining n (skipn m current) (snd (Adler32.remaining m current ab)).
Proof.
  induction m as [|m IH]; intros current ab; [reflexivity|].
  cbn [Nat.add Adler32.remaining]. rewrite IH, skipn_skipn.
  now replace (m + 1)%nat with (S m) by lia.
Qed.

(** The unrolled loop followed by the do-while loop is the do-while loop. *)
Lemma adler_unrolled_remaining fuel : forall current k ab,
  (k <= fuel)%nat ->
  (let '(current', k', ab') := Adler32.unrolled fuel current k ab in
   Adler32.remaining k' current' ab') = Adler32.remaining k current ab.
Proof.
  induction fuel as [|fuel IH]; intros current k ab Hk.
  - reflexivity.
  - cbn [Adler32.unrolled]. destruct (Nat.leb_spec 16 k) as [H|H]; [|reflexivity].
    rewrite (IH (skipn 16 current) (k - 16)%nat) by lia.
    replace k with (16 + (k - 16))%nat at 2 by lia.
    now rewrite adler_remaining_add, adler_DO16_remaining.
Qed.

(** Within a budget that keeps both sums below 2^32 the 32-bit sums are
    the exact sums. *)
Lemma adler_remaining_raw k : forall current a b,
  (k <= length current)%nat ->
  0 <= a -> 0 <= b ->
  a + 255 * Z.of_nat k < 4294967296 ->
  2 * b + 2 * Z.of_nat k * a + 255 * Z.of_nat k * (Z.of_nat k + 1) < 8589934592 ->
  Adler32.remaining k current (a, b) =
  (skipn k current, Reference.adlerRaw (firstn k current) (a, b)).
Proof.
  induction k as [|k IH]; intros current a b Hlen Ha Hb Hsa Hsb; [reflexivity|].
  destruct current as [|c current]; [cbn in Hlen; lia|].
  cbn [length] in Hlen.
  pose proof (byte_to_Z_range c) as Hc.
  cbn [Adler32.remaining skipn firstn Reference.adlerRaw fold_left
       Reference.adlerRawStep Adler32.DO1 nth].
  rewrite Nat2Z.inj_succ in Hsa, Hsb.
  set (K := Z.of_nat k) in *. assert (HK : 0 <= K) by (subst K; lia).
  assert (P1 : 0 <= K * a) by nia.
  assert (P2 : 0 <= K * K) by nia.
  assert (P3 : 0 <= (K + 1) * (255 - byte_to_Z c)) by nia.
  assert (E1 : u32 (a + byte_to_Z c) = a + byte_to_Z c).
  { unfold u32. apply Z.mod_small. lia. }
  rewrite E1.
  assert (E2 : u32 (b + (a + byte_to_Z c)) = b + (a + byte_to_Z c)).
  { unfold u32. apply Z.mod_small. nia. }
  rewrite E2.
  rewrite (IH current); [reflexivity | lia | lia | lia | fold K; lia | fold K; nia].
Qed.

(** The reduced sums are the exact sums modulo 65521. *)
Lemma adler_raw_mod data : forall a b,
  Reference.adler data (a mod 65521, b mod 65521) =
  (fst (Reference.adlerRaw data (a, b)) mod 65521,
   snd (Reference.adlerRaw data (a, b)) mod 65521).
Proof.
  induction data as [|c data IH]; intros a b; [reflexivity|].
  cbn [Reference.adler Reference.adlerRaw fold_left
       Reference.adlerStep Reference.adlerRawStep].
  fold (Reference.adler data) (Reference.adlerRaw data).
  assert (A : (a mod 65521 + byte_to_Z c) mod 65521 = (a + byte_to_Z c) mod 65521)
    by apply Zplus_mod_idemp_l.
  assert (B : (b mod 65521 + (a mod 65521 + byte_to_Z c) mod 65521) mod 65521 =
              (b + (a + byte_to_Z c)) mod 65521).
  { rewrite A, Zplus_mod_idemp_r. apply Zplus_mod_idemp_l. }
  rewrite B, A. apply IH.
Qed.

Lemma adler_reduced data : forall a b,
  0 <= a < 65521 -> 0 <= b < 65521 ->
  0 <= fst (Reference.adler data (a, b)) < 65521 /\
  0 <= snd (Reference.adler data (a, b)) < 65521.
Proof.
  induction data as [|c data IH]; intros a b Ha Hb; [cbn; lia|].
  cbn [Reference.adler fold_left Reference.adlerStep].
  apply IH; apply Z.mod_pos_bound; lia.
Qed.

Lemma adler_app x y ab :
  Reference.adler (x ++ y) ab = Reference.adler y (Reference.adler x ab).
Proof. apply fold_left_app. Qed.

(** One pass of the outer loop and all of them. *)
Lemma adler_blocks_spec fuel : forall current len a b,
  (len <= fuel)%nat -> (len <= length current)%nat ->
  0 <= a < 65521 -> 0 <= b < 65521 ->
  Adler32.blocks fuel current len (a, b) =
  Reference.adler (firstn len current) (a, b).
Proof.
  induction fuel as [|fuel IH]; intros current len a b Hf Hl Ha Hb.
  - replace len with 0%nat by lia. reflexivity.
  - cbn [Adler32.blocks]. destruct (Nat.ltb_spec 0 len) as [Hpos|Hz].
    2:{ replace len with 0%nat by lia. reflexivity. }
    set (k := if (len <? Adler32.m_nmax)%nat then len else Adler32.m_nmax).
    assert (Hk : (0 < k <= len)%nat /\ Z.of_nat k <= 5552).
    { subst k. unfold Adler32.m_nmax.
      destruct (Nat.ltb_spec len (Z.to_nat 5552)); lia. }
    pose proof (adler_unrolled_remaining k current k (a, b) (Nat.le_refl k)) as U.
    destruct (Adler32.unrolled k current k (a, b)) as [[current' k'] ab'].
    rewrite U.
    assert (K1 : 0 <= Z.of_nat k <= 5552) by lia.
    assert (K2 : Z.of_nat k * a <= 5552 * 65520) by nia.
    assert (K3 : Z.of_nat k * (Z.of_nat k + 1) <= 5552 * 5553) by nia.
    rewrite adler_remaining_raw by lia.
    destruct (Reference.adlerRaw (firstn k current) (a, b)) as [a' b'] eqn:R.
    pose proof (adler_raw_mod (firstn k current) a b) as M.
    rewrite R in M. cbn [fst snd] in M.
    rewrite (Z.mod_small a), (Z.mod_small b) in M by lia.
    pose proof (adler_reduced (firstn k current) a b Ha Hb) as (Ra & Rb).
    rewrite M in Ra, Rb. cbn [fst snd] in Ra, Rb.
    change Adler32.m_modAdler with 65521.
    rewrite IH; [| lia | rewrite length_skipn; lia | exact Ra | exact Rb].
    rewrite <- M, <- adler_app. f_equal.
    replace len with (k + (len - k))%nat at 2 by lia.
    symmetry. apply firstn_add.
Qed.

(** The hash word and its two halves. *)
Lemma adler_word_halves a b :
  0 <= a < 65536 -> 0 <= b < 65536 ->
  let h := Z.lor a (u32 (Z.shiftl b 16)) in
  h = a + 65536 * b /\ 0 <= h < 4294967296 /\
  Z.land h 65535 = a /\ Z.land (Z.shiftr h 16) 65535 = b.
Proof.
  intros Ha Hb. cbv zeta.
  assert (S : u32 (Z.shiftl b 16) = 65536 * b).
  { unfold u32. rewrite Z.shiftl_mul_pow2 by lia. change (2 ^ 16) with 65536.
    rewrite Z.mod_small; lia. }
  rewrite S.
  assert (E : Z.lor a (65536 * b) = a + 65536 * b).
  { replace (65536 * b) with (Z.shiftl b 16)
      by (rewrite Z.shiftl_mul_pow2 by lia; change (2 ^ 16) with 65536; lia).
    assert (D : Z.land a (Z.shiftl b 16) = 0).
    { apply Z.bits_inj'. intros n Hn.
      rewrite Z.land_spec, Z.shiftl_spec, Z.bits_0 by lia.
      destruct (Z.ltb_spec n 16).
      - rewrite (Z.testbit_neg_r b) by lia. apply andb_false_r.
      - rewrite <- (Z.mod_small a (2 ^ 16)) by (change (2 ^ 16) with 65536; lia).
        rewrite Z.mod_pow2_bits_high by lia. reflexivity. }
    rewrite <- (Z.lxor_lor _ _ D). symmetry. apply Z.add_nocarry_lxor, D. }
  rewrite E. split; [reflexivity|]. split; [lia|].
  change 65535 with (Z.ones 16). rewrite !Z.land_ones by lia.
  rewrite Z.shiftr_div_pow2 by lia. change (2 ^ 16) with 65536.
  replace (65536 * b) with (b * 65536) by lia.
  rewrite Z.div_add, Z.mod_add, (Z.div_small a) by lia.
  split; apply Z.mod_small; lia.
Qed.

Lemma adler_sums_range st :
  0 <= fst (Reference.adlerSums st) < 65536 /\
  0 <= snd (Reference.adlerSums st) < 65536.
Proof.
  unfold Reference.adlerSums. cbn [fst snd].
  change 65535 with (Z.ones 16). rewrite !Z.land_ones by lia.
  split; apply Z.mod_pos_bound; reflexivity.
Qed.

(** hashCore on a byte range, in terms of the reference. *)
Lemma adler_hashCore_spec st data :
  Reference.adlerValid st ->
  Adler32.hashCore st (Some data) =
  Adler32.mkState (Reference.adlerWord (Reference.adler data (Reference.adlerSums st))).
Proof.
  intros (Hh & Ha & Hb).
  pose proof (adler_sums_range st) as (Ra & Rb).
  unfold Adler32.hashCore.
  fold (fst (Reference.adlerSums st)) (snd (Reference.adlerSums st)).
  change (Z.land (Adler32.m_hash st) 65535) with (fst (Reference.adlerSums st)).
  change (Z.land (Z.shiftr (Adler32.m_hash st) 16) 65535)
    with (snd (Reference.adlerSums st)).
  destruct (Reference.adlerSums st) as [a b]. cbn [fst snd] in *.
  destruct (Nat.eqb_spec (length data) 1) as [H1|H1].
  - destruct data as [|c [|c' data]]; try discriminate H1.
    pose proof (byte_to_Z_range c) as Hc.
    cbn [nth Reference.adler fold_left Reference.adlerStep].
    unfold Adler32.m_modAdler.
    assert (E1 : u32 (a + byte_to_Z c) = a + byte_to_Z c)
      by (unfold u32; apply Z.mod_small; lia).
    rewrite E1.
    assert (A : (if 65521 <=? a + byte_to_Z c
                 then u32 (a + byte_to_Z c - 65521) else a + byte_to_Z c) =
                (a + byte_to_Z c) mod 65521).
    { destruct (Z.leb_spec 65521 (a + byte_to_Z c)).
      - unfold u32. rewrite Z.mod_small by lia.
        apply Z.mod_unique with 1; lia.
      - symmetry. apply Z.mod_small; lia. }
    rewrite A.
    pose proof (Z.mod_pos_bound (a + byte_to_Z c) 65521 ltac:(lia)) as Ma.
    set (a1 := (a + byte_to_Z c) mod 65521) in *.
    assert (E2 : u32 (b + a1) = b + a1) by (unfold u32; apply Z.mod_small; lia).
    rewrite E2.
    assert (B : (if 65521 <=? b + a1 then u32 (b + a1 - 65521) else b + a1) =
                (b + a1) mod 65521).
    { destruct (Z.leb_spec 65521 (b + a1)).
      - unfold u32. rewrite Z.mod_small by lia.
        apply Z.mod_unique with 1; lia.
      - symmetry. apply Z.mod_small; lia. }
    rewrite B.
    pose proof (Z.mod_pos_bound (b + a1) 65521 ltac:(lia)) as Mb.
    f_equal. apply (adler_word_halves a1 ((b + a1) mod 65521)); lia.
  - rewrite adler_blocks_spec by lia.
    rewrite firstn_all.
    pose proof (adler_reduced data a b ltac:(lia) ltac:(lia)) as (Qa & Qb).
    destruct (Reference.adler data (a, b)) as [a' b']. cbn [fst snd] in *.
    f_equal. apply (adler_word_halves a' b'); lia.
Qed.

Lemma adler_valid_word a b :
  0 <= a < 65521 -> 0 <= b < 65521 ->
  Reference.adlerValid (Adler32.mkState (Reference.adlerWord (a, b))) /\
  Reference.adlerSums (Adler32.mkState (Reference.adlerWord (a, b))) = (a, b).
Proof.
  intros Ha Hb.
  destruct (adler_word_halves a b ltac:(lia) ltac:(lia)) as (E & R & La & Lb).
  unfold Reference.adlerValid, Reference.adlerSums, Reference.adlerWord.
  cbn [Adler32.m_hash fst snd]. rewrite <- E, La, Lb. repeat split; lia.
Qed.

Lemma adler_word_sums st :
  0 <= Adler32.m_hash st < 4294967296 ->
  Reference.adlerWord (Reference.adlerSums st) = Adler32.m_hash st.
Proof.
  intros H. unfold Reference.adlerWord, Reference.adlerSums. cbn [fst snd].
  change 65535 with (Z.ones 16). rewrite !Z.land_ones by lia.
  rewrite Z.shiftr_div_pow2 by lia. change (2 ^ 16) with 65536.
  rewrite (Z.mod_small (Adler32.m_hash st / 65536)).
  - pose proof (Z.div_mod (Adler32.m_hash st) 65536 ltac:(lia)). lia.
  - split; [apply Z.div_pos; lia | apply Z.div_lt_upper_bound; lia].
Qed.

Lemma adler_hashCore_valid st data :
  Reference.adlerValid st -> Reference.adlerValid (Adler32.hashCore st data).
Proof.
  intros H. destruct data as [data|].
  - rewrite adler_hashCore_spec by exact H.
    destruct H as (Hh & Ha & Hb).
    pose proof (adler_sums_range st) as (Ra & Rb).
    destruct (Reference.adlerSums st) as [a b]. cbn [fst snd] in *.
    pose proof (adler_reduced data a b ltac:(lia) ltac:(lia)) as (Qa & Qb).
    destruct (Reference.adler data (a, b)) as [a' b']. cbn [fst snd] in *.
    apply adler_valid_word; lia.
  - vm_compute. repeat split; first [reflexivity | discriminate].
Qed.

Lemma adler32_hashCore_sums st data :
  Reference.adlerValid st ->
  Reference.adlerSums (Adler32.hashCore st (Some data)) =
  Reference.adler data (Reference.adlerSums st).
Proof.
  intros H. rewrite adler_hashCore_spec by exact H.
  destruct H as (Hh & Ha & Hb).
  pose proof (adler_sums_range st) as (Ra & Rb).
  destruct (Reference.adlerSums st) as [a b]. cbn [fst snd] in *.
  pose proof (adler_reduced data a b ltac:(lia) ltac:(lia)) as (Qa & Qb).
  destruct (Reference.adler data (a, b)) as [a' b']. cbn [fst snd] in *.
  apply adler_valid_word; lia.
Qed.

(** X1.  Adler-32 against its definition.  From a state whose two sums are
    reduced, hashCore on a byte range of any length leaves in the two
    halves of m_hash the sums that the definition of Adler-32 gives (each
    byte added modulo 65521): the deferred reduction, once per 5552 bytes,
    never lets the 32-bit sums wrap. *)
Theorem adler32_hashCore_reference (st : Adler32.state) (data : list byte) :
  Reference.adlerValid st ->
  Reference.adlerSums (Adler32.hashCore st (Some data)) =
    Reference.adler data (Reference.adlerSums st) /\
  Adler32.m_hash (Adler32.hashCore st (Some data)) =
    Reference.adlerWord (Reference.adler data (Reference.adlerSums st)).
Proof.
  intros H. split.
  - apply adler32_hashCore_sums, H.
  - now rewrite adler_hashCore_spec by exact H.
Qed.

Lemma adler32_hashCore_reference_witness :
  Reference.adlerSums
    (Adler32.hashCore Adler32.Adler32 (Some (repeat xff (Z.to_nat 6000)))) =
    Reference.adler (repeat xff (Z.to_nat 6000)) (Reference.adlerSums Adler32.Adler32) /\
  Adler32.m_hash (Adler32.hashCore Adler32.Adler32 (Some (repeat xff (Z.to_nat 6000)))) =
    Reference.adlerWord
      (Reference.adler (repeat xff (Z.to_nat 6000)) (Reference.adlerSums Adler32.Adler32)).
Proof.
  apply (adler32_hashCore_reference Adler32.Adler32 (repeat xff (Z.to_nat 6000))).
  vm_compute. repeat split; first [reflexivity | discriminate].
Defined.

(** X2.  Adler-32 keeps its sums reduced.  After construction and any sequence
    of hashCore calls, on byte ranges or on the null pointer, m_hash is a
    32-bit word whose two 16-bit halves are both below 65521. *)
Theorem adler32_sums_reduced (calls : list (option (list byte))) :
  Reference.adlerValid (fold_left Adler32.hashCore calls Adler32.Adler32).
Proof.
  assert (G : forall st, Reference.adlerValid st ->
                         Reference.adlerValid (fold_left Adler32.hashCore calls st)).
  { induction calls as [|c calls IH]; intros st H; [exact H|].
    cbn [fold_left]. apply IH, adler_hashCore_valid, H. }
  apply G. vm_compute. repeat split; first [reflexivity | discriminate].
Qed.

(** X3.  Adler-32 is streaming: from a state whose sums are reduced, two
    hashCore calls in a row give the state of one call on the
    concatenation, whatever the lengths (the one-byte and the empty
    range included), and the empty range leaves the state as it is. *)
Theorem adler32_streaming (st : Adler32.state) (x y : list byte) :
  Reference.adlerValid st ->
  Adler32.hashCore (Adler32.hashCore st (Some x)) (Some y) =
    Adler32.hashCore st (Some (x ++ y)) /\
  Adler32.hashCore st (Some []) = st.
Proof.
  intros H. split.
  - rewrite (adler_hashCore_spec _ y) by (apply adler_hashCore_valid, H).
    rewrite (adler_hashCore_spec st (x ++ y)) by exact H.
    rewrite (adler32_hashCore_sums st x H).
    now rewrite adler_app.
  - rewrite adler_hashCore_spec by exact H.
    cbn [Reference.adler fold_left].
    rewrite adler_word_sums by apply H. now destruct st.
Qed.

Lemma adler32_streaming_witness :
  Adler32.hashCore (Adler32.hashCore Adler32.Adler32 (Some (Objects.text "W")))
    (Some (Objects.text "ikipedia")) =
    Adler32.hashCore Adler32.Adler32 (Some (Objects.text "W" ++ Objects.text "ikipedia")) /\
  Adler32.hashCore Adler32.Adler32 (Some []) = Adler32.Adler32.
Proof.
  apply (adler32_streaming Adler32.Adler32).
  vm_compute. repeat split; first [reflexivity | discriminate].
Defined.

(* ------------------------------------------------------------------ *)
(** ** The byte-at-a-time classes *)

Lemma poly_congr k N data : forall h h',
  h mod N = h' mod N ->
  Reference.poly k h data mod N = Reference.poly k h' data mod N.
Proof.
  induction data as [|c data IH]; intros h h' E; [exact E|].
  cbn [Reference.poly fold_left]. apply IH.
  rewrite (Zplus_mod (k * h)), (Zplus_mod (k * h')).
  rewrite (Zmult_mod k h), (Zmult_mod k h'), E. reflexivity.
Qed.

(** A loop whose step is [h -> (k * h + c) mod N] computes the polynomial
    hash modulo [N]. *)
Lemma poly_fold k N (step : Z -> byte -> Z) :
  0 < N ->
  (forall h c, step h c = (k * h + byte_to_Z c) mod N) ->
  forall data h, 0 <= h < N ->
  fold_left step data h = Reference.poly k h data mod N.
Proof.
  intros HN Hstep. induction data as [|c data IH]; intros h Hh.
  - cbn. symmetry. apply Z.mod_small, Hh.
  - cbn [fold_left Reference.poly]. rewrite IH, Hstep.
    + apply poly_congr. apply Z.mod_mod. lia.
    + rewrite Hstep. apply Z.mod_pos_bound, HN.
Qed.

Lemma poly_seed k data : forall h,
  Reference.poly k h data = h * k ^ Z.of_nat (length data) + Reference.poly k 0 data.
Proof.
  induction data as [|c data IH]; intros h.
  - cbn. lia.
  - cbn [Reference.poly fold_left length].
    fold (Reference.poly k (k * h + byte_to_Z c) data).
    fold (Reference.poly k (k * 0 + byte_to_Z c) data).
    rewrite (IH (k * h + byte_to_Z c)), (IH (k * 0 + byte_to_Z c)).
    rewrite Nat2Z.inj_succ, Z.pow_succ_r by lia. ring.
Qed.

Lemma djb2_step_spec h c :
  Djb2Hash32.step h c = (33 * h + byte_to_Z c) mod 4294967296.
Proof.
  unfold Djb2Hash32.step, u32. rewrite Z.shiftl_mul_pow2 by lia.
  rewrite (Zplus_mod_idemp_l (h * 2 ^ 5) h).
  rewrite (Zplus_mod_idemp_l (h * 2 ^ 5 + h)). f_equal. lia.
Qed.

Lemma sdbm_step_spec h c :
  SDBMHash32.step h c = (65599 * h + byte_to_Z c) mod 4294967296.
Proof.
  unfold SDBMHash32.step, u32. rewrite !Z.shiftl_mul_pow2 by lia.
  set (N := 4294967296). set (A := h * 2 ^ 6). set (B := h * 2 ^ 16).
  rewrite Zminus_mod_idemp_l.
  replace ((byte_to_Z c + A mod N) mod N + B mod N - h)
    with ((byte_to_Z c + A mod N) mod N + (B mod N - h)) by lia.
  rewrite Zplus_mod_idemp_l.
  replace (byte_to_Z c + A mod N + (B mod N - h))
    with (A mod N + (byte_to_Z c + B mod N - h)) by lia.
  rewrite Zplus_mod_idemp_l.
  replace (A + (byte_to_Z c + B mod N - h))
    with (B mod N + (A + byte_to_Z c - h)) by lia.
  rewrite Zplus_mod_idemp_l. f_equal. subst A B. lia.
Qed.

Lemma bkdr_step_spec k h c :
  BKDRHash32.step k h c = (k * h + byte_to_Z c) mod 4294967296.
Proof.
  unfold BKDRHash32.step, u32. rewrite Zplus_mod_idemp_l. f_equal. lia.
Qed.

(** X4.  Djb2Hash32 is the polynomial hash with multiplier 33 (the
    [hash * 33 + c] of the source), modulo 2^32: the seed enters as
    [seed * 33^n]. *)
Theorem djb2_polynomial (st : Djb2Hash32.state) (data : list byte) :
  0 <= Djb2Hash32.m_hash st < 4294967296 ->
  Djb2Hash32.m_hash (Djb2Hash32.hashCore st data) =
    Reference.poly 33 (Djb2Hash32.m_hash st) data mod 4294967296 /\
  Reference.poly 33 (Djb2Hash32.m_hash st) data =
    Djb2Hash32.m_hash st * 33 ^ Z.of_nat (length data) + Reference.poly 33 0 data.
Proof.
  intros H. split; [|apply poly_seed].
  apply (poly_fold 33 4294967296 Djb2Hash32.step ltac:(lia) djb2_step_spec), H.
Qed.

Lemma djb2_polynomial_witness :
  Djb2Hash32.m_hash
    (Djb2Hash32.hashCore (Djb2Hash32.Djb2Hash32 5381) (Objects.text "abc")) =
    Reference.poly 33 (Djb2Hash32.m_hash (Djb2Hash32.Djb2Hash32 5381))
      (Objects.text "abc") mod 4294967296 /\
  Reference.poly 33 (Djb2Hash32.m_hash (Djb2Hash32.Djb2Hash32 5381)) (Objects.text "abc") =
    Djb2Hash32.m_hash (Djb2Hash32.Djb2Hash32 5381)
      * 33 ^ Z.of_nat (length (Objects.text "abc"))
    + Reference.poly 33 0 (Objects.text "abc").
Proof.
  apply (djb2_polynomial (Djb2Hash32.Djb2Hash32 5381)). vm_compute.
  split; [discriminate | reflexivity].
Defined.

(** X5.  SDBMHash32 is the polynomial hash with multiplier 65599
    (= 2^6 + 2^16 - 1), modulo 2^32. *)
Theorem sdbm_polynomial (st : SDBMHash32.state) (data : list byte) :
  0 <= SDBMHash32.m_hash st < 4294967296 ->
  SDBMHash32.m_hash (SDBMHash32.hashCore st data) =
    Reference.poly 65599 (SDBMHash32.m_hash st) data mod 4294967296.
Proof.
  intros H.
  apply (poly_fold 65599 4294967296 SDBMHash32.step ltac:(lia) sdbm_step_spec), H.
Qed.

Lemma sdbm_polynomial_witness :
  SDBMHash32.m_hash (SDBMHash32.hashCore SDBMHash32.SDBMHash32 (Objects.text "abc")) =
    Reference.poly 65599 (SDBMHash32.m_hash SDBMHash32.SDBMHash32) (Objects.text "abc")
      mod 4294967296.
Proof.
  apply (sdbm_polynomial SDBMHash32.SDBMHash32). vm_compute.
  split; [discriminate | reflexivity].
Defined.

Lemma bkdr_skipn_nth (current : list byte) i :
  (i < length current)%nat ->
  skipn i current = nth i current x00 :: skipn (S i) current.
Proof.
  revert i. induction current as [|c current IH]; intros i H; [cbn in H; lia|].
  destruct i as [|i]; [reflexivity|]. cbn [skipn nth]. apply IH. cbn in H. lia.
Qed.

Lemma bkdr_loop_spec current k : forall fuel i h,
  Z.of_nat (length current) < 4294967296 ->
  (i <= length current)%nat ->
  (length current - i < fuel)%nat ->
  BKDRHash32.loop fuel (Z.of_nat i) current k h =
  Some (fold_left (BKDRHash32.step k) (skipn i current) h).
Proof.
  induction fuel as [|fuel IH]; intros i h Hlen Hi Hf; [lia|].
  cbn [BKDRHash32.loop]. destruct (Z.ltb_spec (Z.of_nat i) (Z.of_nat (length current))).
  - assert (E : u32 (Z.of_nat i + 1) = Z.of_nat (S i)).
    { unfold u32. rewrite Z.mod_small; lia. }
    rewrite E, IH, Nat2Z.id by lia.
    rewrite (bkdr_skipn_nth current i) by lia. reflexivity.
  - rewrite skipn_all2 by lia. reflexivity.
Qed.

(** X6.  BKDRHash32 on a range shorter than 2^32 bytes: the loop, whose
    counter is a [uint32_t], ends after one pass per byte and leaves the
    polynomial hash with multiplier [m_seed], modulo 2^32. *)
Theorem bkdr_polynomial (fuel : nat) (st : BKDRHash32.state) (data : list byte) :
  Z.of_nat (length data) < 4294967296 ->
  0 <= BKDRHash32.m_hash st < 4294967296 ->
  (length data < fuel)%nat ->
  BKDRHash32.hashCore fuel st data =
  Some (BKDRHash32.mkState (BKDRHash32.m_seed st)
          (Reference.poly (BKDRHash32.m_seed st) (BKDRHash32.m_hash st) data
             mod 4294967296)).
Proof.
  intros Hlen Hh Hf. unfold BKDRHash32.hashCore.
  rewrite (bkdr_loop_spec data (BKDRHash32.m_seed st) fuel 0) by (try exact Hlen; lia).
  cbn [skipn].
  now rewrite (poly_fold (BKDRHash32.m_seed st) 4294967296 _ ltac:(lia)
                 (bkdr_step_spec (BKDRHash32.m_seed st)) data _ Hh).
Qed.

Lemma bkdr_polynomial_witness :
  BKDRHash32.hashCore 4 (BKDRHash32.BKDRHash32 131) (Objects.text "abc") =
  Some (BKDRHash32.mkState (BKDRHash32.m_seed (BKDRHash32.BKDRHash32 131))
          (Reference.poly (BKDRHash32.m_seed (BKDRHash32.BKDRHash32 131))
             (BKDRHash32.m_hash (BKDRHash32.BKDRHash32 131)) (Objects.text "abc")
             mod 4294967296)).
Proof.
  apply (bkdr_polynomial 4 (BKDRHash32.BKDRHash32 131) (Objects.text "abc")).
  - reflexivity.
  - vm_compute. split; [discriminate | reflexivity].
  - vm_compute. lia.
Defined.

(** X7.  The classes that hash byte by byte with no other state are streaming:
    two hashCore calls in a row leave the state of one call on the
    concatenation.  This holds for Djb2Hash32, SDBMHash32, JSHash32,
    PJWHash32, JOAATHash32 and Fnv1aHash, from every state. *)
Theorem bytewise_streaming (x y : list byte) :
  (forall st, Djb2Hash32.hashCore (Djb2Hash32.hashCore st x) y =
              Djb2Hash32.hashCore st (x ++ y)) /\
  (forall st, SDBMHash32.hashCore (SDBMHash32.hashCore st x) y =
              SDBMHash32.hashCore st (x ++ y)) /\
  (forall st, JSHash32.hashCore (JSHash32.hashCore st x) y =
              JSHash32.hashCore st (x ++ y)) /\
  (forall st, PJWHash32.hashCore (PJWHash32.hashCore st x) y =
              PJWHash32.hashCore st (x ++ y)) /\
  (forall st, JOAATHash32.hashCore (JOAATHash32.hashCore st x) y =
              JOAATHash32.hashCore st (x ++ y)) /\
  (forall st, Fnv.hashCore (Fnv.hashCore st x) y = Fnv.hashCore st (x ++ y)).
Proof.
  repeat match goal with |- _ /\ _ => split end; intros st.
  - unfold Djb2Hash32.hashCore. cbn [Djb2Hash32.m_hash Djb2Hash32.m_defaultSeed].
    now rewrite fold_left_app.
  - unfold SDBMHash32.hashCore. cbn [SDBMHash32.m_hash]. now rewrite fold_left_app.
  - unfold JSHash32.hashCore. cbn [JSHash32.m_hash]. now rewrite fold_left_app.
  - unfold PJWHash32.hashCore. cbn [PJWHash32.m_hash]. now rewrite fold_left_app.
  - unfold JOAATHash32.hashCore. cbn [JOAATHash32.m_hash]. now rewrite fold_left_app.
  - unfold Fnv.hashCore, Fnv.calcFnv1aHash. destruct st as [[|] h32 h64];
      cbn [Fnv.m_bits Fnv.m_hash32 Fnv.m_hash64]; now rewrite fold_left_app.
Qed.

Lemma ap_step_parity i h c : APHash32.step (S (S i)) h c = APHash32.step i h c.
Proof.
  unfold APHash32.step. change 1%nat with (Nat.ones 1).
  rewrite !Nat.land_ones. change (2 ^ 1)%nat with 2%nat.
  replace (S (S i) mod 2)%nat with (i mod 2)%nat; [reflexivity|].
  change (S (S i)) with (2 + i)%nat.
  rewrite <- (Nat.Div0.add_mod_idemp_l 2 i 2). reflexivity.
Qed.

Lemma ap_loop_parity data : forall i h,
  APHash32.loop (S (S i)) data h = APHash32.loop i data h.
Proof.
  induction data as [|c data IH]; intros i h; [reflexivity|].
  cbn [APHash32.loop]. now rewrite IH, ap_step_parity.
Qed.

Lemma ap_loop_even n : forall i data h,
  APHash32.loop (i + 2 * n) data h = APHash32.loop i data h.
Proof.
  induction n as [|n IH]; intros i data h.
  - now rewrite Nat.add_0_r.
  - replace (i + 2 * S n)%nat with (S (S (i + 2 * n))) by lia.
    now rewrite ap_loop_parity.
Qed.

Lemma ap_loop_app x : forall i y h,
  APHash32.loop i (x ++ y) h = APHash32.loop (i + length x) y (APHash32.loop i x h).
Proof.
  induction x as [|c x IH]; intros i y h.
  - cbn [app length APHash32.loop]. now rewrite Nat.add_0_r.
  - cbn [app length APHash32.loop]. rewrite IH. f_equal. lia.
Qed.

(** X8.  APHash32 restarts its byte index, whose parity selects the mixing
    step, at every hashCore call.  Two calls in a row give the state of
    one call on the concatenation when the first range has an even
    length; after an odd first range they need not, as the two one-byte
    ranges "a", "b" against "ab" show. *)
Theorem apHash32_streaming_even (st : APHash32.state) (x y : list byte) :
  (Nat.even (length x) = true ->
   APHash32.hashCore (APHash32.hashCore st x) y = APHash32.hashCore st (x ++ y)) /\
  APHash32.hashCore (APHash32.hashCore APHash32.APHash32 (Objects.text "a"))
    (Objects.text "b") <>
  APHash32.hashCore APHash32.APHash32 (Objects.text "ab").
Proof.
  split.
  - intros E. apply Nat.even_spec in E. destruct E as [n E].
    unfold APHash32.hashCore. cbn [APHash32.m_hash].
    rewrite ap_loop_app, E. f_equal. symmetry. apply (ap_loop_even n 0).
  - vm_compute. discriminate.
Qed.

Lemma apHash32_streaming_even_witness :
  APHash32.hashCore (APHash32.hashCore APHash32.APHash32 (Objects.text "ab"))
    (Objects.text "c") =
  APHash32.hashCore APHash32.APHash32 (Objects.text "ab" ++ Objects.text "c").
Proof.
  apply (proj1 (apHash32_streaming_even APHash32.APHash32
                  (Objects.text "ab") (Objects.text "c"))).
  reflexivity.
Defined.

Lemma pjw_step_range h c : 0 <= PJWHash32.step h c < 268435456.
Proof.
  unfold PJWHash32.step.
  set (h1 := u32 (u32 (Z.shiftl h PJWHash32.OneEighth) + byte_to_Z c)).
  assert (R : 0 <= h1 < 4294967296) by (apply Z.mod_pos_bound; lia).
  change (not32 PJWHash32.HighBits) with (Z.ones 28).
  change PJWHash32.HighBits with 4026531840.
  destruct (Z.eqb_spec (Z.land h1 4026531840) 0) as [E|E]; cbn [negb].
  - assert (S : h1 = h1 mod 2 ^ 28).
    { rewrite <- (Z.land_ones h1 28) by lia.
      rewrite <- (Z.lor_0_l (Z.land h1 (Z.ones 28))), <- E, <- Z.land_lor_distr_r.
      change (Z.lor 4026531840 (Z.ones 28)) with (Z.ones 32).
      rewrite Z.land_ones by lia. symmetry. apply Z.mod_small.
      change (2 ^ 32) with 4294967296. exact R. }
    rewrite S. apply (Z.mod_pos_bound _ (2 ^ 28)). reflexivity.
  - rewrite Z.land_ones by lia. apply (Z.mod_pos_bound _ (2 ^ 28)). reflexivity.
Qed.

Lemma pjw_hashCore_range st data :
  0 <= PJWHash32.m_hash st < 268435456 ->
  0 <= PJWHash32.m_hash (PJWHash32.hashCore st data) < 268435456.
Proof.
  unfold PJWHash32.hashCore. cbn [PJWHash32.m_hash].
  generalize (PJWHash32.m_hash st). induction data as [|c data IH]; intros h H.
  - exact H.
  - cbn [fold_left]. apply IH, pjw_step_range.
Qed.

(** X9.  PJWHash32 uses 28 bits.  After construction and any sequence of
    hashCore calls m_hash is below 2^28: each step clears the four high
    bits, so that the shift by four of the next step loses nothing and
    the first byte of the digest is below 16. *)
Theorem pjw_28_bits (chunks : list (list byte)) :
  let st := fold_left PJWHash32.hashCore chunks PJWHash32.PJWHash32 in
  0 <= PJWHash32.m_hash st < 268435456 /\
  (forall c, u32 (Z.shiftl (PJWHash32.m_hash st) PJWHash32.OneEighth) + byte_to_Z c =
             16 * PJWHash32.m_hash st + byte_to_Z c) /\
  0 <= byte_to_Z (nth 0 (snd (PJWHash32.hashFinal st)) x00) < 16.
Proof.
  cbv zeta.
  assert (G : forall st, 0 <= PJWHash32.m_hash st < 268435456 ->
              0 <= PJWHash32.m_hash (fold_left PJWHash32.hashCore chunks st) < 268435456).
  { induction chunks as [|c chunks IH]; intros st H; [exact H|].
    cbn [fold_left]. apply IH, pjw_hashCore_range, H. }
  specialize (G PJWHash32.PJWHash32 ltac:(cbn; lia)).
  set (st := fold_left PJWHash32.hashCore chunks PJWHash32.PJWHash32) in *.
  split; [exact G|]. split.
  - intros c. change PJWHash32.OneEighth with 4.
    rewrite Z.shiftl_mul_pow2 by lia. unfold u32. rewrite Z.mod_small; lia.
  - unfold PJWHash32.hashFinal. cbn [snd].
    rewrite native_to_big32_bytes. unfold endian.big_endian_bytes.
    cbn [endian.native_bytes rev app nth].
    rewrite !Z.shiftr_shiftr by lia. cbn [Z.add Pos.add Pos.succ].
    unfold Z_to_byte, byte_to_Z.
    rewrite Z.shiftr_div_pow2 by lia.
    assert (Q : 0 <= PJWHash32.m_hash st / 2 ^ 24 < 16).
    { split; [apply Z.div_pos; lia | apply Z.div_lt_upper_bound; lia]. }
    rewrite (Z.mod_small _ 256) by lia.
    set (q := PJWHash32.m_hash st / 2 ^ 24) in *.
    assert (L : (Z.to_N q < 256)%N) by lia.
    destruct (Byte.of_N (Z.to_N q)) as [b|] eqn:B.
    + apply Byte.to_of_N in B. rewrite B. lia.
    + apply Byte.of_N_None_iff in B. lia.
Qed.

(** X10.  The digest of every byte-at-a-time class has hashSize()/8 bytes:
    four for Adler32, Djb2Hash32, SDBMHash32, BKDRHash32, JSHash32,
    PJWHash32, JOAATHash32 and APHash32, four or eight for the FNV
    classes according to their width. *)
Theorem bytewise_digest_length :
  (forall st, length (snd (Adler32.hashFinal st)) = (Adler32.hashSize st / 8)%nat) /\
  (forall st, length (snd (Djb2Hash32.hashFinal st)) = (Djb2Hash32.hashSize st / 8)%nat) /\
  (forall st, length (snd (SDBMHash32.hashFinal st)) = (SDBMHash32.hashSize st / 8)%nat) /\
  (forall st, length (snd (BKDRHash32.hashFinal st)) = (BKDRHash32.hashSize st / 8)%nat) /\
  (forall st, length (snd (JSHash32.hashFinal st)) = (JSHash32.hashSize st / 8)%nat) /\
  (forall st, length (snd (PJWHash32.hashFinal st)) = (PJWHash32.hashSize st / 8)%nat) /\
  (forall st, length (snd (JOAATHash32.hashFinal st)) = (JOAATHash32.hashSize st / 8)%nat) /\
  (forall st, length (snd (APHash32.hashFinal st)) = (APHash32.hashSize st / 8)%nat) /\
  (forall st, length (snd (Fnv.hashFinal st)) = (Fnv.hashSize st / 8)%nat).
Proof.
  repeat match goal with |- _ /\ _ => split end; intros st; try reflexivity.
  destruct st as [[|] h32 h64]; reflexivity.
Qed.

(* ------------------------------------------------------------------ *)
(** ** More on the objects of the eight classes *)

Lemma fold_left_length_inv {A B : Type} (f : list A -> B -> list A) (l : list B) :
  (forall h x, length (f h x) = length h) ->
  forall h, length (fold_left f l h) = length h.
Proof.
  intros Hf. induction l as [|x l IH]; intros h; [reflexivity|].
  cbn [fold_left]. now rewrite IH, Hf.
Qed.

Lemma sha3_length_xor_at h i v : length (Sha3.xor_at h i v) = length h.
Proof. apply length_upd. Qed.

Lemma sha3_length_theta h : length (Sha3.theta h) = length h.
Proof.
  unfold Sha3.theta. apply fold_left_length_inv. intros h' x.
  now rewrite !sha3_length_xor_at.
Qed.

Lemma sha3_length_rhoPi h : length (Sha3.rhoPi h) = length h.
Proof.
  unfold Sha3.rhoPi.
  assert (G : forall steps (acc : list Z * Z),
            length (fst (fold_left
              (fun (acc : list Z * Z) (step : nat * nat) =>
                 let '(h, last) := acc in
                 let '(j, r) := step in
                 let one := nth j h 0 in
                 (upd h j (endian.rotateLeft64 last (Z.of_nat r)), one))
              steps acc)) = length (fst acc)).
  { induction steps as [|[j r] steps IH]; intros [h' last]; [reflexivity|].
    cbn [fold_left]. rewrite IH. cbn [fst]. apply length_upd. }
  specialize (G Sha3.rhoPiSteps (h, nth 1 h 0)).
  destruct (fold_left _ Sha3.rhoPiSteps (h, nth 1 h 0)) as [h' last].
  cbn [fst] in G. now rewrite length_upd.
Qed.

Lemma sha3_length_chi h : length (Sha3.chi h) = length h.
Proof.
  unfold Sha3.chi. apply fold_left_length_inv. intros h' x.
  now rewrite !sha3_length_xor_at.
Qed.

Lemma sha3_length_processBlock bs data h :
  length (Sha3.processBlock bs data h) = length h.
Proof.
  unfold Sha3.processBlock.
  rewrite fold_left_length_inv.
  - apply fold_left_length_inv. intros h' x. apply sha3_length_xor_at.
  - intros h' x. unfold Sha3.keccakRound.
    now rewrite sha3_length_xor_at, sha3_length_chi, sha3_length_rhoPi,
      sha3_length_theta.
Qed.

Lemma absorbBlocks_lanes bs fuel : forall h n l,
  length (fst (fst (Stream.absorbBlocks bs (Sha3.processBlock bs) fuel h n l))) =
  length h.
Proof.
  induction fuel as [|fuel IH]; intros h n l; [reflexivity|].
  cbn [Stream.absorbBlocks]. destruct (bs <=? length l)%nat; [|reflexivity].
  now rewrite IH, sha3_length_processBlock.
Qed.

Lemma sha3_hashCore_lanes st data :
  Invariants.sha3 st ->
  length (BlockBuffer.m_hash (Sha3.core (Sha3.hashCore st data))) =
  length (BlockBuffer.m_hash (Sha3.core st)).
Proof.
  intros H. destruct (sha3_hashCore_view st data H) as (V & _).
  unfold Stream.view in V at 1.
  assert (E : BlockBuffer.m_hash (Sha3.core (Sha3.hashCore st data)) =
              fst (fst (Stream.absorb (Sha3.m_blockSize st)
                          (Sha3.processBlock (Sha3.m_blockSize st))
                          (Stream.view (Sha3.core st)) data))).
  { now rewrite <- V. }
  rewrite E. unfold Stream.absorb, Stream.view. apply absorbBlocks_lanes.
Qed.

Lemma sha3_hashFinal_lanes st :
  length (BlockBuffer.m_hash (Sha3.core (fst (Sha3.hashFinal st)))) =
  length (BlockBuffer.m_hash (Sha3.core st)).
Proof.
  unfold Sha3.hashFinal, Sha3.processBuffer. cbn [fst Sha3.core BlockBuffer.m_hash].
  apply sha3_length_processBlock.
Qed.

Lemma length_flat_map_native_bytes (l : list Z) :
  length (flat_map (endian.native_bytes 8) l) = (8 * length l)%nat.
Proof.
  induction l as [|x l IH]; [reflexivity|].
  cbn [flat_map]. rewrite length_app, IH. cbn [length endian.native_bytes]. lia.
Qed.

Lemma sha3_run_lanes calls : forall st,
  Invariants.sha3 st ->
  let st' := Stream.run Sha3.hashCore Sha3.hashFinal calls st in
  Invariants.sha3 st' /\ Sha3.m_bits st' = Sha3.m_bits st /\
  length (BlockBuffer.m_hash (Sha3.core st')) = length (BlockBuffer.m_hash (Sha3.core st)).
Proof.
  unfold Stream.run.
  induction calls as [|c calls IH]; intros st H; cbv zeta.
  - auto.
  - cbn [fold_left].
    destruct c as [data|]; cbn [Stream.perform].
    + destruct (sha3_hashCore_view st data H) as (_ & I).
      destruct (IH _ I) as (I' & B & L).
      rewrite L, B, sha3_hashCore_lanes by exact H. auto.
    + pose proof (sha3_hashFinal_invariant st H) as I.
      destruct (IH _ I) as (I' & B & L).
      rewrite L, B, sha3_hashFinal_lanes. auto.
Qed.

(** X12.  The SHA-3 digest length.  From a constructed Sha3 object of any of
    the four widths, after any sequence of hashCore and hashFinal calls,
    hashFinal returns exactly hashSize()/8 bytes: 28, 32, 48 or 64. *)
Theorem sha3_digest_length (bits : Sha3.Sha3Bits) (raw : BlockBuffer.state (list Z))
    (calls : list Stream.call) :
  length (BlockBuffer.m_buffer raw) = Sha3.MaxBlockSize ->
  let st := Stream.run Sha3.hashCore Sha3.hashFinal calls (Sha3.Sha3 bits raw) in
  length (snd (Sha3.hashFinal st)) = (Sha3.hashSize st / 8)%nat /\
  Sha3.hashSize st = Sha3.enumToIntegral bits.
Proof.
  intros Hraw. cbv zeta.
  assert (I : Invariants.sha3 (Sha3.Sha3 bits raw)).
  { unfold Invariants.sha3, Stream.invariant, Sha3.Sha3, Sha3.initialize.
    cbn [Sha3.m_blockSize Sha3.core BlockBuffer.m_bufferSize BlockBuffer.m_buffer].
    rewrite Hraw. unfold Sha3.MaxBlockSize. destruct bits; cbn; lia. }
  destruct (sha3_run_lanes calls _ I) as (I' & B & L). cbv zeta in *.
  set (st := Stream.run Sha3.hashCore Sha3.hashFinal calls (Sha3.Sha3 bits raw)) in *.
  split; [|unfold Sha3.hashSize; now rewrite B].
  unfold Sha3.hashFinal. cbn [snd].
  rewrite length_firstn, length_flat_map_native_bytes.
  pose proof (sha3_hashFinal_lanes st) as F.
  unfold Sha3.hashFinal in F. cbn [fst] in F. rewrite F, L.
  change (Sha3.hashSize (Sha3.processBuffer st)) with (Sha3.hashSize st).
  unfold Sha3.hashSize. rewrite B.
  cbn [Sha3.Sha3 Sha3.initialize Sha3.core BlockBuffer.m_hash Sha3.m_bits].
  rewrite repeat_length. destruct bits; reflexivity.
Qed.

Lemma sha3_digest_length_witness :
  let st := Stream.run Sha3.hashCore Sha3.hashFinal
              [Stream.Update (Objects.text "abc"); Stream.Final;
               Stream.Update (Objects.text "def")]
              (Sha3.Sha3 Sha3.Bits384 (BlockBuffer.mkState 0 0 (repeat x00 144) [])) in
  length (snd (Sha3.hashFinal st)) = (Sha3.hashSize st / 8)%nat /\
  Sha3.hashSize st = Sha3.enumToIntegral Sha3.Bits384.
Proof.
  apply (sha3_digest_length Sha3.Bits384 (BlockBuffer.mkState 0 0 (repeat x00 144) [])).
  reflexivity.
Defined.

Lemma md_reset_digest {R : Type} (processBlock : list byte -> R -> R)
    (lengthBytes : Z -> list byte) (render : R -> list byte)
    (Hlen : forall z, length (lengthBytes z) = 8%nat)
    (st st' : BlockBuffer.state R) data :
  Invariants.merkleDamgard st -> Invariants.merkleDamgard st' ->
  Stream.view st = Stream.view st' ->
  snd (MerkleDamgard.hashFinal processBlock lengthBytes render
         (BlockBuffer.hashCore MerkleDamgard.BLOCK_SIZE processBlock st data)) =
  snd (MerkleDamgard.hashFinal processBlock lengthBytes render
         (BlockBuffer.hashCore MerkleDamgard.BLOCK_SIZE processBlock st' data)).
Proof.
  intros H H' V.
  rewrite (hashCore_digest processBlock lengthBytes render Hlen st data H).
  rewrite (hashCore_digest processBlock lengthBytes render Hlen st' data H').
  now rewrite V.
Qed.

(** X13.  computeHash does not depend on what the object hashed before.  Two
    constructed objects of the same class and parameters (width,
    polynomial, seed), whatever their histories and whatever is left in
    their buffers, return the same digest for the same data. *)
Theorem computeHash_history_free (o o' : HashAlgorithm.object) (data : list byte) :
  Objects.constructed o -> Objects.constructed o' -> Reuse.sameAlgorithm o o' ->
  snd (HashAlgorithm.computeHash o data) = snd (HashAlgorithm.computeHash o' data).
Proof.
  intros K K' S. rewrite !computeHash_digest, !digest_dispatch.
  pose proof (constructed_invariant o K) as I.
  pose proof (constructed_invariant o' K') as I'.
  destruct o as [hv [st|st|st|st|st|st|st|st]];
    destruct o' as [hv' [st'|st'|st'|st'|st'|st'|st'|st']];
    try (exfalso; exact S);
    unfold Objects.invariant in I, I'; unfold Objects.constructed in K, K';
    unfold Reuse.sameAlgorithm in S;
    cbn [HashAlgorithm.self HashAlgorithm.initialize HashAlgorithm.hashCore] in *.
  - apply (md_reset_digest Md5.processBlock _ Md5.render lengthLittleEndian_length);
      auto.
  - apply (md_reset_digest Sha1.processBlock _ Sha1.render lengthBigEndian_length);
      auto.
  - apply (md_reset_digest Sha256.processBlock _ Sha256.render lengthBigEndian_length);
      auto.
  - destruct K as (Kb & _). destruct K' as (Kb' & _).
    assert (B : Sha3.m_blockSize st = Sha3.m_blockSize st') by (rewrite Kb, Kb', S; reflexivity).
    destruct (sha3_hashCore_view _ data I) as (V & J).
    destruct (sha3_hashCore_view _ data I') as (V' & J').
    apply sha3_digest_view; auto.
    rewrite V, V'. cbn [Sha3.initialize Sha3.m_blockSize Sha3.core]. rewrite B.
    reflexivity.
  - destruct S as (Sp & Ss).
    destruct (crc32_hashCore_spec _ data I) as (E & _).
    destruct (crc32_hashCore_spec _ data I') as (E' & _).
    unfold Crc32.hashFinal. cbn [snd]. rewrite E, E'.
    cbn [Crc32.initialize Crc32.m_polynomial Crc32.m_hash]. now rewrite Sp, Ss.
  - destruct S as (Sp & Ss).
    destruct (crc64_hashCore_spec _ data I) as (E & _).
    destruct (crc64_hashCore_spec _ data I') as (E' & _).
    unfold Crc64.hashFinal. cbn [snd]. rewrite E, E'.
    cbn [Crc64.initialize Crc64.m_polynomial Crc64.m_hash]. now rewrite Sp, Ss.
  - unfold XxHash32.initialize. now rewrite K, K', S.
  - unfold XxHash64.initialize. now rewrite K, K', S.
Qed.

Lemma computeHash_history_free_witness :
  snd (HashAlgorithm.computeHash
         (fst (HashAlgorithm.computeHash Objects.sha1 (Objects.text "abcdef")))
         (Objects.text "abc")) =
  snd (HashAlgorithm.computeHash Objects.sha1 (Objects.text "abc")).
Proof.
  apply (computeHash_history_free
           (fst (HashAlgorithm.computeHash Objects.sha1 (Objects.text "abcdef")))
           Objects.sha1 (Objects.text "abc")).
  - vm_compute. reflexivity.
  - reflexivity.
  - vm_compute. exact I.
Defined.








Lemma sponge_shape rate (pending : list byte) :
  (length pending < rate)%nat ->
  Padding.sponge rate pending =
  pending ++ (if (length pending =? rate - 1)%nat then [x86]
              else x06 :: repeat x00 (rate - length pending - 2) ++ [x80]).
Proof.
  intros H. unfold Padding.sponge.
  destruct (Nat.eqb_spec (length pending) (rate - 1)) as [E|E].
  - replace (rate - S (length pending))%nat with 0%nat by lia. cbn [repeat].
    replace (rate - 1)%nat with (length pending + 0)%nat by lia.
    rewrite app_nth2_plus. cbn [nth].
    rewrite upd_split by (rewrite !length_app; cbn [length]; lia).
    rewrite Nat.add_0_r, firstn_app_l by reflexivity.
    rewrite skipn_all2 by (rewrite !length_app; cbn [length]; lia).
    reflexivity.
  - replace (rate - S (length pending))%nat with (S (rate - length pending - 2)) by lia.
    set (z := (rate - length pending - 2)%nat).
    assert (R : repeat x00 (S z) = repeat x00 z ++ [x00]).
    { clear. induction z as [|z IH]; [reflexivity|].
      cbn [repeat app] in *. now rewrite <- IH. }
    rewrite R.
    assert (L : length (pending ++ x06 :: repeat x00 z) = (rate - 1)%nat).
    { rewrite length_app. cbn [length]. rewrite repeat_length. subst z. lia. }
    change (pending ++ x06 :: repeat x00 z ++ [x00])
      with (pending ++ (x06 :: repeat x00 z) ++ [x00]).
    rewrite app_assoc.
    rewrite <- L at 1 2. rewrite nth_middle.
    rewrite upd_split by (rewrite !length_app; cbn [length]; lia).
    rewrite firstn_app_l by reflexivity.
    rewrite skipn_all2 by (rewrite !length_app; cbn [length]; lia).
    rewrite <- app_assoc. reflexivity.
Qed.

(** X26.  The SHA-3 padding.  Sha3::processBuffer compresses exactly one
    block of [m_blockSize] bytes: the pending bytes, then the byte 0x06,
    zero bytes, and a last byte 0x80; when a single byte is free in the
    block the two marks share it as 0x86. *)
Theorem sha3_padding (st : Sha3.state) :
  Invariants.sha3 st ->
  let rate := Sha3.m_blockSize st in
  let pending := firstn (BlockBuffer.m_bufferSize (Sha3.core st))
                        (BlockBuffer.m_buffer (Sha3.core st)) in
  let pad := if (length pending =? rate - 1)%nat then [x86]
             else x06 :: repeat x00 (rate - length pending - 2) ++ [x80] in
  BlockBuffer.m_hash (Sha3.core (Sha3.processBuffer st)) =
    Sha3.processBlock rate (pending ++ pad) (BlockBuffer.m_hash (Sha3.core st)) /\
  length (pending ++ pad) = rate.
Proof.
  intros H. cbv zeta.
  pose proof (sha3_processBuffer_spec st H) as P. cbv zeta in P.
  destruct H as (Hp & Hsz & Hcap).
  set (pending := firstn _ _) in *.
  assert (L : length pending = BlockBuffer.m_bufferSize (Sha3.core st)).
  { unfold pending. rewrite length_firstn. lia. }
  rewrite sponge_shape in P by lia. split; [exact P|].
  rewrite length_app.
  destruct (Nat.eqb_spec (length pending) (Sha3.m_blockSize st - 1)).
  - cbn [length]. lia.
  - cbn [length]. rewrite length_app, repeat_length. cbn [length]. lia.
Qed.

Lemma sha3_padding_witness :
  let st := Sha3.hashCore
              (Sha3.Sha3 Sha3.Bits512 (BlockBuffer.mkState 0 0 (repeat x00 144) []))
              (repeat x61 71) in
  BlockBuffer.m_hash (Sha3.core (Sha3.processBuffer st)) =
    Sha3.processBlock 72 (repeat x61 71 ++ [x86]) (BlockBuffer.m_hash (Sha3.core st)) /\
  length (repeat x61 71 ++ [x86]) = 72%nat.
Proof.
  apply (sha3_padding
           (Sha3.hashCore
              (Sha3.Sha3 Sha3.Bits512 (BlockBuffer.mkState 0 0 (repeat x00 144) []))
              (repeat x61 71))).
  vm_compute. repeat split; lia.
Defined.

(* ------------------------------------------------------------------ *)
(** ** Byte orders: round trips *)

Lemma length_native_bytes n : forall x, length (endian.native_bytes n x) = n.
Proof. induction n as [|n IH]; intros x; cbn; [reflexivity | now rewrite IH]. Qed.

Lemma low_byte_and_rest x :
  Z.lor (x mod 256) (Z.shiftl (Z.shiftr x 8) 8) = x.
Proof.
  change 256 with (2 ^ 8). rewrite <- Z.land_ones by lia.
  apply Z.bits_inj'. intros n Hn.
  rewrite Z.lor_spec, Z.land_spec, Z.shiftl_spec by lia.
  destruct (Z.ltb_spec n 8).
  - rewrite Z.ones_spec_low, (Z.testbit_neg_r _ (n - 8)) by lia. btauto.
  - rewrite Z.ones_spec_high, Z.shiftr_spec by lia.
    replace (n - 8 + 8) with n by lia. btauto.
Qed.

(** A word is the word of its bytes. *)
Lemma native_word_bytes n : forall x,
  0 <= x < 2 ^ (8 * Z.of_nat n) ->
  endian.native_word (endian.native_bytes n x) = x.
Proof.
  induction n as [|n IH]; intros x Hx.
  - cbn in *. lia.
  - cbn [endian.native_bytes endian.native_word].
    rewrite byte_to_Z_to_byte, IH; [apply low_byte_and_rest|].
    rewrite Z.shiftr_div_pow2 by lia.
    replace (8 * Z.of_nat (S n)) with (8 + 8 * Z.of_nat n) in Hx by lia.
    rewrite Z.pow_add_r in Hx by lia.
    split; [apply Z.div_pos; lia | apply Z.div_lt_upper_bound; lia].
Qed.

Lemma endian_reverse_bytes n x :
  endian.native_bytes n (Conversion.endian_reverse n x) = rev (endian.native_bytes n x).
Proof.
  unfold Conversion.endian_reverse.
  rewrite <- (length_native_bytes n x) at 1. rewrite <- length_rev.
  apply native_bytes_word.
Qed.

Lemma endian_reverse_range n x :
  0 <= Conversion.endian_reverse n x < 2 ^ (8 * Z.of_nat n).
Proof.
  unfold Conversion.endian_reverse.
  pose proof (native_word_range (rev (endian.native_bytes n x))) as R.
  now rewrite length_rev, length_native_bytes in R.
Qed.

Lemma endian_reverse_involutive n x :
  0 <= x < 2 ^ (8 * Z.of_nat n) ->
  Conversion.endian_reverse n (Conversion.endian_reverse n x) = x.
Proof.
  intros Hx. unfold Conversion.endian_reverse at 1.
  rewrite endian_reverse_bytes, rev_involutive. apply native_word_bytes, Hx.
Qed.

(** X16.  integralToBytes and bytesToIntegral are inverse.  integralToBytes
    replaces the destination by the [sizeof(T)] bytes of the value, most
    significant first; bytesToIntegral reads the value back from where
    those bytes are put, at any index of any vector. *)
Theorem integral_bytes_round_trip (n : nat) (x : Z) (destination before after : list byte) :
  0 <= x < 2 ^ (8 * Z.of_nat n) ->
  Conversion.integralToBytes n x destination = endian.big_endian_bytes n x /\
  Conversion.bytesToIntegral n
    (before ++ Conversion.integralToBytes n x destination ++ after) (length before) = x.
Proof.
  intros Hx.
  assert (E : Conversion.integralToBytes n x destination = endian.big_endian_bytes n x).
  { unfold Conversion.integralToBytes, Conversion.native_to_big. cbn [app].
    apply endian_reverse_bytes. }
  split; [exact E|]. rewrite E.
  unfold Conversion.bytesToIntegral, Conversion.big_to_native.
  rewrite skipn_app, skipn_all, Nat.sub_diag. cbn [skipn app].
  rewrite firstn_app_l
    by (unfold endian.big_endian_bytes; now rewrite length_rev, length_native_bytes).
  unfold endian.big_endian_bytes.
  fold (Conversion.endian_reverse n x). apply endian_reverse_involutive, Hx.
Qed.

Lemma integral_bytes_round_trip_witness :
  Conversion.integralToBytes 4 305419896 [xff] = endian.big_endian_bytes 4 305419896 /\
  Conversion.bytesToIntegral 4
    ([x00; x01] ++ Conversion.integralToBytes 4 305419896 [xff] ++ [x02])
    (length [x00; x01]) = 305419896.
Proof.
  apply (integral_bytes_round_trip 4 305419896 [xff] [x00; x01] [x02]). cbn. lia.
Defined.

(** X17.  convertFromEndian undoes convertToEndian, for both byte orders; to
    the native order (little, on this host) both are the identity. *)
Theorem convert_endian_round_trip (n : nat) (x : Z) (endian : Conversion.Order) :
  0 <= x < 2 ^ (8 * Z.of_nat n) ->
  Conversion.convertFromEndian n (Conversion.convertToEndian n x endian) endian = x /\
  Conversion.convertToEndian n (Conversion.convertFromEndian n x endian) endian = x /\
  Conversion.convertToEndian n x Conversion.native = x /\
  endian.native_bytes n (Conversion.convertToEndian n x Conversion.big) =
    endian.big_endian_bytes n x.
Proof.
  intros Hx. repeat split.
  - destruct endian; [apply endian_reverse_involutive, Hx | reflexivity].
  - destruct endian; [apply endian_reverse_involutive, Hx | reflexivity].
  - apply endian_reverse_bytes.
Qed.

Lemma convert_endian_round_trip_witness :
  Conversion.convertFromEndian 2 (Conversion.convertToEndian 2 4660 Conversion.big)
    Conversion.big = 4660 /\
  Conversion.convertToEndian 2 (Conversion.convertFromEndian 2 4660 Conversion.big)
    Conversion.big = 4660 /\
  Conversion.convertToEndian 2 4660 Conversion.native = 4660 /\
  endian.native_bytes 2 (Conversion.convertToEndian 2 4660 Conversion.big) =
    endian.big_endian_bytes 2 4660.
Proof.
  apply (convert_endian_round_trip 2 4660 Conversion.big). cbn. lia.
Defined.

Lemma testbit_high32 x n : 0 <= x < 4294967296 -> 32 <= n -> Z.testbit x n = false.
Proof.
  intros Hx Hn. rewrite <- (Z.mod_small x (2 ^ 32)) by (change (2 ^ 32) with 4294967296; lia).
  apply Z.mod_pow2_bits_high. lia.
Qed.

Lemma rotate_amounts nb :
  let n := Z.land nb 31 in
  n = nb mod 32 /\ 0 <= n < 32 /\
  Z.land (- n) 31 = (if n =? 0 then 0 else 32 - n).
Proof.
  cbv zeta. change 31 with (Z.ones 5). rewrite !Z.land_ones by lia.
  change (2 ^ 5) with 32.
  pose proof (Z.mod_pos_bound nb 32 ltac:(lia)) as R.
  split; [reflexivity|]. split; [exact R|].
  destruct (Z.eqb_spec (nb mod 32) 0) as [E|E].
  - rewrite E. reflexivity.
  - symmetry. apply Z.mod_unique with (-1); lia.
Qed.

Lemma rotateLeft32_bits x nb i :
  0 <= x < 4294967296 -> 0 <= i < 32 ->
  Z.testbit (endian.rotateLeft32 x nb) i = Z.testbit x ((i - nb) mod 32).
Proof.
  intros Hx Hi. unfold endian.rotateLeft32.
  destruct (rotate_amounts nb) as (En & Rn & Em). cbv zeta in *.
  rewrite Em. set (n := Z.land nb 31) in *.
  unfold u32. change 4294967296 with (2 ^ 32).
  rewrite Z.mod_pow2_bits_low, Z.lor_spec, Z.shiftl_spec, Z.shiftr_spec by lia.
  rewrite <- Zminus_mod_idemp_r, <- En.
  destruct (Z.eqb_spec n 0) as [E|E].
  - rewrite E, Z.sub_0_r, Z.add_0_r, Z.mod_small, orb_diag by lia. reflexivity.
  - destruct (Z.ltb_spec i n).
    + rewrite (Z.testbit_neg_r x (i - n)) by lia. cbn [orb].
      f_equal. apply Z.mod_unique with (-1); lia.
    + rewrite (testbit_high32 x (i + (32 - n))) by lia. rewrite orb_false_r.
      f_equal. symmetry. apply Z.mod_small. lia.
Qed.

Lemma rotateRight32_bits x nb i :
  0 <= x < 4294967296 -> 0 <= i < 32 ->
  Z.testbit (endian.rotateRight32 x nb) i = Z.testbit x ((i + nb) mod 32).
Proof.
  intros Hx Hi. unfold endian.rotateRight32.
  destruct (rotate_amounts nb) as (En & Rn & Em). cbv zeta in *.
  rewrite Em. set (n := Z.land nb 31) in *.
  unfold u32. change 4294967296 with (2 ^ 32).
  rewrite Z.mod_pow2_bits_low, Z.lor_spec, Z.shiftl_spec, Z.shiftr_spec by lia.
  rewrite <- Zplus_mod_idemp_r, <- En.
  destruct (Z.eqb_spec n 0) as [E|E].
  - rewrite E, Z.sub_0_r, Z.add_0_r, Z.mod_small, orb_diag by lia. reflexivity.
  - destruct (Z.ltb_spec (i + n) 32).
    + rewrite (Z.testbit_neg_r x (i - (32 - n))) by lia. rewrite orb_false_r.
      f_equal. symmetry. apply Z.mod_small. lia.
    + rewrite (testbit_high32 x (i + n)) by lia. cbn [orb].
      f_equal. apply Z.mod_unique with 1; lia.
Qed.

Lemma rotate32_range x nb :
  0 <= endian.rotateLeft32 x nb < 4294967296 /\
  0 <= endian.rotateRight32 x nb < 4294967296.
Proof. split; apply Z.mod_pos_bound; lia. Qed.

Lemma bits_eq32 x y :
  0 <= x < 4294967296 -> 0 <= y < 4294967296 ->
  (forall i, 0 <= i < 32 -> Z.testbit x i = Z.testbit y i) -> x = y.
Proof.
  intros Hx Hy H. apply Z.bits_inj'. intros n Hn.
  destruct (Z.ltb_spec n 32); [apply H; lia|].
  now rewrite !testbit_high32 by lia.
Qed.

(** X18.  The 32-bit rotations.  rotateLeft moves bit [i] of a 32-bit word to
    bit [(i + numBits) mod 32]: nothing is lost, the amount counts modulo
    32, and rotateRight by the same amount undoes it. *)
Theorem rotate32_inverse (x numBits : Z) :
  0 <= x < 4294967296 ->
  (forall i, 0 <= i < 32 ->
     Z.testbit (endian.rotateLeft32 x numBits) ((i + numBits) mod 32) = Z.testbit x i) /\
  endian.rotateRight32 (endian.rotateLeft32 x numBits) numBits = x /\
  endian.rotateLeft32 (endian.rotateRight32 x numBits) numBits = x /\
  endian.rotateLeft32 x (numBits + 32) = endian.rotateLeft32 x numBits.
Proof.
  intros Hx.
  pose proof (rotate32_range x numBits) as (RL & RR).
  assert (M1 : forall i, 0 <= i < 32 -> ((i + numBits) mod 32 - numBits) mod 32 = i).
  { intros i Hi. rewrite Zminus_mod_idemp_l.
    replace (i + numBits - numBits) with i by lia. apply Z.mod_small, Hi. }
  assert (M2 : forall i, 0 <= i < 32 -> ((i - numBits) mod 32 + numBits) mod 32 = i).
  { intros i Hi. rewrite Zplus_mod_idemp_l.
    replace (i - numBits + numBits) with i by lia. apply Z.mod_small, Hi. }
  repeat match goal with |- _ /\ _ => split end.
  - intros i Hi.
    rewrite rotateLeft32_bits by (try apply Z.mod_pos_bound; lia).
    now rewrite M1.
  - apply bits_eq32; [apply rotate32_range | exact Hx |]. intros i Hi.
    rewrite rotateRight32_bits, rotateLeft32_bits
      by (try apply Z.mod_pos_bound; lia).
    now rewrite M1.
  - apply bits_eq32; [apply rotate32_range | exact Hx |]. intros i Hi.
    rewrite rotateLeft32_bits, rotateRight32_bits
      by (try apply Z.mod_pos_bound; lia).
    now rewrite M2.
  - apply bits_eq32; try apply rotate32_range. intros i Hi.
    rewrite !rotateLeft32_bits by lia. f_equal.
    replace (i - (numBits + 32)) with (i - numBits + (-1) * 32) by lia.
    apply Z.mod_add. lia.
Qed.

Lemma rotate32_inverse_witness :
  endian.rotateRight32 (endian.rotateLeft32 2147483649 7) 7 = 2147483649.
Proof.
  apply (proj1 (proj2 (rotate32_inverse 2147483649 7 ltac:(lia)))).
Defined.

Lemma testbit_native_word_cons b bs i :
  0 <= i ->
  Z.testbit (endian.native_word (b :: bs)) i =
  if i <? 8 then Z.testbit (byte_to_Z b) i else Z.testbit (endian.native_word bs) (i - 8).
Proof.
  intros Hi. cbn [endian.native_word]. rewrite Z.lor_spec, Z.shiftl_spec by lia.
  pose proof (byte_to_Z_range b) as Hb.
  destruct (Z.ltb_spec i 8).
  - rewrite (Z.testbit_neg_r _ (i - 8)) by lia. apply orb_false_r.
  - rewrite <- (Z.mod_small (byte_to_Z b) (2 ^ 8)) by (change (2 ^ 8) with 256; lia).
    rewrite Z.mod_pow2_bits_high by lia. reflexivity.
Qed.

Lemma testbit_byte z i :
  0 <= i < 8 -> Z.testbit (byte_to_Z (Z_to_byte z)) i = Z.testbit z i.
Proof.
  intros Hi. rewrite byte_to_Z_to_byte. change 256 with (2 ^ 8).
  apply Z.mod_pow2_bits_low. lia.
Qed.

Lemma testbit_high16 x n : 0 <= x < 65536 -> 16 <= n -> Z.testbit x n = false.
Proof.
  intros Hx Hn. rewrite <- (Z.mod_small x (2 ^ 16)) by (change (2 ^ 16) with 65536; lia).
  apply Z.mod_pow2_bits_high. lia.
Qed.

Local Ltac swap_bits x :=
  repeat match goal with
    | |- context [Z.testbit (Z.ones 8) ?k] =>
        first [ rewrite (Z.ones_spec_low 8 k) by lia
              | rewrite (Z.ones_spec_high 8 k) by lia
              | rewrite (Z.testbit_neg_r (Z.ones 8) k) by lia ]
    | |- context [Z.testbit x ?k] =>
        first [ rewrite (Z.testbit_neg_r x k) by lia
              | rewrite (testbit_high32 x k) by lia ]
    end;
  rewrite ?andb_true_r, ?andb_false_r, ?orb_false_r, ?orb_false_l;
  try (f_equal; lia).

Lemma swap32_reverse x :
  0 <= x < 4294967296 -> endian.swap32 x = Conversion.endian_reverse 4 x.
Proof.
  intros Hx. apply bits_eq32.
  - apply Z.mod_pos_bound. lia.
  - apply (endian_reverse_range 4 x).
  - intros i Hi.
    unfold endian.swap32, u32. change 4294967296 with (2 ^ 32).
    rewrite Z.mod_pow2_bits_low by lia.
    change 65280 with (Z.shiftl (Z.ones 8) 8).
    change 16711680 with (Z.shiftl (Z.ones 8) 16).
    rewrite !Z.lor_spec, !Z.land_spec, !Z.shiftr_spec, !Z.shiftl_spec by lia.
    unfold Conversion.endian_reverse. cbn [endian.native_bytes rev app].
    rewrite !Z.shiftr_shiftr by lia. cbn [Z.add Pos.add Pos.succ].
    rewrite testbit_native_word_cons by lia.
    destruct (Z.ltb_spec i 8).
    { rewrite testbit_byte, Z.shiftr_spec by lia. swap_bits x. }
    rewrite testbit_native_word_cons by lia.
    destruct (Z.ltb_spec (i - 8) 8).
    { rewrite testbit_byte, Z.shiftr_spec by lia. swap_bits x. }
    rewrite testbit_native_word_cons by lia.
    destruct (Z.ltb_spec (i - 8 - 8) 8).
    { rewrite testbit_byte, Z.shiftr_spec by lia. swap_bits x. }
    rewrite testbit_native_word_cons by lia.
    destruct (Z.ltb_spec (i - 8 - 8 - 8) 8); [|lia].
    rewrite testbit_byte by lia. swap_bits x.
Qed.

Lemma swap16_reverse x :
  0 <= x < 65536 -> Conversion.swap16 x = Conversion.endian_reverse 2 x.
Proof.
  intros Hx. apply Z.bits_inj'. intros i Hi.
  pose proof (endian_reverse_range 2 x) as R. change (2 ^ (8 * Z.of_nat 2)) with 65536 in R.
  destruct (Z.ltb_spec i 16) as [Hlt|Hge].
  2:{ rewrite (testbit_high16 (Conversion.endian_reverse 2 x)) by lia.
      unfold Conversion.swap16. change 65536 with (2 ^ 16).
      apply Z.mod_pow2_bits_high. lia. }
  unfold Conversion.swap16. change 65536 with (2 ^ 16).
  rewrite Z.mod_pow2_bits_low by lia.
  rewrite Z.lor_spec, Z.shiftr_spec, Z.shiftl_spec by lia.
  unfold Conversion.endian_reverse. cbn [endian.native_bytes rev app].
  rewrite testbit_native_word_cons by lia.
  destruct (Z.ltb_spec i 8).
  - rewrite testbit_byte, Z.shiftr_spec by lia.
    rewrite (Z.testbit_neg_r x (i - 8)) by lia. apply orb_false_r.
  - rewrite testbit_native_word_cons by lia.
    destruct (Z.ltb_spec (i - 8) 8); [|lia].
    rewrite testbit_byte by lia.
    rewrite (testbit_high16 x (i + 8)) by lia. reflexivity.
Qed.

Lemma swap64_low_bytes :
  forallb (fun k => negb (endian.swap64 (Z.of_nat k) =?
                          Conversion.endian_reverse 8 (Z.of_nat k)))
          (seq 1 255) = true.
Proof. vm_compute. reflexivity. Qed.

(** X19.  The portable definitions of swap.  swap(uint16_t) and swap(uint32_t)
    reverse the bytes of their argument, as native_to_big does on this
    host, and swap(uint32_t) applied twice is the identity.  The portable
    swap(uint64_t) does not reverse the bytes: it joins three exchanges
    of its argument by [|] instead of chaining them, and differs from the
    byte reversal on every value from 1 to 255. *)
Theorem swap_portable (x : Z) :
  (0 <= x < 65536 -> Conversion.swap16 x = Conversion.endian_reverse 2 x) /\
  (0 <= x < 4294967296 ->
   endian.swap32 x = endian.native_to_big32 x /\ endian.swap32 (endian.swap32 x) = x) /\
  (0 < x < 256 -> endian.swap64 x <> endian.native_to_big64 x).
Proof.
  split; [apply swap16_reverse|]. split.
  - intros Hx. split; [apply swap32_reverse, Hx|].
    rewrite (swap32_reverse x Hx), swap32_reverse by apply (endian_reverse_range 4 x).
    apply (endian_reverse_involutive 4 x Hx).
  - intros Hx E.
    pose proof swap64_low_bytes as B. rewrite forallb_forall in B.
    specialize (B (Z.to_nat x)). rewrite Z2Nat.id in B by lia.
    assert (I : In (Z.to_nat x) (seq 1 255)) by (apply in_seq; lia).
    specialize (B I). apply negb_true_iff, Z.eqb_neq in B. exact (B E).
Qed.

Lemma swap_portable_witness :
  Conversion.swap16 4660 = Conversion.endian_reverse 2 4660 /\
  (endian.swap32 305419896 = endian.native_to_big32 305419896 /\
   endian.swap32 (endian.swap32 305419896) = 305419896) /\
  endian.swap64 1 <> endian.native_to_big64 1.
Proof.
  destruct (swap_portable 4660) as (S16 & _).
  destruct (swap_portable 305419896) as (_ & S32 & _).
  destruct (swap_portable 1) as (_ & _ & S64).
  split; [apply S16; lia|]. split; [apply S32; lia | apply S64; lia].
Defined.

(* ------------------------------------------------------------------ *)
(** ** Binary writers and readers *)

(** A good stream that holds at least [k] more bytes delivers them and
    stays good. *)
Lemma read_exact (c : list byte) (p k : nat) :
  (p + k <= length c)%nat ->
  HashAlgorithm.read (HashAlgorithm.mkStream c p None true false false false) (Z.of_nat k) =
  (HashAlgorithm.mkStream c (p + k) None true false false false, firstn k (skipn p c), k).
Proof.
  intros H. unfold HashAlgorithm.read, HashAlgorithm.fail, HashAlgorithm.deliverable,
    HashAlgorithm.deviceFails.
  cbn [HashAlgorithm.failbit HashAlgorithm.badbit HashAlgorithm.eofbit orb
       HashAlgorithm.errorAt HashAlgorithm.content HashAlgorithm.position
       HashAlgorithm.seekable].
  rewrite take_firstn, Nat2Z.id.
  rewrite (firstn_all2 (n := length c - p)) by (rewrite length_skipn; lia).
  assert (L : length (firstn k (skipn p c)) = k)
    by (rewrite length_firstn, length_skipn; lia).
  rewrite L, Z.ltb_irrefl. reflexivity.
Qed.

(** A good stream that holds fewer than [k] more bytes delivers what it
    has and fails at its end. *)
Lemma read_short (c : list byte) (p : nat) (k : Z) :
  Z.of_nat (length c - p) < k ->
  HashAlgorithm.read (HashAlgorithm.mkStream c p None true false false false) k =
  (HashAlgorithm.mkStream c (p + length (skipn p c)) None true true true false, skipn p c,
   length (skipn p c)).
Proof.
  intros H. unfold HashAlgorithm.read, HashAlgorithm.fail, HashAlgorithm.deliverable,
    HashAlgorithm.deviceFails.
  cbn [HashAlgorithm.failbit HashAlgorithm.badbit HashAlgorithm.eofbit orb
       HashAlgorithm.errorAt HashAlgorithm.content HashAlgorithm.position
       HashAlgorithm.seekable].
  rewrite take_firstn.
  rewrite (firstn_all2 (n := length c - p)) by (rewrite length_skipn; lia).
  rewrite (firstn_all2 (n := Z.to_nat k)) by (rewrite length_skipn; lia).
  destruct (Z.ltb_spec (Z.of_nat (length (skipn p c))) k) as [L|L].
  - reflexivity.
  - rewrite length_skipn in L. lia.
Qed.

Lemma convertToEndian_bytes n x endian :
  endian.native_bytes n (Conversion.convertToEndian n x endian) =
  match endian with
  | Conversion.big => endian.big_endian_bytes n x
  | Conversion.little => endian.little_endian_bytes n x
  end.
Proof. destruct endian; [apply endian_reverse_bytes | reflexivity]. Qed.

Lemma convertToEndian_word n x endian :
  0 <= x < 2 ^ (8 * Z.of_nat n) ->
  Conversion.convertToEndian n
    (endian.native_word (endian.native_bytes n (Conversion.convertToEndian n x endian)))
    endian = x.
Proof.
  intros Hx. destruct endian; cbn [Conversion.convertToEndian].
  - unfold Conversion.native_to_big.
    rewrite native_word_bytes by apply endian_reverse_range.
    apply endian_reverse_involutive, Hx.
  - unfold Conversion.native_to_little. apply native_word_bytes, Hx.
Qed.

Lemma writeIntType_good n out x endian :
  IO.failed out = false ->
  IO.writeIntType n out x endian =
  (IO.mkOut (IO.sink out ++ endian.native_bytes n (Conversion.convertToEndian n x endian))
            false, n).
Proof.
  intros F. unfold IO.writeIntType, IO.write. now rewrite F.
Qed.

Lemma readIntType_good n bytes rest before d endian :
  length bytes = n ->
  IO.readIntType n
    (HashAlgorithm.mkStream (before ++ bytes ++ rest) (length before) None true false false false)
    d endian =
  (HashAlgorithm.mkStream (before ++ bytes ++ rest) (length before + n) None true false false false,
   Conversion.convertToEndian n (endian.native_word bytes) endian, n).
Proof.
  intros L. unfold IO.readIntType.
  change (HashAlgorithm.fail (HashAlgorithm.mkStream _ _ None true false false false))
    with false. cbn [negb].
  rewrite read_exact by (rewrite !length_app; lia).
  change (HashAlgorithm.fail (HashAlgorithm.mkStream _ _ None true false false false))
    with false. cbn [negb].
  rewrite skipn_app_l by reflexivity.
  rewrite (firstn_app_l bytes rest n L), L.
  rewrite skipn_all2 by (rewrite length_native_bytes; lia).
  now rewrite app_nil_r.
Qed.

(** X20.  Integers written by writeIntType read back with readIntType.  On a
    good output stream writeIntType appends the [sizeof(T)] bytes of the
    value in the byte order asked for and returns [sizeof(T)]; readIntType
    with the same order, on a stream that holds those bytes, returns the
    value and [sizeof(T)] and leaves the stream good behind them.  On a
    stream that ends before [sizeof(T)] bytes readIntType returns 0 and
    leaves the stream failed. *)
Theorem int_write_read_round_trip (n : nat) (x d : Z) (endian : Conversion.Order)
    (out : IO.ostream) (rest short : list byte) :
  0 <= x < 2 ^ (8 * Z.of_nat n) ->
  IO.failed out = false ->
  (length short < n)%nat ->
  let bytes := match endian with
               | Conversion.big => endian.big_endian_bytes n x
               | Conversion.little => endian.little_endian_bytes n x
               end in
  IO.writeIntType n out x endian = (IO.mkOut (IO.sink out ++ bytes) false, n) /\
  IO.readIntType n (IO.source (bytes ++ rest)) d endian =
    (HashAlgorithm.mkStream (bytes ++ rest) n None true false false false, x, n) /\
  snd (IO.readIntType n (IO.source short) d endian) = 0%nat /\
  HashAlgorithm.fail (fst (fst (IO.readIntType n (IO.source short) d endian))) = true.
Proof.
  intros Hx F Hs. cbv zeta.
  rewrite <- convertToEndian_bytes.
  split; [apply writeIntType_good, F|]. split.
  - pose proof (readIntType_good n
                  (endian.native_bytes n (Conversion.convertToEndian n x endian))
                  rest [] d endian (length_native_bytes n _)) as R.
    cbn [app length Nat.add] in R. unfold IO.source. rewrite R.
    now rewrite convertToEndian_word.
  - unfold IO.readIntType, IO.source.
    change (HashAlgorithm.fail (HashAlgorithm.mkStream _ _ None true false false false))
      with false. cbn [negb].
    rewrite read_short by (rewrite Nat.sub_0_r; lia).
    cbn [HashAlgorithm.fail HashAlgorithm.failbit orb negb fst snd]. auto.
Qed.

Lemma int_write_read_round_trip_witness :
  IO.writeIntType 4 (IO.mkOut [x01] false) 305419896 Conversion.big =
    (IO.mkOut (IO.sink (IO.mkOut [x01] false) ++ endian.big_endian_bytes 4 305419896)
       false, 4%nat) /\
  IO.readIntType 4 (IO.source (endian.big_endian_bytes 4 305419896 ++ [xff])) 0
    Conversion.big =
    (HashAlgorithm.mkStream (endian.big_endian_bytes 4 305419896 ++ [xff]) 4 None true
       false false false, 305419896, 4%nat) /\
  snd (IO.readIntType 4 (IO.source [x12; x34]) 0 Conversion.big) = 0%nat /\
  HashAlgorithm.fail (fst (fst (IO.readIntType 4 (IO.source [x12; x34]) 0 Conversion.big)))
    = true.
Proof.
  apply (int_write_read_round_trip 4 305419896 0 Conversion.big (IO.mkOut [x01] false)
           [xff] [x12; x34]).
  - cbn. lia.
  - reflexivity.
  - cbn. lia.
Defined.

Lemma length_resize v k : length (IO.resize v k) = k.
Proof.
  unfold IO.resize. rewrite length_app, length_firstn, repeat_length. lia.
Qed.

Lemma wrap_range n z : 0 <= IO.wrap n z < 2 ^ (8 * Z.of_nat n).
Proof. apply Z.mod_pos_bound. apply Z.pow_pos_nonneg; lia. Qed.

Lemma wrap_small n z : 0 <= z < 2 ^ (8 * Z.of_nat n) -> IO.wrap n z = z.
Proof. apply Z.mod_small. Qed.

Lemma wrap_le n z : 0 <= z -> IO.wrap n z <= z.
Proof. intros H. apply Z.mod_le; [exact H | apply Z.pow_pos_nonneg; lia]. Qed.

(** What writePrefixString writes and what readPrefixString makes of a
    prefix and as many bytes behind it. *)
Lemma writePrefixString_good n out data endian (z : bool) :
  IO.failed out = false -> (0 < n)%nat ->
  let text := IO.str (if z then IO.put (IO.stringstream_of data) x00
                      else IO.stringstream_of data) in
  let size := IO.wrap n (Z.of_nat (length text)) in
  IO.writePrefixString n out data endian z =
  (IO.mkOut (IO.sink out
             ++ endian.native_bytes n (Conversion.convertToEndian n size endian)
             ++ firstn (Z.to_nat size) text) false,
   (Z.to_nat size + n)%nat).
Proof.
  intros F Hn. cbv zeta. unfold IO.writePrefixString. rewrite F. cbn [negb].
  rewrite writeIntType_good by exact F.
  destruct (Nat.ltb_spec 0 n) as [_|]; [|lia].
  unfold IO.write. cbn [IO.failed IO.sink]. now rewrite <- app_assoc.
Qed.

Lemma readPrefixString_good n size0 size text rest d0 endian (z : bool) :
  (0 < n)%nat -> 0 <= size < 2 ^ (8 * Z.of_nat n) ->
  length text = Z.to_nat size ->
  IO.readPrefixString n size0
    (IO.source (endian.native_bytes n (Conversion.convertToEndian n size endian)
                ++ text ++ rest)) d0 endian z =
  (HashAlgorithm.mkStream
     (endian.native_bytes n (Conversion.convertToEndian n size endian) ++ text ++ rest)
     (n + Z.to_nat size) None true false false false,
   (if z then IO.removeNulls text else text), (Z.to_nat size + n)%nat).
Proof.
  intros Hn Hs Ht. unfold IO.readPrefixString, IO.source.
  change (HashAlgorithm.fail (HashAlgorithm.mkStream _ _ None true false false false))
    with false. cbn [negb].
  pose proof (readIntType_good n
                (endian.native_bytes n (Conversion.convertToEndian n size endian))
                (text ++ rest) [] size0 endian (length_native_bytes n _)) as R.
  cbn [app length Nat.add] in R. rewrite R. clear R.
  rewrite convertToEndian_word by exact Hs.
  destruct (Nat.ltb_spec 0 n) as [_|]; [|lia].
  rewrite <- (Z2Nat.id size) at 2 by lia.
  rewrite read_exact by (rewrite !length_app, length_native_bytes; lia).
  rewrite skipn_app_l by apply length_native_bytes.
  rewrite (firstn_app_l text rest _ Ht), Ht.
  rewrite skipn_all2 by (rewrite length_resize; lia).
  now rewrite app_nil_r.
Qed.

(** X21.  Length-prefixed strings without terminator (writeBString and
    readBString with a one-byte prefix, writeWString and readWString with
    a two-byte prefix).  The prefix is the length of the string cut to the
    width of the prefix, in the byte order asked for, and only that many
    characters are written: what reads back is the first
    [length mod 2^(8n)] characters, the whole string exactly when it is
    shorter than 2^(8n). *)
Theorem prefix_string_round_trip (n : nat) (size0 : Z) (out : IO.ostream)
    (data d0 rest : list byte) (endian : Conversion.Order) :
  (0 < n)%nat -> IO.failed out = false ->
  let size := Z.to_nat (Z.of_nat (length data) mod 2 ^ (8 * Z.of_nat n)) in
  let prefix := match endian with
                | Conversion.big => endian.big_endian_bytes n (Z.of_nat size)
                | Conversion.little => endian.little_endian_bytes n (Z.of_nat size)
                end in
  IO.writePrefixString n out data endian false =
    (IO.mkOut (IO.sink out ++ prefix ++ firstn size data) false, (size + n)%nat) /\
  IO.readPrefixString n size0 (IO.source (prefix ++ firstn size data ++ rest))
    d0 endian false =
    (HashAlgorithm.mkStream (prefix ++ firstn size data ++ rest) (n + size) None true
       false false false,
     firstn size data, (size + n)%nat) /\
  (Z.of_nat (length data) < 2 ^ (8 * Z.of_nat n) -> firstn size data = data).
Proof.
  intros Hn F. cbv zeta.
  rewrite (writePrefixString_good n out data endian false F Hn).
  cbn [IO.str IO.stringstream_of]. fold (IO.wrap n (Z.of_nat (length data))).
  set (size := IO.wrap n (Z.of_nat (length data))).
  pose proof (wrap_range n (Z.of_nat (length data))) as R. fold size in R.
  pose proof (wrap_le n (Z.of_nat (length data)) ltac:(lia)) as L. fold size in L.
  rewrite <- convertToEndian_bytes, Z2Nat.id by lia.
  split; [reflexivity|]. split.
  - apply (readPrefixString_good n size0 size (firstn (Z.to_nat size) data) rest d0
             endian false Hn R).
    rewrite length_firstn. lia.
  - intros Hl. unfold size. rewrite wrap_small, Nat2Z.id by lia. apply firstn_all.
Qed.

Lemma prefix_string_round_trip_witness :
  IO.writePrefixString 1 (IO.mkOut [] false) (Objects.text "abc") Conversion.big false =
    (IO.mkOut [x03; x61; x62; x63] false, 4%nat) /\
  IO.readPrefixString 1 0 (IO.source [x03; x61; x62; x63; xff]) [] Conversion.big false =
    (HashAlgorithm.mkStream [x03; x61; x62; x63; xff] 4 None true false false false,
     Objects.text "abc", 4%nat).
Proof.
  pose proof (prefix_string_round_trip 1 0 (IO.mkOut [] false) (Objects.text "abc")
                [] [xff] Conversion.big ltac:(lia) eq_refl) as (W & R & _).
  split; [exact W | exact R].
Defined.

Lemma put_at_start data :
  IO.str (IO.put (IO.stringstream_of data) x00) =
  match data with
  | [] => [x00]
  | _ :: rest => x00 :: rest
  end.
Proof. destruct data; reflexivity. Qed.

Lemma removeNulls_clean text :
  Forall (fun b => b <> x00) text -> IO.removeNulls text = text.
Proof.
  induction 1 as [|b text Hb _ IH]; [reflexivity|].
  unfold IO.removeNulls in *. cbn [filter].
  destruct (Byte.eqb b x00) eqn:E.
  - apply Byte.byte_dec_bl in E. contradiction.
  - cbn [negb]. now rewrite IH.
Qed.

(** X22.  Length-prefixed strings with terminator (writeBZString and
    readBZString, writeWZString and readWZString).  The terminator that
    the writer inserts goes over the first character of the string
    instead of behind its last: a string of 1 to 2^(8n)-1 characters is
    written as a zero byte and its characters from the second on, under a
    prefix of its own length, and reads back without its first character.
    Only the empty string gets a terminator appended. *)
Theorem prefix_zstring_loses_first_char (n : nat) (size0 : Z) (out : IO.ostream)
    (c : byte) (tail d0 rest : list byte) (endian : Conversion.Order) :
  (0 < n)%nat -> IO.failed out = false ->
  Z.of_nat (length (c :: tail)) < 2 ^ (8 * Z.of_nat n) ->
  Forall (fun b => b <> x00) tail ->
  let order := fun size =>
    match endian with
    | Conversion.big => endian.big_endian_bytes n size
    | Conversion.little => endian.little_endian_bytes n size
    end in
  let prefix := order (Z.of_nat (length (c :: tail))) in
  IO.writePrefixString n out (c :: tail) endian true =
    (IO.mkOut (IO.sink out ++ prefix ++ x00 :: tail) false,
     (length (c :: tail) + n)%nat) /\
  IO.readPrefixString n size0 (IO.source (prefix ++ (x00 :: tail) ++ rest)) d0 endian true =
    (HashAlgorithm.mkStream (prefix ++ (x00 :: tail) ++ rest) (n + length (c :: tail))
       None true false false false,
     tail, (length (c :: tail) + n)%nat) /\
  IO.writePrefixString n out [] endian true =
    (IO.mkOut (IO.sink out ++ order 1 ++ [x00]) false, (1 + n)%nat).
Proof.
  intros Hn F Hl Hc. cbv zeta.
  assert (P1 : 1 < 2 ^ (8 * Z.of_nat n)).
  { apply Z.pow_gt_1; lia. }
  rewrite !(writePrefixString_good n out _ endian true F Hn).
  rewrite !put_at_start, <- !convertToEndian_bytes.
  rewrite !wrap_small by (cbn [length] in *; lia).
  rewrite Nat2Z.id. change (Z.to_nat (Z.of_nat (length [x00]))) with 1%nat.
  rewrite firstn_all. change (firstn 1 [x00]) with [x00].
  change (length (x00 :: tail)) with (length (c :: tail)).
  split; [reflexivity|]. split; [|reflexivity].
  pose proof (readPrefixString_good n size0 (Z.of_nat (length (c :: tail)))
                (x00 :: tail) rest d0 endian true Hn ltac:(lia)) as R.
  rewrite Nat2Z.id in R. rewrite R by reflexivity.
  unfold IO.removeNulls at 1. cbn [filter Byte.eqb negb].
  fold (IO.removeNulls tail). now rewrite removeNulls_clean.
Qed.

Lemma prefix_zstring_loses_first_char_witness :
  IO.writePrefixString 1 (IO.mkOut [] false) (Objects.text "abc") Conversion.big true =
    (IO.mkOut [x03; x00; x62; x63] false, 4%nat) /\
  IO.readPrefixString 1 0 (IO.source [x03; x00; x62; x63; xff]) [] Conversion.big true =
    (HashAlgorithm.mkStream [x03; x00; x62; x63; xff] 4 None true false false false,
     Objects.text "bc", 4%nat).
Proof.
  pose proof (prefix_zstring_loses_first_char 1 0 (IO.mkOut [] false) x61 [x62; x63]
                [] [xff] Conversion.big ltac:(lia) eq_refl ltac:(cbn; lia)
                ltac:(repeat constructor; discriminate)) as (W & R & _).
  split; [exact W | exact R].
Defined.

(** The loop of readZString on a stream that holds [text], free of zero
    bytes, then a zero byte. *)
Lemma readZLoop_terminated text : forall fuel before acc rest,
  Forall (fun b => b <> x00) text ->
  (length text < fuel)%nat ->
  IO.readZLoop fuel
    (HashAlgorithm.mkStream (before ++ text ++ x00 :: rest) (length before) None true
       false false false)
    (IO.mkStringStream acc (length acc)) =
  (HashAlgorithm.mkStream (before ++ text ++ x00 :: rest) (length before + length text + 1)
     None true false false false,
   IO.mkStringStream (acc ++ text) (length acc + length text)).
Proof.
  induction text as [|t text IH]; intros fuel before acc rest Hc Hf.
  - destruct fuel as [|fuel]; [cbn in Hf; lia|].
    cbn [IO.readZLoop app]. change 1 with (Z.of_nat 1).
    rewrite read_exact by (rewrite length_app; cbn [length]; lia).
    rewrite skipn_app_l by reflexivity.
    cbn [firstn nth HashAlgorithm.fail HashAlgorithm.failbit HashAlgorithm.badbit orb
         negb Byte.eqb length].
    now rewrite app_nil_r, !Nat.add_0_r.
  - destruct fuel as [|fuel]; [cbn in Hf; lia|].
    inversion Hc as [|? ? Ht Hc']; subst.
    cbn [IO.readZLoop]. change 1 with (Z.of_nat 1).
    rewrite read_exact by (rewrite !length_app; cbn [length]; lia).
    rewrite skipn_app_l by reflexivity.
    cbn [app firstn nth HashAlgorithm.fail HashAlgorithm.failbit HashAlgorithm.badbit orb
         negb].
    destruct (Byte.eqb t x00) eqn:E; [apply Byte.byte_dec_bl in E; contradiction|].
    cbn [negb].
    assert (P : IO.put (IO.mkStringStream acc (length acc)) t =
                IO.mkStringStream (acc ++ [t]) (length (acc ++ [t]))).
    { unfold IO.put. cbn [IO.pptr IO.str]. rewrite Nat.ltb_irrefl.
      rewrite length_app. cbn [length]. f_equal. lia. }
    rewrite P.
    pose proof (IH fuel (before ++ [t]) (acc ++ [t]) rest Hc' ltac:(cbn in Hf; lia)) as R.
    rewrite !length_app in R. cbn [length] in R.
    rewrite <- !app_assoc in R. cbn [app] in R.
    rewrite length_app. cbn [length].
    rewrite R. f_equal; f_equal; try reflexivity; lia.
Qed.

(** The same loop on a stream that ends behind [text]. *)
Lemma readZLoop_unterminated text : forall fuel before acc,
  Forall (fun b => b <> x00) text ->
  (length text < fuel)%nat ->
  IO.readZLoop fuel
    (HashAlgorithm.mkStream (before ++ text) (length before) None true false false false)
    (IO.mkStringStream acc (length acc)) =
  (HashAlgorithm.mkStream (before ++ text) (length before + length text)
     None true true true false,
   IO.mkStringStream (acc ++ text) (length acc + length text)).
Proof.
  induction text as [|t text IH]; intros fuel before acc Hc Hf.
  - destruct fuel as [|fuel]; [cbn in Hf; lia|].
    cbn [IO.readZLoop]. rewrite app_nil_r.
    rewrite read_short by (rewrite Nat.sub_diag; lia).
    rewrite skipn_all.
    cbn [HashAlgorithm.fail HashAlgorithm.failbit orb negb length].
    now rewrite app_nil_r, !Nat.add_0_r.
  - destruct fuel as [|fuel]; [cbn in Hf; lia|].
    inversion Hc as [|? ? Ht Hc']; subst.
    cbn [IO.readZLoop]. change 1 with (Z.of_nat 1).
    rewrite read_exact by (rewrite !length_app; cbn [length]; lia).
    rewrite skipn_app_l by reflexivity.
    cbn [app firstn nth HashAlgorithm.fail HashAlgorithm.failbit HashAlgorithm.badbit orb
         negb].
    destruct (Byte.eqb t x00) eqn:E; [apply Byte.byte_dec_bl in E; contradiction|].
    cbn [negb].
    assert (P : IO.put (IO.mkStringStream acc (length acc)) t =
                IO.mkStringStream (acc ++ [t]) (length (acc ++ [t]))).
    { unfold IO.put. cbn [IO.pptr IO.str]. rewrite Nat.ltb_irrefl.
      rewrite length_app. cbn [length]. f_equal. lia. }
    rewrite P.
    pose proof (IH fuel (before ++ [t]) (acc ++ [t]) Hc' ltac:(cbn in Hf; lia)) as R.
    rewrite !length_app in R. cbn [length] in R.
    rewrite <- !app_assoc in R. cbn [app] in R.
    rewrite length_app. cbn [length].
    rewrite R. f_equal; f_equal; try reflexivity; lia.
Qed.

Lemma readZString_terminated_aux (text rest d0 : list byte) :
  Forall (fun b => b <> x00) text ->
  IO.readZString (IO.source (text ++ x00 :: rest)) d0 =
    (HashAlgorithm.mkStream (text ++ x00 :: rest) (length text + 1) None true false false false,
     text, (length text + 1)%nat).
Proof.
  intros Hc. unfold IO.readZString, IO.source.
  change (HashAlgorithm.fail (HashAlgorithm.mkStream _ _ None true false false false))
    with false. cbn [negb HashAlgorithm.content]. unfold IO.stringstream_of.
  pose proof (readZLoop_terminated text (S (length (text ++ x00 :: rest))) [] [] rest Hc)
    as R.
  cbn [app length Nat.add] in R. rewrite R by (rewrite length_app; lia).
  reflexivity.
Qed.

(** X23.  readZString.  On a stream that holds a text free of zero bytes and
    then a zero byte, readZString returns the text and its length plus
    one, and leaves the stream good behind the zero byte.  On a stream
    that ends behind the text, with no zero byte, it returns the same
    text and the same value: only the failed state of the stream tells
    the two apart. *)
Theorem readZString_reads_to_terminator (text rest d0 : list byte) :
  Forall (fun b => b <> x00) text ->
  IO.readZString (IO.source (text ++ x00 :: rest)) d0 =
    (HashAlgorithm.mkStream (text ++ x00 :: rest) (length text + 1) None true false false false,
     text, (length text + 1)%nat) /\
  IO.readZString (IO.source text) d0 =
    (HashAlgorithm.mkStream text (length text) None true true true false,
     text, (length text + 1)%nat).
Proof.
  intros Hc. split; [apply readZString_terminated_aux, Hc|].
  unfold IO.readZString, IO.source.
  change (HashAlgorithm.fail (HashAlgorithm.mkStream _ _ None true false false false))
    with false. cbn [negb HashAlgorithm.content]. unfold IO.stringstream_of.
  pose proof (readZLoop_unterminated text (S (length text)) [] [] Hc) as R.
  cbn [app length Nat.add] in R. rewrite R by lia. reflexivity.
Qed.

Lemma readZString_reads_to_terminator_witness :
  IO.readZString (IO.source (Objects.text "ab" ++ x00 :: [xff])) [] =
    (HashAlgorithm.mkStream (Objects.text "ab" ++ x00 :: [xff])
       (length (Objects.text "ab") + 1) None true false false false,
     Objects.text "ab", (length (Objects.text "ab") + 1)%nat) /\
  IO.readZString (IO.source (Objects.text "ab")) [] =
    (HashAlgorithm.mkStream (Objects.text "ab") (length (Objects.text "ab")) None true
       true true false,
     Objects.text "ab", (length (Objects.text "ab") + 1)%nat).
Proof.
  apply (readZString_reads_to_terminator (Objects.text "ab") [xff] []).
  repeat constructor; discriminate.
Defined.

(** X24.  writeZString does not write a terminated string.  The zero byte goes
    over the first character: a string of at least one character is
    written as a zero byte and its characters from the second on, with
    no terminator behind them, and its length is returned, not its length
    plus one.  readZString on what was written returns the empty string. *)
Theorem writeZString_overwrites_first_char (out : IO.ostream) (c : byte)
    (tail rest d0 : list byte) :
  IO.failed out = false ->
  IO.writeZString out (c :: tail) =
    (IO.mkOut (IO.sink out ++ x00 :: tail) false, length (c :: tail)) /\
  IO.readZString (IO.source ((x00 :: tail) ++ rest)) d0 =
    (HashAlgorithm.mkStream ((x00 :: tail) ++ rest) 1 None true false false false, [], 1%nat) /\
  IO.writeZString out [] = (IO.mkOut (IO.sink out ++ [x00]) false, 1%nat).
Proof.
  intros F. unfold IO.writeZString, IO.write. rewrite F. cbn [negb].
  rewrite !put_at_start. cbn [IO.failed IO.sink length].
  split; [reflexivity|]. split; [|reflexivity].
  apply (readZString_terminated_aux [] (tail ++ rest) d0). constructor.
Qed.

Lemma writeZString_overwrites_first_char_witness :
  IO.writeZString (IO.mkOut [] false) (Objects.text "abc") =
    (IO.mkOut [x00; x62; x63] false, 3%nat) /\
  IO.readZString (IO.source [x00; x62; x63; xff]) [] =
    (HashAlgorithm.mkStream [x00; x62; x63; xff] 1 None true false false false, [], 1%nat) /\
  IO.writeZString (IO.mkOut [] false) [] = (IO.mkOut [x00] false, 1%nat).
Proof.
  exact (writeZString_overwrites_first_char (IO.mkOut [] false) x61 [x62; x63] [xff] []
           eq_refl).
Defined.

(** X25.  writeBytes and readBytes, whose [length] and [index] are
    [std::size_t] values added with wrap-around.  writeBytes writes the
    [length] bytes of the vector from [index] on when they lie within the
    vector; when they do not and the sum does not wrap around, it writes
    nothing and returns 0.  readBytes stores the [length] bytes it
    extracts at [index'] of its vector, which it first extends with zero
    bytes to [length + index'] elements if it is shorter, and leaves the
    other elements as they are; when the vector cannot be made that long
    it returns 0 and leaves vector and stream as they are.  When the sum
    wraps around to at most the size of the vector, both pass their guard
    although the bytes do not lie within the vector: with a [length]
    beyond [max_size] they return 0 and leave the stream failed, and
    otherwise they go outside the vector. *)
Theorem bytes_write_read_round_trip (out : IO.ostream) (data v rest : list byte)
    (available length index index' : Z) :
  IO.failed out = false ->
  0 <= length -> 0 <= index -> 0 <= index' ->
  length + index <= Z.of_nat (Datatypes.length data) ->
  Z.of_nat (Datatypes.length data) <= IO.max_size ->
  length + index' <= available ->
  Z.of_nat (Datatypes.length v) <= available <= IO.max_size ->
  let payload := firstn (Z.to_nat length) (skipn (Z.to_nat index) data) in
  let v0 := v ++ repeat x00 (Z.to_nat (length + index') - Datatypes.length v) in
  IO.writeBytes out data length index =
    Some (IO.mkOut (IO.sink out ++ payload) false, Z.to_nat length) /\
  IO.readBytes available (IO.source (payload ++ rest)) v length index' =
    Some (HashAlgorithm.mkStream (payload ++ rest) (Z.to_nat length) None
            true false false false,
          firstn (Z.to_nat index') v0 ++ payload ++
            skipn (Z.to_nat index' + Z.to_nat length) v0,
          Z.to_nat length) /\
  (forall longer, 0 <= longer -> longer + index < 2 ^ 64 ->
     Z.of_nat (Datatypes.length data) < longer + index ->
     IO.writeBytes out data longer index = Some (out, 0%nat)) /\
  (forall longer far, 0 <= longer -> 0 <= far -> longer + far < 2 ^ 64 ->
     available < longer + far ->
     IO.readBytes available (IO.source rest) v longer far =
       Some (IO.source rest, v, 0%nat)) /\
  (forall longer far, 0 <= longer < 2 ^ 64 -> 0 <= far < 2 ^ 64 ->
     2 ^ 64 <= longer + far ->
     (longer + far - 2 ^ 64 <= Z.of_nat (Datatypes.length data) ->
      IO.writeBytes out data longer far =
        if IO.max_size <? longer then Some (IO.mkOut (IO.sink out) true, 0%nat)
        else None) /\
     (longer + far - 2 ^ 64 <= Z.of_nat (Datatypes.length v) ->
      IO.readBytes available (IO.source rest) v longer far =
        if IO.max_size <? longer
        then Some (HashAlgorithm.mkStream rest 0 None true true true false, v, 0%nat)
        else None)).
Proof.
  intros F H0 H1 H2 Hl Hd Hm Hv. cbv zeta.
  assert (M : IO.max_size = 2 ^ 63 - 1) by reflexivity.
  assert (W : forall z, 0 <= z < 2 ^ 64 -> u64 z = z)
    by (intros z Hz; unfold u64; apply Z.mod_small; lia).
  assert (W' : forall z, 2 ^ 64 <= z < 2 ^ 65 -> u64 z = z - 2 ^ 64).
  { intros z Hz. unfold u64. symmetry.
    apply (Z.mod_unique z _ 1); lia. }
  assert (Lp : Datatypes.length (firstn (Z.to_nat length) (skipn (Z.to_nat index) data)) =
               Z.to_nat length)
    by (rewrite length_firstn, length_skipn; lia).
  assert (G : forall r, HashAlgorithm.fail (IO.source r) = false) by reflexivity.
  split; [|split; [|split; [|split]]].
  - unfold IO.writeBytes, IO.write. rewrite F, W by lia. cbn [negb andb].
    destruct (Z.leb_spec (length + index) (Z.of_nat (Datatypes.length data))); [|lia].
    reflexivity.
  - unfold IO.readBytes. rewrite G, W by lia. cbn [negb].
    destruct (Z.ltb_spec available (length + index')) as [X|_]; [lia|].
    rewrite andb_false_r.
    assert (E : (if Z.of_nat (Datatypes.length v) <? length + index'
                 then IO.resize v (Z.to_nat (length + index')) else v) =
                v ++ repeat x00 (Z.to_nat (length + index') - Datatypes.length v)).
    { destruct (Z.ltb_spec (Z.of_nat (Datatypes.length v)) (length + index')).
      - unfold IO.resize. now rewrite firstn_all2 by lia.
      - replace (Z.to_nat (length + index') - Datatypes.length v)%nat with 0%nat by lia.
        cbn [repeat]. now rewrite app_nil_r. }
    rewrite E.
    set (v0 := v ++ repeat x00 (Z.to_nat (length + index') - Datatypes.length v)).
    assert (L0 : (Z.to_nat index' + Z.to_nat length <= Datatypes.length v0)%nat).
    { subst v0. rewrite length_app, repeat_length. lia. }
    destruct (Z.leb_spec (length + index') (Z.of_nat (Datatypes.length v0))); [|lia].
    unfold IO.source.
    pose proof (read_exact (firstn (Z.to_nat length) (skipn (Z.to_nat index) data) ++ rest)
                  0 (Z.to_nat length)) as R.
    cbn [Nat.add skipn] in R. rewrite Z2Nat.id in R by lia.
    rewrite R by (rewrite length_app; lia). clear R.
    change (HashAlgorithm.fail (HashAlgorithm.mkStream _ _ None true false false false))
      with false. cbn [negb].
    rewrite (firstn_app_l _ rest (Z.to_nat length) Lp).
    rewrite write_bytes_split; now rewrite Lp.
  - intros longer P1 P2 P3. unfold IO.writeBytes. rewrite F, W by lia.
    cbn [negb andb].
    destruct (Z.leb_spec (longer + index) (Z.of_nat (Datatypes.length data))); [lia|].
    reflexivity.
  - intros longer far P1 P2 P3 P4. unfold IO.readBytes. rewrite G, W by lia.
    cbn [negb].
    destruct (Z.ltb_spec (Z.of_nat (Datatypes.length v)) (longer + far)); [|lia].
    destruct (Z.ltb_spec available (longer + far)); [|lia].
    reflexivity.
  - intros longer far P1 P2 P3. split; intros P4.
    + unfold IO.writeBytes. rewrite F, W' by lia. cbn [negb andb].
      destruct (Z.leb_spec (longer + far - 2 ^ 64) (Z.of_nat (Datatypes.length data)));
        [|lia].
      destruct (Z.leb_spec (longer + far) (Z.of_nat (Datatypes.length data))); [lia|].
      reflexivity.
    + unfold IO.readBytes. rewrite G, W' by lia. cbn [negb].
      destruct (Z.ltb_spec (Z.of_nat (Datatypes.length v)) (longer + far - 2 ^ 64));
        [lia|].
      cbn [andb].
      destruct (Z.leb_spec (longer + far) (Z.of_nat (Datatypes.length v))); [lia|].
      reflexivity.
Qed.

Lemma bytes_write_read_round_trip_witness :
  IO.writeBytes (IO.mkOut [] false) [x01; x02; x03; x04] 2 1 =
    Some (IO.mkOut [x02; x03] false, 2%nat) /\
  IO.readBytes 1024 (IO.source [x02; x03; xff]) [xaa] 2 3 =
    Some (HashAlgorithm.mkStream [x02; x03; xff] 2 None true false false false,
          [xaa; x00; x00; x02; x03], 2%nat) /\
  IO.writeBytes (IO.mkOut [] false) [x01; x02; x03; x04] 4 1 =
    Some (IO.mkOut [] false, 0%nat) /\
  IO.readBytes 1024 (IO.source [xff]) [xaa] 1 1024 = Some (IO.source [xff], [xaa], 0%nat) /\
  IO.writeBytes (IO.mkOut [] false) [x01; x02; x03; x04] (2 ^ 64 - 1) 2 =
    Some (IO.mkOut [] true, 0%nat) /\
  IO.writeBytes (IO.mkOut [] false) [x01; x02; x03; x04] 2 (2 ^ 64 - 1) = None /\
  IO.readBytes 1024 (IO.source [xff]) [xaa] (2 ^ 64 - 1) 2 =
    Some (HashAlgorithm.mkStream [xff] 0 None true true true false, [xaa], 0%nat) /\
  IO.readBytes 1024 (IO.source [xff]) [xaa] 2 (2 ^ 64 - 1) = None.
Proof.
  pose proof (bytes_write_read_round_trip (IO.mkOut [] false) [x01; x02; x03; x04]
                [xaa] [xff] 1024 2 1 3 eq_refl ltac:(lia) ltac:(lia) ltac:(lia)
                ltac:(cbn; lia) ltac:(cbv; discriminate) ltac:(lia)
                ltac:(split; cbv; discriminate))
    as (W & R & O & M & U).
  split; [exact W|]. split; [exact R|].
  split; [apply (O 4); cbn; lia|].
  split; [apply (M 1 1024); lia|].
  split; [|split; [|split]].
  - apply (U (2 ^ 64 - 1) 2); cbv; intuition discriminate.
  - apply (U 2 (2 ^ 64 - 1)); cbv; intuition discriminate.
  - apply (U (2 ^ 64 - 1) 2); cbv; intuition discriminate.
  - apply (U 2 (2 ^ 64 - 1)); cbv; intuition discriminate.
Defined.
